(* ===== verification/_CoqProject ===== *)
-Q . S2P
Prelude.v
CxxString.v
CxxMap.v
Json.v
Snapshot.v
KVStore.v
RaftRPC.v
Crc32.v
WriteAheadLog.v
RaftLog.v
RaftNode.v
RaftCluster.v
RaftReplication.v
RaftTyping.v
RaftSolo.v
RaftThreads.v
RaftLogMatching.v
RaftRun.v
RaftSpec.v
RaftRefinement.v
RaftStore.v
RaftCatchUp.v
RpcStream.v
RpcListener.v
Http.v
Router.v
Base64Url.v
Auth.v
Api.v
ApiCluster.v
Metrics.v
TcpServer.v
TcpLifecycle.v
Config.v
ThreadPool.v
Timer.v
Logger.v
Main.v
