(* ===== verification/Prelude.v ===== *)
(** * OrcDB: a distributed key-value store

    A Rocq model of OrcDB (C++20, src/) and the theorems on it.  All paths are
    relative to src/.

    ** The program

    A node keeps an in-memory map of versioned keys ([storage/KVStore]).  Writes
    come in over HTTP ([network/TcpServer], [network/HttpParser]), pass the
    authentication middleware ([auth/]) and the router ([api/Router]) to a
    handler ([api/KVHandler]), which proposes a log entry to the consensus node
    ([raft/RaftNode]) and waits.  The leader appends the entry to its log
    ([raft/RaftLog]), which journals it ([storage/WriteAheadLog]), and sends it
    to the other nodes ([raft/RaftPeer], [raft/RaftRPC], [raft/RaftRpcServer]);
    once a majority has it, every node's apply loop hands it to its store.  A
    restart reads the journal back.  [main.cpp] builds and connects the parts
    from the configuration ([util/Config]); [metrics/] counts what happens.

    ** Files

    Foundations:
    - [Prelude]: machine integers with their wrap-around ([u64], [i64], ...),
      results that may be exceptions ([Res]), the state and exception monad [M],
      [keeps] (every outcome of a computation is related to its start by a
      preorder), [typed] (a computation keeps an invariant and its result has a
      property), tactics and the hint database [orc].
    - [CxxString], [CxxMap]: what the program uses of [std::string], number
      printing and parsing, and [std::map] (related to stdpp's finite maps).
    - [Json]: JSON values and accessors; serialiser and parser are the class
      [JsonLib], their laws [JsonLaws], with the instance [RefJson].

    Storage:
    - [KVStore] models storage/KVStore: the record [KVStore], one definition per
      method, the abstract store it refines.
    - [Snapshot] models storage/Snapshot.
    - [Crc32] and [WriteAheadLog] model storage/WriteAheadLog, on two levels: the
      [journal], a list of records, and the directory of segment files, byte by
      byte, with what is durable and what a crash may lose.

    Consensus:
    - [RaftRPC] models raft/RaftRPC: messages, their text, frames.
    - [RaftLog] models raft/RaftLog, with the journal each operation writes.
    - [RaftNode] models raft/RaftNode: the record [RaftNode], and one definition
      per stretch of code that runs under the lock; a method that gives the lock
      up is the sequence of its sections ([StartElection_begin], [_turn],
      [_finish]; [ReplicateToPeer_prepare], [_response]; ...).
    - [RaftCluster] puts nodes and a network together: a step relation in which
      any section of any node can run, any message that was ever sent can be
      delivered, again and in any order, and a node can restart from its journal.
      As the code has one replication thread, a node has at most one AppendEntries
      call waiting ([calls]); it takes the answer to this call or gives it up.
      [Faults] says whether restarts happen, whether a response may be handled by
      a later leadership than the one that asked, and whether compare-and-swap,
      which writes to a node's store past the log, happens.
    - [RaftReplication]: theorems on the sections that move log entries.
    - [RaftLogMatching]: log matching for the cluster.  [RaftTyping]: the widths
      and encodings of everything in it.  [RaftSolo]: a cluster of one.
    - [RaftSpec] is abstract Raft, a transition system on terms, votes, logs and
      commit indices, with its safety proof; [RaftRefinement] maps the cluster of
      C++ nodes to it.  [RaftRun] computes runs of the cluster from schedules.
    - [RaftStore] relates the stores of the nodes to the log they apply,
      [RaftCatchUp] follows the calls of a leader until its followers have its log.
    - [RaftThreads] models [Start], [Stop] and the three loops of raft/RaftNode as
      threads with program counters, the mutex and the condition variables.
    - [RpcStream] models raft/RaftPeer and the connection handler of
      raft/RaftRpcServer as processors of byte streams, [RpcListener] the
      listening socket and the threads of raft/RaftRpcServer.

    Server:
    - [Http] models network/HttpParser and network/HttpResponse.
    - [Router] models api/Router, [Base64Url] and [Auth] model auth/, [Api] the
      handlers of api/ and what [main] does with them; [ApiCluster] follows a
      client's PUT and GET through the cluster.
    - [Metrics] models metrics/ on binary64 numbers and what [main] counts.
    - [TcpServer] models the event handling of network/TcpServer, [TcpLifecycle]
      its descriptors and threads.
    - [Config], [ThreadPool], [Timer], [Logger] model util/.
    - [Main] models [main]: the node, the RPC server and the HTTP server as one
      process, from the arguments to the exit.

    ** Theorems

    - State machine safety ([RaftSpec], [RaftRefinement]): no two nodes apply
      different entries at one index, a leader holds what any node has committed,
      and what is committed stays, because every run of the nodes is a run of
      abstract Raft.  This is for runs without restarts and snapshots in which a
      response is handled in the term of its request.
      [late_response_breaks_safety] is a run in which only the last of these
      fails and two nodes apply different entries; it takes a call that waits
      across two elections.  The examples below are the reason for the other two.
    - Replicas ([RaftStore], [ApiCluster]), in the same runs without
      compare-and-swap: stores that have taken as many entries hold the same, a
      write acknowledged in its term is read from every store that has taken it,
      and over HTTP a GET returns what the PUT wrote.  [lost_write_acknowledged],
      [stale_read] and [cas_diverges] are the limits: a proposal that waits across
      terms, a read from a node that is behind, and compare-and-swap, which does
      not go through the log.
    - Completion of replication ([RaftCatchUp]), from any state of the runs of the
      first item in which the leader waits for no answer: a linear number of calls
      gives the followers of a term the log of its leader, and with a majority the
      leader commits it, if its last entry is of its term.
    - Agreement ([RaftCluster], [RaftLogMatching]): two leaders of one term are
      the same node, a node votes once per term, terms grow and are journalled; in
      every reachable state of a cluster with message loss, duplication,
      reordering and restarts.  A restart there finds the whole journal.  That the journal may
      lose the last hard state in a crash, and that a second vote can follow, is
      [hard_state_lost] and [double_vote_after_lost_hard_state].  Logs that have
      an entry of one index and term in common agree up to it, in runs without
      restarts and snapshots; [restart_leaves_hole] and [SetSnapshot_shifts] show
      why both are excluded.
    - Types ([RaftTyping]): in all runs of the cluster every number of the
      consensus state, the journal and the store has the width of its type, every
      text is UTF-8, every message can be sent and arrives as it was sent, and a
      restart succeeds.
    - Durability ([WriteAheadLog], [Crc32]), on a device that may be full and with
      [open]s that may fail: recovery after a crash yields what the surviving
      segments hold, which lacks at most trailing hard states and the segments
      whose directory entries were not on the medium; the log never syncs its
      directory ([synced_entry_lost]).  A corrupted byte ends the reading of its
      segment; the table-driven checksum is the bitwise CRC-32.
    - Replication ([RaftLog], [RaftReplication]): the log operations implement
      Raft's receiver rule, every branch of [HandleAppendEntries], the commit
      rule, application in index order, the restart of a node, proposals, the
      progress of the leader's backtracking.
    - The store ([KVStore], [Snapshot]): refinement of a finite map, scans,
      watches, expiry, snapshots.
    - Streams ([RaftRPC], [RpcStream], [Http]): messages, frames and requests read
      back; the cutting of the stream into chunks does not matter to the frames;
      an RPC call runs the remote handler on its request and returns its answer.
    - The API ([Router], [Auth], [Api], [TcpServer], [Metrics]): matching of
      routes, soundness of token validation, no write without a token for it, a
      PUT from the socket to the log and back, delivery of responses.
    - Threads and shutdown ([RaftThreads], [RpcListener], [TcpLifecycle], [Main]),
      in every interleaving: an election does not start before the shortest
      timeout, and starts at the next turn of its thread when the longest is over;
      each [Stop] returns after a bounded number of actions (that of the HTTP
      server after three more for each client it still accepts), with the
      exception [Stop_misses_wait]; the descriptors of the HTTP server are
      accounted for, with each step of the accept loop by itself; when [main] has returned, the threads it
      joins are joined and the listening sockets closed.
    - Utilities ([Config], [ThreadPool], [Timer], [Logger]): overrides, draining of
      the pool, cancellation of the timer, in every interleaving; what is logged
      at a level.
    - Where the code does not do what it means to, a theorem or an [Example]
      shows what it does: [SetSnapshot_shifts], [duplicate_append_forgets],
      [replay_reappend], [torn_tail_hides_entry], [synced_entry_lost],
      [short_send_loses_next], [Decode_length_wrap],
      [cas_bypasses_log], [Feed_split_body], [incremental_feed_fails],
      [close_loses_response], [reconnect_terminates],
      [content_length_terminates], [next_thread_negative],
      [RS256_without_key], [Put_ttl_overflow], [callback_cancel_blocks],
      [late_response_breaks_safety], [solo_never_commits], [Stop_misses_wait],
      [lost_write_acknowledged], [stale_read], [cas_diverges],
      [accept_error_final], [Stop_leaves_handlers], [handlers_outlive_main],
      [reused_descriptor_lost], [Stop_leaves_clients], [failed_bind_leaks].

    ** Conventions, bounds and fuel

    Clocks are arguments, in nanoseconds where the code uses [system_clock] or
    [steady_clock]; durations of the configuration are in milliseconds and are
    converted where they are compared ([ms]).  An operation under a lock is one step; where a method gives
    the lock up, other sections may run in between.  Unsigned arithmetic wraps.
    Theorems about indices and terms assume they are below 2^64 where the code
    would wrap, and say so in their hypotheses ([log_wf], [is_u64]).

    In the models of threads an action is a stretch of code between two points at
    which another thread can interfere, and a run is a list of actions; the
    bounds on the length of a shutdown come from a rank that every action of the
    threads decreases ([rank], [rpc_rank], [tcp_rank]; accepting a client does
    not).

    Loops that are not structural carry fuel, always enough: the loop over a
    buffer of frames has the buffer's length, since a frame has at least nine
    bytes; the segments of a journal, the records of a segment and the peers of
    a list likewise their length in bytes; the apply loop the distance from
    [lastApplied_] to [commitIndex_], and [ApplyLoop_in_order] shows it ends with
    nothing left to apply; replication takes at most the 100 entries the code
    allows; number printing 20 digits (400 for the integral part of a double).

    ** Parameters

    Third-party code is a class, with an instance that shows its laws can hold:
    [JsonLib]/[JsonLaws] (nlohmann::json: a well-formed value dumps to UTF-8 text
    that parses back, and a value with invalid UTF-8 does not dump; [RefJson]);
    [Crypto] (OpenSSL's HMAC, key loading and RSA verification, with no laws;
    [RefCrypto]); [YamlLib] (yaml-cpp, with no laws; [EmptyYaml]); [HashOrder] (the
    iteration order of a hash table: some permutation; [RefHash]);
    [SpdLog]/[SpdLaws] (spdlog and fmt: a message is written if its level is at
    least the logger's; [RefSpd]).  What the
    other threads do while a handler waits is the record [Env] of [Api], an
    argument of the handlers.  What the system calls return ([recv], [send],
    [connect], [socket], [bind], [accept], [epoll_wait], ...) and the number the
    random generator draws are arguments of the definitions that call them.

    ** Not modelled

    - The log statements of the other components: [Logger] has no effect on their
      state.
    - Options of sockets ([SetTcpNoDelay], [SetNonBlocking], SO_REUSEADDR): the code
      does not look at their outcome.  Name resolution in [RaftPeer::Connect] is
      part of the outcome of the connection.
    - The release of OpenSSL keys in the destructor of [JwtValidator], and the
      constructors and class declarations that only store their arguments.
    - Failures of the journal at the level of the node: [RaftNode] and [RaftLog]
      work on a journal whose writes succeed, where the code's may throw when the
      disk is full; what such a write leaves behind is in [WriteAheadLog].  That
      [fdatasync] fails, a result the code ignores, is not modelled either.
    - Data races: an operation the code protects by a mutex is atomic, and atomics
      are read and written one at a time.
    - Time as such: a clock value is an argument, and a sleep may end at any
      moment, which includes whatever the scheduler makes of it.  A wait for an
      RPC may end with the answer or without; that it ends after [rpc_timeout_ms]
      is not modelled.  The timed wait of the election thread has its deadline. *)
From Stdlib Require Import ZArith Lia Ascii String Strings.Byte.
From stdpp Require Import prelude gmap strings.
#[local] Open Scope Z_scope.

(** ** Machine integers

    [uintN_t] values are [Z] in [0, 2^N); every operation that can leave the
    range is written with its wrap-around. *)

Definition u8 (z : Z) : Z := z mod 2 ^ 8.
Definition u16 (z : Z) : Z := z mod 2 ^ 16.
Definition u32 (z : Z) : Z := z mod 2 ^ 32.
Definition u64 (z : Z) : Z := z mod 2 ^ 64.

(** [int64_t]: two's complement. *)
Definition i64 (z : Z) : Z := (z + 2 ^ 63) mod 2 ^ 64 - 2 ^ 63.

Definition is_u32 (z : Z) : Prop := 0 <= z < 2 ^ 32.
Definition is_u64 (z : Z) : Prop := 0 <= z < 2 ^ 64.
Definition is_i64 (z : Z) : Prop := - 2 ^ 63 <= z < 2 ^ 63.

(** [size()] of a container. *)
Definition len {A} (l : list A) : Z := Z.of_nat (length l).

(** ** Exceptions and state

    A call either returns or throws; a throwing call keeps the side effects it
    had before the throw. *)

Inductive exn : Type :=
| runtime_error (what : string)
| out_of_range (what : string)
| invalid_argument (what : string)
| json_error
| terminate. (* std::terminate: the process ends, no handler sees it *)

Inductive Res (A : Type) : Type :=
| Ok (a : A)
| Throw (e : exn).
Arguments Ok {A} a.
Arguments Throw {A} e.

#[global] Instance Res_ret : MRet Res := fun A a => Ok a.
#[global] Instance Res_bind : MBind Res := fun A B f m =>
  match m with Ok a => f a | Throw e => Throw e end.

(** [of_opt e o]: the value of [o], or the exception [e]. *)
Definition of_opt {A} (e : exn) (o : option A) : Res A :=
  match o with Some a => Ok a | None => Throw e end.

Definition M (S A : Type) : Type := S -> S * Res A.

#[global] Instance M_ret {S} : MRet (M S) := fun A a s => (s, Ok a).
#[global] Instance M_bind {S} : MBind (M S) := fun A B f m s =>
  match m s with
  | (s', Ok a) => f a s'
  | (s', Throw e) => (s', Throw e)
  end.

Definition getS {S} : M S S := fun s => (s, Ok s).
Definition modify {S} (f : S -> S) : M S unit := fun s => (f s, Ok tt).
Definition throw {S A} (e : exn) : M S A := fun s => (s, Throw e).
Definition lift {S A} (r : Res A) : M S A := fun s => (s, r).

(** ** Bytes *)

Definition byte_of_Z (z : Z) : byte :=
  match Byte.of_N (Z.to_N (z mod 256)) with Some b => b | None => x00 end.
Definition Z_of_byte (b : byte) : Z := Z.of_N (Byte.to_N b).

(** [memcpy(dst, &x, 4)] of a [uint32_t] on a little-endian machine, and the
    read back. *)
Definition le32 (z : Z) : list byte :=
  [byte_of_Z z; byte_of_Z (z / 2 ^ 8); byte_of_Z (z / 2 ^ 16); byte_of_Z (z / 2 ^ 24)].

Definition le32_dec (bs : list byte) : Z :=
  match bs with
  | b0 :: b1 :: b2 :: b3 :: _ =>
      Z_of_byte b0 + 2 ^ 8 * Z_of_byte b1 + 2 ^ 16 * Z_of_byte b2 + 2 ^ 24 * Z_of_byte b3
  | _ => 0
  end.

(** ** Automation *)

Create HintDb orc.
Create Rewrite HintDb orc.

(** Case analysis on the boolean test under an [if], turned into a proposition. *)
Ltac bool_prop :=
  repeat match goal with
  | H : (_ <? _) = true |- _ => apply Z.ltb_lt in H
  | H : (_ <? _) = false |- _ => apply Z.ltb_ge in H
  | H : (_ <=? _) = true |- _ => apply Z.leb_le in H
  | H : (_ <=? _) = false |- _ => apply Z.leb_gt in H
  | H : (_ =? _) = true |- _ => apply Z.eqb_eq in H
  | H : (_ =? _) = false |- _ => apply Z.eqb_neq in H
  | H : (_ >? _) = true |- _ => apply Z.gtb_lt in H
  | H : (_ >? _) = false |- _ => rewrite Z.gtb_ltb in H; apply Z.ltb_ge in H
  | H : (_ >=? _) = true |- _ => apply Z.geb_le in H
  | H : (_ >=? _) = false |- _ => rewrite Z.geb_leb in H; apply Z.leb_gt in H
  | H : negb _ = true |- _ => apply negb_true_iff in H
  | H : negb _ = false |- _ => apply negb_false_iff in H
  | H : String.eqb _ _ = true |- _ => apply String.eqb_eq in H
  | H : String.eqb _ _ = false |- _ => apply String.eqb_neq in H
  | H : (_ && _)%bool = true |- _ => apply andb_true_iff in H; destruct H
  | H : (_ || _)%bool = false |- _ => apply orb_false_iff in H; destruct H
  end.

(** One [if]/[match] of the goal at a time, with its equation. *)
Ltac case_if :=
  match goal with
  | |- context [if ?b then _ else _] => let E := fresh "E" in destruct b eqn:E; bool_prop
  | |- context [match ?x with _ => _ end] => let E := fresh "E" in destruct x eqn:E; bool_prop
  end.

Ltac case_if_in H :=
  match type of H with
  | context [if ?b then _ else _] => let E := fresh "E" in destruct b eqn:E; bool_prop
  | context [match ?x with _ => _ end] => let E := fresh "E" in destruct x eqn:E; bool_prop
  end.

(** ** Lemmas on integers and bytes *)

Lemma u64_small z : is_u64 z -> u64 z = z.
Proof. intros H. apply Z.mod_small, H. Qed.

Lemma u64_range z : is_u64 (u64 z).
Proof. apply Z.mod_pos_bound. done. Qed.

Lemma u32_small z : is_u32 z -> u32 z = z.
Proof. intros H. apply Z.mod_small, H. Qed.

Lemma i64_small z : is_i64 z -> i64 z = z.
Proof. intros [H1 H2]. unfold i64. rewrite Z.mod_small; lia. Qed.

Lemma i64_range z : is_i64 (i64 z).
Proof. unfold i64, is_i64. pose proof (Z.mod_pos_bound (z + 2^63) (2^64)). lia. Qed.

Lemma u64_sub_wrap a b : is_u64 a -> is_u64 b -> a < b -> u64 (a - b) = a - b + 2 ^ 64.
Proof.
  intros [??] [??] ?. unfold u64.
  replace (a - b) with ((a - b + 2^64) + (-1) * 2^64) by lia.
  rewrite Z.mod_add by done. rewrite Z.mod_small; lia.
Qed.

#[export] Hint Resolve u64_range i64_range : orc.

Lemma Z_of_byte_range b : 0 <= Z_of_byte b < 256.
Proof. unfold Z_of_byte. pose proof (Byte.to_N_bounded b). lia. Qed.

Lemma Z_of_byte_of_Z z : Z_of_byte (byte_of_Z z) = z mod 256.
Proof.
  unfold Z_of_byte, byte_of_Z.
  pose proof (Z.mod_pos_bound z 256 ltac:(done)).
  destruct (Byte.of_N (Z.to_N (z mod 256))) as [b|] eqn:E.
  - apply Byte.to_of_N in E. rewrite E. lia.
  - apply Byte.of_N_None_iff in E. lia.
Qed.

Lemma byte_of_Z_of_byte b : byte_of_Z (Z_of_byte b) = b.
Proof.
  unfold byte_of_Z. rewrite Z.mod_small by apply Z_of_byte_range.
  unfold Z_of_byte. rewrite N2Z.id, Byte.of_to_N. done.
Qed.

Lemma Z_of_byte_inj a b : Z_of_byte a = Z_of_byte b -> a = b.
Proof. intros H. rewrite <- (byte_of_Z_of_byte a), H. apply byte_of_Z_of_byte. Qed.

Lemma length_le32 z : length (le32 z) = 4%nat.
Proof. done. Qed.

(** The four bytes written for a [uint32_t] read back as that value. *)
Lemma le32_dec_le32 z rest : is_u32 z -> le32_dec (le32 z ++ rest) = z.
Proof.
  intros [H0 H1]. simpl. rewrite !Z_of_byte_of_Z.
  change (2 ^ 8) with 256. change (2 ^ 16) with (256 * 256). change (2 ^ 24) with (256 * 256 * 256).
  rewrite <- !Z.div_div by done.
  pose proof (Z.div_mod z 256). pose proof (Z.div_mod (z / 256) 256).
  pose proof (Z.div_mod (z / 256 / 256) 256).
  assert (z / 256 / 256 / 256 < 256).
  { apply Z.div_lt_upper_bound; [done|]. apply Z.div_lt_upper_bound; [done|].
    apply Z.div_lt_upper_bound; [done|]. lia. }
  assert (0 <= z / 256 / 256 / 256) by (repeat apply Z.div_pos; lia).
  rewrite (Z.mod_small (z / 256 / 256 / 256)) by lia. lia.
Qed.

Lemma le32_dec_range bs : is_u32 (le32_dec bs).
Proof.
  unfold is_u32. destruct bs as [|b0 [|b1 [|b2 [|b3 rest]]]]; try done. simpl.
  pose proof (Z_of_byte_range b0). pose proof (Z_of_byte_range b1).
  pose proof (Z_of_byte_range b2). pose proof (Z_of_byte_range b3). lia.
Qed.

(** ** The monad *)

Lemma bind_lift_Ok {S A B} (a : A) (f : A -> M S B) s : (lift (Ok a) ≫= f) s = f a s.
Proof. done. Qed.

Lemma bind_modify {S B} (g : S -> S) (f : unit -> M S B) s : (modify g ≫= f) s = f tt (g s).
Proof. done. Qed.

Lemma bind_ret {S A B} (a : A) (f : A -> M S B) s : (mret a ≫= f) s = f a s.
Proof. done. Qed.

Lemma bind_getS {S B} (f : S -> M S B) s : (getS ≫= f) s = f s s.
Proof. done. Qed.

#[export] Hint Rewrite @bind_lift_Ok @bind_modify @bind_ret @bind_getS : orc.

(** A computation that is known to return, or to throw, in front of a bind. *)
Lemma bind_run {S A B} (m : M S A) (f : A -> M S B) s s' a : m s = (s', Ok a) -> (m ≫= f) s = f a s'.
Proof. intros E. unfold mbind, M_bind. by rewrite E. Qed.

Lemma bind_run_throw {S A B} (m : M S A) (f : A -> M S B) s s' e :
  m s = (s', Throw e) -> (m ≫= f) s = (s', Throw e).
Proof. intros E. unfold mbind, M_bind. by rewrite E. Qed.

(** [keeps R m]: running [m], with whatever outcome, relates the state before
    and after by [R].  The frame conditions of the operations are of this form. *)
Definition keeps {S A} (R : S -> S -> Prop) (m : M S A) : Prop := forall s, R s (m s).1.

Section Keeps.
Context {S : Type} (R : S -> S -> Prop) `{!PreOrder R}.

Lemma keeps_ret {A} (a : A) : keeps R (mret a).
Proof. intros s. reflexivity. Qed.

Lemma keeps_lift {A} (r : Res A) : keeps R (lift r).
Proof. intros s. reflexivity. Qed.

Lemma keeps_bind {A B} (m : M S A) (f : A -> M S B) : keeps R m -> (forall a, keeps R (f a)) -> keeps R (m ≫= f).
Proof.
  intros Hm Hf s. specialize (Hm s). unfold mbind, M_bind. destruct (m s) as [s' [a|e]]; simpl in *; [|done].
  transitivity s'; [done | apply Hf].
Qed.

Lemma keeps_getS {B} (f : S -> M S B) : (forall a, keeps R (f a)) -> keeps R (getS ≫= f).
Proof. intros Hf s. apply Hf. Qed.

Lemma keeps_modify (g : S -> S) : (forall s, R s (g s)) -> keeps R (modify g).
Proof. intros Hg s. apply Hg. Qed.

Lemma keeps_if {A} (b : bool) (m m' : M S A) : keeps R m -> keeps R m' -> keeps R (if b then m else m').
Proof. by destruct b. Qed.
End Keeps.

(** Applies the rules above; leaves the updates and the calls. *)
Ltac keeps_tac :=
  repeat match goal with
  | |- keeps _ (getS ≫= _) => refine (keeps_getS _ _ _); intros ?
  | |- keeps _ (_ ≫= _) => refine (keeps_bind _ _ _ _ _); [|intros ?]
  | |- keeps _ (mret _) => refine (keeps_ret _ _)
  | |- keeps _ (lift _) => refine (keeps_lift _ _)
  | |- keeps _ (if _ then _ else _) => apply keeps_if
  | |- keeps _ (modify _) => apply keeps_modify; intros ?
  end.

(** [returns P m]: every value [m] returns satisfies [P]. *)
Definition returns {S A} (P : A -> Prop) (m : M S A) : Prop := forall s s' a, m s = (s', Ok a) -> P a.

Lemma returns_ret {S A} (P : A -> Prop) (a : A) : P a -> returns (S := S) P (mret a).
Proof. intros Ha s s' b [= _ <-]. done. Qed.

Lemma returns_bind {S A B} (P : B -> Prop) (m : M S A) (f : A -> M S B) :
  (forall a, returns P (f a)) -> returns P (m ≫= f).
Proof.
  intros Hf s s' b. unfold mbind, M_bind. destruct (m s) as [s1 [a|e]]; [apply Hf|done].
Qed.

(** [typed P m Q]: from a state of [P], [m] ends in one, with whatever outcome,
    and a value it returns satisfies [Q]. *)
Definition typed {S A} (P : S -> Prop) (m : M S A) (Q : A -> Prop) : Prop :=
  forall s, P s -> P (m s).1 /\ forall a, (m s).2 = Ok a -> Q a.

Section Typed.
Context {S : Type} (P : S -> Prop).

Lemma typed_ret {A} (Q : A -> Prop) a : Q a -> typed P (mret a) Q.
Proof. intros Ha s Hs. split; [done|]. by intros ? [= <-]. Qed.

Lemma typed_lift {A} (Q : A -> Prop) r : (forall a, r = Ok a -> Q a) -> typed P (lift r) Q.
Proof. intros Hr s Hs. split; [done|]. exact Hr. Qed.

Lemma typed_getS : typed P getS P.
Proof. intros s Hs. split; [done|]. by intros ? [= <-]. Qed.

Lemma typed_modify (Q : unit -> Prop) g : (forall s, P s -> P (g s)) -> Q tt -> typed P (modify g) Q.
Proof. intros Hg Hq s Hs. split; [by apply Hg|]. by intros [] _. Qed.

Lemma typed_bind {A B} (Q : A -> Prop) (Q' : B -> Prop) (m : M S A) (f : A -> M S B) :
  typed P m Q -> (forall a, Q a -> typed P (f a) Q') -> typed P (m ≫= f) Q'.
Proof.
  intros Hm Hf s Hs. destruct (Hm s Hs) as [Hs' Hq]. unfold mbind, M_bind. destruct (m s) as [s' [a|e]]; simpl in *; [|done].
  apply Hf; auto.
Qed.

Lemma typed_weaken {A} (Q Q' : A -> Prop) m : typed P m Q -> (forall a, Q a -> Q' a) -> typed P m Q'.
Proof. intros Hm Hq s Hs. destruct (Hm s Hs) as [? Hr]. split; [done|]. intros a Ha. by apply Hq, Hr. Qed.
End Typed.

(** Applies the rules above; leaves the updates, the results and the calls. *)
Ltac typed_tac :=
  repeat match goal with
  | |- typed _ (getS ≫= _) _ => refine (typed_bind _ _ _ _ _ (typed_getS _) _); intros ? ?
  | |- typed _ (modify _ ≫= _) _ => refine (typed_bind _ (fun _ => True) _ _ _ (typed_modify _ _ _ _ I) _); [|intros _ _]
  | |- typed _ (mret _) _ => apply typed_ret
  | |- typed _ (lift _) _ => apply typed_lift
  | |- typed _ (modify _) _ => apply typed_modify; [|done]
  | |- typed _ (if ?b then _ else _) _ => destruct b eqn:?
  end.

(** ** Lemmas on lists *)

Lemma len_nonneg {A} (l : list A) : 0 <= len l.
Proof. unfold len. lia. Qed.

Lemma len_app {A} (l k : list A) : len (l ++ k) = len l + len k.
Proof. unfold len. rewrite length_app. lia. Qed.

Lemma len_cons {A} (x : A) l : len (x :: l) = len l + 1.
Proof. unfold len. simpl. lia. Qed.

#[export] Hint Resolve len_nonneg : orc.
#[export] Hint Rewrite @len_app @len_cons : orc.

Lemma fold_left_invariant {A B} (P : A -> Prop) (f : A -> B -> A) l a :
  (forall a b, b ∈ l -> P a -> P (f a b)) -> P a -> P (fold_left f l a).
Proof.
  revert a. induction l as [|b l IH]; intros a Hf Ha; simpl; [done|].
  apply IH; [|apply Hf; [left|done]]. intros a' b' Hin. apply Hf. by right.
Qed.

Lemma filter_none {A} (P : A -> Prop) `{forall x, Decision (P x)} (l : list A) :
  (forall x, x ∈ l -> ~ P x) -> filter P l = [].
Proof.
  induction l as [|a l IH]; intros Hl; [done|]. rewrite filter_cons, decide_False by (apply Hl; left).
  apply IH. intros x Hx. apply Hl. by right.
Qed.

Lemma filter_all {A} (P : A -> Prop) `{forall x, Decision (P x)} (l : list A) :
  (forall x, x ∈ l -> P x) -> filter P l = l.
Proof.
  induction l as [|a l IH]; intros Hl; [done|]. rewrite filter_cons, decide_True by (apply Hl; left).
  f_equal. apply IH. intros x Hx. apply Hl. by right.
Qed.

(** One element for each element of a list. *)
Lemma list_choice {A B} (P : nat -> A -> B -> Prop) (l : list A) : (forall i x, l !! i = Some x -> exists y, P i x y) ->
  exists k, length k = length l /\ forall i x y, l !! i = Some x -> k !! i = Some y -> P i x y.
Proof.
  revert P. induction l as [|x l IH]; intros P H; [by exists []|]. destruct (H 0%nat x eq_refl) as [y Hy].
  destruct (IH (fun i => P (S i))) as (k & El & Hk); [intros i z Hz; by apply (H (S i))|].
  exists (y :: k). split; [by rewrite !length_cons, El|]. intros [|i] z u Hz Hu; simpl in *; [by simplify_eq|by apply Hk].
Qed.

Lemma mjoin_cons {A} (l : list A) (ls : list (list A)) : mjoin (l :: ls) = l ++ mjoin ls.
Proof. done. Qed.

Lemma mjoin_snoc {A} (ls : list (list A)) (l : list A) : mjoin (ls ++ [l]) = mjoin ls ++ l.
Proof. rewrite join_app, mjoin_cons. by rewrite app_nil_r. Qed.
