(* ===== verification/CxxString.v ===== *)
(** * The parts of [std::string] the program uses

    Byte-wise comparison ([std::less<std::string>] of an ordered map), prefix
    tests written [s.substr(0, p.size()) == p], [find], decimal output
    ([std::to_string], [%016llu]) and [std::stoull]. *)
From S2P Require Import Prelude.
From Stdlib Require Import ZArith Lia Ascii String Strings.Byte.
From stdpp Require Import prelude gmap strings.
#[local] Open Scope Z_scope.

(** [char_traits<char>::compare]: characters compare as [unsigned char]. *)
Definition chr (a : ascii) : Z := Z.of_N (N_of_ascii a).

Fixpoint str_ltb (a b : string) : bool :=
  match a, b with
  | EmptyString, EmptyString => false
  | EmptyString, String _ _ => true
  | String _ _, EmptyString => false
  | String x a', String y b' =>
      if chr x <? chr y then true
      else if chr y <? chr x then false
      else str_ltb a' b'
  end.

Definition str_size (s : string) : Z := Z.of_nat (String.length s).

(** [s.substr(0, p.size()) == p] *)
Definition starts_with (p s : string) : bool :=
  String.eqb (String.substring 0 (String.length p) s) p.

(** [s.substr(n)] for [n <= s.size()]. *)
Fixpoint str_drop (n : nat) (s : string) : string :=
  match n, s with
  | O, _ => s
  | S n', String _ r => str_drop n' r
  | S _, EmptyString => EmptyString
  end.

Fixpoint str_take (n : nat) (s : string) : string :=
  match n, s with
  | S n', String a r => String a (str_take n' r)
  | _, _ => EmptyString
  end.

(** [s.find(c)] *)
Fixpoint find_char (c : ascii) (s : string) : option nat :=
  match s with
  | EmptyString => None
  | String a r => if Ascii.eqb a c then Some O else S <$> find_char c r
  end.

(** Decimal digits. *)
Definition digit_char (d : Z) : ascii := ascii_of_N (Z.to_N (48 + d)).
Definition isdigit (a : ascii) : bool := (48 <=? chr a) && (chr a <=? 57).
Definition isspace (a : ascii) : bool := ((9 <=? chr a) && (chr a <=? 13)) || (chr a =? 32).

(** [k] digits of [n], most significant first. *)
Fixpoint dec_pad (k : nat) (n : Z) : string :=
  match k with
  | O => EmptyString
  | S k' => (dec_pad k' (n / 10) +:+ String (digit_char (n mod 10)) EmptyString)%string
  end.

(** Number of decimal digits; 20 are enough for a [uint64_t]. *)
Fixpoint ndigits (fuel : nat) (n : Z) : nat :=
  match fuel with
  | O => 1%nat
  | S f => if n <? 10 then 1%nat else S (ndigits f (n / 10))
  end.

(** [std::to_string(n)] for [n >= 0]. *)
Definition to_string (n : Z) : string := dec_pad (ndigits 20 n) n.

(** [printf("%016llu", n)] *)
Definition fmt_016llu (n : Z) : string := dec_pad (Nat.max 16 (ndigits 20 n)) n.

Fixpoint digits_val (s : string) (acc : Z) : Z :=
  match s with
  | String a r => if isdigit a then digits_val r (acc * 10 + (chr a - 48)) else acc
  | EmptyString => acc
  end.

Fixpoint skip_space (s : string) : string :=
  match s with
  | String a r => if isspace a then skip_space r else s
  | EmptyString => EmptyString
  end.

(** [std::stoull(s)]: leading white space, an optional sign, then digits; the
    rest of the string is ignored. *)
Definition stoull (s : string) : Res Z :=
  let s1 := skip_space s in
  let '(neg, s2) := match s1 with
    | String "-" r => (true, r)
    | String "+" r => (false, r)
    | _ => (false, s1) end in
  match s2 with
  | String a _ =>
      if isdigit a then
        let v := digits_val s2 0 in
        if 2 ^ 64 <=? v then Throw (out_of_range "stoull")
        else Ok (if neg then u64 (- v) else v)
      else Throw (invalid_argument "stoull")
  | EmptyString => Throw (invalid_argument "stoull")
  end.

(** [std::stoi(s)] and [std::stoll(s)]: a signed integer of [bits] bits. *)
Definition sto_signed (name : string) (bits : Z) (s : string) : Res Z :=
  let s1 := skip_space s in
  let '(neg, s2) := match s1 with
    | String "-" r => (true, r)
    | String "+" r => (false, r)
    | _ => (false, s1) end in
  match s2 with
  | String a _ =>
      if isdigit a then
        let v := if neg : bool then - digits_val s2 0 else digits_val s2 0 in
        if (v <? - 2 ^ (bits - 1)) || (2 ^ (bits - 1) <=? v) then Throw (out_of_range name) else Ok v
      else Throw (invalid_argument name)
  | EmptyString => Throw (invalid_argument name)
  end.

Definition stoi : string -> Res Z := sto_signed "stoi" 32.
Definition stoll : string -> Res Z := sto_signed "stoll" 64.

(** [s.find(p) != npos] *)
Fixpoint str_contains (p s : string) : bool :=
  starts_with p s || match s with String _ r => str_contains p r | EmptyString => false end.

(** ** The byte order on strings is a strict total order *)

Lemma chr_inj a b : chr a = chr b -> a = b.
Proof.
  unfold chr. intros H%N2Z.inj.
  rewrite <- (ascii_N_embedding a), H. apply ascii_N_embedding.
Qed.

Lemma str_ltb_irrefl a : str_ltb a a = false.
Proof. induction a as [|x a IH]; simpl; [done|]. by rewrite Z.ltb_irrefl. Qed.

Lemma str_ltb_trans a b c : str_ltb a b = true -> str_ltb b c = true -> str_ltb a c = true.
Proof.
  revert b c. induction a as [|x a IH]; intros [|y b] [|z c]; simpl; try done.
  intros H1 H2. repeat case_if_in H1; repeat case_if_in H2; try done;
    repeat (case_if; try done); try lia; eauto.
Qed.

Lemma str_ltb_total a b : str_ltb a b = false -> str_ltb b a = false -> a = b.
Proof.
  revert b. induction a as [|x a IH]; intros [|y b]; simpl; try done.
  intros H1 H2. repeat case_if_in H1; try done. repeat case_if_in H2; try done.
  f_equal; [apply chr_inj; lia | by apply IH].
Qed.

Lemma str_ltb_asym a b : str_ltb a b = true -> str_ltb b a = false.
Proof.
  intros H. destruct (str_ltb b a) eqn:E; [|done].
  pose proof (str_ltb_trans _ _ _ H E) as F. by rewrite str_ltb_irrefl in F.
Qed.

Lemma str_ltb_ne a b : str_ltb a b = true -> a <> b.
Proof. intros H ->. by rewrite str_ltb_irrefl in H. Qed.

(** ** Prefixes *)

Lemma append_cons a (p r : string) : (String a p +:+ r)%string = String a (p +:+ r).
Proof. done. Qed.

Lemma append_nil (r : string) : ("" +:+ r)%string = r.
Proof. done. Qed.

Lemma starts_with_spec p s : starts_with p s = true <-> exists r, s = (p +:+ r)%string.
Proof.
  unfold starts_with. rewrite String.eqb_eq, <- String.prefix_correct.
  revert s. induction p as [|a p IH]; intros s.
  - simpl. setoid_rewrite append_nil. split; [intros _; by exists s | by destruct s].
  - setoid_rewrite append_cons. destruct s as [|b s]; simpl.
    + split; [done | intros [r Hr]; done].
    + destruct (ascii_dec a b) as [->|n].
      * rewrite IH. split; intros [r Hr]; exists r; [by rewrite Hr | by inv Hr].
      * split; [done|]. intros [r Hr]. by inv Hr.
Qed.

Lemma starts_with_refl s : starts_with s s = true.
Proof.
  apply starts_with_spec. exists ""%string.
  induction s as [|a s IH]; [done|]. by rewrite append_cons, <- IH.
Qed.

(** A string with prefix [p] is not below [p], and a string above one that has
    the prefix and not below it either lies inside the block of [p]. *)
Lemma starts_with_not_lt p s : starts_with p s = true -> str_ltb s p = false.
Proof.
  intros [r ->]%starts_with_spec. induction p as [|a p IH].
  - by destruct r.
  - rewrite append_cons. simpl. by rewrite Z.ltb_irrefl.
Qed.

Lemma prefix_block_convex p a b c :
  starts_with p a = true -> starts_with p c = true ->
  str_ltb b a = false -> str_ltb c b = false -> starts_with p b = true.
Proof.
  intros [r ->]%starts_with_spec [t ->]%starts_with_spec. revert b.
  induction p as [|x p IH]; intros b H1 H2.
  - apply starts_with_spec. by exists b.
  - rewrite append_cons in H1, H2.
    destruct b as [|y b]; [done|]. simpl in H1, H2.
    assert (x = y) as ->.
    { repeat case_if_in H1; try done. repeat case_if_in H2; try done. apply chr_inj; lia. }
    rewrite Z.ltb_irrefl in H1, H2.
    pose proof (IH b H1 H2) as [q Hq]%starts_with_spec.
    apply starts_with_spec. exists q. by rewrite Hq.
Qed.

(** ** Decimal output read back by [stoull] *)

Lemma chr_digit d : 0 <= d < 10 -> chr (digit_char d) = 48 + d.
Proof. intros H. unfold chr, digit_char. rewrite N_ascii_embedding; lia. Qed.

Lemma isdigit_digit d : 0 <= d < 10 -> isdigit (digit_char d) = true.
Proof. intros H. unfold isdigit. rewrite chr_digit by done. apply andb_true_iff. lia. Qed.

Lemma str_append_assoc (a b c : string) : ((a +:+ b) +:+ c = a +:+ (b +:+ c))%string.
Proof. induction a as [|x a IH]; [done|]. by rewrite !append_cons, IH. Qed.

Lemma str_append_nil_r (a : string) : (a +:+ "" = a)%string.
Proof. induction a as [|x a IH]; [done|]. by rewrite append_cons, IH. Qed.

Lemma str_length_append (a b : string) :
  String.length (a +:+ b)%string = (String.length a + String.length b)%nat.
Proof. induction a as [|x a IH]; [done|]. rewrite append_cons. simpl. by rewrite IH. Qed.

Lemma div10_bound n k : 0 <= n < 10 ^ Z.of_nat (S k) -> 0 <= n / 10 < 10 ^ Z.of_nat k.
Proof.
  rewrite Nat2Z.inj_succ, Z.pow_succ_r by lia. intros Hn.
  split; [apply Z.div_pos; lia | apply Z.div_lt_upper_bound; lia].
Qed.

Lemma digits_val_dec_pad k n acc rest :
  0 <= n < 10 ^ Z.of_nat k ->
  digits_val (dec_pad k n +:+ rest)%string acc = digits_val rest (acc * 10 ^ Z.of_nat k + n).
Proof.
  revert n acc rest. induction k as [|k IH]; intros n acc rest Hn.
  - change (10 ^ Z.of_nat 0) with 1 in *. replace (acc * 1 + n) with acc by lia. done.
  - cbn [dec_pad]. rewrite str_append_assoc, IH by (by apply div10_bound).
    rewrite Nat2Z.inj_succ, Z.pow_succ_r by lia.
    rewrite append_cons, append_nil. simpl.
    pose proof (Z.mod_pos_bound n 10 ltac:(lia)).
    rewrite isdigit_digit, chr_digit by lia. f_equal.
    pose proof (Z.div_mod n 10 ltac:(lia)). lia.
Qed.

Lemma dec_pad_head k n : 0 <= n < 10 ^ Z.of_nat (S k) ->
  exists d r, dec_pad (S k) n = String d r /\ isdigit d = true.
Proof.
  revert n. induction k as [|k IH]; intros n Hn.
  - change (10 ^ Z.of_nat 1) with 10 in Hn. simpl. eexists _, _. split; [done|].
    apply isdigit_digit, Z.mod_pos_bound. lia.
  - destruct (IH (n / 10)) as (d & r & E & Hd); [by apply div10_bound|].
    change (dec_pad (S (S k)) n)
      with ((dec_pad (S k) (n / 10) +:+ String (digit_char (n mod 10)) EmptyString)%string).
    rewrite E. eexists d, _. by split.
Qed.

Lemma digit_not_sign_space d : isdigit d = true ->
  isspace d = false /\ d <> "-"%char /\ d <> "+"%char.
Proof.
  unfold isdigit, isspace. intros [H1 H2]%andb_true_iff. bool_prop.
  repeat split.
  - apply orb_false_iff. split; [apply andb_false_iff; right; lia | lia].
  - intros ->. by vm_compute in H1.
  - intros ->. by vm_compute in H1.
Qed.

(** What the conversions see of a decimal number. *)
Lemma dec_pad_scan k n : (0 < k)%nat -> 0 <= n < 10 ^ Z.of_nat k ->
  exists d r, dec_pad k n = String d r /\ skip_space (String d r) = String d r /\ isdigit d = true /\
    digits_val (String d r) 0 = n /\
    (match String d r with String "-" r => (true, r) | String "+" r => (false, r) | _ => (false, String d r) end) = (false, String d r).
Proof.
  intros Hk Hn. destruct k as [|k]; [lia|]. destruct (dec_pad_head k n Hn) as (d & r & E & Hd).
  destruct (digit_not_sign_space d Hd) as (Hs & Hm & Hp). exists d, r. split_and!; [done| |done| |].
  - cbn [skip_space]. by rewrite Hs.
  - rewrite <- E, <- (str_append_nil_r (dec_pad (S k) n)), digits_val_dec_pad by done. simpl. lia.
  - destruct d as [[] [] [] [] [] [] [] []]; congruence.
Qed.

Lemma stoull_dec_pad k n : (0 < k)%nat -> is_u64 n -> n < 10 ^ Z.of_nat k ->
  stoull (dec_pad k n) = Ok n.
Proof.
  intros Hk [H0 H64] Hn. destruct (dec_pad_scan k n Hk ltac:(lia)) as (d & r & -> & Hs & Hd & Hv & Hsign).
  unfold stoull. rewrite Hs, Hsign, Hd, Hv. case_if; [lia|done].
Qed.

Lemma sto_signed_dec_pad name bits k n : (0 < k)%nat -> 0 <= n < 2 ^ (bits - 1) -> n < 10 ^ Z.of_nat k ->
  sto_signed name bits (dec_pad k n) = Ok n.
Proof.
  intros Hk Hb Hn. destruct (dec_pad_scan k n Hk ltac:(lia)) as (d & r & -> & Hs & Hd & Hv & Hsign).
  unfold sto_signed. rewrite Hs, Hsign, Hd, Hv. destruct (n <? _) eqn:E1, (_ <=? n) eqn:E2; bool_prop; try lia. done.
Qed.

Lemma ndigits_bound f n : 0 <= n < 10 ^ Z.of_nat (S f) -> n < 10 ^ Z.of_nat (ndigits f n).
Proof.
  revert n. induction f as [|f IH]; intros n Hn; [apply Hn|]. simpl. case_if; [lia|].
  pose proof (IH _ (div10_bound _ _ Hn)) as H.
  rewrite Nat2Z.inj_succ, Z.pow_succ_r by lia.
  pose proof (Z.div_mod n 10 ltac:(lia)). pose proof (Z.mod_pos_bound n 10 ltac:(lia)). lia.
Qed.

Lemma ndigits_pos f n : (0 < ndigits f n)%nat.
Proof. destruct f; simpl; [lia|]. case_if; lia. Qed.

(** What [%016llu] prints, [stoull] reads back, for every [uint64_t]. *)
Lemma stoull_fmt_016llu n : is_u64 n -> stoull (fmt_016llu n) = Ok n.
Proof.
  intros Hn. unfold fmt_016llu. apply stoull_dec_pad; [lia | done |].
  assert (n < 10 ^ Z.of_nat (ndigits 20 n)).
  { apply ndigits_bound. destruct Hn. change (10 ^ Z.of_nat 21) with 1000000000000000000000. lia. }
  eapply Z.lt_le_trans; [done|]. apply Z.pow_le_mono_r; lia.
Qed.

Lemma stoull_to_string n : is_u64 n -> stoull (to_string n) = Ok n.
Proof.
  intros Hn. unfold to_string. apply stoull_dec_pad; [apply ndigits_pos | done |].
  apply ndigits_bound. destruct Hn. change (10 ^ Z.of_nat 21) with 1000000000000000000000. lia.
Qed.

(** ** Bytes of a string *)

Lemma length_list_byte s : length (list_byte_of_string s) = String.length s.
Proof.
  unfold list_byte_of_string. rewrite length_map. induction s as [|a s IH]; [done|]. simpl. by rewrite IH.
Qed.

Lemma len_list_byte s : len (list_byte_of_string s) = str_size s.
Proof. unfold len, str_size. by rewrite length_list_byte. Qed.
