(* ===== verification/CxxMap.v ===== *)
(** * [std::map<std::string, V>]

    An ordered map is the list of its nodes in iteration order, strictly
    increasing in the key.  The operations used by the program ([find],
    [operator[]=], [erase], [lower_bound] and in-order iteration) are related
    to the finite map of stdpp by [to_gmap]. *)
From S2P Require Import Prelude CxxString.
From Stdlib Require Import ZArith Lia Ascii String.
From stdpp Require Import prelude gmap strings sorting.
#[local] Open Scope Z_scope.

Section CxxMap.
Context {V : Type}.
Implicit Types (m : list (string * V)) (k : string) (v : V).

Fixpoint map_find k m : option V :=
  match m with
  | [] => None
  | (k', v) :: m' => if String.eqb k k' then Some v else map_find k m'
  end.

(** [m[k] = v] *)
Fixpoint map_put k v m : list (string * V) :=
  match m with
  | [] => [(k, v)]
  | (k', v') :: m' =>
      if str_ltb k k' then (k, v) :: m
      else if str_ltb k' k then (k', v') :: map_put k v m'
      else (k, v) :: m'
  end.

(** [m.erase(k)] *)
Fixpoint map_erase k m : list (string * V) :=
  match m with
  | [] => []
  | (k', v') :: m' => if String.eqb k k' then m' else (k', v') :: map_erase k m'
  end.

(** The nodes from [m.lower_bound(k)] to [m.end()]. *)
Fixpoint lower_bound k m : list (string * V) :=
  match m with
  | [] => []
  | (k', v') :: m' => if str_ltb k' k then lower_bound k m' else m
  end.

(** Class invariant of [std::map]: keys strictly increasing. *)
Fixpoint map_sorted m : Prop :=
  match m with
  | [] => True
  | (k, _) :: m' => Forall (fun kv => str_ltb k kv.1 = true) m' /\ map_sorted m'
  end.

Definition to_gmap m : gmap string V := list_to_map m.

(** ** The invariant is kept *)

Lemma map_put_Forall (P : string -> Prop) k v m :
  P k -> Forall (fun kv => P kv.1) m -> Forall (fun kv => P kv.1) (map_put k v m).
Proof.
  intros Hk H. induction H as [|[k' v'] m Hk' H IH]; simpl; [by repeat constructor|].
  repeat case_if; repeat constructor; done.
Qed.

Lemma map_put_sorted k v m : map_sorted m -> map_sorted (map_put k v m).
Proof.
  induction m as [|[k' v'] m IH]; simpl; [by repeat constructor|].
  intros [Hall Hs]. repeat case_if; simpl.
  - split; [|done]. constructor; [done|].
    eapply Forall_impl; [apply Hall|]. intros kv H. simpl in *. eauto using str_ltb_trans.
  - split; [|by apply IH]. by apply (map_put_Forall (fun x => str_ltb k' x = true)).
  - assert (k = k') as -> by (by apply str_ltb_total). done.
Qed.

Lemma map_erase_Forall (P : string * V -> Prop) k m : Forall P m -> Forall P (map_erase k m).
Proof. induction 1 as [|[k' v'] m]; simpl; [done|]. case_if; [done|]. by constructor. Qed.

Lemma map_erase_sorted k m : map_sorted m -> map_sorted (map_erase k m).
Proof.
  induction m as [|[k' v'] m IH]; simpl; [done|]. intros [Hall Hs].
  case_if; [done|]. split; [by apply map_erase_Forall | by apply IH].
Qed.

Lemma filter_sorted (P : string * V -> Prop) `{forall x, Decision (P x)} m :
  map_sorted m -> map_sorted (filter P m).
Proof.
  induction m as [|[k v] m IH]; [done|]. intros [Hall Hs]. rewrite filter_cons. case_decide; [|auto].
  split; [|auto]. rewrite Forall_forall in *. intros x [_ Hx]%list_elem_of_filter. auto.
Qed.

(** ** The operations are those of a finite map *)

Lemma map_find_gmap k m : map_find k m = to_gmap m !! k.
Proof.
  unfold to_gmap. induction m as [|[k' v'] m IH]; simpl; [by rewrite lookup_empty|].
  case_if; subst; [by rewrite lookup_insert_eq | by rewrite lookup_insert_ne].
Qed.

Lemma map_put_gmap k v m : to_gmap (map_put k v m) = <[k := v]> (to_gmap m).
Proof.
  unfold to_gmap. induction m as [|[k' v'] m IH]; simpl; [done|]. repeat case_if; simpl; [done| |].
  - rewrite IH. apply insert_insert_ne. intros ->. by rewrite str_ltb_irrefl in *.
  - assert (k = k') as -> by (by apply str_ltb_total). by rewrite insert_insert_eq.
Qed.

Lemma map_sorted_fresh k v m : map_sorted ((k, v) :: m) -> to_gmap m !! k = None.
Proof.
  intros [Hall _]. apply not_elem_of_list_to_map. intros ((k', v') & -> & Hin)%list_elem_of_fmap.
  rewrite Forall_forall in Hall. specialize (Hall _ Hin). simpl in Hall. by rewrite str_ltb_irrefl in Hall.
Qed.

Lemma map_erase_gmap k m : map_sorted m -> to_gmap (map_erase k m) = delete k (to_gmap m).
Proof.
  induction m as [|[k' v'] m IH]; intros Hs; simpl; [by rewrite delete_empty|].
  pose proof (map_sorted_fresh _ _ _ Hs). destruct Hs as [Hall Hs]. case_if.
  - subst. unfold to_gmap in *. simpl. rewrite delete_insert_eq. by rewrite delete_id.
  - unfold to_gmap in *. simpl. rewrite IH by done. by rewrite delete_insert_ne.
Qed.

Lemma map_sorted_NoDup m : map_sorted m -> NoDup m.*1.
Proof.
  induction m as [|[k v] m IH]; [constructor|]. intros Hs. pose proof (map_sorted_fresh _ _ _ Hs) as Hf.
  destruct Hs as [_ Hs]. simpl. constructor; [|auto]. intros Hin.
  apply (not_elem_of_list_to_map_2 (M := gmap string)) in Hf. done.
Qed.

Lemma map_size_gmap m : map_sorted m -> length m = size (to_gmap m).
Proof.
  intros Hs. rewrite <- (length_fmap fst). unfold to_gmap.
  rewrite <- size_dom, dom_list_to_map_L, size_list_to_set; [done|]. by apply map_sorted_NoDup.
Qed.

Lemma elem_of_to_gmap m k v : map_sorted m -> (k, v) ∈ m <-> to_gmap m !! k = Some v.
Proof. intros Hs. unfold to_gmap. rewrite elem_of_list_to_map by (by apply map_sorted_NoDup). done. Qed.

Lemma to_gmap_filter (P : string * V -> Prop) `{forall x, Decision (P x)} m :
  map_sorted m -> to_gmap (filter P m) = filter P (to_gmap m).
Proof.
  induction m as [|[k v] m IH]; intros Hs; [done|].
  pose proof (map_sorted_fresh _ _ _ Hs) as Hf. destruct Hs as [_ Hs].
  unfold to_gmap in *. rewrite filter_cons. simpl. case_decide as HP.
  - rewrite map_filter_insert_True by done. simpl. by rewrite IH.
  - rewrite map_filter_insert_False by done. by rewrite IH, delete_id.
Qed.

(** Two sorted maps with the same lookups are the same list. *)
Lemma map_sorted_ext m1 m2 : map_sorted m1 -> map_sorted m2 -> to_gmap m1 = to_gmap m2 -> m1 = m2.
Proof.
  revert m2. induction m1 as [|[k1 v1] m1 IH]; intros [|[k2 v2] m2] H1 H2 E.
  - done.
  - apply (f_equal (.!! k2)) in E. unfold to_gmap in E. simpl in E. by rewrite lookup_insert_eq in E.
  - apply (f_equal (.!! k1)) in E. unfold to_gmap in E. simpl in E. by rewrite lookup_insert_eq in E.
  - pose proof (map_sorted_fresh _ _ _ H1) as F1. pose proof (map_sorted_fresh _ _ _ H2) as F2.
    assert (forall ka va ma kb vb mb, map_sorted ((ka, va) :: ma) ->
      to_gmap ((ka, va) :: ma) = to_gmap ((kb, vb) :: mb) -> str_ltb kb ka = true -> False) as Hlt.
    { intros ka va ma kb vb mb [Ha _] Eq Hl.
      assert (to_gmap ((ka, va) :: ma) !! kb = Some vb) as L.
      { rewrite Eq. unfold to_gmap. simpl. by rewrite lookup_insert_eq. }
      unfold to_gmap in L. simpl in L. rewrite lookup_insert_ne in L
        by (intros ->; by rewrite str_ltb_irrefl in Hl).
      apply elem_of_list_to_map_2 in L. rewrite Forall_forall in Ha.
      specialize (Ha _ L). simpl in Ha. apply str_ltb_asym in Ha. congruence. }
    assert (k1 = k2) as ->.
    { apply str_ltb_total; apply not_true_is_false; intros Hl; eapply Hlt; eauto. }
    assert (v1 = v2) as ->.
    { apply (f_equal (.!! k2)) in E. unfold to_gmap in E. simpl in E.
      rewrite !lookup_insert_eq in E. by inv E. }
    f_equal. apply IH; [apply H1 | apply H2 |].
    apply (f_equal (delete k2)) in E. unfold to_gmap in *. simpl in E.
    rewrite !delete_insert_id in E; done.
Qed.

(** ** Range iteration over a prefix *)

(** Walking from [lower_bound(p)] while the key has prefix [p] visits exactly
    the keys with prefix [p], in order. *)
Fixpoint take_prefix (p : string) m : list (string * V) :=
  match m with
  | [] => []
  | (k, v) :: m' => if starts_with p k then (k, v) :: take_prefix p m' else []
  end.

Lemma take_prefix_sorted p m : map_sorted m ->
  (forall kv, kv ∈ m -> str_ltb kv.1 p = false) ->
  take_prefix p m = filter (fun kv => starts_with p kv.1 = true) m.
Proof.
  induction m as [|[k v] m IH]; intros Hs Hge; [done|]. simpl. rewrite filter_cons. simpl.
  destruct Hs as [Hall Hs]. case_if.
  - rewrite decide_True by done. f_equal. apply IH; [done|]. intros kv Hin. apply Hge. by right.
  - rewrite decide_False by (simpl; congruence). symmetry. apply filter_none. rewrite Forall_forall in *.
    intros kv Hin Hp. apply not_true_iff_false in E. apply E.
    apply (prefix_block_convex p p k kv.1); [apply starts_with_refl | done | |].
    + apply (Hge (k, v)). by left.
    + by apply str_ltb_asym, Hall.
Qed.

Lemma lower_bound_prefix p m : map_sorted m ->
  take_prefix p (lower_bound p m) = filter (fun kv => starts_with p kv.1 = true) m.
Proof.
  induction m as [|[k v] m IH]; intros Hs; [done|]. cbn [lower_bound]. case_if.
  - rewrite filter_cons. simpl. rewrite decide_False; [apply IH, Hs|].
    intros Hp%starts_with_not_lt. congruence.
  - apply take_prefix_sorted; [done|]. intros kv [->|Hin]%elem_of_cons; [done|].
    destruct Hs as [Hall _]. rewrite Forall_forall in Hall. specialize (Hall _ Hin). simpl in Hall.
    apply not_true_is_false. intros Hl. pose proof (str_ltb_trans _ _ _ Hall Hl). congruence.
Qed.
End CxxMap.

#[export] Hint Resolve map_put_sorted map_erase_sorted : orc.
