(* ===== verification/Json.v ===== *)
(** * JSON values and the interface of the JSON library

    [nlohmann::json] is a third-party library: its serialiser and parser are
    the two operations of the class [JsonLib], and what the program relies on
    is the class [JsonLaws].  The value type, the typed accessors
    ([operator[]], [get], [value], [contains], range-for) and the construction
    of objects from initializer lists follow the library's documented
    behaviour.  [RefJson] is a concrete instance, which shows that the laws can
    hold together. *)
From S2P Require Import Prelude CxxString CxxMap.
From Stdlib Require Import ZArith Lia Ascii String.
From stdpp Require Import prelude gmap strings countable.
#[local] Open Scope Z_scope.

(** [basic_json]; integers of both signednesses are [JInt], a double is
    [m * 2^e].  Objects are [std::map]s: key-sorted lists. *)
Inductive json : Type :=
| JNull
| JBool (b : bool)
| JInt (z : Z)
| JFloat (m e : Z)
| JStr (s : string)
| JArr (l : list json)
| JObj (l : list (string * json)).

(** [json{{"k1", v1}, ...}] *)
Definition jobj (l : list (string * json)) : json :=
  JObj (fold_right (fun kv m => map_put kv.1 kv.2 m) [] l).

(** [static_cast<integer>(double)]: truncation towards zero. *)
Definition float_trunc (m e : Z) : Z := if 0 <=? e then m * 2 ^ e else Z.quot m (2 ^ (- e)).

(** [j.get<uint64_t>()], [j.get<int64_t>()], [j.get<std::string>()], ... *)
Definition get_u64 (j : json) : Res Z :=
  match j with
  | JInt z => Ok (u64 z)
  | JFloat m e => Ok (u64 (float_trunc m e))
  | _ => Throw json_error
  end.
Definition get_i64 (j : json) : Res Z :=
  match j with
  | JInt z => Ok (i64 z)
  | JFloat m e => Ok (i64 (float_trunc m e))
  | _ => Throw json_error
  end.
(** [j.get<int>()] also accepts a boolean. *)
Definition get_int (j : json) : Res Z :=
  match j with
  | JInt z => Ok z
  | JFloat m e => Ok (float_trunc m e)
  | JBool b => Ok (Z.b2z b)
  | _ => Throw json_error
  end.
Definition get_str (j : json) : Res string :=
  match j with JStr s => Ok s | _ => Throw json_error end.
Definition get_bool (j : json) : Res bool :=
  match j with JBool b => Ok b | _ => Throw json_error end.

(** [j["k"]] on a non-const value: a missing key reads as null, a null value
    becomes an object, any other type throws. *)
Definition json_at (j : json) (k : string) : Res json :=
  match j with
  | JObj l => Ok (default JNull (map_find k l))
  | JNull => Ok JNull
  | _ => Throw json_error
  end.

(** [j.value("k", d)] *)
Definition json_value {A} (get : json -> Res A) (j : json) (k : string) (d : A) : Res A :=
  match j with
  | JObj l => match map_find k l with Some v => get v | None => Ok d end
  | _ => Throw json_error
  end.

Definition json_contains (j : json) (k : string) : bool :=
  match j with
  | JObj l => match map_find k l with Some _ => true | None => false end
  | _ => false
  end.

(** [for (auto& x : j)] *)
Definition json_items (j : json) : list json :=
  match j with
  | JNull => []
  | JArr l => l
  | JObj l => l.*2
  | _ => [j]
  end.

(** RFC 3629 well-formedness, the check of the serialiser's strict mode. *)
Definition in_range (lo hi : Z) (a : ascii) : bool := (lo <=? chr a) && (chr a <=? hi).

Fixpoint utf8_valid (s : string) : bool :=
  match s with
  | EmptyString => true
  | String a r =>
      if chr a <? 128 then utf8_valid r
      else match r with
      | EmptyString => false
      | String b r1 =>
          if in_range 194 223 a then in_range 128 191 b && utf8_valid r1
          else match r1 with
          | EmptyString => false
          | String c r2 =>
              if in_range 224 239 a then
                in_range (if chr a =? 224 then 160 else 128)
                         (if chr a =? 237 then 159 else 191) b
                && in_range 128 191 c && utf8_valid r2
              else match r2 with
              | EmptyString => false
              | String d r3 =>
                  in_range 240 244 a
                  && in_range (if chr a =? 240 then 144 else 128)
                              (if chr a =? 244 then 143 else 191) b
                  && in_range 128 191 c && in_range 128 191 d && utf8_valid r3
              end
          end
      end
  end.

(** Every string and key of the value is valid UTF-8. *)
Fixpoint json_utf8 (j : json) : bool :=
  match j with
  | JStr s => utf8_valid s
  | JArr l => forallb json_utf8 l
  | JObj l => forallb (fun kv => utf8_valid kv.1 && json_utf8 kv.2) l
  | _ => true
  end.

Fixpoint keys_sorted {V} (l : list (string * V)) : bool :=
  match l with
  | (k1, _) :: ((k2, _) :: _) as l' => str_ltb k1 k2 && keys_sorted l'
  | _ => true
  end.

(** Values that a dump and a parse keep exactly: no doubles, integers within
    [int64_t]/[uint64_t], objects with sorted keys, UTF-8 strings. *)
Fixpoint json_wf (j : json) : bool :=
  match j with
  | JNull | JBool _ => true
  | JInt z => (- 2 ^ 63 <=? z) && (z <? 2 ^ 64)
  | JFloat _ _ => false
  | JStr s => utf8_valid s
  | JArr l => forallb json_wf l
  | JObj l => keys_sorted l && forallb (fun kv => utf8_valid kv.1 && json_wf kv.2) l
  end.

(** [dump()] throws (type_error.316) on invalid UTF-8; [json::parse] throws on
    malformed text. *)
Class JsonLib := {
  json_dump : json -> option string;
  json_parse : string -> option json;
}.

Class JsonLaws (J : JsonLib) : Prop := {
  dump_parse j : json_wf j = true ->
    exists s, json_dump j = Some s /\ json_parse s = Some j;
  dump_utf8 j s : json_dump j = Some s -> utf8_valid s = true;
  dump_invalid j : json_utf8 j = false -> json_dump j = None;
}.

(** [j.dump()] and [json::parse(s)] as calls that may throw. *)
Definition dump `{JsonLib} (j : json) : Res string := of_opt json_error (json_dump j).
Definition parse `{JsonLib} (s : string) : Res json := of_opt json_error (json_parse s).

(** ** Well-formed objects *)

Lemma keys_sorted_spec {V} (l : list (string * V)) : map_sorted l -> keys_sorted l = true.
Proof.
  induction l as [|[k v] [|[k' v'] l] IH]; intros Hs; [done..|].
  destruct Hs as [Hall Hs]. inv Hall. change (str_ltb k k' && keys_sorted ((k', v') :: l) = true).
  by rewrite IH, andb_true_r.
Qed.

Lemma forallb_map_put (f : string * json -> bool) k v m :
  f (k, v) = true -> forallb f m = true -> forallb f (map_put k v m) = true.
Proof.
  intros Hf. induction m as [|[k' v'] m IH]; simpl; [by rewrite Hf|].
  intros [H1 H2]%andb_true_iff. repeat case_if; simpl; rewrite ?Hf, ?H1, ?H2; auto.
Qed.

Lemma jobj_wf l :
  forallb (fun kv => utf8_valid kv.1 && json_wf kv.2) l = true -> json_wf (jobj l) = true.
Proof.
  intros Hl. unfold jobj. simpl. apply andb_true_iff.
  assert (map_sorted (fold_right (fun kv m => map_put kv.1 kv.2 m) [] l)
    /\ forallb (fun kv => utf8_valid kv.1 && json_wf kv.2)
         (fold_right (fun kv m => map_put kv.1 kv.2 m) [] l) = true) as [Hs Hf].
  { induction l as [|[k v] l IH]; [done|]. simpl in *. apply andb_true_iff in Hl as [H1 H2].
    destruct (IH H2) as [IH1 IH2]. split; [by apply map_put_sorted | by apply forallb_map_put]. }
  split; [by apply keys_sorted_spec | done].
Qed.

Lemma JInt_u64_wf z : is_u64 z -> json_wf (JInt z) = true.
Proof. intros [??]. simpl. apply andb_true_iff. lia. Qed.

Lemma JInt_i64_wf z : is_i64 z -> json_wf (JInt z) = true.
Proof. intros [??]. simpl. apply andb_true_iff. lia. Qed.

Lemma get_u64_JInt z : is_u64 z -> get_u64 (JInt z) = Ok z.
Proof. intros H. simpl. by rewrite u64_small. Qed.

Lemma get_i64_JInt z : is_i64 z -> get_i64 (JInt z) = Ok z.
Proof. intros H. simpl. by rewrite i64_small. Qed.

(** A well-formed value dumps, to UTF-8 text that parses back to it. *)
Lemma dump_ok {J : JsonLib} {L : JsonLaws J} j : json_wf j = true ->
  exists s, dump j = Ok s /\ parse s = Ok j /\ utf8_valid s = true.
Proof.
  intros Hj. destruct (dump_parse j Hj) as (s & E1 & E2). exists s.
  unfold dump, parse. rewrite E1, E2. eauto using dump_utf8.
Qed.

(** Discharge [json_wf (jobj [...])] for an object built by the program. *)
Ltac json_wf_tac :=
  apply jobj_wf; cbn [forallb fst snd]; rewrite ?andb_true_iff; split_and!; try reflexivity;
  first [assumption | apply JInt_u64_wf; assumption | apply JInt_i64_wf; assumption | idtac].

(** ** A concrete instance *)

Section RefJson.

Fixpoint json_enc (j : json) : gen_tree (bool + Z + (Z * Z) + string) :=
  match j with
  | JNull => GenNode 0 []
  | JBool b => GenLeaf (inl (inl (inl b)))
  | JInt z => GenLeaf (inl (inl (inr z)))
  | JFloat m e => GenLeaf (inl (inr (m, e)))
  | JStr s => GenLeaf (inr s)
  | JArr l => GenNode 1 (map json_enc l)
  | JObj l => GenNode 2 (map (fun kv => GenNode 3 [GenLeaf (inr kv.1); json_enc kv.2]) l)
  end.

Fixpoint json_dec (t : gen_tree (bool + Z + (Z * Z) + string)) : json :=
  match t with
  | GenLeaf (inl (inl (inl b))) => JBool b
  | GenLeaf (inl (inl (inr z))) => JInt z
  | GenLeaf (inl (inr (m, e))) => JFloat m e
  | GenLeaf (inr s) => JStr s
  | GenNode 1 l => JArr (map json_dec l)
  | GenNode 2 l =>
      JObj (map (fun t => match t with
        | GenNode 3 [GenLeaf (inr k); v] => (k, json_dec v)
        | _ => (""%string, JNull) end) l)
  | GenNode _ _ => JNull
  end.

Lemma json_dec_enc : forall j, json_dec (json_enc j) = j.
Proof.
  fix IH 1. intros [|b|z|m e|s|l|l]; try reflexivity; simpl; f_equal; rewrite map_map.
  - induction l as [|j l IHl]; [done|]. simpl. by rewrite IH, IHl.
  - induction l as [|[k j] l IHl]; [done|]. simpl. by rewrite IH, IHl.
Qed.

(** The tokens of the tree, each written so that its end is recognised: numbers
    in binary, strings as two letters per byte. *)
Fixpoint put_pos (p : positive) (k : string) : string :=
  match p with
  | xH => String "1" k
  | xO p' => String "0" (put_pos p' k)
  | xI p' => String "i" (put_pos p' k)
  end.

Fixpoint take_pos (s : string) : option (positive * string) :=
  match s with
  | String "1" r => Some (xH, r)
  | String "0" r => '(p, k) ← take_pos r; Some (xO p, k)
  | String "i" r => '(p, k) ← take_pos r; Some (xI p, k)
  | _ => None
  end.

Definition put_Z (z : Z) (k : string) : string :=
  match z with Z0 => String "z" k | Zpos p => String "p" (put_pos p k) | Zneg p => String "m" (put_pos p k) end.

Definition take_Z (s : string) : option (Z * string) :=
  match s with
  | String "z" r => Some (0, r)
  | String "p" r => '(p, k) ← take_pos r; Some (Zpos p, k)
  | String "m" r => '(p, k) ← take_pos r; Some (Zneg p, k)
  | _ => None
  end.

Fixpoint put_str (s : string) (k : string) : string :=
  match s with
  | EmptyString => String "." k
  | String (Ascii b0 b1 b2 b3 b4 b5 b6 b7) r =>
      String (Ascii b0 b1 b2 b3 false false true false) (String (Ascii b4 b5 b6 b7 false false true false) (put_str r k))
  end.

Fixpoint take_str (s : string) : option (string * string) :=
  match s with
  | String "." r => Some (EmptyString, r)
  | String (Ascii b0 b1 b2 b3 _ _ _ _) (String (Ascii b4 b5 b6 b7 _ _ _ _) r) =>
      '(t, k) ← take_str r; Some (String (Ascii b0 b1 b2 b3 b4 b5 b6 b7) t, k)
  | _ => None
  end.

#[local] Abbreviation token := (nat * nat + (bool + Z + (Z * Z) + string))%type.

Definition put_token (t : token) (k : string) : string :=
  match t with
  | inl (a, b) => String "N" (put_Z (Z.of_nat a) (put_Z (Z.of_nat b) k))
  | inr (inl (inl (inl b))) => String (if b then "T" else "F") k
  | inr (inl (inl (inr z))) => String "Z" (put_Z z k)
  | inr (inl (inr (m, e))) => String "D" (put_Z m (put_Z e k))
  | inr (inr s) => String "S" (put_str s k)
  end.

Definition take_token (s : string) : option (token * string) :=
  match s with
  | String "N" r => '(a, r) ← take_Z r; '(b, r) ← take_Z r; Some (inl (Z.to_nat a, Z.to_nat b), r)
  | String "T" r => Some (inr (inl (inl (inl true))), r)
  | String "F" r => Some (inr (inl (inl (inl false))), r)
  | String "Z" r => '(z, r) ← take_Z r; Some (inr (inl (inl (inr z))), r)
  | String "D" r => '(m, r) ← take_Z r; '(e, r) ← take_Z r; Some (inr (inl (inr (m, e))), r)
  | String "S" r => '(t, r) ← take_str r; Some (inr (inr t), r)
  | _ => None
  end.

Fixpoint put_tokens (ts : list token) : string :=
  match ts with [] => EmptyString | t :: ts => put_token t (put_tokens ts) end.

(** Every token has a character at least, so the length of the text is enough fuel. *)
Fixpoint take_tokens (fuel : nat) (s : string) : option (list token) :=
  match fuel, s with
  | _, EmptyString => Some []
  | O, _ => None
  | S fuel, _ => '(t, r) ← take_token s; ts ← take_tokens fuel r; Some (t :: ts)
  end.

Lemma take_put_pos p k : take_pos (put_pos p k) = Some (p, k).
Proof. induction p as [p IH|p IH|]; [| |done]; cbn [put_pos take_pos]; by rewrite IH. Qed.

Lemma take_put_Z z k : take_Z (put_Z z k) = Some (z, k).
Proof. destruct z; [done| |]; cbn [put_Z take_Z]; by rewrite take_put_pos. Qed.

Lemma take_put_str s k : take_str (put_str s k) = Some (s, k).
Proof.
  induction s as [|[b0 b1 b2 b3 b4 b5 b6 b7] s IH]; [done|]. cbn [put_str take_str]. rewrite IH. by destruct b0, b1, b2, b3.
Qed.

Lemma take_put_token t k : take_token (put_token t k) = Some (t, k).
Proof.
  destruct t as [[a b]|[[[b|z]|[m e]]|s]]; cbn [put_token take_token]; rewrite ?take_put_Z; simpl; rewrite ?take_put_Z, ?take_put_str; simpl;
    rewrite ?Nat2Z.id; try done. by destruct b.
Qed.

Lemma take_put_tokens ts : forall fuel, (length ts <= fuel)%nat -> take_tokens fuel (put_tokens ts) = Some ts.
Proof.
  induction ts as [|t ts IH]; intros fuel Hf; [by destruct fuel|]. destruct fuel as [|fuel]; simpl in Hf; [lia|].
  pose proof (take_put_token t (put_tokens ts)) as Ht. cbn [put_tokens take_tokens].
  destruct (put_token t (put_tokens ts)) eqn:E; [by destruct t as [[]|[[[]|[]]|]]|]. rewrite Ht. simpl. by rewrite IH by lia.
Qed.

Lemma put_pos_text p k : utf8_valid k = true -> utf8_valid (put_pos p k) = true /\ (String.length k <= String.length (put_pos p k))%nat.
Proof. intros Hk. induction p as [p [? ?]|p [? ?]|]; (split; [done|simpl; lia]). Qed.

Lemma put_Z_text z k : utf8_valid k = true -> utf8_valid (put_Z z k) = true /\ (String.length k <= String.length (put_Z z k))%nat.
Proof.
  intros Hk. destruct z as [|p|p]; [split; [done|simpl; lia]| |]; destruct (put_pos_text p k Hk) as [? ?]; (split; [done|simpl; lia]).
Qed.

Lemma put_str_text s k : utf8_valid k = true -> utf8_valid (put_str s k) = true /\ (String.length k <= String.length (put_str s k))%nat.
Proof.
  intros Hk. induction s as [|[b0 b1 b2 b3 b4 b5 b6 b7] s [IH Hl]]; [split; [done|simpl; lia]|]. cbn [put_str]. split; [|simpl; lia].
  destruct b0, b1, b2, b3, b4, b5, b6, b7; exact IH.
Qed.

Lemma put_token_text t k : utf8_valid k = true -> utf8_valid (put_token t k) = true /\ (String.length k < String.length (put_token t k))%nat.
Proof.
  intros Hk. destruct t as [[a b]|[[[b|z]|[m e]]|s]]; cbn [put_token].
  - destruct (put_Z_text (Z.of_nat b) k Hk) as [H1 L1]. destruct (put_Z_text (Z.of_nat a) _ H1) as [H2 L2]. split; [done|simpl; lia].
  - destruct b; (split; [done|simpl; lia]).
  - destruct (put_Z_text z k Hk) as [H1 L1]. split; [done|simpl; lia].
  - destruct (put_Z_text e k Hk) as [H1 L1]. destruct (put_Z_text m _ H1) as [H2 L2]. split; [done|simpl; lia].
  - destruct (put_str_text s k Hk) as [H1 L1]. split; [done|simpl; lia].
Qed.

Lemma put_tokens_text ts : utf8_valid (put_tokens ts) = true /\ (length ts <= String.length (put_tokens ts))%nat.
Proof.
  induction ts as [|t ts [IH Hl]]; [done|]. destruct (put_token_text t _ IH) as [H1 L1]. split; [done|simpl; lia].
Qed.

Definition json_text (j : json) : string := put_tokens (gen_tree_to_list (json_enc j)).
Definition text_json (s : string) : option json :=
  ts ← take_tokens (String.length s) s;
  json_dec <$> gen_tree_of_list [] ts.

Lemma text_json_text j : text_json (json_text j) = Some j.
Proof.
  unfold text_json, json_text. rewrite take_put_tokens by apply put_tokens_text. simpl.
  rewrite <- (app_nil_r (gen_tree_to_list _)), gen_tree_of_to_list. simpl. by rewrite json_dec_enc.
Qed.

Definition RefJson : JsonLib := {|
  json_dump j := if json_utf8 j then Some (json_text j) else None;
  json_parse := text_json;
|}.

Lemma json_wf_utf8 : forall j, json_wf j = true -> json_utf8 j = true.
Proof.
  fix IH 1. intros [|b|z|m e|s|l|l]; try done; simpl.
  - induction l as [|j l IHl]; [done|]. simpl. intros [H1 H2]%andb_true_iff.
    apply andb_true_iff. split; [by apply IH | by apply IHl].
  - intros [_ H]%andb_true_iff. revert H. induction l as [|[k j] l IHl]; [done|]. simpl.
    intros [[H0 H1]%andb_true_iff H2]%andb_true_iff.
    rewrite H0, (IH j H1). simpl. by apply IHl.
Qed.

#[global] Instance RefJson_laws : JsonLaws RefJson.
Proof.
  split.
  - intros j Hj. exists (json_text j). simpl. rewrite json_wf_utf8 by done. split; [done|apply text_json_text].
  - intros j s. simpl. case_if; [|done]. intros [= <-]. apply put_tokens_text.
  - intros j H. simpl. by rewrite H.
Qed.
End RefJson.
