(* ===== verification/Snapshot.v ===== *)
(** * The snapshot envelope (src/storage/Snapshot.{hpp,cpp})

    A snapshot as the index and term it covers and the text of the store, and
    its JSON form. *)
From S2P Require Import Prelude CxxString CxxMap Json.
From Stdlib Require Import ZArith Lia Ascii String.
From stdpp Require Import prelude strings.
#[local] Open Scope Z_scope.

Record Snapshot := mkSnapshot { sn_index : Z; sn_term : Z; sn_data : string }.

Definition Snapshot_new : Snapshot := mkSnapshot 0 0 "".

Definition Snapshot_Empty (s : Snapshot) : bool := sn_index s =? 0.

Definition Snapshot_json (s : Snapshot) : json :=
  jobj [("index", JInt (sn_index s)); ("term", JInt (sn_term s)); ("data", JStr (sn_data s))].

Definition Snapshot_Serialise `{JsonLib} (s : Snapshot) : Res string := dump (Snapshot_json s).

Definition Snapshot_Deserialise `{JsonLib} (raw : string) : Res Snapshot :=
  j ← parse raw;
  i ← (json_at j "index" ≫= get_u64);
  t ← (json_at j "term" ≫= get_u64);
  d ← (json_at j "data" ≫= get_str);
  mret (mkSnapshot i t d).

(** The text of a snapshot reads back as the snapshot. *)
Lemma Snapshot_roundtrip {J : JsonLib} {L : JsonLaws J} s :
  is_u64 (sn_index s) -> is_u64 (sn_term s) -> utf8_valid (sn_data s) = true ->
  exists raw, Snapshot_Serialise s = Ok raw /\ Snapshot_Deserialise raw = Ok s.
Proof.
  destruct s as [i t d]. intros Hi Ht Hd. simpl in *. unfold Snapshot_Serialise, Snapshot_json.
  edestruct dump_ok as (raw & Hdump & Hp & _); [|exists raw; split; [exact Hdump|]]; [json_wf_tac|].
  unfold Snapshot_Deserialise. rewrite Hp. simpl.
  change (Ok (mkSnapshot (u64 i) (u64 t) d) = Ok (mkSnapshot i t d)). by rewrite !u64_small.
Qed.
