(* ===== verification/KVStore.v ===== *)
(** * The key-value store (src/storage/KVStore.{hpp,cpp})

    The in-memory state machine of the node: an ordered map from keys to
    versioned entries with an optional expiry, and the table of watches.  The
    clock is an argument of every operation that reads it (nanoseconds since
    the epoch, the unit of [system_clock]).  A watch callback is a handle; a
    call of a callback is an element of the list of notifications an operation
    returns.  [kv_spec] is the abstract store the operations refine. *)
From S2P Require Import Prelude CxxString CxxMap Json.
From Stdlib Require Import ZArith Lia Ascii String.
From stdpp Require Import prelude gmap strings.
#[local] Open Scope Z_scope.

Record KVEntry := mkKVEntry {
  kv_value : string;
  kv_version : Z;
  kv_raftIndex : Z;
  kv_createdAt : Z;
  kv_updatedAt : Z;
  kv_expiresAt : option Z;
}.

(** The closure a watcher registered. *)
Definition WatchCallback : Type := nat.

Record Watch := mkWatch {
  w_pattern : string;
  w_isPrefix : bool;
  w_cb : WatchCallback;
}.

Record KVStore := mkKVStore {
  data_ : list (string * KVEntry);
  nextWatchId_ : Z;
  watches_ : gmap Z Watch;
}.

(** [KVStore() = default] *)
Definition KVStore_new : KVStore := mkKVStore [] 1 ∅.

Definition set_data (s : KVStore) (d : list (string * KVEntry)) : KVStore :=
  mkKVStore d (nextWatchId_ s) (watches_ s).

(** One call [cb(key, entry)]. *)
Record Notification := mkNotification {
  n_cb : WatchCallback;
  n_key : string;
  n_entry : option KVEntry;
}.

(** [e.expiresAt && *e.expiresAt < now] *)
Definition expired (now : Z) (e : KVEntry) : bool :=
  match kv_expiresAt e with Some t => t <? now | None => false end.

(** [time_point + milliseconds], in the nanoseconds of [system_clock]. *)
Definition add_ms (t ms : Z) : Z := i64 (t + i64 (ms * 1000000)).

Definition Get (now : Z) (key : string) (s : KVStore) : option KVEntry :=
  match map_find key (data_ s) with
  | None => None
  | Some e => if expired now e then None else Some e
  end.

Definition watch_matches (key : string) (w : Watch) : bool :=
  if w_isPrefix w then starts_with (w_pattern w) key else String.eqb key (w_pattern w).

Definition NotifyWatchers (key : string) (entry : option KVEntry) (s : KVStore) : list Notification :=
  (fun iw => mkNotification (w_cb iw.2) key entry) <$>
    filter (fun iw => watch_matches key iw.2 = true) (map_to_list (watches_ s)).

Definition Put (now : Z) (key value : string) (raftIndex : Z) (ttl : option Z) (s : KVStore)
    : bool * KVStore * list Notification :=
  let '(version, createdAt) :=
    match map_find key (data_ s) with
    | Some old => (u64 (kv_version old + 1), kv_createdAt old)
    | None => (1, now)
    end in
  let entry := mkKVEntry value version raftIndex createdAt now (add_ms now <$> ttl) in
  let s' := set_data s (map_put key entry (data_ s)) in
  (true, s', NotifyWatchers key (Some entry) s').

Definition Delete (key : string) (raftIndex : Z) (s : KVStore) : bool * KVStore * list Notification :=
  match map_find key (data_ s) with
  | None => (false, s, [])
  | Some _ =>
      let s' := set_data s (map_erase key (data_ s)) in
      (true, s', NotifyWatchers key None s')
  end.

(** The body of the loop of [Scan], over the nodes from [lower_bound]. *)
Fixpoint scan_loop (now : Z) (prefix : string) (limit : option Z)
    (nodes results : list (string * KVEntry)) : list (string * KVEntry) :=
  match nodes with
  | [] => results
  | (k, e) :: rest =>
      if negb (starts_with prefix k) then results
      else if expired now e then scan_loop now prefix limit rest results
      else
        let results' := results ++ [(k, e)] in
        match limit with
        | Some n => if n <=? len results' then results'
                    else scan_loop now prefix limit rest results'
        | None => scan_loop now prefix limit rest results'
        end
  end.

Definition Scan (now : Z) (prefix : string) (limit : option Z) (s : KVStore) : list (string * KVEntry) :=
  scan_loop now prefix limit (lower_bound prefix (data_ s)) [].

Definition CAS (now : Z) (key expectedValue newValue : string) (raftIndex : Z) (s : KVStore)
    : bool * KVStore * list Notification :=
  match map_find key (data_ s) with
  | None => (false, s, [])
  | Some e =>
      if negb (String.eqb (kv_value e) expectedValue) then (false, s, [])
      else
        let e' := mkKVEntry newValue (u64 (kv_version e + 1)) raftIndex
                    (kv_createdAt e) now (kv_expiresAt e) in
        let s' := set_data s (map_put key e' (data_ s)) in
        (true, s', NotifyWatchers key (Some e') s')
  end.

(** [KVStore::Watch] *)
Definition AddWatch (keyOrPrefix : string) (isPrefix : bool) (cb : WatchCallback) (s : KVStore)
    : Z * KVStore :=
  let id := nextWatchId_ s in
  (id, mkKVStore (data_ s) (u64 (id + 1)) (<[id := mkWatch keyOrPrefix isPrefix cb]> (watches_ s))).

Definition Unwatch (watchId : Z) (s : KVStore) : KVStore :=
  mkKVStore (data_ s) (nextWatchId_ s) (delete watchId (watches_ s)).

(** [duration_cast<milliseconds>(t - time_point{}).count()] *)
Definition to_ms (t : Z) : Z := Z.quot t 1000000.

Definition snapshot_item (kv : string * KVEntry) : json :=
  let '(k, v) := kv in
  jobj [("key", JStr k); ("value", JStr (kv_value v)); ("version", JInt (kv_version v));
        ("raft_index", JInt (kv_raftIndex v));
        ("expires_ms", JInt (match kv_expiresAt v with Some t => to_ms t | None => -1 end))]%string.

Definition TakeSnapshot `{JsonLib} (now : Z) (s : KVStore) : Res string :=
  dump (JArr (snapshot_item <$> filter (fun kv => expired now kv.2 = false) (data_ s))).

(** One element of the loop of [RestoreSnapshot]; [now] is the clock read for
    the creation time. *)
Definition restore_item (now : Z) (item : json) : Res (string * KVEntry) :=
  value ← (json_at item "value" ≫= get_str);
  version ← (json_at item "version" ≫= get_u64);
  raftIndex ← (json_at item "raft_index" ≫= get_u64);
  expiresMs ← (json_at item "expires_ms" ≫= get_i64);
  key ← (json_at item "key" ≫= get_str);
  mret (key, mkKVEntry value version raftIndex now now
    (if 0 <=? expiresMs then Some (i64 (expiresMs * 1000000)) else None)).

Fixpoint restore_loop (clock : nat -> Z) (i : nat) (items : list json) : M KVStore unit :=
  match items with
  | [] => mret tt
  | item :: rest =>
      kv ← lift (restore_item (clock i) item);
      modify (fun s => set_data s (map_put kv.1 kv.2 (data_ s)));;
      restore_loop clock (S i) rest
  end.

Definition RestoreSnapshot `{JsonLib} (clock : nat -> Z) (snapshotJson : string) : M KVStore unit :=
  j ← lift (parse snapshotJson);
  modify (fun s => set_data s []);;
  restore_loop clock 0 (json_items j).

Definition Size (s : KVStore) : Z := len (data_ s).

(** The loop of [PurgeExpired]: the keys it collects and the nodes it keeps. *)
Fixpoint purge_loop (now : Z) (nodes : list (string * KVEntry)) : list string * list (string * KVEntry) :=
  match nodes with
  | [] => ([], [])
  | (k, e) :: rest =>
      let '(keys, kept) := purge_loop now rest in
      if expired now e then (k :: keys, kept) else (keys, (k, e) :: kept)
  end.

Definition PurgeExpired (now : Z) (s : KVStore) : Z * KVStore * list Notification :=
  let '(expiredKeys, kept) := purge_loop now (data_ s) in
  let s' := set_data s kept in
  (len expiredKeys, s', mjoin ((fun k => NotifyWatchers k None s') <$> expiredKeys)).

(** ** The abstract store *)

(** Mutations of the store, as the callers issue them. *)
Inductive kv_op : Type :=
| op_put (now : Z) (key value : string) (raftIndex : Z) (ttl : option Z)
| op_delete (key : string) (raftIndex : Z)
| op_cas (now : Z) (key expected value : string) (raftIndex : Z)
| op_purge (now : Z).

(** The next state and the value the call returns ([true] is 1). *)
Definition kv_spec (m : gmap string KVEntry) (o : kv_op) : gmap string KVEntry * Z :=
  match o with
  | op_put now k v ri ttl =>
      (<[k := match m !! k with
              | Some old => mkKVEntry v (u64 (kv_version old + 1)) ri (kv_createdAt old) now (add_ms now <$> ttl)
              | None => mkKVEntry v 1 ri now now (add_ms now <$> ttl)
              end]> m, 1)
  | op_delete k _ => (delete k m, if decide (is_Some (m !! k)) then 1 else 0)
  | op_cas now k ex v ri =>
      match m !! k with
      | Some e =>
          if decide (kv_value e = ex)
          then (<[k := mkKVEntry v (u64 (kv_version e + 1)) ri (kv_createdAt e) now (kv_expiresAt e)]> m, 1)
          else (m, 0)
      | None => (m, 0)
      end
  | op_purge now =>
      (filter (fun kv => expired now kv.2 = false) m,
       Z.of_nat (size (filter (fun kv => expired now kv.2 = true) m)))
  end.

Definition kv_impl (s : KVStore) (o : kv_op) : KVStore * Z :=
  match o with
  | op_put now k v ri ttl => let '(r, s', _) := Put now k v ri ttl s in (s', Z.b2z r)
  | op_delete k ri => let '(r, s', _) := Delete k ri s in (s', Z.b2z r)
  | op_cas now k ex v ri => let '(r, s', _) := CAS now k ex v ri s in (s', Z.b2z r)
  | op_purge now => let '(r, s', _) := PurgeExpired now s in (s', r)
  end.

(** The callback calls the operation makes. *)
Definition kv_events (s : KVStore) (o : kv_op) : list Notification :=
  match o with
  | op_put now k v ri ttl => (Put now k v ri ttl s).2
  | op_delete k ri => (Delete k ri s).2
  | op_cas now k ex v ri => (CAS now k ex v ri s).2
  | op_purge now => (PurgeExpired now s).2
  end.

(** The keys an operation writes or removes in the abstract store. *)
Definition touches (m : gmap string KVEntry) (o : kv_op) (k : string) : Prop :=
  match o with
  | op_put _ k' _ _ _ => k = k'
  | op_delete k' _ => k = k' /\ is_Some (m !! k)
  | op_cas _ k' ex _ _ => k = k' /\ exists e, m !! k = Some e /\ kv_value e = ex
  | op_purge now => exists e, m !! k = Some e /\ expired now e = true
  end.

(** A run: the final state and the returned values, in order. *)
Fixpoint kv_run {S} (step : S -> kv_op -> S * Z) (s : S) (ops : list kv_op) : S * list Z :=
  match ops with
  | [] => (s, [])
  | o :: rest => let '(s', r) := step s o in let '(s'', rs) := kv_run step s' rest in (s'', r :: rs)
  end.

(** The class invariant of [data_]. *)
Definition store_wf (s : KVStore) : Prop := map_sorted (data_ s).

(** The store seen as a finite map. *)
Definition view (s : KVStore) : gmap string KVEntry := to_gmap (data_ s).

(** ** Lemmas *)

Lemma purge_loop_spec now nodes :
  purge_loop now nodes =
    ((filter (fun kv => expired now kv.2 = true) nodes).*1,
     filter (fun kv => expired now kv.2 = false) nodes).
Proof.
  induction nodes as [|[k e] rest IH]; [done|]. simpl. rewrite IH, !filter_cons. simpl.
  destruct (expired now e); simpl; done.
Qed.

Lemma kv_step_refines s o : store_wf s ->
  store_wf (kv_impl s o).1 /\ kv_spec (view s) o = (view (kv_impl s o).1, (kv_impl s o).2).
Proof.
  unfold store_wf, view. intros Hs. destruct o as [now k v ri ttl|k ri|now k ex v ri|now]; simpl.
  - unfold Put. rewrite map_find_gmap. destruct (to_gmap (data_ s) !! k) eqn:E; simpl;
      rewrite map_put_gmap; auto with orc.
  - unfold Delete. rewrite map_find_gmap. destruct (to_gmap (data_ s) !! k) eqn:E; simpl.
    + rewrite map_erase_gmap by done. split; [auto with orc|done].
    + by rewrite delete_id.
  - unfold CAS. rewrite map_find_gmap. destruct (to_gmap (data_ s) !! k) as [e|] eqn:E; simpl; [|done].
    destruct (String.eqb_spec (kv_value e) ex); simpl.
    + rewrite decide_True, map_put_gmap by done. auto with orc.
    + rewrite decide_False by done. done.
  - unfold PurgeExpired. rewrite purge_loop_spec. simpl. split; [by apply filter_sorted|].
    rewrite !to_gmap_filter by done. f_equal. unfold len. rewrite length_fmap.
    rewrite map_size_gmap by (by apply filter_sorted). by rewrite to_gmap_filter.
Qed.

Lemma kv_run_refines ops s : store_wf s ->
  store_wf (kv_run kv_impl s ops).1 /\
  kv_run kv_spec (view s) ops = (view (kv_run kv_impl s ops).1, (kv_run kv_impl s ops).2).
Proof.
  revert s. induction ops as [|o ops IH]; intros s Hs; [done|]. cbn [kv_run].
  destruct (kv_step_refines s o Hs) as [Hwf Hsim]. rewrite Hsim.
  destruct (kv_impl s o) as [s' r]. simpl in *. destruct (IH s' Hwf) as [Hwf' Hsim']. rewrite Hsim'.
  by destruct (kv_run kv_impl s' ops).
Qed.

Lemma scan_loop_None now p nodes acc :
  scan_loop now p None nodes acc = acc ++ filter (fun kv => expired now kv.2 = false) (take_prefix p nodes).
Proof.
  revert acc. induction nodes as [|[k e] rest IH]; intros acc; simpl; [by rewrite app_nil_r|].
  destruct (starts_with p k); simpl; [|by rewrite app_nil_r]. rewrite filter_cons. simpl.
  destruct (expired now e); simpl; rewrite IH; [done|]. by rewrite <- app_assoc.
Qed.

Lemma scan_loop_Some now p n nodes acc : len acc < n ->
  scan_loop now p (Some n) nodes acc =
    take (Z.to_nat n) (acc ++ filter (fun kv => expired now kv.2 = false) (take_prefix p nodes)).
Proof.
  revert acc. induction nodes as [|[k e] rest IH]; intros acc Hacc; unfold len in *; simpl.
  - rewrite app_nil_r, take_ge; [done|lia].
  - destruct (starts_with p k); simpl; [|rewrite app_nil_r, take_ge; [done|lia]].
    rewrite filter_cons. simpl. destruct (expired now e); simpl; [by apply IH|].
    assert (length (acc ++ [(k, e)]) = S (length acc)) as Hl by (rewrite length_app; simpl; lia).
    match goal with |- _ = take _ (_ ++ _ :: ?F) =>
      replace (acc ++ (k, e) :: F) with ((acc ++ [(k, e)]) ++ F) by (by rewrite <- app_assoc) end.
    unfold len. rewrite Hl. case_if.
    + rewrite take_app_le, take_ge by lia. done.
    + rewrite IH by lia. done.
Qed.

Lemma Scan_None now p s : store_wf s ->
  Scan now p None s =
    filter (fun kv => expired now kv.2 = false) (filter (fun kv => starts_with p kv.1 = true) (data_ s)).
Proof. intros Hs. unfold Scan. by rewrite scan_loop_None, lower_bound_prefix. Qed.

Lemma scan_loop_nonpos now p n nodes : n <= 0 ->
  scan_loop now p (Some n) nodes [] = scan_loop now p (Some 1) nodes [].
Proof.
  intros Hn. induction nodes as [|[k e] rest IH]; [done|]. simpl.
  destruct (negb (starts_with p k)); [done|]. destruct (expired now e); [done|].
  change (len [(k, e)]) with 1. repeat case_if; try done; lia.
Qed.

Lemma Get_view now k s :
  Get now k s = match view s !! k with Some e => if expired now e then None else Some e | None => None end.
Proof. unfold Get, view. by rewrite map_find_gmap. Qed.

Lemma live_elem now k e s : store_wf s ->
  (k, e) ∈ filter (fun kv => expired now kv.2 = false) (data_ s) <-> Get now k s = Some e.
Proof.
  intros Hs. rewrite list_elem_of_filter, elem_of_to_gmap, Get_view by done. simpl. unfold view.
  destruct (to_gmap (data_ s) !! k) as [e'|]; [|split; [by intros [_ ?]|done]].
  destruct (expired now e') eqn:E; split; intros; destruct_and?; simplify_eq; try congruence; done.
Qed.

(** What a dump and a restore keep of an entry: times are lost, and the expiry
    is truncated to milliseconds. *)
Definition restored (t : Z) (e : KVEntry) : KVEntry :=
  mkKVEntry (kv_value e) (kv_version e) (kv_raftIndex e) t t
    ((fun x => x / 1000000 * 1000000) <$> kv_expiresAt e).

(** Entries a snapshot can carry: UTF-8 text, integers of their width, an
    expiry after the epoch. *)
Definition entry_ok (k : string) (e : KVEntry) : Prop :=
  utf8_valid k = true /\ utf8_valid (kv_value e) = true /\
  is_u64 (kv_version e) /\ is_u64 (kv_raftIndex e) /\
  match kv_expiresAt e with Some t => 0 <= t < 2 ^ 63 | None => True end.

Lemma expires_ms_i64 k e : entry_ok k e ->
  is_i64 (match kv_expiresAt e with Some t => to_ms t | None => -1 end).
Proof.
  intros (_ & _ & _ & _ & He). unfold is_i64, to_ms. destruct (kv_expiresAt e) as [t|]; [|lia].
  rewrite Z.quot_div_nonneg by lia. pose proof (Z.div_pos t 1000000).
  pose proof (Z.div_le_upper_bound t 1000000 t). lia.
Qed.

Lemma snapshot_item_wf k e : entry_ok k e -> json_wf (snapshot_item (k, e)) = true.
Proof.
  intros He. pose proof (expires_ms_i64 _ _ He). destruct He as (Hk & Hv & Hver & Hri & _).
  unfold snapshot_item. json_wf_tac.
Qed.

Lemma restore_snapshot_item t k e : entry_ok k e ->
  restore_item t (snapshot_item (k, e)) = Ok (k, restored t e).
Proof.
  intros He. pose proof (expires_ms_i64 _ _ He) as Hms. destruct He as (Hk & Hv & Hver & Hri & Hexp).
  unfold restore_item, snapshot_item.
  set (ms := match kv_expiresAt e with Some t => to_ms t | None => -1 end) in *.
  change (mret (k, mkKVEntry (kv_value e) (u64 (kv_version e)) (u64 (kv_raftIndex e)) t t
    (if 0 <=? i64 ms then Some (i64 (i64 ms * 1000000)) else None)) = Ok (k, restored t e)).
  rewrite !u64_small, i64_small by done. unfold restored. do 3 f_equal. subst ms. unfold to_ms in *.
  destruct (kv_expiresAt e) as [x|]; simpl; [|done].
  rewrite Z.quot_div_nonneg in * by lia. pose proof (Z.div_pos x 1000000).
  pose proof (Z.mul_div_le x 1000000). rewrite i64_small by (unfold is_i64; lia).
  destruct (Z.leb_spec 0 (x / 1000000)); [done|lia].
Qed.

Lemma restore_loop_spec clock l : forall i s0,
  Forall (fun kv => entry_ok kv.1 kv.2) l -> NoDup l.*1 -> store_wf s0 ->
  exists s1, restore_loop clock i (snapshot_item <$> l) s0 = (s1, Ok tt) /\
    store_wf s1 /\ watches_ s1 = watches_ s0 /\
    forall k, match map_find k l with
              | Some e => exists t, view s1 !! k = Some (restored t e)
              | None => view s1 !! k = view s0 !! k
              end.
Proof.
  induction l as [|[k e] l IH]; intros i s0 Hok Hnd Hs0; [by exists s0|].
  apply Forall_cons in Hok as [Hke Hok]. rewrite fmap_cons in Hnd. apply NoDup_cons in Hnd as [Hk Hnd].
  set (s' := set_data s0 (map_put k (restored (clock i) e) (data_ s0))).
  destruct (IH (S i) s') as (s1 & Hrun & Hwf & Hw & Hv); [done..| by apply map_put_sorted |].
  exists s1. split_and!; [| done | done |].
  - rewrite fmap_cons. cbn [restore_loop]. by rewrite restore_snapshot_item, bind_lift_Ok, bind_modify.
  - intros k'. specialize (Hv k'). unfold view in *. cbn [map_find].
    destruct (String.eqb_spec k' k) as [->|Hne].
    + assert (map_find k l = None) as Hn.
      { rewrite map_find_gmap. by apply not_elem_of_list_to_map. }
      rewrite Hn in Hv. exists (clock i). rewrite Hv. simpl. rewrite map_put_gmap. apply lookup_insert_eq.
    + simpl in Hv. rewrite map_put_gmap, lookup_insert_ne in Hv by done. done.
Qed.

Lemma NotifyWatchers_exact key entry s n :
  n ∈ NotifyWatchers key entry s <->
  exists id w, watches_ s !! id = Some w /\ watch_matches key w = true /\ n = mkNotification (w_cb w) key entry.
Proof.
  unfold NotifyWatchers. rewrite list_elem_of_fmap. split.
  - intros ([id w] & -> & [Hm Hin]%list_elem_of_filter). apply elem_of_map_to_list in Hin.
    by exists id, w.
  - intros (id & w & Hin & Hm & ->). exists (id, w). split; [done|].
    apply list_elem_of_filter. split; [done|]. by apply elem_of_map_to_list.
Qed.

(** ** Properties *)

(** C11: the store is a finite map.  Any sequence of [Put], [Delete], [CAS] and
    [PurgeExpired] calls on a new [KVStore] leaves the node list of [data_]
    sorted, returns the values of the abstract store and ends in its state;
    [Get] and [Size] read that state. *)
Theorem KVStore_refines_map ops now k :
  let '(s, rets) := kv_run kv_impl KVStore_new ops in
  let '(m, rets') := kv_run kv_spec ∅ ops in
  store_wf s /\ view s = m /\ rets = rets' /\ Size s = Z.of_nat (size m) /\
  Get now k s = match m !! k with Some e => if expired now e then None else Some e | None => None end.
Proof.
  pose proof (kv_run_refines ops KVStore_new I) as [Hwf Hsim].
  change (view KVStore_new) with (∅ : gmap string KVEntry) in Hsim. rewrite Hsim.
  destruct (kv_run kv_impl KVStore_new ops) as [s rets]. simpl in *.
  split_and!; [done..| | apply Get_view].
  unfold Size, len, view. by rewrite map_size_gmap.
Qed.

(** Prefix scan.  Without a limit [Scan] returns exactly the live entries
    whose key has the prefix, each once and in key order; a limit [n] keeps the
    first [max(1, n)] of them (the loop tests the limit after it has pushed). *)
Theorem Scan_correct now p s : store_wf s ->
  map_sorted (Scan now p None s) /\
  (forall k e, (k, e) ∈ Scan now p None s <->
     view s !! k = Some e /\ starts_with p k = true /\ expired now e = false) /\
  (forall n, Scan now p (Some n) s = take (Z.to_nat (Z.max 1 n)) (Scan now p None s)).
Proof.
  intros Hs. rewrite Scan_None by done. split_and!.
  - by apply filter_sorted, filter_sorted.
  - intros k e. rewrite !list_elem_of_filter, elem_of_to_gmap by done. simpl. unfold view. tauto.
  - intros n. rewrite <- Scan_None by done. unfold Scan. rewrite scan_loop_None.
    destruct (Z.le_gt_cases n 0).
    + rewrite scan_loop_nonpos, scan_loop_Some by (unfold len; simpl; lia). by rewrite Z.max_l by lia.
    + rewrite scan_loop_Some by (unfold len; simpl; lia). by rewrite Z.max_r by lia.
Qed.

Lemma Scan_correct_witness :
  let s := (kv_run kv_impl KVStore_new
    [op_put 5 "svc/b" "1" 1 None; op_put 6 "svc/a" "2" 2 (Some 1); op_put 7 "svd" "3" 3 None]).1 in
  (Scan 9000000 "svc/" None s).*1 = ["svc/b"%string] /\ map_sorted (Scan 8 "svc/" None s).
Proof.
  intros s. split; [by vm_compute|].
  apply (Scan_correct 8 "svc/" s). apply (kv_run_refines _ KVStore_new I).
Defined.

(** C39: snapshots.  Restoring a snapshot taken at [now] into any store yields
    exactly the entries live at [now], with their values, versions and Raft
    indexes; creation and update times are the time of the restore and the
    expiry loses its sub-millisecond part.  The watches are kept. *)
Theorem snapshot_roundtrip {J : JsonLib} {L : JsonLaws J} now clock s s0 : store_wf s ->
  (forall k e, Get now k s = Some e -> entry_ok k e) ->
  exists raw s1, TakeSnapshot now s = Ok raw /\ RestoreSnapshot clock raw s0 = (s1, Ok tt) /\
    store_wf s1 /\ watches_ s1 = watches_ s0 /\
    forall k, match Get now k s with
              | Some e => exists t, view s1 !! k = Some (restored t e)
              | None => view s1 !! k = None
              end.
Proof.
  intros Hs Hok. unfold TakeSnapshot.
  set (l := filter (fun kv => expired now kv.2 = false) (data_ s)).
  assert (Forall (fun kv => entry_ok kv.1 kv.2) l) as Hl.
  { apply Forall_forall. intros [k e] Hin. apply Hok. by apply live_elem. }
  destruct (dump_ok (JArr (snapshot_item <$> l))) as (raw & Hd & Hp & _).
  { simpl. apply forallb_forall. intros j Hj. apply list_elem_of_In, list_elem_of_fmap in Hj as ([k e] & -> & Hin).
    rewrite Forall_forall in Hl. apply snapshot_item_wf. by apply (Hl (k, e)). }
  assert (map_sorted l) as Hsl by (by apply filter_sorted).
  destruct (restore_loop_spec clock l 0 (set_data s0 [])) as (s1 & Hrun & Hwf & Hw & Hv);
    [done | by apply map_sorted_NoDup | done |].
  exists raw, s1. split_and!; [done | | done | done |].
  - unfold RestoreSnapshot. by rewrite Hp, bind_lift_Ok, bind_modify.
  - intros k. specialize (Hv k). rewrite map_find_gmap in Hv.
    destruct (Get now k s) as [e|] eqn:E.
    + apply live_elem, elem_of_to_gmap in E; [|done..]. fold l in E. by rewrite E in Hv.
    + destruct (to_gmap l !! k) as [e|] eqn:E'; [|done].
      apply elem_of_to_gmap, live_elem in E'; [congruence|done..].
Qed.

Lemma snapshot_roundtrip_witness :
  let s := (kv_run kv_impl KVStore_new
    [op_put 5 "a" "1" 1 None; op_put 6 "b" "2" 2 (Some 3)]).1 in
  exists raw s1, @TakeSnapshot RefJson 7 s = Ok raw /\
    @RestoreSnapshot RefJson (fun _ => 9) raw KVStore_new = (s1, Ok tt) /\
    exists t e, Get 7 "b" s = Some e /\ view s1 !! "b"%string = Some (restored t e).
Proof.
  intros s. destruct (@snapshot_roundtrip RefJson RefJson_laws 7 (fun _ => 9) s KVStore_new)
    as (raw & s1 & H1 & H2 & _ & _ & Hv).
  - apply (kv_run_refines _ KVStore_new I).
  - intros k e. rewrite Get_view. change (view s) with (<["a":=mkKVEntry "1" 1 1 5 5 None]>
      (<["b":=mkKVEntry "2" 1 2 6 6 (Some 3000006)]> (∅ : gmap string KVEntry)))%string.
    rewrite !lookup_insert, lookup_empty.
    repeat case_decide; subst; simpl; intros [= <-]; unfold entry_ok, is_u64; simpl; repeat split; lia.
  - exists raw, s1. split_and!; [done..|]. specialize (Hv "b"%string).
    assert (exists e, Get 7 "b" s = Some e) as [e He] by (eexists; by vm_compute).
    rewrite He in Hv. destruct Hv as [t Ht]. by exists t, e.
Defined.

Lemma kv_impl_watches s o : watches_ (kv_impl s o).1 = watches_ s.
Proof.
  destruct o; simpl; unfold Put, Delete, CAS, PurgeExpired; repeat case_match; simplify_eq; done.
Qed.

(** The calls of [NotifyWatchers] for one key, as a set. *)
Lemma notify_one (P : Prop) key entry s n : P ->
  (n ∈ NotifyWatchers key entry s <->
   exists id w k, watches_ s !! id = Some w /\ watch_matches k w = true /\ (k = key /\ P) /\
     n = mkNotification (w_cb w) k entry).
Proof.
  intros HP. rewrite NotifyWatchers_exact. split.
  - intros (id & w & ? & ? & ->). exists id, w, key. done.
  - intros (id & w & k & ? & ? & [-> _] & ->). exists id, w. done.
Qed.

(** Watches.  An operation calls the callback of a watch for a key exactly
    when it touches that key and the watch's key or prefix matches it, and
    passes the entry the key has afterwards (none if it is gone).  A [Delete]
    of an absent key and a failed [CAS] call nothing. *)
Theorem watch_notifications_exact s o n : store_wf s ->
  n ∈ kv_events s o <->
  exists id w k, watches_ s !! id = Some w /\ watch_matches k w = true /\ touches (view s) o k /\
    n = mkNotification (w_cb w) k (view (kv_impl s o).1 !! k).
Proof.
  intros Hs. destruct (kv_step_refines s o Hs) as [_ Hsim].
  destruct o as [now k v ri ttl|k ri|now k ex v ri|now]; simpl in *.
  - unfold Put in *. rewrite map_find_gmap in *. unfold view in *.
    destruct (to_gmap (data_ s) !! k) as [old|] eqn:E; simpl in *; rewrite map_put_gmap in *;
      rewrite (notify_one True) by done; setoid_rewrite lookup_insert; simpl;
      (split; intros (id & w & k' & ? & ? & Hk & ->); exists id, w, k'; [destruct Hk|]; subst;
       by rewrite decide_True).
  - unfold Delete in *. rewrite map_find_gmap in *. unfold view in *.
    destruct (to_gmap (data_ s) !! k) as [old|] eqn:E; simpl in *.
    + rewrite map_erase_gmap by done. rewrite (notify_one True) by done. simpl.
      setoid_rewrite lookup_delete.
      split; intros (id & w & k' & ? & ? & [-> ?] & ->); exists id, w, k; rewrite decide_True by done; eauto.
    + split; [by intros ?%not_elem_of_nil|]. intros (id & w & k' & ? & ? & [-> [? ?]] & ->). congruence.
  - unfold CAS in *. rewrite map_find_gmap in *. unfold view in *.
    destruct (to_gmap (data_ s) !! k) as [old|] eqn:E; simpl in *.
    + destruct (String.eqb_spec (kv_value old) ex); simpl in *.
      * rewrite map_put_gmap, (notify_one True) by done. simpl. setoid_rewrite lookup_insert.
        split; intros (id & w & k' & ? & ? & [-> ?] & ->); exists id, w, k; rewrite decide_True by done; eauto 8.
      * split; [by intros ?%not_elem_of_nil|]. intros (id & w & k' & ? & ? & [-> (? & ? & ?)] & ->). congruence.
    + split; [by intros ?%not_elem_of_nil|]. intros (id & w & k' & ? & ? & [-> (? & ? & ?)] & ->). congruence.
  - unfold PurgeExpired in *. rewrite purge_loop_spec in *. simpl in *. unfold view. simpl.
    rewrite to_gmap_filter, list_elem_of_join by done. split.
    + intros (l & Hn & (k & -> & Hk)%list_elem_of_fmap).
      apply list_elem_of_fmap in Hk as ([k' e] & -> & [Hexp Hin]%list_elem_of_filter).
      apply elem_of_to_gmap in Hin; [|done]. apply NotifyWatchers_exact in Hn as (id & w & Hw & Hm & ->).
      exists id, w, k'. split_and!; [done..|by exists e|].
      rewrite map_lookup_filter, Hin. simpl in *. rewrite Hexp. by simpl.
    + intros (id & w & k & Hw & Hm & (e & He & Hexp) & ->).
      eexists. split; [|apply list_elem_of_fmap; exists k; split; [done|];
        apply list_elem_of_fmap; exists (k, e); split; [done|]; apply list_elem_of_filter; split;
        [done | by apply elem_of_to_gmap]].
      rewrite map_lookup_filter, He. simpl. rewrite Hexp. simpl. apply NotifyWatchers_exact. by exists id, w.
Qed.

Lemma watch_notifications_exact_witness :
  let s := (AddWatch "svc/" true 7%nat KVStore_new).2 in
  mkNotification 7%nat "svc/a" (Some (mkKVEntry "v" 1 4 5 5 None)) ∈ kv_events s (op_put 5 "svc/a" "v" 4 None).
Proof.
  intros s. apply (watch_notifications_exact s (op_put 5 "svc/a" "v" 4 None)); [exact I|].
  exists 1, (mkWatch "svc/" true 7%nat), "svc/a"%string. by split_and!.
Defined.

(** C40: expiry.  A key written with a time to live is readable up to and
    including its deadline and not afterwards, as long as the deadline fits the
    clock's 64 bits. *)
Theorem Put_ttl_deadline now now' k v ri ttl s :
  0 <= now -> 0 <= ttl -> now + ttl * 1000000 < 2 ^ 63 ->
  Get now' k (Put now k v ri (Some ttl) s).1.2 =
    (if now' <=? now + ttl * 1000000 then view (Put now k v ri (Some ttl) s).1.2 !! k else None) /\
  (kv_value <$> view (Put now k v ri (Some ttl) s).1.2 !! k) = Some v.
Proof.
  intros Hn Ht Ho. rewrite Get_view. unfold Put, view. destruct (map_find k (data_ s)); simpl;
    rewrite map_put_gmap, lookup_insert_eq; (split; [|done]); unfold expired, add_ms; simpl;
    rewrite (i64_small (ttl * 1000000)), i64_small by (unfold is_i64; lia);
    repeat case_if; try lia; done.
Qed.

Lemma Put_ttl_deadline_witness :
  Get 5000001 "k" (Put 1 "k" "v" 1 (Some 5) KVStore_new).1.2 = Some (mkKVEntry "v" 1 1 1 1 (Some 5000001)) /\
  Get 5000002 "k" (Put 1 "k" "v" 1 (Some 5) KVStore_new).1.2 = None.
Proof.
  split.
  - rewrite (proj1 (Put_ttl_deadline 1 5000001 "k" "v" 1 5 KVStore_new ltac:(lia) ltac:(lia) ltac:(lia))). by vm_compute.
  - rewrite (proj1 (Put_ttl_deadline 1 5000002 "k" "v" 1 5 KVStore_new ltac:(lia) ltac:(lia) ltac:(lia))). by vm_compute.
Defined.

(** A deadline beyond the clock's range wraps into the past: the key is gone
    one nanosecond after it was written with a time to live of 292 years. *)
Example Put_ttl_overflow :
  let now := 1700000000 * 1000000000 in
  Get (now + 1) "k" (Put now "k" "v" 1 (Some 9223372036854) KVStore_new).1.2 = None.
Proof. by vm_compute. Qed.

(** Purging is invisible to readers.  [PurgeExpired] at [now] changes the
    result of no [Get] and no [Scan] made at [now] or later, returns how many
    entries it removed, and leaves no expired entry behind. *)
Theorem PurgeExpired_invisible now now' k p limit s : store_wf s -> now <= now' ->
  let '(purged, s', _) := PurgeExpired now s in
  Get now' k s' = Get now' k s /\ Scan now' p limit s' = Scan now' p limit s /\
  purged = Size s - Size s' /\ Forall (fun kv => expired now kv.2 = false) (data_ s').
Proof.
  intros Hs Hle. unfold PurgeExpired. rewrite purge_loop_spec.
  assert (forall e, expired now e = true -> expired now' e = true) as Hmono.
  { intros e. unfold expired. destruct (kv_expiresAt e); [|done]. intros ?%Z.ltb_lt. apply Z.ltb_lt. lia. }
  assert (store_wf (set_data s (filter (fun kv => expired now kv.2 = false) (data_ s)))) as Hs'
    by (by apply filter_sorted).
  split_and!.
  - rewrite !Get_view. unfold view. simpl. rewrite to_gmap_filter, map_lookup_filter by done.
    destruct (to_gmap (data_ s) !! k) as [e|]; simpl; [|done].
    destruct (expired now e) eqn:E; simpl; [by rewrite Hmono | done].
  - assert (Scan now' p None (set_data s (filter (fun kv => expired now kv.2 = false) (data_ s)))
      = Scan now' p None s) as Heq.
    { rewrite !Scan_None by done. simpl. rewrite !list_filter_filter. apply list_filter_iff.
      intros [k' e]. simpl. specialize (Hmono e). destruct (expired now e), (expired now' e); split; intros; destruct_and?; try done; by rewrite Hmono. }
    destruct limit as [n|]; [|done]. unfold Scan in *. rewrite !scan_loop_None in Heq.
    destruct (Z.le_gt_cases n 0).
    + rewrite !(scan_loop_nonpos _ _ n), !scan_loop_Some by (unfold len; simpl; lia). by rewrite Heq.
    + rewrite !scan_loop_Some by (unfold len; simpl; lia). by rewrite Heq.
  - unfold Size, len. simpl. rewrite length_fmap.
    assert (forall l : list (string * KVEntry),
      (length (filter (fun kv => expired now kv.2 = true) l)
       + length (filter (fun kv => expired now kv.2 = false) l))%nat = length l) as Hlen.
    { intros l. induction l as [|[k' e] l IH]; [done|]. rewrite !filter_cons. simpl.
      destruct (expired now e); simpl; lia. }
    specialize (Hlen (data_ s)). lia.
  - apply Forall_forall. by intros x [? _]%list_elem_of_filter.
Qed.

Lemma PurgeExpired_invisible_witness :
  let s := (kv_run kv_impl KVStore_new [op_put 0 "a" "1" 1 (Some 1); op_put 0 "b" "2" 2 None]).1 in
  let '(purged, s', _) := PurgeExpired 2000000 s in
  Get 3000000 "b" s' = Get 3000000 "b" s /\ purged = Size s - Size s' /\ Size s' = 1.
Proof.
  intros s. pose proof (PurgeExpired_invisible 2000000 3000000 "b" "" None s
    (proj1 (kv_run_refines _ KVStore_new I)) ltac:(lia)) as H.
  assert (Size (PurgeExpired 2000000 s).1.2 = 1) as Hsz by (by vm_compute).
  destruct (PurgeExpired 2000000 s) as [[purged s'] ev]. simpl in *. tauto.
Defined.
