(* ===== verification/RaftRPC.v ===== *)
(** * Log entries, RPC messages and the wire frame (src/raft/RaftRPC.{hpp,cpp})

    The records exchanged by the nodes, their JSON encodings, and the
    [type|seq|length|payload] frame they travel in. *)
From S2P Require Import Prelude CxxString CxxMap Json.
From Stdlib Require Import ZArith Lia Ascii String Strings.Byte.
From stdpp Require Import prelude gmap strings.
#[local] Open Scope Z_scope.

(** [enum class OpType : uint8_t]; [static_cast] admits any byte. *)
Inductive OpType : Type := OpPut | OpDelete | OpNoOp | OpOther (n : Z).

#[global] Instance OpType_eq_dec : EqDecision OpType.
Proof. solve_decision. Defined.

Definition op_to_int (o : OpType) : Z :=
  match o with OpPut => 1 | OpDelete => 2 | OpNoOp => 3 | OpOther n => n end.
Definition op_of_int (z : Z) : OpType :=
  let b := u8 z in
  if b =? 1 then OpPut else if b =? 2 then OpDelete else if b =? 3 then OpNoOp else OpOther b.

Record LogEntry := mkLogEntry {
  le_term : Z;
  le_index : Z;
  le_opType : OpType;
  le_key : string;
  le_value : string;
  le_ttl_ms : Z;
  le_command : string;
}.

#[global] Instance LogEntry_eq_dec : EqDecision LogEntry.
Proof. solve_decision. Defined.

(** A default-constructed [LogEntry]. *)
Definition LogEntry_default : LogEntry := mkLogEntry 0 0 OpNoOp "" "" (-1) "".

Record AppendEntriesRequest := mkAppendEntriesRequest {
  aq_term : Z;
  aq_leaderId : string;
  aq_prevLogIndex : Z;
  aq_prevLogTerm : Z;
  aq_entries : list LogEntry;
  aq_leaderCommit : Z;
}.

#[global] Instance AppendEntriesRequest_eq_dec : EqDecision AppendEntriesRequest.
Proof. solve_decision. Defined.

Record AppendEntriesResponse := mkAppendEntriesResponse {
  ar_term : Z;
  ar_success : bool;
  ar_conflictIndex : Z;
  ar_conflictTerm : Z;
}.

Record RequestVoteRequest := mkRequestVoteRequest {
  vq_term : Z;
  vq_candidateId : string;
  vq_lastLogIndex : Z;
  vq_lastLogTerm : Z;
}.

Record RequestVoteResponse := mkRequestVoteResponse {
  vr_term : Z;
  vr_voteGranted : bool;
}.

Section Messages.
Context `{JsonLib}.
#[local] Open Scope string_scope.
#[local] Open Scope Z_scope.

(** [LogEntry::NoOp] *)
Definition LogEntry_NoOp (term index : Z) : Res LogEntry :=
  command ← dump (jobj [("op", JStr "noop")]);
  mret (mkLogEntry term index OpNoOp "" "" (-1) command).

Definition LogEntry_json (e : LogEntry) : json :=
  jobj [("term", JInt (le_term e)); ("index", JInt (le_index e));
        ("op", JInt (op_to_int (le_opType e))); ("key", JStr (le_key e));
        ("value", JStr (le_value e)); ("ttl_ms", JInt (le_ttl_ms e));
        ("command", JStr (le_command e))].

Definition LogEntry_Serialize (e : LogEntry) : Res string := dump (LogEntry_json e).

Definition LogEntry_Deserialize (s : string) : Res LogEntry :=
  j ← parse s;
  term ← (json_at j "term" ≫= get_u64);
  index ← (json_at j "index" ≫= get_u64);
  op ← (json_at j "op" ≫= get_int);
  key ← json_value get_str j "key" "";
  value ← json_value get_str j "value" "";
  ttl ← json_value get_i64 j "ttl_ms" (-1);
  command ← json_value get_str j "command" "";
  mret (mkLogEntry term index (op_of_int op) key value ttl command).

Definition AppendEntriesRequest_Serialize (r : AppendEntriesRequest) : Res string :=
  entriesJson ← mapM (fun e => s ← LogEntry_Serialize e; parse s) (aq_entries r);
  dump (jobj [("term", JInt (aq_term r)); ("leader_id", JStr (aq_leaderId r));
              ("prev_log_index", JInt (aq_prevLogIndex r)); ("prev_log_term", JInt (aq_prevLogTerm r));
              ("entries", JArr entriesJson); ("leader_commit", JInt (aq_leaderCommit r))]).

Definition AppendEntriesRequest_Deserialize (s : string) : Res AppendEntriesRequest :=
  j ← parse s;
  term ← (json_at j "term" ≫= get_u64);
  leaderId ← (json_at j "leader_id" ≫= get_str);
  prevLogIndex ← (json_at j "prev_log_index" ≫= get_u64);
  prevLogTerm ← (json_at j "prev_log_term" ≫= get_u64);
  leaderCommit ← (json_at j "leader_commit" ≫= get_u64);
  entriesJson ← json_at j "entries";
  entries ← mapM (fun e => s ← dump e; LogEntry_Deserialize s) (json_items entriesJson);
  mret (mkAppendEntriesRequest term leaderId prevLogIndex prevLogTerm entries leaderCommit).

Definition AppendEntriesResponse_Serialize (r : AppendEntriesResponse) : Res string :=
  dump (jobj [("term", JInt (ar_term r)); ("success", JBool (ar_success r));
              ("conflict_index", JInt (ar_conflictIndex r)); ("conflict_term", JInt (ar_conflictTerm r))]).

Definition AppendEntriesResponse_Deserialize (s : string) : Res AppendEntriesResponse :=
  j ← parse s;
  term ← (json_at j "term" ≫= get_u64);
  success ← (json_at j "success" ≫= get_bool);
  conflictIndex ← json_value get_u64 j "conflict_index" 0;
  conflictTerm ← json_value get_u64 j "conflict_term" 0;
  mret (mkAppendEntriesResponse term success conflictIndex conflictTerm).

Definition RequestVoteRequest_Serialize (r : RequestVoteRequest) : Res string :=
  dump (jobj [("term", JInt (vq_term r)); ("candidate_id", JStr (vq_candidateId r));
              ("last_log_index", JInt (vq_lastLogIndex r)); ("last_log_term", JInt (vq_lastLogTerm r))]).

Definition RequestVoteRequest_Deserialize (s : string) : Res RequestVoteRequest :=
  j ← parse s;
  term ← (json_at j "term" ≫= get_u64);
  candidateId ← (json_at j "candidate_id" ≫= get_str);
  lastLogIndex ← (json_at j "last_log_index" ≫= get_u64);
  lastLogTerm ← (json_at j "last_log_term" ≫= get_u64);
  mret (mkRequestVoteRequest term candidateId lastLogIndex lastLogTerm).

Definition RequestVoteResponse_Serialize (r : RequestVoteResponse) : Res string :=
  dump (jobj [("term", JInt (vr_term r)); ("vote_granted", JBool (vr_voteGranted r))]).

Definition RequestVoteResponse_Deserialize (s : string) : Res RequestVoteResponse :=
  j ← parse s;
  term ← (json_at j "term" ≫= get_u64);
  voteGranted ← (json_at j "vote_granted" ≫= get_bool);
  mret (mkRequestVoteResponse term voteGranted).
End Messages.

(** ** Frames *)

(** [enum class RpcType : uint8_t] *)
Inductive RpcType : Type :=
  AppendEntriesReq | AppendEntriesResp | RequestVoteReq | RequestVoteResp | RpcOther (b : byte).

Definition rpc_to_byte (t : RpcType) : byte :=
  match t with
  | AppendEntriesReq => x01 | AppendEntriesResp => x02
  | RequestVoteReq => x03 | RequestVoteResp => x04
  | RpcOther b => b
  end.
Definition rpc_of_byte (b : byte) : RpcType :=
  match b with
  | x01 => AppendEntriesReq | x02 => AppendEntriesResp
  | x03 => RequestVoteReq | x04 => RequestVoteResp
  | _ => RpcOther b
  end.

Record RpcFrame := mkRpcFrame {
  fr_type : RpcType;
  fr_seq : Z;
  fr_payload : string;
}.

(** [RpcFrame::Encode].  The vector has [9 + payloadLen] bytes, computed in 32
    bits; when that sum wraps, the copy of the payload leaves the vector and
    the result is [None]. *)
Definition Encode (f : RpcFrame) : option (list byte) :=
  let payload := list_byte_of_string (fr_payload f) in
  let payloadLen := u32 (len payload) in
  if 9 + payloadLen <=? u32 (9 + payloadLen) then
    Some (rpc_to_byte (fr_type f) :: le32 (fr_seq f) ++ le32 payloadLen
          ++ take (Z.to_nat payloadLen) payload)
  else None.

(** What [RpcFrame::Decode] does on a buffer: report a partial frame, fill the
    frame and the consumed count, or read past the end of the buffer. *)
Inductive DecodeResult : Type :=
| DecodePartial
| DecodeFrame (out : RpcFrame) (consumed : Z)
| DecodeOutOfBounds.

Definition Decode (data : list byte) : DecodeResult :=
  if len data <? 9 then DecodePartial
  else
    let payloadLen := le32_dec (drop 5 data) in
    if len data <? u32 (9 + payloadLen) then DecodePartial
    else if len data <? 9 + payloadLen then DecodeOutOfBounds
    else DecodeFrame
      (mkRpcFrame (rpc_of_byte (default x00 (data !! 0%nat))) (le32_dec (drop 1 data))
         (string_of_list_byte (take (Z.to_nat payloadLen) (drop 9 data))))
      (u32 (9 + payloadLen)).

(** ** Values of the declared widths *)

Definition op_ok (o : OpType) : Prop :=
  match o with OpOther n => 0 <= n < 256 /\ n <> 1 /\ n <> 2 /\ n <> 3 | _ => True end.

Definition LogEntry_ok (e : LogEntry) : Prop :=
  is_u64 (le_term e) /\ is_u64 (le_index e) /\ op_ok (le_opType e) /\
  utf8_valid (le_key e) = true /\ utf8_valid (le_value e) = true /\
  is_i64 (le_ttl_ms e) /\ utf8_valid (le_command e) = true.

Definition AppendEntriesRequest_ok (r : AppendEntriesRequest) : Prop :=
  is_u64 (aq_term r) /\ utf8_valid (aq_leaderId r) = true /\ is_u64 (aq_prevLogIndex r) /\
  is_u64 (aq_prevLogTerm r) /\ Forall LogEntry_ok (aq_entries r) /\ is_u64 (aq_leaderCommit r).

Definition AppendEntriesResponse_ok (r : AppendEntriesResponse) : Prop :=
  is_u64 (ar_term r) /\ is_u64 (ar_conflictIndex r) /\ is_u64 (ar_conflictTerm r).

Definition RequestVoteRequest_ok (r : RequestVoteRequest) : Prop :=
  is_u64 (vq_term r) /\ utf8_valid (vq_candidateId r) = true /\
  is_u64 (vq_lastLogIndex r) /\ is_u64 (vq_lastLogTerm r).

Definition RpcFrame_ok (f : RpcFrame) : Prop :=
  is_u32 (fr_seq f) /\ str_size (fr_payload f) < 2 ^ 32 - 9 /\ fr_type f = rpc_of_byte (rpc_to_byte (fr_type f)).

(** ** Lemmas *)

Lemma op_of_to_int o : op_ok o -> op_of_int (op_to_int o) = o.
Proof.
  destruct o as [| | |n]; [done..|]. intros (Hn & H1 & H2 & H3). unfold op_of_int, u8. simpl.
  rewrite Z.mod_small by lia. repeat case_if; try lia. done.
Qed.

Lemma op_to_int_u64 o : op_ok o -> is_u64 (op_to_int o).
Proof. unfold is_u64. destruct o; simpl; lia. Qed.

Lemma LogEntry_json_wf e : LogEntry_ok e -> json_wf (LogEntry_json e) = true.
Proof.
  intros (? & ? & ?%op_to_int_u64 & ? & ? & ? & ?). unfold LogEntry_json. json_wf_tac.
Qed.

Section MessageLemmas.
Context {J : JsonLib} {L : JsonLaws J}.

(** Serialising never fails on an entry of the declared widths. *)
Lemma LogEntry_Serialize_ok e : LogEntry_ok e ->
  exists s, LogEntry_Serialize e = Ok s /\ parse s = Ok (LogEntry_json e) /\
    LogEntry_Deserialize s = Ok e /\ utf8_valid s = true.
Proof.
  intros He. destruct (dump_ok (LogEntry_json e)) as (s & Hd & Hp & Hu); [by apply LogEntry_json_wf|].
  exists s. split_and!; [done | done | | done]. unfold LogEntry_Deserialize. rewrite Hp.
  destruct He as (Ht & Hi & Ho & Hk & Hv & Httl & Hc). destruct e as [t i o k v ttl c]. simpl in *.
  change (Ok (mkLogEntry (u64 t) (u64 i) (op_of_int (op_to_int o)) k v (i64 ttl) c) = Ok (mkLogEntry t i o k v ttl c)).
  by rewrite !u64_small, i64_small, op_of_to_int.
Qed.

Lemma entries_serialize l : Forall LogEntry_ok l ->
  mapM (fun e => s ← LogEntry_Serialize e; parse s) l = Ok (LogEntry_json <$> l).
Proof.
  induction 1 as [|e l He Hl IH]; [done|]. cbn [mapM].
  destruct (LogEntry_Serialize_ok e He) as (s & Hs & Hp & _). rewrite Hs. cbn [mbind Res_bind].
  rewrite Hp. cbn [mbind Res_bind]. rewrite IH. done.
Qed.

Lemma entries_deserialize l : Forall LogEntry_ok l ->
  mapM (fun e => s ← dump e; LogEntry_Deserialize s) (LogEntry_json <$> l) = Ok l.
Proof.
  induction 1 as [|e l He Hl IH]; [done|]. rewrite fmap_cons. cbn [mapM].
  destruct (LogEntry_Serialize_ok e He) as (s & Hs & _ & Hd & _). unfold LogEntry_Serialize in Hs.
  rewrite Hs. cbn [mbind Res_bind]. rewrite Hd. cbn [mbind Res_bind]. rewrite IH. done.
Qed.

Lemma AppendEntriesRequest_rt r : AppendEntriesRequest_ok r ->
  exists s, AppendEntriesRequest_Serialize r = Ok s /\ AppendEntriesRequest_Deserialize s = Ok r.
Proof.
  intros (Ht & Hl & Hpi & Hpt & He & Hc). unfold AppendEntriesRequest_Serialize.
  rewrite entries_serialize by done. cbn [mbind Res_bind]. destruct r as [t l pi pt es c]; simpl in *.
  edestruct dump_ok as (s & Hd & Hp & _); [|exists s; split; [exact Hd|]].
  - json_wf_tac. simpl. apply forallb_forall. intros j Hj.
    apply list_elem_of_In, list_elem_of_fmap in Hj as (e & -> & Hin).
    rewrite Forall_forall in He. by apply LogEntry_json_wf, He.
  - unfold AppendEntriesRequest_Deserialize. rewrite Hp.
    change ((entries ← mapM (fun e => s ← dump e; LogEntry_Deserialize s) (LogEntry_json <$> es);
      mret (mkAppendEntriesRequest (u64 t) l (u64 pi) (u64 pt) entries (u64 c)))
      = Ok (mkAppendEntriesRequest t l pi pt es c)).
    rewrite entries_deserialize by done. cbn [mbind Res_bind]. by rewrite !u64_small.
Qed.

Lemma AppendEntriesResponse_rt r : AppendEntriesResponse_ok r ->
  exists s, AppendEntriesResponse_Serialize r = Ok s /\ AppendEntriesResponse_Deserialize s = Ok r.
Proof.
  destruct r as [t b ci ct]. intros (Ht & Hci & Hct). simpl in *. unfold AppendEntriesResponse_Serialize.
  edestruct dump_ok as (s & Hd & Hp & _); [|exists s; split; [exact Hd|]]; [json_wf_tac|].
  unfold AppendEntriesResponse_Deserialize. rewrite Hp. simpl.
  change (Ok (mkAppendEntriesResponse (u64 t) b (u64 ci) (u64 ct)) = Ok (mkAppendEntriesResponse t b ci ct)).
  by rewrite !u64_small.
Qed.

Lemma RequestVoteRequest_rt r : RequestVoteRequest_ok r ->
  exists s, RequestVoteRequest_Serialize r = Ok s /\ RequestVoteRequest_Deserialize s = Ok r.
Proof.
  destruct r as [t c li lt]. intros (Ht & Hc & Hli & Hlt). simpl in *. unfold RequestVoteRequest_Serialize.
  edestruct dump_ok as (s & Hd & Hp & _); [|exists s; split; [exact Hd|]]; [json_wf_tac|].
  unfold RequestVoteRequest_Deserialize. rewrite Hp. simpl.
  change (Ok (mkRequestVoteRequest (u64 t) c (u64 li) (u64 lt)) = Ok (mkRequestVoteRequest t c li lt)).
  by rewrite !u64_small.
Qed.

Lemma RequestVoteResponse_rt r : is_u64 (vr_term r) ->
  exists s, RequestVoteResponse_Serialize r = Ok s /\ RequestVoteResponse_Deserialize s = Ok r.
Proof.
  destruct r as [t b]. intros Ht. simpl in *. unfold RequestVoteResponse_Serialize.
  edestruct dump_ok as (s & Hd & Hp & _); [|exists s; split; [exact Hd|]]; [json_wf_tac|].
  unfold RequestVoteResponse_Deserialize. rewrite Hp. simpl.
  change (Ok (mkRequestVoteResponse (u64 t) b) = Ok (mkRequestVoteResponse t b)).
  by rewrite u64_small.
Qed.
End MessageLemmas.

Lemma rpc_to_of_byte b : rpc_to_byte (rpc_of_byte b) = b.
Proof. by destruct b. Qed.

(** Encoding a frame whose payload length does not wrap. *)
Lemma Encode_ok f : RpcFrame_ok f ->
  Encode f = Some (rpc_to_byte (fr_type f) :: le32 (fr_seq f) ++ le32 (str_size (fr_payload f))
                   ++ list_byte_of_string (fr_payload f)).
Proof.
  intros (_ & Hsz & _). unfold Encode, str_size, len in *. rewrite length_list_byte.
  set (n := Z.of_nat (String.length (fr_payload f))) in *.
  assert (0 <= n) by (subst n; lia).
  rewrite !u32_small by (unfold is_u32; lia). rewrite Z.leb_refl. do 4 f_equal.
  subst n. rewrite Nat2Z.id. apply take_ge. by rewrite length_list_byte.
Qed.

(** Reading back the header of a frame. *)
Lemma Decode_header t seq n rest : is_u32 n ->
  le32_dec (drop 5 (t :: le32 seq ++ le32 n ++ rest)) = n.
Proof. intros Hn. change (drop 5 (t :: le32 seq ++ le32 n ++ rest)) with (le32 n ++ rest). by apply le32_dec_le32. Qed.

Lemma Decode_long t seq n rest : is_u32 seq -> is_u32 n -> 9 + n < 2 ^ 32 -> n <= len rest ->
  Decode (t :: le32 seq ++ le32 n ++ rest) =
    DecodeFrame (mkRpcFrame (rpc_of_byte t) seq (string_of_list_byte (take (Z.to_nat n) rest))) (9 + n).
Proof.
  intros Hs Hn Hb Hl. unfold Decode. rewrite Decode_header by done.
  assert (len (t :: le32 seq ++ le32 n ++ rest) = 9 + len rest) as Hlen.
  { rewrite len_cons, !len_app. unfold len at 1 2. rewrite !length_le32. lia. }
  rewrite Hlen. pose proof (len_nonneg rest). destruct Hn.
  rewrite (u32_small (9 + n)) by (unfold is_u32; lia).
  repeat (case_if; [lia|]). f_equal. f_equal.
  change (drop 1 (t :: le32 seq ++ le32 n ++ rest)) with (le32 seq ++ (le32 n ++ rest)).
  by apply le32_dec_le32.
Qed.

Lemma Decode_short t seq n rest : is_u32 n -> 9 + n < 2 ^ 32 -> len rest < n ->
  Decode (t :: le32 seq ++ le32 n ++ rest) = DecodePartial.
Proof.
  intros Hn Hb Hl. unfold Decode. case_if; [done|]. rewrite Decode_header by done.
  assert (len (t :: le32 seq ++ le32 n ++ rest) = 9 + len rest) as Hlen.
  { rewrite len_cons, !len_app. unfold len at 1 2. rewrite !length_le32. lia. }
  rewrite Hlen. destruct Hn. rewrite u32_small by (unfold is_u32; lia). case_if; [done|lia].
Qed.

(** The bytes of a frame whose payload length does not wrap. *)
Definition frame_bytes (f : RpcFrame) : list byte :=
  rpc_to_byte (fr_type f) :: le32 (fr_seq f) ++ le32 (str_size (fr_payload f)) ++ list_byte_of_string (fr_payload f).

Lemma length_frame_bytes f : length (frame_bytes f) = (9 + String.length (fr_payload f))%nat.
Proof. unfold frame_bytes. rewrite length_cons, !length_app, !length_le32, length_list_byte. lia. Qed.

Lemma Decode_frame f rest : RpcFrame_ok f -> Decode (frame_bytes f ++ rest) = DecodeFrame f (len (frame_bytes f)).
Proof.
  intros (Hseq & Hsz & Ht). unfold frame_bytes. set (p := list_byte_of_string (fr_payload f)).
  assert (str_size (fr_payload f) = len p) as Hp by (unfold str_size, len, p; by rewrite length_list_byte).
  pose proof (len_nonneg p). assert (is_u32 (len p)) by (unfold is_u32; lia). rewrite Hp in *.
  rewrite <- app_comm_cons, <- !app_assoc.
  rewrite Decode_long by (try done; rewrite ?len_app; pose proof (len_nonneg rest); lia). f_equal.
  - rewrite <- Ht. unfold len. rewrite Nat2Z.id, take_app_length.
    unfold p. rewrite string_of_list_byte_of_string. by destruct f.
  - rewrite len_cons, !len_app. unfold len at 2 3. rewrite !length_le32. lia.
Qed.

Lemma Decode_prefix f n : RpcFrame_ok f -> (n < length (frame_bytes f))%nat -> Decode (take n (frame_bytes f)) = DecodePartial.
Proof.
  intros (Hseq & Hsz & Ht) Hn. rewrite length_frame_bytes in Hn. unfold frame_bytes. set (p := list_byte_of_string (fr_payload f)).
  assert (str_size (fr_payload f) = len p) as Hp by (unfold str_size, len, p; by rewrite length_list_byte).
  pose proof (len_nonneg p). assert (is_u32 (len p)) by (unfold is_u32; lia). rewrite Hp in *.
  destruct (decide (n < 9)%nat) as [Hs|Hge].
  { unfold Decode. rewrite (proj2 (Z.ltb_lt _ _)); [done|]. unfold len. rewrite length_take. lia. }
  replace n with (S (4 + (4 + (n - 9))))%nat by lia.
  rewrite firstn_cons, <- (length_le32 (fr_seq f)) at 1. rewrite take_app_add, <- (length_le32 (len p)) at 1.
  rewrite take_app_add. apply Decode_short; [done | lia |].
  unfold len, p. rewrite length_take, length_list_byte. lia.
Qed.

(** ** Properties *)

(** Messages survive the wire.  Every log entry and every RPC message whose
    integers have their declared width and whose strings are UTF-8 serialises,
    and deserialises to itself. *)
Theorem rpc_message_roundtrip {J : JsonLib} {L : JsonLaws J} :
  (forall e, LogEntry_ok e -> exists s, LogEntry_Serialize e = Ok s /\ LogEntry_Deserialize s = Ok e) /\
  (forall r, AppendEntriesRequest_ok r ->
     exists s, AppendEntriesRequest_Serialize r = Ok s /\ AppendEntriesRequest_Deserialize s = Ok r) /\
  (forall r, AppendEntriesResponse_ok r ->
     exists s, AppendEntriesResponse_Serialize r = Ok s /\ AppendEntriesResponse_Deserialize s = Ok r) /\
  (forall r, RequestVoteRequest_ok r ->
     exists s, RequestVoteRequest_Serialize r = Ok s /\ RequestVoteRequest_Deserialize s = Ok r) /\
  (forall r, is_u64 (vr_term r) ->
     exists s, RequestVoteResponse_Serialize r = Ok s /\ RequestVoteResponse_Deserialize s = Ok r).
Proof.
  split_and!; intros; [|by apply AppendEntriesRequest_rt|by apply AppendEntriesResponse_rt
    |by apply RequestVoteRequest_rt|by apply RequestVoteResponse_rt].
  destruct (LogEntry_Serialize_ok e) as (s & ? & _ & ? & _); [done|]. by exists s.
Qed.

Lemma rpc_message_roundtrip_witness :
  exists s, @AppendEntriesRequest_Serialize RefJson
      (mkAppendEntriesRequest 3 "n1" 4 2 [mkLogEntry 3 5 OpPut "k" "v" (-1) "{}"] 4) = Ok s /\
    @AppendEntriesRequest_Deserialize RefJson s =
      Ok (mkAppendEntriesRequest 3 "n1" 4 2 [mkLogEntry 3 5 OpPut "k" "v" (-1) "{}"] 4).
Proof.
  refine (proj1 (proj2 (@rpc_message_roundtrip RefJson RefJson_laws)) _ _).
  unfold AppendEntriesRequest_ok, is_u64. simpl. split_and!; try lia.
  constructor; [|constructor]. unfold LogEntry_ok, is_u64, is_i64. simpl. split_and!; try done; lia.
Defined.

(** Frames survive the stream.  A frame encodes whenever its payload is
    shorter than 2^32 - 9 bytes; decoding a buffer that starts with it yields
    the frame and its exact length, whatever follows; and no strict prefix of
    the encoding decodes to anything. *)
Lemma frame_roundtrip f rest : RpcFrame_ok f ->
  exists buf, Encode f = Some buf /\ Decode (buf ++ rest) = DecodeFrame f (len buf) /\
    (forall n, (n < length buf)%nat -> Decode (take n buf) = DecodePartial).
Proof.
  intros Hf. exists (frame_bytes f). split_and!; [by apply Encode_ok|by apply Decode_frame|].
  intros n Hn. by apply Decode_prefix.
Qed.

Example frame_roundtrip_example :
  Decode (default [] (Encode (mkRpcFrame RequestVoteReq 7 "{}")) ++ [x01; x02]) =
    DecodeFrame (mkRpcFrame RequestVoteReq 7 "{}") 11.
Proof.
  destruct (frame_roundtrip (mkRpcFrame RequestVoteReq 7 "{}") [x01; x02]) as (buf & E & H & _).
  - repeat split; simpl; lia.
  - rewrite E. simpl. rewrite H. assert (buf = default [] (Encode (mkRpcFrame RequestVoteReq 7 "{}"))) as ->
      by (by rewrite E). by vm_compute.
Defined.

(** The length check of [Decode] is not sufficient.  For every buffer of at
    least nine bytes whose length field is within nine of 2^32, the 32-bit sum
    [9 + payloadLen] wraps, the check passes although the payload is not in the
    buffer, and the copy reads past its end. *)
Lemma Decode_length_wrap data :
  9 <= len data < 2 ^ 32 -> 2 ^ 32 - 9 <= le32_dec (drop 5 data) ->
  Decode data = DecodeOutOfBounds.
Proof.
  intros [H9 Hmax] Hl. pose proof (le32_dec_range (drop 5 data)) as [_ Hr]. unfold Decode.
  assert (u32 (9 + le32_dec (drop 5 data)) = 9 + le32_dec (drop 5 data) - 2 ^ 32) as ->.
  { unfold u32. replace (9 + le32_dec (drop 5 data)) with (9 + le32_dec (drop 5 data) - 2 ^ 32 + 1 * 2 ^ 32) at 1 by lia.
    rewrite Z.mod_add by done. rewrite Z.mod_small; lia. }
  repeat (case_if; [lia|]). case_if; [done|lia].
Qed.

Lemma Decode_length_wrap_witness :
  Decode [x01; x00; x00; x00; x00; xff; xff; xff; xff] = DecodeOutOfBounds.
Proof. apply Decode_length_wrap; vm_compute; intuition congruence. Defined.
