(* ===== verification/Crc32.v ===== *)
(** * The checksum of the write-ahead log (src/storage/WriteAheadLog.cpp)

    The table-driven CRC-32 of [WriteAheadLog::Crc32], the bit-serial division
    it optimises ([crc32_bitwise]), and what the checksum detects. *)
From S2P Require Import Prelude.
From Stdlib Require Import ZArith Lia Strings.Byte.
From stdpp Require Import prelude.
#[local] Open Scope Z_scope.

(** One round of the inner loop of [BuildCrc32Table]. *)
Definition crc_round (crc : Z) : Z :=
  if Z.land crc 1 =? 0 then Z.shiftr crc 1 else Z.lxor 0xEDB88320 (Z.shiftr crc 1).

Definition crc_rounds8 (crc : Z) : Z := Nat.iter 8 crc_round crc.

(** [crc32_table] as [BuildCrc32Table] leaves it. *)
Definition BuildCrc32Table : list Z := map (fun i => crc_rounds8 (Z.of_nat i)) (seq 0 256).
Definition crc32_table : list Z := BuildCrc32Table.

(** The body of the loop of [Crc32]. *)
Definition crc_byte (crc : Z) (b : byte) : Z :=
  Z.lxor (default 0 (crc32_table !! Z.to_nat (Z.land (Z.lxor crc (Z_of_byte b)) 0xFF))) (Z.shiftr crc 8).

Definition Crc32 (data : list byte) : Z :=
  Z.lxor (fold_left crc_byte data 0xFFFFFFFF) 0xFFFFFFFF.

(** The definition of CRC-32 (IEEE 802.3, reflected): divide bit by bit. *)
Definition crc32_bitwise (data : list byte) : Z :=
  Z.lxor (fold_left (fun crc b => crc_rounds8 (Z.lxor crc (Z_of_byte b))) data 0xFFFFFFFF) 0xFFFFFFFF.

(** ** Lemmas *)

Lemma land_1_parity z : Z.land z 1 = Z.b2z (Z.odd z).
Proof. rewrite <- Z.bit0_odd. change 1 with (Z.ones 1). rewrite Z.land_ones by lia. change (2^1) with 2. by rewrite Z.bit0_mod. Qed.

Lemma crc_round_odd z :
  crc_round z = if Z.odd z then Z.lxor 0xEDB88320 (Z.shiftr z 1) else Z.shiftr z 1.
Proof. unfold crc_round. rewrite land_1_parity. by destruct (Z.odd z). Qed.

(** Division is linear. *)
Lemma crc_round_lxor a b : crc_round (Z.lxor a b) = Z.lxor (crc_round a) (crc_round b).
Proof.
  rewrite !crc_round_odd, <- !Z.bit0_odd, Z.lxor_spec, Z.shiftr_lxor.
  set (p := 0xEDB88320). set (x := Z.shiftr a 1). set (y := Z.shiftr b 1).
  destruct (Z.testbit a 0), (Z.testbit b 0); simpl.
  - rewrite (Z.lxor_comm p x), Z.lxor_assoc, <- (Z.lxor_assoc p p), Z.lxor_nilpotent, Z.lxor_0_l. done.
  - by rewrite Z.lxor_assoc.
  - rewrite (Z.lxor_comm p y), <- (Z.lxor_assoc x), (Z.lxor_comm p). done.
  - done.
Qed.

Lemma crc_rounds8_lxor a b : crc_rounds8 (Z.lxor a b) = Z.lxor (crc_rounds8 a) (crc_rounds8 b).
Proof. unfold crc_rounds8. simpl. by rewrite !crc_round_lxor. Qed.

Lemma crc_round_even x : crc_round (2 * x) = x.
Proof.
  rewrite crc_round_odd, Z.odd_mul. simpl. rewrite Z.shiftr_div_pow2 by lia.
  change (2 ^ 1) with 2. rewrite Z.mul_comm. by apply Z.div_mul.
Qed.

Lemma crc_rounds8_shift x : crc_rounds8 (Z.shiftl x 8) = x.
Proof.
  rewrite Z.shiftl_mul_pow2 by lia. change (2 ^ 8) with (2 * (2 * (2 * (2 * (2 * (2 * (2 * 2))))))).
  replace (x * (2 * (2 * (2 * (2 * (2 * (2 * (2 * 2)))))))) with
    (2 * (2 * (2 * (2 * (2 * (2 * (2 * (2 * x)))))))) by lia.
  unfold crc_rounds8. simpl Nat.iter. by rewrite !crc_round_even.
Qed.

Lemma split_low8 x : x = Z.lxor (Z.land x 0xFF) (Z.shiftl (Z.shiftr x 8) 8).
Proof.
  apply Z.bits_inj'. intros n Hn. change 0xFF with (Z.ones 8).
  rewrite Z.lxor_spec, Z.land_spec, Z.testbit_ones_nonneg, Z.shiftl_spec by lia.
  destruct (Z.ltb_spec n 8).
  - rewrite (Z.testbit_neg_r _ (n - 8)) by lia. by rewrite andb_true_r, xorb_false_r.
  - rewrite Z.shiftr_spec by lia. replace (n - 8 + 8) with n by lia. by rewrite andb_false_r, xorb_false_l.
Qed.

Lemma shiftr8_byte b : Z.shiftr (Z_of_byte b) 8 = 0.
Proof.
  pose proof (Z_of_byte_range b). rewrite Z.shiftr_div_pow2 by lia. apply Z.div_small. change (2^8) with 256. lia.
Qed.

Lemma crc32_table_lookup i : 0 <= i < 256 -> default 0 (crc32_table !! Z.to_nat i) = crc_rounds8 i.
Proof.
  intros Hi. unfold crc32_table, BuildCrc32Table.
  rewrite (list_lookup_fmap (fun i => crc_rounds8 (Z.of_nat i)) (seq 0 256)).
  rewrite lookup_seq_lt by lia. simpl. f_equal. lia.
Qed.

(** One table step is eight division steps. *)
Lemma crc_byte_rounds crc b : crc_byte crc b = crc_rounds8 (Z.lxor crc (Z_of_byte b)).
Proof.
  unfold crc_byte.
  assert (0 <= Z.land (Z.lxor crc (Z_of_byte b)) 0xFF < 256) as Hr.
  { change 0xFF with (Z.ones 8). rewrite Z.land_ones by lia. by apply Z.mod_pos_bound. }
  rewrite crc32_table_lookup by done.
  rewrite (split_low8 (Z.lxor crc (Z_of_byte b))) at 2.
  rewrite crc_rounds8_lxor, crc_rounds8_shift. f_equal.
  by rewrite Z.shiftr_lxor, shiftr8_byte, Z.lxor_0_r.
Qed.

Lemma lxor_range a b : is_u32 a -> is_u32 b -> is_u32 (Z.lxor a b).
Proof.
  intros [? Ha] [? Hb]. assert (0 <= Z.lxor a b) by (by apply Z.lxor_nonneg).
  split; [done|]. destruct (Z.eq_dec (Z.lxor a b) 0) as [->|Hne]; [done|].
  apply Z.log2_lt_pow2; [lia|].
  pose proof (Z.log2_lxor a b ltac:(done) ltac:(done)).
  assert (forall z, 0 <= z < 2 ^ 32 -> Z.log2 z < 32) as Hlog.
  { intros z Hz. destruct (Z.eq_dec z 0) as [->|]; [done|]. apply Z.log2_lt_pow2; lia. }
  pose proof (Hlog a). pose proof (Hlog b). lia.
Qed.

Lemma crc_round_range z : is_u32 z -> is_u32 (crc_round z).
Proof.
  intros Hz. assert (is_u32 (Z.shiftr z 1)).
  { destruct Hz. rewrite Z.shiftr_div_pow2 by lia. change (2^1) with 2. unfold is_u32.
    pose proof (Z.div_pos z 2). pose proof (Z.div_le_upper_bound z 2 z). lia. }
  rewrite crc_round_odd. destruct (Z.odd z); [|done]. apply lxor_range; done.
Qed.

Lemma crc_rounds8_range z : is_u32 z -> is_u32 (crc_rounds8 z).
Proof. intros H. unfold crc_rounds8. simpl. by repeat apply crc_round_range. Qed.

Lemma byte_u32 b : is_u32 (Z_of_byte b).
Proof. pose proof (Z_of_byte_range b). unfold is_u32. lia. Qed.

Lemma crc_byte_range crc b : is_u32 crc -> is_u32 (crc_byte crc b).
Proof. intros H. rewrite crc_byte_rounds. apply crc_rounds8_range, lxor_range; [done | apply byte_u32]. Qed.

Lemma crc_fold_range data crc : is_u32 crc -> is_u32 (fold_left crc_byte data crc).
Proof. intros H. by apply (fold_left_invariant is_u32); [intros; apply crc_byte_range|]. Qed.

Lemma Crc32_range data : is_u32 (Crc32 data).
Proof. apply lxor_range; [by apply crc_fold_range | done]. Qed.

(** A division step loses nothing of a 32-bit remainder: the polynomial has its
    top bit set. *)
Lemma crc_round_zero z : is_u32 z -> crc_round z = 0 -> z = 0.
Proof.
  intros [H0 H1] E. rewrite crc_round_odd in E. rewrite Z.shiftr_div_pow2 in E by lia. change (2^1) with 2 in E.
  pose proof (Z.div_mod z 2 ltac:(lia)) as Hd. pose proof (Z.mod_pos_bound z 2 ltac:(lia)).
  destruct (Z.odd z) eqn:Ho.
  - apply Z.lxor_eq in E. exfalso. lia.
  - rewrite Zmod_odd, Ho in Hd. lia.
Qed.

Lemma crc_rounds8_inj a b : is_u32 a -> is_u32 b -> crc_rounds8 a = crc_rounds8 b -> a = b.
Proof.
  intros Ha Hb E. apply Z.lxor_eq.
  assert (crc_rounds8 (Z.lxor a b) = 0) as H0 by (rewrite crc_rounds8_lxor, E; apply Z.lxor_nilpotent).
  pose proof (lxor_range a b Ha Hb) as Hr. revert H0. unfold crc_rounds8. simpl.
  intros H0. repeat (apply crc_round_zero in H0; [|by repeat apply crc_round_range]). done.
Qed.

Lemma lxor_cancel_l c a b : Z.lxor c a = Z.lxor c b -> a = b.
Proof.
  intros H. apply (f_equal (Z.lxor c)) in H.
  by rewrite <- !Z.lxor_assoc, Z.lxor_nilpotent, !Z.lxor_0_l in H.
Qed.

Lemma crc_fold_inj data a b : is_u32 a -> is_u32 b ->
  fold_left crc_byte data a = fold_left crc_byte data b -> a = b.
Proof.
  revert a b. induction data as [|x data IH]; intros a b Ha Hb E; [done|]. simpl in E.
  apply IH in E; [|by apply crc_byte_range..]. rewrite !crc_byte_rounds in E.
  apply crc_rounds8_inj in E; [|apply lxor_range; [done|apply byte_u32]..].
  rewrite !(Z.lxor_comm _ (Z_of_byte x)) in E. by apply lxor_cancel_l in E.
Qed.

(** Any corruption confined to one byte changes the checksum. *)
Lemma Crc32_detects p b b' q : b <> b' -> Crc32 (p ++ b :: q) <> Crc32 (p ++ b' :: q).
Proof.
  intros Hne E. apply Hne. unfold Crc32 in E. rewrite !(Z.lxor_comm _ 0xFFFFFFFF) in E.
  apply lxor_cancel_l in E. rewrite !fold_left_app in E. simpl in E.
  set (c := fold_left crc_byte p 0xFFFFFFFF) in *.
  assert (is_u32 c) as Hc by (by apply crc_fold_range).
  apply crc_fold_inj in E; [|by apply crc_byte_range..]. rewrite !crc_byte_rounds in E.
  apply crc_rounds8_inj in E; [|apply lxor_range; [done|apply byte_u32]..].
  by apply lxor_cancel_l, Z_of_byte_inj in E.
Qed.

(** ** Properties *)

(** The table-driven checksum computes the CRC-32 of its input as defined
    by bitwise polynomial division, and is a 32-bit value. *)
Theorem Crc32_is_bitwise data : Crc32 data = crc32_bitwise data /\ is_u32 (Crc32 data).
Proof.
  split; [|apply Crc32_range]. unfold Crc32, crc32_bitwise. f_equal.
  generalize 0xFFFFFFFF. induction data as [|b data IH]; intros crc; [done|]. simpl.
  by rewrite IH, crc_byte_rounds.
Qed.

(** The check value of the standard: CRC-32 of the digits 1 to 9. *)
Example Crc32_check_value : Crc32 [x31; x32; x33; x34; x35; x36; x37; x38; x39] = 0xCBF43926.
Proof. by vm_compute. Qed.
