(* ===== verification/WriteAheadLog.v ===== *)
(** * The write-ahead log (src/storage/WriteAheadLog.{hpp,cpp})

    Two levels.  A [journal] is the sequence of records the callers wrote; what
    a recovery computes from it is [replay].  Below, the directory of segment
    files, byte by byte: framing, checksums, rotation, [fdatasync], short
    writes, failing [open]s and torn tails.  [wal_repr] relates the two and the
    theorems show that the byte level refines the journal, also across a crash.
    The log never syncs its directory, so a crash may remove the entry of a
    segment file whose contents were synced; which entries are on the medium is
    a parameter of [crash].  [fdatasync], whose result the code ignores, is
    taken to succeed. *)
From S2P Require Import Prelude CxxString CxxMap Json Crc32.
From Stdlib Require Import ZArith Lia Ascii String Strings.Byte.
From stdpp Require Import prelude gmap strings sorting.
#[local] Open Scope Z_scope.

(** ** Records and recovery *)

Record HardState := mkHardState { hs_term : Z; hs_votedFor : string }.

Record RawLogEntry := mkRawLogEntry { raw_term : Z; raw_index : Z; raw_command : string }.

Record RecoveryResult := mkRecoveryResult {
  rr_entries : list RawLogEntry;
  rr_hardState : HardState;
  rr_latestSnapshot : option string;
  rr_snapshotIndex : Z;
  rr_snapshotTerm : Z;
}.

Definition RecoveryResult_new : RecoveryResult := mkRecoveryResult [] (mkHardState 0 "") None 0 0.

(** [enum class RecordType] and the payload of each kind. *)
Inductive WalRecord : Type :=
| RecLogEntry (e : RawLogEntry)
| RecHardState (s : HardState)
| RecSnapshot (index term : Z) (data : string).

Abbreviation journal := (list WalRecord).

(** [while (!v.empty() && v.back().index >= idx) v.pop_back();] *)
Fixpoint drop_ge (idx : Z) (l : list RawLogEntry) : list RawLogEntry :=
  match l with
  | [] => []
  | x :: l' => if idx <=? raw_index x then drop_ge idx l' else l
  end.
Definition pop_ge (idx : Z) (l : list RawLogEntry) : list RawLogEntry := reverse (drop_ge idx (reverse l)).

(** The [switch] of [Recover]. *)
Definition replay_step (res : RecoveryResult) (r : WalRecord) : RecoveryResult :=
  match r with
  | RecLogEntry e =>
      mkRecoveryResult (pop_ge (raw_index e) (rr_entries res) ++ [e]) (rr_hardState res)
        (rr_latestSnapshot res) (rr_snapshotIndex res) (rr_snapshotTerm res)
  | RecHardState s =>
      mkRecoveryResult (rr_entries res) s
        (rr_latestSnapshot res) (rr_snapshotIndex res) (rr_snapshotTerm res)
  | RecSnapshot index term data =>
      mkRecoveryResult [] (rr_hardState res) (Some data) index term
  end.

Definition replay (j : journal) : RecoveryResult := fold_left replay_step j RecoveryResult_new.

(** ** Files *)

(** A file: its bytes, and how many of them are known to be on the medium. *)
Record File := mkFile { f_bytes : list byte; f_synced : nat }.

(** The object and its directory.  [w_space] is the free space of the device,
    which bounds a [write], and [w_opens] the number of times [open] still
    succeeds; [None] is no bound. *)
Record Wal := mkWal {
  w_files : gmap string File;
  w_space : option nat;
  w_opens : option nat;
  maxSegmentBytes_ : Z;
  currentFd_ : option string;
  currentSegment_ : Z;
  currentOffset_ : Z;
}.

Definition file_at (w : Wal) (path : string) : File := default (mkFile [] 0) (w_files w !! path).

Definition set_file (w : Wal) (path : string) (f : File) : Wal :=
  mkWal (<[path := f]> (w_files w)) (w_space w) (w_opens w) (maxSegmentBytes_ w)
    (currentFd_ w) (currentSegment_ w) (currentOffset_ w).

(** [::write(currentFd_, ...)] on an [O_APPEND] descriptor: the number of bytes
    that fitted, or -1. *)
Definition sys_write (bs : list byte) : M Wal Z := fun w =>
  match currentFd_ w with
  | None => (w, Ok (-1))
  | Some path =>
      let n := match w_space w with None => length bs | Some k => Nat.min (length bs) k end in
      let f := file_at w path in
      (mkWal (<[path := mkFile (f_bytes f ++ take n bs) (f_synced f)]> (w_files w))
         ((fun k => k - n)%nat <$> w_space w) (w_opens w) (maxSegmentBytes_ w)
         (currentFd_ w) (currentSegment_ w) (currentOffset_ w), Ok (Z.of_nat n))
  end.

(** [::fdatasync(currentFd_)] *)
Definition fdatasync (w : Wal) : Wal :=
  match currentFd_ w with
  | None => w
  | Some path =>
      let f := file_at w path in set_file w path (mkFile (f_bytes f) (length (f_bytes f)))
  end.

Definition SegmentPath (seg : Z) : string := ("wal-" +:+ fmt_016llu seg +:+ ".log")%string.

Definition OpenOrCreateSegment (seg : Z) : M Wal unit := fun w =>
  let path := SegmentPath seg in
  match w_opens w with
  | Some 0%nat =>
      (mkWal (w_files w) (w_space w) (w_opens w) (maxSegmentBytes_ w) None (currentSegment_ w)
         (currentOffset_ w), Throw (runtime_error ("Failed to open WAL segment: " +:+ path)%string))
  | opens =>
      let f := file_at w path in
      (mkWal (<[path := f]> (w_files w)) (w_space w) (pred <$> opens) (maxSegmentBytes_ w)
         (Some path) seg (len (f_bytes f)), Ok tt)
  end.

Definition MaybeRotate : M Wal unit := fun w =>
  if maxSegmentBytes_ w <=? currentOffset_ w then
    OpenOrCreateSegment (u64 (currentSegment_ w + 1)) (fdatasync w)
  else (w, Ok tt).

(** [Frame: [crc32 4B][length 4B][type 1B][payload]] *)
Definition record_bytes (type : byte) (payload : string) : list byte :=
  let p := list_byte_of_string payload in
  le32 (Crc32 (type :: p)) ++ le32 (u32 (len p)) ++ type :: p.

Definition advance (n : Z) (w : Wal) : Wal :=
  mkWal (w_files w) (w_space w) (w_opens w) (maxSegmentBytes_ w) (currentFd_ w) (currentSegment_ w)
    (currentOffset_ w + n).

Definition WriteRecord (type : byte) (payload : string) : M Wal unit :=
  let record := record_bytes type payload in
  written ← sys_write record;
  if negb (written =? len record) then throw (runtime_error "WAL write failed")
  else modify (advance (len record)).

(** ** Operations *)

Section WalOps.
Context `{JsonLib}.
#[local] Open Scope string_scope.
#[local] Open Scope Z_scope.

(** The JSON text of a record. *)
Definition record_json (r : WalRecord) : json :=
  match r with
  | RecLogEntry e => jobj [("term", JInt (raw_term e)); ("index", JInt (raw_index e)); ("cmd", JStr (raw_command e))]
  | RecHardState s => jobj [("term", JInt (hs_term s)); ("voted_for", JStr (hs_votedFor s))]
  | RecSnapshot index term data => jobj [("index", JInt index); ("term", JInt term); ("data", JStr data)]
  end.

Definition record_type (r : WalRecord) : byte :=
  match r with RecLogEntry _ => x01 | RecHardState _ => x02 | RecSnapshot _ _ _ => x03 end.

Definition AppendLogEntry (entry : RawLogEntry) : M Wal unit :=
  payload ← lift (dump (record_json (RecLogEntry entry)));
  WriteRecord x01 payload;;
  modify fdatasync;;
  MaybeRotate.

Definition WriteHardState (state : HardState) : M Wal unit :=
  payload ← lift (dump (record_json (RecHardState state)));
  WriteRecord x02 payload.

Definition Sync : M Wal unit := modify fdatasync.

(** The destructor. *)
Definition Wal_close (w : Wal) : Wal :=
  let w' := fdatasync w in
  mkWal (w_files w') (w_space w') (w_opens w') (maxSegmentBytes_ w') None (currentSegment_ w') (currentOffset_ w').

Definition WriteSnapshot (index term : Z) (data : string) : M Wal unit :=
  payload ← lift (dump (record_json (RecSnapshot index term data)));
  WriteRecord x03 payload;;
  Sync;;
  w ← getS;
  OpenOrCreateSegment (u64 (currentSegment_ w + 1)).

(** [Truncate] ignores its argument and does nothing. *)
Definition Truncate (afterIndex : Z) : M Wal unit := mret tt.

(** The segment number of a directory entry; [None] if it is not a segment. *)
Definition segment_of_name (name : string) : option (Res Z) :=
  if starts_with "wal-" name && String.eqb (str_drop (String.length name - 4) name) ".log"
  then Some (stoull (String.substring 4 (String.length name - 8) name))
  else None.

(** The segments of the directory, in directory order. *)
Definition list_segments (files : gmap string File) : Res (list Z) :=
  mapM id (omap (fun nf => segment_of_name nf.1) (map_to_list files)).

(** The constructor on a directory. *)
Definition Wal_open (files : gmap string File) (space opens : option nat) (maxSegmentBytes : Z) : M Wal unit :=
  fun _ =>
  let w := mkWal files space opens maxSegmentBytes None 0 0 in
  match list_segments files with
  | Throw e => (w, Throw e)
  | Ok segs => OpenOrCreateSegment (foldr Z.max 0 segs) w
  end.

(** One turn of the reading loop: [None] when it stops reading this segment
    (end of file, short read or checksum mismatch). *)
Definition read_record (bs : list byte) : option (byte * string * list byte) :=
  if len bs <? 9 then None
  else
    let crc := le32_dec bs in
    let length := le32_dec (drop 4 bs) in
    let typeByte := default x00 (bs !! 8%nat) in
    let rest := drop 9 bs in
    if len rest <? length then None
    else
      let payload := take (Z.to_nat length) rest in
      if negb (Crc32 (typeByte :: payload) =? crc) then None
      else Some (typeByte, string_of_list_byte payload, drop (Z.to_nat length) rest).

(** The parse of the payload and the [switch] on the type. *)
Definition recover_record (res : RecoveryResult) (type : byte) (payload : string) : Res RecoveryResult :=
  j ← parse payload;
  match type with
  | x01 =>
      term ← (json_at j "term" ≫= get_u64);
      index ← (json_at j "index" ≫= get_u64);
      command ← (json_at j "cmd" ≫= get_str);
      mret (replay_step res (RecLogEntry (mkRawLogEntry term index command)))
  | x02 =>
      term ← (json_at j "term" ≫= get_u64);
      votedFor ← (json_at j "voted_for" ≫= get_str);
      mret (replay_step res (RecHardState (mkHardState term votedFor)))
  | x03 =>
      index ← (json_at j "index" ≫= get_u64);
      term ← (json_at j "term" ≫= get_u64);
      data ← (json_at j "data" ≫= get_str);
      mret (replay_step res (RecSnapshot index term data))
  | _ => mret res
  end.

(** The loop over one segment.  Every turn consumes at least nine bytes, so the
    length of the file is enough fuel. *)
Fixpoint read_segment (fuel : nat) (bs : list byte) (res : RecoveryResult) : Res RecoveryResult :=
  match fuel with
  | O => Ok res
  | S fuel' =>
      match read_record bs with
      | None => Ok res
      | Some (type, payload, rest) =>
          res' ← recover_record res type payload;
          read_segment fuel' rest res'
      end
  end.

Fixpoint read_segments (files : gmap string File) (segs : list Z) (res : RecoveryResult) : Res RecoveryResult :=
  match segs with
  | [] => Ok res
  | seg :: segs' =>
      match files !! SegmentPath seg with
      | None => read_segments files segs' res
      | Some f =>
          res' ← read_segment (length (f_bytes f)) (f_bytes f) res;
          read_segments files segs' res'
      end
  end.

Definition Recover (files : gmap string File) : Res RecoveryResult :=
  segs ← list_segments files;
  read_segments files (merge_sort Z.le segs) RecoveryResult_new.
End WalOps.

(** ** The byte level against the journal *)

Section WalRepr.
Context `{JsonLib}.

(** The bytes of one record, and of a journal. *)
Definition enc_record (r : WalRecord) : list byte :=
  match dump (record_json r) with Ok s => record_bytes (record_type r) s | Throw _ => [] end.
Definition enc_journal (j : journal) : list byte := mjoin (enc_record <$> j).

(** A record the log can hold: integers of their width, UTF-8 text, and a
    payload whose length fits the 32-bit length field. *)
Definition record_ok (r : WalRecord) : Prop :=
  match r with
  | RecLogEntry e => is_u64 (raw_term e) /\ is_u64 (raw_index e) /\ utf8_valid (raw_command e) = true
  | RecHardState s => is_u64 (hs_term s) /\ utf8_valid (hs_votedFor s) = true
  | RecSnapshot index term data => is_u64 index /\ is_u64 term /\ utf8_valid data = true
  end /\
  match dump (record_json r) with Ok s => str_size s < 2 ^ 32 | Throw _ => False end.

Definition seg_name (i : nat) : string := SegmentPath (Z.of_nat i).

(** What a segment file holds: records of which [sg_durable] are on the medium,
    and the beginning of a record that was not written to the end. *)
Record Seg := mkSeg { sg_durable : journal; sg_rest : journal; sg_torn : list byte }.

Definition closed (j : journal) : Seg := mkSeg j [] [].
Definition seg_journal (s : Seg) : journal := sg_durable s ++ sg_rest s.

Record seg_holds (s : Seg) (f : File) : Prop := {
  sh_bytes : f_bytes f = enc_journal (seg_journal s) ++ sg_torn s;
  sh_synced : (length (enc_journal (sg_durable s)) <= f_synced f)%nat;
  sh_ok : Forall record_ok (seg_journal s);
  sh_torn k : read_record (take k (sg_torn s)) = None;
}.

(** The directory has the files of these segments and no others. *)
Record dir_holds (files : gmap string File) (segs : list Seg) : Prop := {
  dh_seg i s : segs !! i = Some s -> exists f, files !! seg_name i = Some f /\ seg_holds s f;
  dh_name path f : files !! path = Some f -> exists i, (i < length segs)%nat /\ path = seg_name i;
  dh_bound : len segs <= 2 ^ 64;
}.

(** [wal_repr w full cd cv]: the closed segments hold the journals [full] and
    are on the medium; the current segment holds [cd ++ cv], of which [cd] is
    on the medium. *)
Record wal_repr (w : Wal) (full : list journal) (cd cv : journal) : Prop := {
  repr_dir : dir_holds (w_files w) ((closed <$> full) ++ [mkSeg cd cv []]);
  repr_fd : currentFd_ w = Some (seg_name (length full));
  repr_seg : currentSegment_ w = len full;
  repr_off : currentOffset_ w = len (enc_journal (cd ++ cv));
}.

(** No bound on the device or on [open]. *)
Definition endless (w : Wal) : Prop := w_space w = None /\ w_opens w = None.

(** A crash keeps, of every file, some prefix with all the synced bytes, or
    nothing if its directory entry is not on the medium.  The log does not sync
    the directory: which entries [linked] are there is up to the file system. *)
Definition crash (linked : gset string) (files files' : gmap string File) : Prop :=
  forall path,
  match files !! path with
  | Some f => (exists n, (f_synced f <= n)%nat /\ files' !! path = Some (mkFile (take n (f_bytes f)) n)) \/
      ((path ∉ linked) /\ files' !! path = None)
  | None => files' !! path = None
  end.

(** Writing a record through the public operation of its kind, and a sequence
    of such writes. *)
Definition write_record (r : WalRecord) : M Wal unit :=
  match r with
  | RecLogEntry e => AppendLogEntry e
  | RecHardState s => WriteHardState s
  | RecSnapshot index term data => WriteSnapshot index term data
  end.

Fixpoint write_records (rs : list WalRecord) : M Wal unit :=
  match rs with [] => mret tt | r :: rs' => write_record r;; write_records rs' end.

(** Reading the segments one after the other. *)
Fixpoint read_all (bss : list (list byte)) (res : RecoveryResult) : Res RecoveryResult :=
  match bss with
  | [] => Ok res
  | b :: bss' => res' ← read_segment (length b) b res; read_all bss' res'
  end.
End WalRepr.

Definition is_hard_state (r : WalRecord) : Prop :=
  match r with RecHardState _ => True | _ => False end.

(** What recovery sees of segments of which some were lost: [kept] is for each
    segment its records, or nothing if its directory entry was not on the medium;
    the last one may lack hard states at its end. *)
Definition survives (linked : gset string) (segs kept : list journal) : Prop :=
  length kept = length segs /\
  forall i s t, segs !! i = Some s -> kept !! i = Some t ->
    t = s \/ (t = [] /\ (seg_name i ∉ linked)) \/
    (S i = length segs /\ exists lost, s = t ++ lost /\ Forall is_hard_state lost).

(** ** Lemmas: replay *)

(** The recovered entries have strictly increasing indices. *)
Definition index_sorted (l : list RawLogEntry) : Prop := StronglySorted Z.lt (raw_index <$> l).

Lemma index_sorted_snoc l e : index_sorted (l ++ [e]) <-> index_sorted l /\ Forall (fun x => raw_index x < raw_index e) l.
Proof.
  unfold index_sorted. rewrite fmap_app. induction l as [|x l IH]; simpl.
  - split; [by split; constructor | by repeat constructor].
  - split.
    + intros H. inv H as [|? ? Hs Hf]. apply IH in Hs as [Hs Hl]. apply Forall_app in Hf as [Hf Hx].
      inv Hx. split; by constructor.
    + intros [H Hl]. inv H as [|? ? Hs Hf]. inv Hl as [|? ? Hx Hl']. constructor; [by apply IH|].
      apply Forall_app. split; [done|]. by apply Forall_singleton.
Qed.

(** On a sorted list the loop removes exactly the entries from [idx] on. *)
Lemma pop_ge_snoc idx l x : pop_ge idx (l ++ [x]) = if idx <=? raw_index x then pop_ge idx l else l ++ [x].
Proof.
  unfold pop_ge. rewrite reverse_snoc. simpl. case_if; [done|]. by rewrite reverse_cons, reverse_involutive.
Qed.

Lemma pop_ge_prefix idx l : index_sorted l ->
  exists k, l = pop_ge idx l ++ k /\ Forall (fun x => raw_index x < idx) (pop_ge idx l) /\
    Forall (fun x => idx <= raw_index x) k.
Proof.
  induction l as [|x l IH] using rev_ind; intros Hs; [by exists []|].
  apply index_sorted_snoc in Hs as [Hs Hl]. rewrite pop_ge_snoc. case_if.
  - destruct (IH Hs) as (k & Hk & H1 & H2). exists (k ++ [x]). split_and!; [|done|].
    + by rewrite app_assoc, <- Hk.
    + apply Forall_app. split; [done|]. by apply Forall_singleton.
  - exists []. rewrite app_nil_r. split_and!; [done| |constructor].
    apply Forall_app. split; [|apply Forall_singleton; lia]. eapply Forall_impl; [done|]. simpl. lia.
Qed.

Lemma pop_ge_at l1 e l2 : index_sorted (l1 ++ e :: l2) -> pop_ge (raw_index e) (l1 ++ e :: l2) = l1.
Proof.
  replace (l1 ++ e :: l2) with ((l1 ++ [e]) ++ l2) by (by rewrite <- app_assoc).
  induction l2 as [|x l2 IH] using rev_ind; intros Hs.
  - rewrite app_nil_r in *. apply index_sorted_snoc in Hs as [_ Hl]. rewrite pop_ge_snoc, Z.leb_refl.
    induction l1 as [|y l1 _] using rev_ind; [done|]. apply Forall_app in Hl as [_ Hy]. inv Hy.
    rewrite pop_ge_snoc. case_if; [lia|done].
  - rewrite app_assoc in *. apply index_sorted_snoc in Hs as [Hs Hl]. rewrite pop_ge_snoc.
    apply Forall_app in Hl as [Hl _]. apply Forall_app in Hl as [_ Hl]. inv Hl. case_if; [by apply IH|lia].
Qed.

Lemma pop_ge_lt idx l : Forall (fun x => raw_index x < idx) l -> pop_ge idx l = l.
Proof.
  induction l as [|x l _] using rev_ind; [done|]. intros [_ Hx]%Forall_app. inv Hx.
  rewrite pop_ge_snoc. case_if; [lia|done].
Qed.

Lemma replay_step_sorted res r : index_sorted (rr_entries res) -> index_sorted (rr_entries (replay_step res r)).
Proof.
  destruct r as [e|s|i t d]; simpl; intros Hs; [|done|constructor].
  destruct (pop_ge_prefix (raw_index e) _ Hs) as (k & Hk & Hlt & _). apply index_sorted_snoc. split; [|done].
  revert Hs. rewrite Hk at 1. clear. intros Hs. induction k as [|x k IH] using rev_ind; [by rewrite app_nil_r in Hs|].
  rewrite app_assoc in Hs. apply index_sorted_snoc in Hs as [Hs _]. by apply IH.
Qed.

Lemma replay_sorted j : index_sorted (rr_entries (replay j)).
Proof.
  unfold replay. apply (fold_left_invariant (fun r => index_sorted (rr_entries r))); [|constructor].
  intros; by apply replay_step_sorted.
Qed.

Lemma replay_app j k : replay (j ++ k) = fold_left replay_step k (replay j).
Proof. apply fold_left_app. Qed.

(** ** Lemmas: one record *)

Lemma read_record_raw c t pl rest : is_u32 c -> len pl < 2 ^ 32 ->
  read_record (le32 c ++ le32 (len pl) ++ t :: pl ++ rest) =
  if Crc32 (t :: pl) =? c then Some (t, string_of_list_byte pl, rest) else None.
Proof.
  intros Hc Hl. unfold read_record. pose proof (len_nonneg pl). pose proof (len_nonneg rest).
  assert (len (le32 c ++ le32 (len pl) ++ t :: pl ++ rest) = 9 + len pl + len rest) as ->.
  { rewrite !len_app, len_cons, len_app. unfold len at 1 2. rewrite !length_le32. lia. }
  case_if; [lia|]. rewrite le32_dec_le32 by done.
  change (drop 4 (le32 c ++ le32 (len pl) ++ t :: pl ++ rest)) with (le32 (len pl) ++ t :: pl ++ rest).
  rewrite le32_dec_le32 by (unfold is_u32; lia).
  change (drop 9 (le32 c ++ le32 (len pl) ++ t :: pl ++ rest)) with (pl ++ rest).
  change (default x00 ((le32 c ++ le32 (len pl) ++ t :: pl ++ rest) !! 8%nat)) with t.
  rewrite len_app. case_if; [lia|]. unfold len. rewrite Nat2Z.id, take_app_length, drop_app_length.
  by destruct (Crc32 (t :: pl) =? c).
Qed.

Lemma read_record_bytes t p rest : str_size p < 2 ^ 32 ->
  read_record (record_bytes t p ++ rest) = Some (t, p, rest).
Proof.
  intros Hp. unfold record_bytes. set (pl := list_byte_of_string p).
  assert (len pl < 2 ^ 32) as Hl by (unfold pl; by rewrite len_list_byte).
  pose proof (len_nonneg pl). rewrite (u32_small (len pl)) by (unfold is_u32; lia).
  rewrite <- !app_assoc. change ((t :: pl) ++ rest) with (t :: pl ++ rest).
  rewrite read_record_raw, Z.eqb_refl by (try apply Crc32_range; done).
  unfold pl. by rewrite string_of_list_byte_of_string.
Qed.

Lemma length_record_bytes t p : length (record_bytes t p) = (9 + String.length p)%nat.
Proof. unfold record_bytes. rewrite !length_app, !length_le32. simpl. by rewrite length_list_byte. Qed.

(** A strict prefix of a record is read as the end of the segment. *)
Lemma read_record_torn t p n : str_size p < 2 ^ 32 -> (n < length (record_bytes t p))%nat ->
  read_record (take n (record_bytes t p)) = None.
Proof.
  intros Hp Hn. rewrite length_record_bytes in Hn. destruct (decide (n < 9)%nat).
  { unfold read_record. case_if; [done|]. exfalso. unfold len in E. rewrite length_take in E. lia. }
  unfold record_bytes. set (pl := list_byte_of_string p).
  assert (len pl = str_size p) as Hl by apply len_list_byte. pose proof (len_nonneg pl).
  rewrite (u32_small (len pl)) by (unfold is_u32; lia). set (q := take (n - 9) pl).
  assert (take n (le32 (Crc32 (t :: pl)) ++ le32 (len pl) ++ t :: pl) =
    le32 (Crc32 (t :: pl)) ++ le32 (len pl) ++ t :: q) as ->.
  { replace n with (4 + (4 + (1 + (n - 9))))%nat at 1 by lia.
    rewrite <- (length_le32 (Crc32 (t :: pl))) at 1. rewrite take_app_add.
    rewrite <- (length_le32 (len pl)) at 1. by rewrite take_app_add. }
  assert (len q < len pl).
  { unfold len, q. rewrite length_take. unfold pl. rewrite length_list_byte. lia. }
  unfold read_record. case_if; [done|].
  change (drop 4 (le32 (Crc32 (t :: pl)) ++ le32 (len pl) ++ t :: q)) with (le32 (len pl) ++ t :: q).
  rewrite (le32_dec_le32 (len pl)) by (unfold is_u32; lia).
  change (drop 9 (le32 (Crc32 (t :: pl)) ++ le32 (len pl) ++ t :: q)) with q.
  case_if; [done|lia].
Qed.

Section WalLemmas.
Context {J : JsonLib} {L : JsonLaws J}.

Lemma record_json_wf r : record_ok r -> json_wf (record_json r) = true.
Proof. intros [Hr _]. destruct r as [e|s|i t d]; simpl in Hr; destruct_and!; unfold record_json; json_wf_tac. Qed.

Lemma enc_record_spec r : record_ok r ->
  exists s, dump (record_json r) = Ok s /\ parse s = Ok (record_json r) /\ str_size s < 2 ^ 32 /\
    enc_record r = record_bytes (record_type r) s.
Proof.
  intros Hr. destruct (dump_ok _ (record_json_wf r Hr)) as (s & Hd & Hp & _).
  exists s. unfold enc_record. destruct Hr as [_ Hsz]. rewrite Hd in *. done.
Qed.

(** Reading a written record applies it. *)
Lemma recover_record_ok r res s : record_ok r -> parse s = Ok (record_json r) ->
  recover_record res (record_type r) s = Ok (replay_step res r).
Proof.
  intros [Hr _] Hp. unfold recover_record. rewrite Hp. destruct r as [[t i c]|[t v]|i t d]; simpl in Hr; destruct_and!.
  - change (Ok (replay_step res (RecLogEntry (mkRawLogEntry (u64 t) (u64 i) c)))
      = Ok (replay_step res (RecLogEntry (mkRawLogEntry t i c)))). by rewrite !u64_small.
  - change (Ok (replay_step res (RecHardState (mkHardState (u64 t) v)))
      = Ok (replay_step res (RecHardState (mkHardState t v)))). by rewrite u64_small.
  - change (Ok (replay_step res (RecSnapshot (u64 i) (u64 t) d)) = Ok (replay_step res (RecSnapshot i t d))).
    by rewrite !u64_small.
Qed.

Lemma enc_journal_app j k : enc_journal (j ++ k) = enc_journal j ++ enc_journal k.
Proof. unfold enc_journal. by rewrite fmap_app, join_app. Qed.

Lemma enc_journal_cons r j : enc_journal (r :: j) = enc_record r ++ enc_journal j.
Proof. done. Qed.

Lemma read_segment_enc j : Forall record_ok j -> forall fuel tail res,
  (length (enc_journal j) < fuel)%nat -> read_record tail = None ->
  read_segment fuel (enc_journal j ++ tail) res = Ok (fold_left replay_step j res).
Proof.
  induction 1 as [|r j Hr Hj IH]; intros fuel tail res Hf Ht.
  - destruct fuel as [|fuel]; [simpl in Hf; lia|]. simpl. by rewrite Ht.
  - destruct (enc_record_spec r Hr) as (s & Hd & Hp & Hsz & He).
    rewrite enc_journal_cons, length_app, He, length_record_bytes in Hf.
    destruct fuel as [|fuel]; [lia|].
    rewrite enc_journal_cons, <- app_assoc, He. cbn [read_segment].
    rewrite read_record_bytes, recover_record_ok by done. cbn [mbind Res_bind].
    rewrite IH by (try done; lia). done.
Qed.

(** The fuel is enough: a segment of exactly its length is read to the end. *)
Lemma read_segment_fuel j tail res : Forall record_ok j -> read_record tail = None ->
  read_segment (length (enc_journal j ++ tail)) (enc_journal j ++ tail) res = Ok (fold_left replay_step j res).
Proof.
  intros Hj Ht. destruct (decide (length tail = 0)%nat) as [E|E].
  - destruct tail; [|done]. rewrite app_nil_r. clear E Ht. revert res. induction Hj as [|r j Hr Hj IH]; intros res; [done|].
    destruct (enc_record_spec r Hr) as (s & Hd & Hp & Hsz & He).
    rewrite enc_journal_cons, length_app, He, length_record_bytes.
    replace (9 + String.length s + length (enc_journal j))%nat
      with (S (8 + String.length s + length (enc_journal j)))%nat by lia.
    cbn [read_segment]. rewrite read_record_bytes, recover_record_ok by done. cbn [mbind Res_bind].
    destruct j as [|r' j'].
    + destruct (8 + String.length s + length (enc_journal []))%nat eqn:E; done.
    + rewrite <- (app_nil_r (enc_journal (r' :: j'))) at 2. rewrite (read_segment_enc (r' :: j')) by (try done; lia). done.
  - apply read_segment_enc; [done| |done]. rewrite length_app. lia.
Qed.

(** Cutting a segment anywhere keeps the records that end before the cut. *)
Lemma take_enc_journal j n : Forall record_ok j ->
  exists j1 j2 tail, j = j1 ++ j2 /\ take n (enc_journal j) = enc_journal j1 ++ tail /\
    read_record tail = None /\ (j2 <> [] -> n < length (enc_journal (take (S (length j1)) j)))%nat.
Proof.
  intros Hj. revert n. induction Hj as [|r j Hr Hj IH]; intros n.
  - exists [], [], []. split_and!; [done | by destruct n | done | done].
  - destruct (enc_record_spec r Hr) as (s & Hd & Hp & Hsz & He).
    rewrite enc_journal_cons. destruct (decide (length (enc_record r) <= n)%nat).
    + destruct (IH (n - length (enc_record r))%nat) as (j1 & j2 & tail & -> & Ht & Hnone & Hlt).
      exists (r :: j1), j2, tail. rewrite take_app_ge, Ht, enc_journal_cons, app_assoc by done.
      split_and!; [done..|]. intros Hne. specialize (Hlt Hne).
      cbn [length app firstn]. rewrite enc_journal_cons, length_app. lia.
    + exists [], (r :: j), (take n (enc_record r)). split_and!; [done| |rewrite He; apply read_record_torn; [done|]|].
      * rewrite take_app_le by lia. done.
      * rewrite <- He. lia.
      * intros _. change (take (S (length (@nil WalRecord))) (r :: j)) with [r].
        rewrite enc_journal_cons, length_app. lia.
Qed.

(** ** Lemmas: the directory *)

Lemma substring_skip (a s : string) n m : String.substring (String.length a + n) m (a +:+ s) = String.substring n m s.
Proof. induction a as [|c a IH]; [done|]. rewrite append_cons. simpl. apply IH. Qed.

Lemma substring_take (b c : string) : String.substring 0 (String.length b) (b +:+ c) = b.
Proof. induction b as [|x b IH]; [by destruct c|]. rewrite append_cons. simpl. by rewrite IH. Qed.

Lemma str_drop_append (a s : string) : str_drop (String.length a) (a +:+ s) = s.
Proof. induction a as [|c a IH]; [done|]. rewrite append_cons. simpl. apply IH. Qed.

(** The name of a segment is recognised and gives its number back. *)
Lemma segment_of_SegmentPath seg : is_u64 seg -> segment_of_name (SegmentPath seg) = Some (Ok seg).
Proof.
  intros Hs. unfold segment_of_name, SegmentPath. set (d := fmt_016llu seg).
  assert (String.length ("wal-" +:+ d +:+ ".log")%string = (8 + String.length d)%nat) as Hl.
  { rewrite !str_length_append. simpl. lia. }
  assert (starts_with "wal-" ("wal-" +:+ d +:+ ".log") = true) as ->
    by (apply starts_with_spec; by eexists).
  rewrite Hl. replace (8 + String.length d - 4)%nat with (String.length ("wal-" +:+ d)%string)
    by (rewrite str_length_append; simpl; lia).
  rewrite <- (str_append_assoc "wal-" d ".log") at 1. rewrite str_drop_append.
  change (true && String.eqb ".log" ".log") with true. cbv iota.
  replace (8 + String.length d - 8)%nat with (String.length d) by lia.
  assert (String.substring 4 (String.length d) ("wal-" +:+ d +:+ ".log") = d) as ->
    by exact (eq_trans (substring_skip "wal-" (d +:+ ".log") 0 (String.length d)) (substring_take d ".log")).
  unfold d. by rewrite stoull_fmt_016llu.
Qed.

Lemma SegmentPath_inj a b : is_u64 a -> is_u64 b -> SegmentPath a = SegmentPath b -> a = b.
Proof.
  intros Ha Hb E. apply segment_of_SegmentPath in Ha. apply segment_of_SegmentPath in Hb. congruence.
Qed.

Lemma seg_name_inj i j : Z.of_nat i < 2 ^ 64 -> Z.of_nat j < 2 ^ 64 -> seg_name i = seg_name j -> i = j.
Proof. intros Hi Hj E. apply SegmentPath_inj in E; [lia|unfold is_u64; lia..]. Qed.

(** The segments that are there, of the segments from number [k] on. *)
Fixpoint present (k : nat) (bss : list (option (list byte))) : list nat :=
  match bss with
  | [] => []
  | Some _ :: rest => k :: present (S k) rest
  | None :: rest => present (S k) rest
  end.

Lemma elem_of_present i k bss : i ∈ present k bss <-> (k <= i)%nat /\ is_Some (mjoin (bss !! (i - k)%nat)).
Proof.
  revert k. induction bss as [|b bss IH]; intros k; cbn [present].
  - rewrite elem_of_nil. split; [done|]. intros [_ [x Hx]]. by destruct (i - k)%nat.
  - assert (i <> k -> i ∈ present (S k) bss <-> (k <= i)%nat /\ is_Some (mjoin ((b :: bss) !! (i - k)%nat))) as Hne.
    { intros Hik. rewrite IH. destruct (decide (k <= i)%nat); [|split; intros [? _]; lia].
      replace (i - k)%nat with (S (i - S k))%nat by lia. simpl. split; intros [? ?]; (split; [lia|done]). }
    destruct (decide (i = k)) as [->|Hik].
    + rewrite Nat.sub_diag. simpl. destruct b; [|rewrite IH]; simpl; (split; [intros Hi|intros [_ [? ?]]]); try done; [by left|by destruct Hi; lia].
    + destruct b; [rewrite elem_of_cons|]; rewrite (Hne Hik); [|done]. split; [intros [?|?]|]; auto; done.
Qed.

Lemma present_sorted k bss : StronglySorted lt (present k bss).
Proof.
  revert k. induction bss as [|[b|] bss IH]; intros k; cbn [present]; [constructor| |done]. constructor; [done|].
  apply Forall_forall. intros i [Hi _]%elem_of_present. lia.
Qed.

Lemma present_NoDup k bss : NoDup (present k bss).
Proof.
  pose proof (present_sorted k bss) as Hs. induction Hs as [|x l _ IH Hx]; constructor; [|done].
  intros Hin. rewrite Forall_forall in Hx. specialize (Hx x Hin). lia.
Qed.

(** A directory with some of the segments [bss]. *)
Definition sparse (files : gmap string File) (bss : list (option (list byte))) : Prop :=
  len bss <= 2 ^ 64 /\ (forall i o, bss !! i = Some o -> f_bytes <$> files !! seg_name i = o) /\
  forall path f, files !! path = Some f -> exists i, (i < length bss)%nat /\ path = seg_name i.

Lemma omap_seg_names ks : Forall (fun i => Z.of_nat i < 2 ^ 64) ks ->
  omap segment_of_name (seg_name <$> ks) = Ok <$> (Z.of_nat <$> ks).
Proof.
  induction 1 as [|k ks Hk _ IH]; [done|]. rewrite !fmap_cons. cbn [omap list_omap]. unfold seg_name at 1.
  rewrite segment_of_SegmentPath by (unfold is_u64; lia). f_equal. exact IH.
Qed.

Lemma list_segments_sparse files bss : sparse files bss -> exists segs, list_segments files = Ok segs /\ segs ≡ₚ Z.of_nat <$> present 0 bss.
Proof.
  intros (Hb & Hf & Hn). assert (Forall (fun i => Z.of_nat i < 2 ^ 64) (present 0 bss)) as Hlt.
  { apply Forall_forall. intros i [_ [x Hx]]%elem_of_present. rewrite Nat.sub_0_r in Hx. destruct (bss !! i) eqn:E; [|done].
    apply lookup_lt_Some in E. unfold len in Hb. lia. }
  assert ((map_to_list files).*1 ≡ₚ seg_name <$> present 0 bss) as Hnames.
  { apply NoDup_Permutation; [apply NoDup_fst_map_to_list| |].
    - apply NoDup_fmap_2_strong; [|apply present_NoDup]. rewrite Forall_forall in Hlt. intros x y Hx Hy. apply seg_name_inj; auto.
    - intros path. rewrite !list_elem_of_fmap. split.
      + intros ([p f] & -> & Hin%elem_of_map_to_list). destruct (Hn p f Hin) as (i & Hi & E). exists i. split; [done|]. subst p.
        apply elem_of_present. split; [lia|]. rewrite Nat.sub_0_r. destruct (lookup_lt_is_Some_2 bss i Hi) as [o Ho].
        rewrite Ho, <- (Hf i o Ho), Hin. by eexists.
      + intros (i & -> & [_ [b Hb']]%elem_of_present). rewrite Nat.sub_0_r in Hb'. destruct (bss !! i) as [o|] eqn:Ho; [|done].
        simpl in Hb'. subst o. pose proof (Hf i _ Ho) as E. destruct (files !! seg_name i) as [f|] eqn:Ef; [|done].
        exists (seg_name i, f). split; [done|]. by apply elem_of_map_to_list. }
  assert (omap (fun nf : string * File => segment_of_name nf.1) (map_to_list files) = omap segment_of_name (map_to_list files).*1) as Hom.
  { generalize (map_to_list files). clear. intros l. induction l as [|[k f] l IH]; [done|]. rewrite fmap_cons.
    cbn [omap list_omap fst]. destruct (segment_of_name k); [f_equal|]; apply IH. }
  assert (omap segment_of_name (map_to_list files).*1 ≡ₚ Ok <$> (Z.of_nat <$> present 0 bss)) as Hperm.
  { rewrite <- (omap_seg_names _ Hlt). by apply omap_Permutation. }
  apply Permutation_map_inv in Hperm as (segs & Hsegs & Hp). exists segs. split; [|done]. unfold list_segments. rewrite Hom, Hsegs.
  clear. induction segs as [|x segs IH]; [done|]. cbn [map mapM id mbind Res_bind]. by rewrite IH.
Qed.

Lemma sorted_present segs k bss : segs ≡ₚ Z.of_nat <$> present k bss -> merge_sort Z.le segs = Z.of_nat <$> present k bss.
Proof.
  intros Hp. apply (Sorted_unique Z.le).
  - apply Sorted_merge_sort. intros x y. lia.
  - apply StronglySorted_Sorted. generalize (present_sorted k bss). clear. induction 1 as [|x l _ IH Hx]; [constructor|].
    rewrite fmap_cons. constructor; [done|]. apply Forall_fmap. eapply Forall_impl; [done|]. simpl. lia.
  - by rewrite merge_sort_Permutation.
Qed.

Lemma read_segments_sparse files bss : forall k res,
  (forall i o, bss !! i = Some o -> f_bytes <$> files !! seg_name (k + i) = o) ->
  read_segments files (Z.of_nat <$> present k bss) res = read_all (omap id bss) res.
Proof.
  induction bss as [|o bss IH]; intros k res Hf; [done|]. assert (forall i o, bss !! i = Some o -> f_bytes <$> files !! seg_name (S k + i) = o) as Hf'.
  { intros i b Hi. rewrite <- (Hf (S i) b Hi). do 2 f_equal. f_equal. lia. }
  pose proof (Hf 0%nat o eq_refl) as H0. rewrite Nat.add_0_r in H0. destruct o as [b|]; cbn [present]; [|exact (IH (S k) res Hf')].
  rewrite fmap_cons. cbn [read_segments omap list_omap id read_all]. unfold seg_name in H0.
  destruct (files !! SegmentPath (Z.of_nat k)) as [f|]; [|done]. simpl in H0. inv H0.
  destruct (read_segment _ _ _); [|done]. cbn [mbind Res_bind]. exact (IH (S k) _ Hf').
Qed.

(** Recovery reads the segments that are there in the order of their numbers. *)
Lemma Recover_sparse files bss : sparse files bss -> Recover files = read_all (omap id bss) RecoveryResult_new.
Proof.
  intros Hs. destruct (list_segments_sparse files bss Hs) as (segs & E & Hp). unfold Recover. rewrite E. cbn [mbind Res_bind].
  rewrite (sorted_present segs 0 bss Hp). apply (read_segments_sparse files bss 0). intros i o Hi. by apply Hs.
Qed.

(** What is read of a segment: [t], from these bytes. *)
Definition reads (o : option (list byte)) (t : journal) : Prop :=
  match o with
  | None => t = []
  | Some b => Forall record_ok t /\ exists tail, b = enc_journal t ++ tail /\ read_record tail = None
  end.

Lemma read_all_reads bss kept : Forall2 reads bss kept -> forall res, read_all (omap id bss) res = Ok (fold_left replay_step (mjoin kept) res).
Proof.
  induction 1 as [|o t bss kept Ho _ IH]; intros res; [done|]. rewrite mjoin_cons, fold_left_app. destruct o as [b|]; simpl in Ho.
  - destruct Ho as (Ht & tail & -> & Hn). cbn [omap list_omap id read_all]. rewrite read_segment_fuel by done. apply IH.
  - subst t. apply IH.
Qed.

(** ** Lemmas: the operations keep the representation *)

(** The object [w] holds the journal [d ++ v]; [d] is synced, and [v] are hard
    states. *)
Definition wal_sim (w : Wal) (d v : journal) : Prop :=
  Forall is_hard_state v /\ exists full cd, d = mjoin full ++ cd /\ wal_repr w full cd v.

(** A directory, also after a write that failed. *)
Definition holds_journal (files : gmap string File) (segs : list journal) : Prop :=
  exists sgs, dir_holds files sgs /\ segs = seg_journal <$> sgs /\
  forall i s, sgs !! i = Some s -> (sg_rest s = [] /\ sg_torn s = []) \/ (S i = length sgs /\ Forall is_hard_state (sg_rest s)).

(** How an operation ends: [P] holds after it, or it threw, which it does not on
    a device without bounds, and [Q] holds. *)
Definition ends {A} (w : Wal) (x : Wal * Res A) (P Q : Wal -> Prop) : Prop :=
  match x with
  | (w', Ok _) => P w' /\ (endless w -> endless w')
  | (w', Throw _) => Q w' /\ ~ endless w
  end.

Lemma ends_bind {A B} (m : M Wal A) (k : A -> M Wal B) w P P' Q : ends w (m w) P Q ->
  (forall a w1, P w1 -> ends w1 (k a w1) P' Q) -> ends w ((m ≫= k) w) P' Q.
Proof.
  intros Hm Hk. unfold mbind, M_bind. destruct (m w) as [w1 [a|e]]; [|done]. destruct Hm as [HP He].
  specialize (Hk a w1 HP). destruct (k a w1) as [w2 [b|e]]; destruct Hk; (split; [done|]); tauto.
Qed.

Lemma ends_mono {A} w (x : Wal * Res A) (P P' Q Q' : Wal -> Prop) : ends w x P Q -> (forall w', P w' -> P' w') -> (forall w', Q w' -> Q' w') -> ends w x P' Q'.
Proof. destruct x as [w' [a|e]]; intros [? ?]; split; auto. Qed.

(** Writing a file: the last segment, or a new one behind it. *)
Lemma dir_put files segs old s f : dir_holds files old -> (old = segs \/ exists s0, old = segs ++ [s0]) -> len segs < 2 ^ 64 -> seg_holds s f ->
  dir_holds (<[seg_name (length segs) := f]> files) (segs ++ [s]).
Proof.
  intros [Hseg Hname _] Hold Hb Hs. unfold len in Hb. split; [| |rewrite len_app; unfold len; simpl; lia].
  - intros i x Hx. destruct (decide (i < length segs)%nat) as [Hi|Hi].
    + rewrite lookup_app_l in Hx by done. destruct (Hseg i x) as (g & Hg & Hxg); [by destruct Hold as [->|[? ->]]; rewrite ?lookup_app_l|].
      exists g. rewrite lookup_insert_ne; [done|]. intros E%seg_name_inj; lia.
    + rewrite lookup_app_r in Hx by lia. apply list_lookup_singleton_Some in Hx as [Hi' <-]. replace i with (length segs) by lia.
      exists f. by rewrite lookup_insert_eq.
  - intros path g. rewrite length_app. simpl. rewrite lookup_insert. case_decide as E; [intros _; exists (length segs); split; [lia|done]|].
    intros (i & Hi & ->)%Hname. exists i. split; [|done]. destruct Hold as [->|[s0 ->]]; [lia|]. rewrite length_app in Hi. simpl in Hi. lia.
Qed.

Lemma length_closed (full : list journal) : length (closed <$> full) = length full.
Proof. apply length_fmap. Qed.

Lemma repr_bound w full cd cv : wal_repr w full cd cv -> len full < 2 ^ 64.
Proof. intros [[_ _ Hb] _ _ _]. rewrite len_app in Hb. unfold len in *. rewrite length_closed in Hb. simpl in Hb. lia. Qed.

Lemma repr_current w full cd cv : wal_repr w full cd cv ->
  exists f, w_files w !! seg_name (length full) = Some f /\ seg_holds (mkSeg cd cv []) f /\ file_at w (seg_name (length full)) = f.
Proof.
  intros [[Hseg _ _] _ _ _]. destruct (Hseg (length full) (mkSeg cd cv [])) as (f & Hf & Hs).
  { apply list_lookup_middle. by rewrite length_closed. }
  exists f. unfold file_at. by rewrite Hf.
Qed.

(** Replacing the current segment's file. *)
Lemma repr_put w full cd cv s f : wal_repr w full cd cv -> seg_holds s f ->
  dir_holds (<[seg_name (length full) := f]> (w_files w)) ((closed <$> full) ++ [s]).
Proof.
  intros R Hs. pose proof (repr_bound _ _ _ _ R). rewrite <- (length_closed full). eapply dir_put; [apply R|right; by eexists| |done].
  unfold len in *. by rewrite length_closed.
Qed.

Lemma WriteRecord_ends w full cd cv r s : wal_repr w full cd cv -> record_ok r -> dump (record_json r) = Ok s ->
  ends w (WriteRecord (record_type r) s w) (fun w' => wal_repr w' full cd (cv ++ [r]))
    (fun w' => exists torn, dir_holds (w_files w') ((closed <$> full) ++ [mkSeg cd cv torn])).
Proof.
  intros R Hr Hd. destruct (repr_current _ _ _ _ R) as (f & Hf & [Hb Hs Hok _] & Hat). destruct (enc_record_spec r Hr) as (s' & Hd' & _ & Hsz & He).
  rewrite Hd in Hd'. injection Hd' as <-. unfold WriteRecord, mbind, M_bind, sys_write. rewrite (repr_fd _ _ _ _ R), Hat.
  set (bs := record_bytes (record_type r) s) in *. set (n := match w_space w with None => length bs | Some k => Nat.min (length bs) k end).
  unfold seg_journal in Hb, Hok. cbn [sg_durable sg_rest sg_torn] in Hb, Hs, Hok. rewrite app_nil_r in Hb.
  destruct (Z.of_nat n =? len bs) eqn:En; bool_prop; cbn [negb].
  - replace (take n bs) with bs by (rewrite take_ge; [done|unfold len in En; lia]).
    assert (enc_journal (cd ++ cv ++ [r]) = f_bytes f ++ bs) as Henc.
    { rewrite Hb, app_assoc, (enc_journal_app _ [r]). f_equal. change (enc_journal [r]) with (enc_record r ++ []). by rewrite app_nil_r. }
    split; [|intros [E1 E2]; split; simpl; [by rewrite E1|done]]. split; simpl; [|done|apply R|by rewrite Henc, (repr_off _ _ _ _ R), len_app, Hb].
    apply (repr_put _ _ _ _ _ _ R). split; unfold seg_journal; cbn [sg_durable sg_rest sg_torn f_bytes f_synced]; [by rewrite app_nil_r| done | |intros k; by rewrite firstn_nil].
    rewrite app_assoc. by apply Forall_app_2; [|constructor].
  - assert (n < length bs)%nat as Hn. { unfold n, len in *. destruct (w_space w); lia. }
    split; [|intros [E1 _]; unfold n in En; rewrite E1 in En; by apply En]. exists (take n bs). cbn [w_files fst]. apply (repr_put _ _ _ _ _ _ R).
    split; unfold seg_journal; cbn [sg_durable sg_rest sg_torn f_bytes f_synced]; [by rewrite Hb|done|done|].
    intros k. rewrite take_take. apply read_record_torn; [done|]. fold bs. lia.
Qed.

Lemma fdatasync_repr w full cd cv : wal_repr w full cd cv -> wal_repr (fdatasync w) full (cd ++ cv) [].
Proof.
  intros R. destruct (repr_current _ _ _ _ R) as (f & Hf & [Hb Hs Hok Ht] & Hat). unfold fdatasync. rewrite (repr_fd _ _ _ _ R), Hat.
  unfold seg_journal in *. cbn [sg_durable sg_rest sg_torn] in *. rewrite app_nil_r in Hb.
  split; simpl; [|apply R|apply R|rewrite app_nil_r; apply R]. apply (repr_put _ _ _ _ _ _ R).
  split; unfold seg_journal; cbn [sg_durable sg_rest sg_torn f_bytes f_synced]; rewrite ?app_nil_r; try done. by rewrite Hb.
Qed.

Lemma fdatasync_endless w : endless w -> endless (fdatasync w).
Proof. unfold endless, fdatasync. by destruct (currentFd_ w). Qed.

(** Opening the next segment closes the current one, which must be synced. *)
Lemma Open_next_ends w full cd : wal_repr w full cd [] -> len full + 1 < 2 ^ 64 ->
  ends w (OpenOrCreateSegment (u64 (currentSegment_ w + 1)) w) (fun w' => wal_repr w' (full ++ [cd]) [] [])
    (fun w' => w_files w' = w_files w).
Proof.
  intros R Hn. pose proof (len_nonneg full). unfold OpenOrCreateSegment. rewrite (repr_seg _ _ _ _ R), u64_small by (unfold is_u64; lia).
  assert (SegmentPath (len full + 1) = seg_name (length (full ++ [cd]))) as -> by (rewrite length_app; unfold seg_name, len; simpl; f_equal; lia).
  assert (w_files w !! seg_name (length (full ++ [cd])) = None) as Hnone.
  { destruct (w_files w !! _) as [f|] eqn:E; [|done]. destruct (dh_name _ _ (repr_dir _ _ _ _ R) _ _ E) as (i & Hi & Ei).
    rewrite length_app, length_closed in Hi. rewrite length_app in Ei. simpl in Hi, Ei. unfold len in Hn. apply seg_name_inj in Ei; lia. }
  unfold file_at. rewrite Hnone. cbn [default].
  assert (wal_repr (mkWal (<[seg_name (length (full ++ [cd])) := mkFile [] 0]> (w_files w)) (w_space w) (pred <$> w_opens w) (maxSegmentBytes_ w)
    (Some (seg_name (length (full ++ [cd])))) (len full + 1) 0) (full ++ [cd]) [] []) as R'.
  { split; simpl; [|done|by rewrite len_app|done].
    rewrite <- (length_closed (full ++ [cd])). eapply dir_put; [apply R|left; by rewrite fmap_app| |].
    - unfold len in *. rewrite length_closed, length_app. simpl. lia.
    - split; try done. intros k. by rewrite firstn_nil. }
  destruct (w_opens w) as [[|k]|] eqn:Eo; (split; [done|]); unfold endless; rewrite Eo; [by intros [_ ?]|by intros [_ ?]|by intros [? _]].
Qed.

(** Rotation after a synced write. *)
Lemma MaybeRotate_ends w full cd : wal_repr w full cd [] -> len full + 1 < 2 ^ 64 ->
  ends w (MaybeRotate w) (fun w' => wal_repr w' full cd [] \/ wal_repr w' (full ++ [cd]) [] [])
    (fun w' => dir_holds (w_files w') ((closed <$> full) ++ [closed cd])).
Proof.
  intros R Hn. unfold MaybeRotate. case_if; [|by split; [left|]]. pose proof (fdatasync_repr _ _ _ _ R) as R'. rewrite app_nil_r in R'.
  replace (currentSegment_ w) with (currentSegment_ (fdatasync w)) by (by rewrite (repr_seg _ _ _ _ R), (repr_seg _ _ _ _ R')).
  pose proof (Open_next_ends _ _ _ R' Hn) as He. pose proof (fdatasync_endless w). destruct (OpenOrCreateSegment _ _) as [w' [[]|e]]; destruct He as [H1 H2].
  - split; [by right|auto].
  - split; [rewrite H1; apply R'|]. by intros ?%H.
Qed.

(** [wal_room w]: one more rotation does not exhaust the segment numbers. *)
Definition wal_room (w : Wal) : Prop := currentSegment_ w + 1 < 2 ^ 64.

Lemma dir_holds_journal files full s : dir_holds files ((closed <$> full) ++ [s]) -> Forall is_hard_state (sg_rest s) ->
  exists segs, holds_journal files segs /\ mjoin segs = mjoin full ++ seg_journal s.
Proof.
  intros Hd Hs. exists (full ++ [seg_journal s]). split; [|apply mjoin_snoc]. exists ((closed <$> full) ++ [s]). split_and!; [done| |].
  - rewrite fmap_app, <- list_fmap_compose. f_equal. rewrite <- (list_fmap_id full) at 1. apply list_fmap_ext. intros i j _. simpl. unfold seg_journal, closed. simpl. by rewrite app_nil_r.
  - intros i x Hx. rewrite length_app, length_closed. destruct (decide (i < length full)%nat).
    + rewrite lookup_app_l in Hx by (by rewrite length_closed). rewrite list_lookup_fmap in Hx. apply fmap_Some in Hx as (j & _ & ->). by left.
    + rewrite lookup_app_r in Hx by (rewrite length_closed; lia). rewrite length_closed in Hx. apply list_lookup_singleton_Some in Hx as [Hi <-].
      right. split; [simpl; lia|done].
Qed.

Lemma wal_sim_holds w d v : wal_sim w d v -> exists segs, holds_journal (w_files w) segs /\ mjoin segs = d ++ v.
Proof.
  intros (Hv & full & cd & -> & R). destruct (dir_holds_journal _ _ _ (repr_dir _ _ _ _ R) Hv) as (segs & Hs & E). exists segs. split; [done|].
  by rewrite E, <- app_assoc.
Qed.
(** A record: if the write returns, it is behind the others; if it throws, it may
    be there or not. *)
Lemma write_record_ends r w d v : wal_sim w d v -> record_ok r -> wal_room w ->
  ends w (write_record r w)
    (fun w' => currentSegment_ w' <= currentSegment_ w + 1 /\ exists d' v', d' ++ v' = d ++ v ++ [r] /\ wal_sim w' d' v')
    (fun w' => exists segs, holds_journal (w_files w') segs /\ (mjoin segs = d ++ v \/ mjoin segs = d ++ v ++ [r])).
Proof.
  intros (Hv & full & cd & -> & R) Hr Hroom. unfold wal_room in Hroom. rewrite (repr_seg _ _ _ _ R) in *.
  destruct (enc_record_spec r Hr) as (s & Hd & _). pose proof (WriteRecord_ends _ _ _ _ _ _ R Hr Hd) as E1.
  assert (ends w (WriteRecord (record_type r) s w) (fun w' => wal_repr w' full cd (v ++ [r]))
    (fun w' => exists segs, holds_journal (w_files w') segs /\ (mjoin segs = (mjoin full ++ cd) ++ v \/ mjoin segs = (mjoin full ++ cd) ++ v ++ [r]))) as E2.
  { apply (ends_mono _ _ _ _ _ _ E1); [done|]. intros w' (torn & Hdir). destruct (dir_holds_journal _ _ _ Hdir Hv) as (segs & Hs & Ej).
    exists segs. split; [done|]. left. by rewrite Ej, <- app_assoc. }
  assert (forall w' full', wal_repr w' full' [] [] -> mjoin full' = (mjoin full ++ cd) ++ v ++ [r] -> len full' = len full + 1 ->
    currentSegment_ w' <= len full + 1 /\ exists d' v', d' ++ v' = (mjoin full ++ cd) ++ v ++ [r] /\ wal_sim w' d' v') as Hnext.
  { intros w' full' R' Ej El. rewrite (repr_seg _ _ _ _ R'). split; [lia|]. exists (mjoin full'), []. rewrite app_nil_r. split; [done|].
    split; [constructor|]. exists full', []. by rewrite app_nil_r. }
  assert (mjoin (full ++ [cd ++ v ++ [r]]) = (mjoin full ++ cd) ++ v ++ [r]) as Ej by (rewrite mjoin_snoc; by rewrite <- app_assoc).
  destruct r as [e|hs|i t data]; cbn [write_record].
  - unfold AppendLogEntry. rewrite Hd, bind_lift_Ok. apply (ends_bind _ _ _ _ _ _ E2). intros [] w1 R1. rewrite bind_modify.
    pose proof (fdatasync_repr _ _ _ _ R1) as R2. pose proof (MaybeRotate_ends _ _ _ R2 Hroom) as E3. pose proof (fdatasync_endless w1).
    destruct (MaybeRotate (fdatasync w1)) as [w3 [[]|ex]]; destruct E3 as [H3 H4]; (split; [|auto]).
    + destruct H3 as [R3|R3]; [|apply (Hnext w3 _ R3 Ej); by rewrite len_app].
      rewrite (repr_seg _ _ _ _ R3). split; [lia|]. exists ((mjoin full ++ cd) ++ v ++ [RecLogEntry e]), []. rewrite app_nil_r. split; [done|].
      split; [constructor|]. eexists full, _. split; [|exact R3]. by rewrite <- app_assoc.
    + destruct (dir_holds_journal _ _ _ H3) as (segs & Hs & E); [constructor|]. exists segs. split; [done|]. right. rewrite E. unfold seg_journal. simpl.
      rewrite app_nil_r. by rewrite <- app_assoc.
  - unfold WriteHardState. rewrite Hd, bind_lift_Ok. apply (ends_mono _ _ _ _ _ _ E2); [|done]. intros w' R'. rewrite (repr_seg _ _ _ _ R').
    split; [lia|]. exists (mjoin full ++ cd), (v ++ [RecHardState hs]). split; [done|]. split; [apply Forall_app; split; [done|by constructor]|]. by exists full, cd.
  - unfold WriteSnapshot. rewrite Hd, bind_lift_Ok. apply (ends_bind _ _ _ _ _ _ E2). intros [] w1 R1. unfold Sync. rewrite bind_modify, bind_getS.
    pose proof (fdatasync_repr _ _ _ _ R1) as R2. pose proof (Open_next_ends _ _ _ R2 Hroom) as E3. pose proof (fdatasync_endless w1).
    destruct (OpenOrCreateSegment _ _) as [w3 [[]|ex]]; destruct E3 as [H3 H4]; (split; [|auto]).
    + apply (Hnext w3 _ H3 Ej). by rewrite len_app.
    + destruct (dir_holds_journal _ _ _ (repr_dir _ _ _ _ R2)) as (segs & Hs & E); [constructor|]. exists segs. rewrite H3. split; [done|]. right.
      rewrite E. unfold seg_journal. simpl. rewrite app_nil_r. by rewrite <- app_assoc.
Qed.

Lemma Wal_open_ends max space opens w0 : let w := mkWal ∅ space opens max None 0 0 in
  ends w (Wal_open ∅ space opens max w0) (fun w' => wal_sim w' [] [] /\ currentSegment_ w' = 0) (fun w' => w_files w' = ∅).
Proof.
  intros w. assert (list_segments ∅ = Ok []) as E by done. unfold Wal_open. rewrite E. cbn [foldr]. unfold OpenOrCreateSegment. cbn [w_opens w_files].
  change (SegmentPath 0) with (seg_name (length (closed <$> []))).
  assert (dir_holds (<[seg_name (length (closed <$> [])) := mkFile [] 0]> ∅) ((closed <$> []) ++ [mkSeg [] [] []])) as Hd.
  { eapply dir_put; [|by left|by unfold len|].
    - split; [done|done|by unfold len].
    - split; [done|simpl; lia|constructor|]. intros k. by rewrite firstn_nil. }
  assert (forall o, wal_sim (mkWal (<[seg_name (length (closed <$> [])) := mkFile [] 0]> ∅) space o max (Some (seg_name (length (closed <$> [])))) 0 0) [] []) as Hs.
  { intros o. split; [constructor|]. exists [], []. split; [done|]. by split. }
  assert (forall o, file_at (mkWal ∅ space o max None 0 0) (seg_name (length (closed <$> []))) = mkFile [] 0) as Hf by done. rewrite Hf.
  destruct opens as [[|k]|]; unfold ends, w, endless; cbn [w_space w_opens fmap option_fmap option_map]; (split; [done|]); [by intros [_ ?]|by intros [_ ?]|done].
Qed.

(** A sequence of writes. *)
Lemma write_records_ends rs : forall w d v, wal_sim w d v -> Forall record_ok rs -> currentSegment_ w + len rs < 2 ^ 64 ->
  match write_records rs w with
  | (w', Ok _) => exists d' v', wal_sim w' d' v' /\ d ++ v ++ rs = d' ++ v'
  | (w', Throw _) => ~ endless w /\ exists segs rest, holds_journal (w_files w') segs /\ d ++ v ++ rs = mjoin segs ++ rest /\
      forall k, (write_records (take k rs) w).2 = Ok tt -> (length (d ++ v) + Nat.min k (length rs) <= length (mjoin segs))%nat
  end.
Proof.
  induction rs as [|r rs IH]; intros w d v Hsim Hok Hroom; [exists d, v; by rewrite app_nil_r|].
  apply Forall_cons in Hok as [Hr Hok]. rewrite len_cons in Hroom. pose proof (len_nonneg rs).
  pose proof (write_record_ends r w d v Hsim Hr ltac:(unfold wal_room; lia)) as E1. cbn [write_records]. unfold mbind, M_bind.
  destruct (write_record r w) as [w1 [[]|ex]] eqn:Ew; destruct E1 as [H1 H2].
  - destruct H1 as (Hseg & d1 & v1 & Ej & Hs1). specialize (IH w1 d1 v1 Hs1 Hok ltac:(lia)).
    assert (d ++ v ++ r :: rs = d1 ++ v1 ++ rs) as E.
    { rewrite (app_assoc d1), Ej. by rewrite <- !app_assoc. }
    destruct (write_records rs w1) as [w' [[]|ex]]; [by rewrite E|]. destruct IH as (Hn & segs & rest & Hh & Er & Hk). split; [tauto|].
    exists segs, rest. split_and!; [done|by rewrite E|]. intros [|k]; cbn [firstn write_records]; intros Ek.
    + specialize (Hk 0%nat eq_refl). apply (f_equal length) in Ej. rewrite !length_app in *. simpl in *. lia.
    + rewrite (bind_run _ _ _ _ _ Ew) in Ek. specialize (Hk k Ek). apply (f_equal length) in Ej. rewrite !length_app in *. simpl in *. lia.
  - split; [done|]. destruct H1 as (segs & Hh & Ej). assert (exists rest, d ++ v ++ r :: rs = mjoin segs ++ rest) as [rest Erest].
    { destruct Ej as [->| ->]; [exists (r :: rs)|exists rs]; by rewrite <- !app_assoc. }
    exists segs, rest. split_and!; [done..|].
    intros [|k]; cbn [firstn write_records]; intros Ek.
    + destruct Ej as [->| ->]; rewrite !length_app; simpl; lia.
    + unfold mbind, M_bind in Ek. by rewrite Ew in Ek.
Qed.

(** A cut that keeps the bytes of [cd] keeps its records. *)
Lemma cut_after (cd v j1 j2 : journal) n : cd ++ v = j1 ++ j2 -> (length (enc_journal cd) <= n)%nat ->
  (j2 <> [] -> n < length (enc_journal (take (S (length j1)) (cd ++ v))))%nat ->
  exists v1, j1 = cd ++ v1 /\ v = v1 ++ j2.
Proof.
  intros Hj Hn Hcut. destruct (decide (length cd <= length j1)%nat) as [Hle|Hgt].
  - exists (drop (length cd) j1).
    assert (j1 = cd ++ drop (length cd) j1) as E.
    { rewrite <- (take_drop (length cd) j1) at 1. f_equal.
      transitivity (take (length cd) (cd ++ v)); [|apply take_app_length]. by rewrite Hj, take_app_le. }
    split; [done|]. rewrite E, <- app_assoc in Hj. by apply app_inv_head in Hj.
  - exfalso. assert (j2 <> []) as Hne.
    { intros ->. rewrite app_nil_r in Hj. apply (f_equal length) in Hj. rewrite length_app in Hj. lia. }
    specialize (Hcut Hne). rewrite take_app_le in Hcut by lia.
    assert (length (enc_journal (take (S (length j1)) cd)) <= length (enc_journal cd))%nat.
    { rewrite <- (take_drop (S (length j1)) cd) at 2. rewrite enc_journal_app, length_app. lia. }
    lia.
Qed.

(** A segment that is cut behind its synced bytes. *)
Lemma seg_cut s f n : seg_holds s f -> (f_synced f <= n)%nat ->
  exists t lost, seg_journal s = t ++ lost /\ reads (Some (take n (f_bytes f))) t /\ exists v1, sg_rest s = v1 ++ lost.
Proof.
  intros [Hb Hs Hok Ht] Hn. rewrite Hb. destruct (decide (n <= length (enc_journal (seg_journal s)))%nat) as [Hle|Hgt].
  - destruct (take_enc_journal (seg_journal s) n Hok) as (j1 & j2 & tail & Hj & Htake & Hnone & Hcut).
    destruct (cut_after (sg_durable s) (sg_rest s) j1 j2 n Hj ltac:(lia) Hcut) as (v1 & -> & Hr). exists (sg_durable s ++ v1), j2.
    split; [done|]. split; [|by exists v1]. rewrite Hj in Hok. apply Forall_app in Hok as [? _]. split; [done|]. exists tail. by rewrite take_app_le.
  - exists (seg_journal s), []. rewrite app_nil_r. split; [done|]. split; [|exists (sg_rest s); by rewrite app_nil_r]. split; [done|].
    exists (take (n - length (enc_journal (seg_journal s))) (sg_torn s)). split; [|apply Ht]. by rewrite take_app_ge by lia.
Qed.

(** What a crash leaves of every segment. *)
Lemma crash_reads linked files files' sgs i s : dir_holds files sgs -> crash linked files files' -> sgs !! i = Some s ->
  exists t, reads (f_bytes <$> files' !! seg_name i) t /\
    ((exists lost v1, seg_journal s = t ++ lost /\ sg_rest s = v1 ++ lost) \/ (t = [] /\ (seg_name i ∉ linked))).
Proof.
  intros Hd Hc Hs. destruct (dh_seg _ _ Hd i s Hs) as (f & Hf & Hh). specialize (Hc (seg_name i)). rewrite Hf in Hc.
  destruct Hc as [(n & Hn & ->)|[Hl ->]]; [|exists []; split; [done|by right]].
  destruct (seg_cut s f n Hh Hn) as (t & lost & Ej & Hr & v1 & Ev). exists t. split; [exact Hr|]. left. by exists lost, v1.
Qed.

Lemma crash_sparse linked files files' sgs : dir_holds files sgs -> crash linked files files' ->
  sparse files' (imap (fun i _ => f_bytes <$> files' !! seg_name i) sgs).
Proof.
  intros Hd Hc. split_and!.
  - unfold len. rewrite length_imap. apply Hd.
  - intros i o. rewrite list_lookup_imap. by intros (s & _ & ->)%fmap_Some.
  - intros path f Hf. rewrite length_imap. specialize (Hc path). destruct (files !! path) as [g|] eqn:Hg; [|congruence]. by apply (dh_name _ _ Hd path g).
Qed.

(** Recovery after a crash. *)
Lemma Recover_crash linked files files' segs : holds_journal files segs -> crash linked files files' ->
  exists kept, survives linked segs kept /\ Recover files' = Ok (replay (mjoin kept)).
Proof.
  intros (sgs & Hd & -> & Hshape) Hc.
  destruct (list_choice (fun i s t => reads (f_bytes <$> files' !! seg_name i) t /\
    ((exists lost v1, seg_journal s = t ++ lost /\ sg_rest s = v1 ++ lost) \/ (t = [] /\ (seg_name i ∉ linked)))) sgs) as (kept & El & Hk).
  { intros i s Hs. by apply (crash_reads linked files files' sgs). }
  exists kept. split; [split; [by rewrite length_fmap|]|].
  - intros i j t Hj Ht. rewrite list_lookup_fmap in Hj. apply fmap_Some in Hj as (s & Hs & ->). rewrite length_fmap.
    destruct (Hk i s t Hs Ht) as [_ [(lost & v1 & Ej & Ev)|Hno]]; [|by right; left]. destruct (Hshape i s Hs) as [[E _]|[Hi Hh]].
    + left. rewrite E in Ev. destruct v1, lost; try done. by rewrite Ej, app_nil_r.
    + right. right. split; [done|]. exists lost. split; [done|]. rewrite Ev in Hh. by apply Forall_app in Hh as [_ ?].
  - rewrite (Recover_sparse _ _ (crash_sparse linked files files' sgs Hd Hc)). apply read_all_reads. apply Forall2_same_length_lookup.
    rewrite length_imap. split; [done|]. intros i o t Ho Ht. rewrite list_lookup_imap in Ho. apply fmap_Some in Ho as (s & Hs & ->). by apply (Hk i s t).
Qed.

(** Nothing is lost of segments that are synced and linked. *)
Lemma Recover_closed linked files files' segs : dir_holds files (closed <$> segs) -> crash linked files files' ->
  (forall path, is_Some (files !! path) -> path ∈ linked) -> Recover files' = Ok (replay (mjoin segs)).
Proof.
  intros Hd Hc Hl. rewrite (Recover_sparse _ _ (crash_sparse linked files files' _ Hd Hc)). apply read_all_reads. apply Forall2_same_length_lookup.
  rewrite length_imap, length_fmap. split; [done|]. intros i o j Ho Hj. rewrite list_lookup_imap, list_lookup_fmap, Hj in Ho. injection Ho as <-.
  assert ((closed <$> segs) !! i = Some (closed j)) as Hs by (by rewrite list_lookup_fmap, Hj). destruct (dh_seg _ _ Hd i _ Hs) as (f & Hf & _).
  destruct (crash_reads linked files files' _ i _ Hd Hc Hs) as (t & Hr & [(lost & v1 & Ej & Ev)|[_ Hno]]); [|destruct Hno; apply Hl; by exists f].
  unfold seg_journal in Ej. simpl in Ej, Ev. destruct v1, lost; try done. rewrite !app_nil_r in Ej. by subst t.
Qed.

Lemma survives_linked linked segs kept : survives linked segs kept -> (forall i, (i < length segs)%nat -> seg_name i ∈ linked) ->
  exists lost, mjoin segs = mjoin kept ++ lost /\ Forall is_hard_state lost.
Proof.
  intros [El Hk] Hl. destruct (decide (segs = [])) as [->|[segs0 [s ->]]%exists_last]; [by destruct kept; [exists []|]|].
  destruct kept as [|t kept0 _] using rev_ind; [rewrite length_app in El; simpl in El; lia|]. rewrite !length_app in El. simpl in El.
  assert (kept0 = segs0) as ->.
  { apply list_eq_same_length with (length segs0); [done|lia|]. intros i x y Hi Hx Hy.
    destruct (Hk i y x) as [?|[[_ Hno]|[Hlast _]]]; [by apply lookup_app_l_Some..|done| |]; rewrite length_app in *; simpl in *; [|lia].
    destruct Hno. apply Hl. lia. }
  rewrite !mjoin_snoc. destruct (Hk (length segs0) s t) as [->|[[_ Hno]|[_ (lost & -> & Hlost)]]]; [by apply list_lookup_middle|by apply list_lookup_middle| | |].
  - exists []. by rewrite app_nil_r.
  - destruct Hno. apply Hl. rewrite length_app. simpl. lia.
  - exists lost. by rewrite app_assoc.
Qed.

Lemma holds_names files segs i : holds_journal files segs -> (i < length segs)%nat -> is_Some (files !! seg_name i).
Proof.
  intros (sgs & Hd & -> & _) Hi. rewrite length_fmap in Hi. destruct (lookup_lt_is_Some_2 sgs i Hi) as [s Hs].
  destruct (dh_seg _ _ Hd i s Hs) as (f & Hf & _). by exists f.
Qed.

(** The state at the end of a sequence of writes to a fresh log. *)
Lemma written_holds max space opens w0 recs : Forall record_ok recs -> len recs < 2 ^ 64 ->
  exists w res segs rest, (Wal_open ∅ space opens max;; write_records recs) w0 = (w, res) /\ holds_journal (w_files w) segs /\
    recs = mjoin segs ++ rest /\ (res = Ok tt -> rest = []) /\ (space = None -> opens = None -> res = Ok tt) /\
    (forall k, ((Wal_open ∅ space opens max;; write_records (take k recs)) w0).2 = Ok tt -> (Nat.min k (length recs) <= length (mjoin segs))%nat).
Proof.
  intros Hok Hlen. pose proof (Wal_open_ends max space opens w0) as Ho. cbv zeta in Ho. unfold mbind, M_bind.
  destruct (Wal_open ∅ space opens max w0) as [w1 [[]|ex]] eqn:Eo; destruct Ho as [H1 H2].
  - destruct H1 as [S1 Hseg]. pose proof (write_records_ends recs w1 [] [] S1 Hok ltac:(lia)) as Hw.
    destruct (write_records recs w1) as [w [[]|ex]].
    + destruct Hw as (d & v & Hs & Ej). destruct (wal_sim_holds w d v Hs) as (segs & Hh & Es). simpl in Ej. exists w, (Ok tt), segs, []. rewrite app_nil_r, Es, <- Ej.
      split_and!; try done. intros k _. lia.
    + destruct Hw as (Hn & segs & rest & Hh & Ej & Hk). exists w, (Throw ex), segs, rest. split_and!; try done.
      intros -> ->. destruct Hn. by apply H2.
  - exists w1, (Throw ex), [], recs. split_and!; try done; [|by intros -> ->; destruct H2].
    rewrite H1. exists []. split; [|done]. by split; [| |unfold len].
Qed.

(** ** Theorems *)

(** C9: crash recovery of the write-ahead log.  Records are written to a fresh log
    until one of them fails, on a device of any size on which [open] may fail at
    any time ([fdatasync] is taken to succeed).  The log then holds, in
    segments, the records in order up to one at which the writing ended: every
    record whose write returned is there, and on a device without bounds every
    write returns.  After a crash at the end of the sequence -- which may cut
    every file anywhere behind its last [fdatasync], and lose any file whose
    directory entry is not on the medium -- [Recover] succeeds and returns the
    state replayed from what survives: every segment whole, except that the
    last may lack hard states at its end, and one whose directory entry was not
    on the medium is missing.  If all entries were, only trailing hard states
    are lost. *)
Theorem wal_crash_recovery max space opens w0 recs : Forall record_ok recs -> len recs < 2 ^ 64 ->
  exists w res segs rest, (Wal_open ∅ space opens max;; write_records recs) w0 = (w, res) /\
    recs = mjoin segs ++ rest /\ (res = Ok tt -> rest = []) /\ (space = None -> opens = None -> res = Ok tt) /\
    (forall k, ((Wal_open ∅ space opens max;; write_records (take k recs)) w0).2 = Ok tt -> (Nat.min k (length recs) <= length (mjoin segs))%nat) /\
    forall linked files', crash linked (w_files w) files' ->
    exists kept, Recover files' = Ok (replay (mjoin kept)) /\ survives linked segs kept /\
      ((forall path, is_Some (w_files w !! path) -> path ∈ linked) -> exists lost, mjoin segs = mjoin kept ++ lost /\ Forall is_hard_state lost).
Proof.
  intros Hok Hlen. destruct (written_holds max space opens w0 recs Hok Hlen) as (w & res & segs & rest & E & Hh & Hr & Hres & Hend & Hk).
  exists w, res, segs, rest. split_and!; try done. intros linked files' Hc.
  destruct (Recover_crash linked (w_files w) files' segs Hh Hc) as (kept & Hs & HR). exists kept. split_and!; try done.
  intros Hl. apply (survives_linked linked); [done|]. intros i Hi. by apply Hl, (holds_names _ segs).
Qed.

(** An orderly shutdown loses nothing whose directory entry is on the medium:
    once the destructor has run, recovery after any crash returns the state of
    all the records. *)
Theorem close_keeps_all max w0 recs : Forall record_ok recs -> len recs < 2 ^ 64 ->
  exists w, (Wal_open ∅ None None max;; write_records recs) w0 = (w, Ok tt) /\
    forall linked files', crash linked (w_files (Wal_close w)) files' ->
    (forall path, is_Some (w_files (Wal_close w) !! path) -> path ∈ linked) -> Recover files' = Ok (replay recs).
Proof.
  intros Hok Hlen. pose proof (Wal_open_ends max None None w0) as Ho. cbv zeta in Ho. destruct (Wal_open ∅ None None max w0) as [w1 [[]|ex]] eqn:Eo.
  2: { destruct Ho as [_ []]. done. }
  destruct Ho as [[S1 Hseg] He]. pose proof (write_records_ends recs w1 [] [] S1 Hok ltac:(lia)) as Hw.
  rewrite (bind_run _ _ _ _ _ Eo). destruct (write_records recs w1) as [w [[]|ex]]; [|destruct Hw as [[] _]; by apply He].
  exists w. split; [done|]. destruct Hw as (d & v & (Hv & full & cd & -> & R) & Ej). intros linked files' Hc Hl.
  apply fdatasync_repr in R. simpl in Ej. rewrite Ej, <- app_assoc, <- mjoin_snoc.
  apply (Recover_closed linked (w_files (fdatasync w))); [|done|done]. rewrite fmap_app. apply R.
Qed.

(** A record with one corrupted byte in its type or payload ends the
    reading of its segment: the records in front of it are recovered, nothing
    is made of the damaged bytes, and no exception is thrown. *)
Theorem Recover_stops_at_corruption j c t pl p b b' q rest res :
  Forall record_ok j -> c = Crc32 (t :: pl) -> len pl < 2 ^ 32 -> t :: pl = p ++ b :: q -> b <> b' ->
  let bs := enc_journal j ++ le32 c ++ le32 (len pl) ++ (p ++ b' :: q) ++ rest in
  read_segment (length bs) bs res = Ok (fold_left replay_step j res).
Proof.
  intros Hj -> Hl Hb Hne bs. apply read_segment_fuel; [done|].
  assert (exists t' pl', p ++ b' :: q = t' :: pl' /\ len pl' = len pl) as (t' & pl' & E & Hl').
  { destruct p as [|x p]; simpl in Hb; inv Hb; [by eexists _, _|]. exists x, (p ++ b' :: q). split; [done|].
    by rewrite !len_app, !len_cons. }
  rewrite E, <- Hl'. change ((t' :: pl') ++ rest) with (t' :: pl' ++ rest).
  rewrite read_record_raw by (try apply Crc32_range; lia). rewrite <- E, Hb.
  case_if; [|done]. exfalso. by apply (Crc32_detects p b' b q).
Qed.
End WalLemmas.

Lemma replay_reappend_aux r k1 k2 : index_sorted (k1 ++ k2) ->
  fold_left replay_step (RecLogEntry <$> k2) (mkRecoveryResult k1 (rr_hardState r) (rr_latestSnapshot r)
    (rr_snapshotIndex r) (rr_snapshotTerm r)) =
  mkRecoveryResult (k1 ++ k2) (rr_hardState r) (rr_latestSnapshot r) (rr_snapshotIndex r) (rr_snapshotTerm r).
Proof.
  revert k1. induction k2 as [|e k2 IH]; intros k1 Hs; [by rewrite app_nil_r|].
  replace (k1 ++ e :: k2) with ((k1 ++ [e]) ++ k2) in * by (by rewrite <- app_assoc).
  rewrite fmap_cons. cbn [fold_left replay_step rr_entries rr_hardState rr_latestSnapshot rr_snapshotIndex rr_snapshotTerm].
  rewrite pop_ge_lt; [by apply IH|].
  assert (index_sorted (k1 ++ [e])) as [_ ?]%index_sorted_snoc; [|done].
  clear IH. induction k2 as [|x k2 IH] using rev_ind; [by rewrite app_nil_r in Hs|].
  rewrite app_assoc in Hs. apply index_sorted_snoc in Hs as [Hs _]. by apply IH.
Qed.

Lemma replay_reappend_take j k : (0 < k)%nat ->
  let r := replay j in
  replay (j ++ (RecLogEntry <$> take k (rr_entries r))) =
  mkRecoveryResult (take k (rr_entries r)) (rr_hardState r) (rr_latestSnapshot r) (rr_snapshotIndex r) (rr_snapshotTerm r).
Proof.
  intros Hk r. pose proof (replay_sorted j) as Hs. fold r in Hs. rewrite replay_app. fold r.
  destruct (rr_entries r) as [|e es] eqn:E.
  - rewrite firstn_nil. simpl. rewrite <- E. by destruct r.
  - destruct k as [|k]; [lia|]. cbn [firstn]. rewrite fmap_cons. cbn [fold_left]. unfold replay_step at 2.
    rewrite E. change (e :: es) with ([] ++ e :: es). rewrite (pop_ge_at [] e es Hs). apply (replay_reappend_aux r [e] (take k es)).
    rewrite <- (take_drop k es) in Hs. revert Hs. generalize (take k es) (drop k es). intros a b.
    induction b as [|x b IH] using rev_ind; [by rewrite app_nil_r|].
    rewrite app_assoc, app_comm_cons. intros [Hs _]%index_sorted_snoc. by apply IH.
Qed.

Lemma replay_reappend_all j : replay (j ++ (RecLogEntry <$> rr_entries (replay j))) = replay j.
Proof.
  pose proof (replay_reappend_take j (S (length (rr_entries (replay j)))) ltac:(lia)) as H. cbv zeta in H.
  rewrite take_ge in H by lia. rewrite H. by destruct (replay j).
Qed.

(** What a restart does to the journal.  The constructor of [RaftNode]
    appends every recovered entry to the log again, which journals it again.
    The recovered entries have strictly increasing indices.  Once all of them
    are journalled again recovery yields the same result; when the machine
    crashes after the first [k], [0 < k], the entries behind the first [k] are
    lost although they were durable before the restart. *)
Theorem replay_reappend j :
  let r := replay j in
  index_sorted (rr_entries r) /\
  replay (j ++ (RecLogEntry <$> rr_entries r)) = r /\
  forall k, (0 < k)%nat ->
    replay (j ++ (RecLogEntry <$> take k (rr_entries r))) =
    mkRecoveryResult (take k (rr_entries r)) (rr_hardState r) (rr_latestSnapshot r)
      (rr_snapshotIndex r) (rr_snapshotTerm r).
Proof.
  split_and!; [apply replay_sorted|apply replay_reappend_all|]. intros k Hk. by apply replay_reappend_take.
Qed.

(** ** Witnesses and scenarios *)

Section WalExamples.
#[local] Existing Instance RefJson.

Definition ex_wal : Wal := mkWal ∅ None None 0 None 0 0.
Definition ex_entry : WalRecord := RecLogEntry (mkRawLogEntry 1 1 "x").
Definition ex_vote : WalRecord := RecHardState (mkHardState 2 "n1").

Lemma ex_records_ok : Forall record_ok [ex_vote; ex_entry; ex_vote].
Proof. repeat constructor; by vm_compute. Qed.

(** A device with room for a record and a half, and one without bounds. *)
Lemma wal_crash_recovery_witness :
  (exists w segs rest, (Wal_open ∅ (Some (length (enc_record ex_vote) + 5)%nat) None 100;; write_records [ex_vote; ex_entry; ex_vote]) ex_wal = (w, Throw (runtime_error "WAL write failed")) /\
     [ex_vote; ex_entry; ex_vote] = mjoin segs ++ rest /\ (1 <= length (mjoin segs))%nat) /\
  (exists w segs, (Wal_open ∅ None None 100;; write_records [ex_vote; ex_entry; ex_vote]) ex_wal = (w, Ok tt) /\
    [ex_vote; ex_entry; ex_vote] = mjoin segs ++ [] /\
    forall linked files', crash linked (w_files w) files' -> exists kept, Recover files' = Ok (replay (mjoin kept)) /\ survives linked segs kept).
Proof.
  split.
  - destruct (wal_crash_recovery (L := RefJson_laws) 100 (Some (length (enc_record ex_vote) + 5)%nat) None ex_wal [ex_vote; ex_entry; ex_vote] ex_records_ok eq_refl)
      as (w & res & segs & rest & E & Ej & _ & _ & Hk & _). exists w, segs, rest. split; [|split; [exact Ej|]].
    + assert (res = Throw (runtime_error "WAL write failed")) as <- by (apply (f_equal snd) in E; exact (eq_sym E)). exact E.
    + specialize (Hk 1%nat). apply Hk. reflexivity.
  - destruct (wal_crash_recovery (L := RefJson_laws) 100 None None ex_wal [ex_vote; ex_entry; ex_vote] ex_records_ok eq_refl)
      as (w & res & segs & rest & E & Ej & Hr & Hres & _ & Hc). specialize (Hres eq_refl eq_refl). rewrite (Hr Hres) in Ej. rewrite Hres in E.
    exists w, segs. split; [exact E|]. split; [exact Ej|]. intros linked files' Hcr. destruct (Hc linked files' Hcr) as (kept & H1 & H2 & _).
    exists kept. split; [exact H1|exact H2].
Defined.

Lemma Recover_stops_at_corruption_witness :
  let bs := enc_journal [ex_vote; ex_entry; ex_vote] ++ le32 (Crc32 [x01; x41]) ++ le32 1 ++ [x01; x42] ++ [] in
  read_segment (length bs) bs RecoveryResult_new = Ok (replay [ex_vote; ex_entry; ex_vote]).
Proof.
  refine (Recover_stops_at_corruption (L := RefJson_laws) [ex_vote; ex_entry; ex_vote] _ x01 [x41] [x01] x41 x42 [] []
    RecoveryResult_new ex_records_ok eq_refl _ eq_refl _); done.
Defined.

(** The file of segment 0 cut to [n] bytes. *)
Definition cut_first (n : nat) (files : gmap string File) : gmap string File :=
  let f := default (mkFile [] 0) (files !! SegmentPath 0) in
  <[SegmentPath 0 := mkFile (take n (f_bytes f)) n]> files.

(** A log opened on [files] and the records [rs] written to it. *)
Definition ex_run (files : gmap string File) (rs : journal) : Wal * Res unit :=
  (Wal_open files None None 4096;; write_records rs) ex_wal.

(** [WriteHardState] does not sync: the vote of a term can be forgotten. *)
Example hard_state_lost :
  let w := (ex_run ∅ [ex_vote]).1 in
  (ex_run ∅ [ex_vote]).2 = Ok tt /\ (forall linked, crash linked (w_files w) (cut_first 0 (w_files w))) /\
  Recover (cut_first 0 (w_files w)) = Ok RecoveryResult_new.
Proof.
  split; [by vm_compute|]. split; [|by vm_compute]. intros linked path.
  change (w_files (ex_run ∅ [ex_vote]).1)
    with (<[SegmentPath 0 := mkFile (enc_record ex_vote) 0]> (<[SegmentPath 0 := mkFile [] 0]> (∅ : gmap string File))).
  unfold cut_first. rewrite insert_insert_eq, lookup_insert_eq, !lookup_insert. case_decide; [|done].
  left. by exists 0%nat.
Qed.

(** No operation syncs the directory: the file of an entry that was written and
    synced can be gone after a crash. *)
Example synced_entry_lost :
  let w := (ex_run ∅ [ex_entry]).1 in
  (ex_run ∅ [ex_entry]).2 = Ok tt /\ f_synced <$> w_files w !! SegmentPath 0 = length ∘ f_bytes <$> w_files w !! SegmentPath 0 /\
  crash ∅ (w_files w) ∅ /\ Recover ∅ = Ok RecoveryResult_new.
Proof.
  split; [by vm_compute|]. split; [by vm_compute|]. split; [|by vm_compute]. intros path. destruct (w_files _ !! path); [|done]. right.
  split; [apply not_elem_of_empty|done].
Qed.

(** A torn tail is not removed when the segment is opened again: an entry that
    is appended and synced behind it is not found by the next recovery. *)
Example torn_tail_hides_entry :
  let files := cut_first 5 (w_files (ex_run ∅ [ex_vote]).1) in
  let w := (ex_run files [ex_entry]).1 in
  (ex_run files [ex_entry]).2 = Ok tt /\
  f_synced <$> w_files w !! SegmentPath 0 = length ∘ f_bytes <$> w_files w !! SegmentPath 0 /\
  Recover (w_files w) = Ok RecoveryResult_new.
Proof. by vm_compute. Qed.
End WalExamples.
