(* ===== verification/RaftLog.v ===== *)
(** * The replicated log (src/raft/RaftLog.{hpp,cpp})

    The in-memory log and the journal behind it.  The write-ahead log is seen
    through its journal ([WriteAheadLog.wal_crash_recovery] relates the two);
    an operation that journals an entry throws what the serialisation of the
    entry throws, after the in-memory update, as in the code. *)
From S2P Require Import Prelude CxxString CxxMap Json RaftRPC WriteAheadLog.
From Stdlib Require Import ZArith Lia Ascii String.
From stdpp Require Import prelude gmap strings sorting.
#[local] Open Scope Z_scope.

(** [wal_] is the shared write-ahead log; [None] is the null pointer. *)
Record RaftLog := mkRaftLog {
  entries_ : list LogEntry;
  snapshotIndex_ : Z;
  snapshotTerm_ : Z;
  wal_ : option journal;
}.

Definition set_entries (l : RaftLog) (es : list LogEntry) : RaftLog :=
  mkRaftLog es (snapshotIndex_ l) (snapshotTerm_ l) (wal_ l).

Definition set_wal (l : RaftLog) (j : journal) : RaftLog :=
  mkRaftLog (entries_ l) (snapshotIndex_ l) (snapshotTerm_ l) (Some j).

Definition sentinel (term index : Z) : LogEntry := mkLogEntry term index OpNoOp "" "" (-1) "".

Definition RaftLog_new (wal : option journal) : RaftLog := mkRaftLog [sentinel 0 0] 0 0 wal.

(** The offset of an index in the vector, in [size_t]. *)
Definition Offset (l : RaftLog) (index : Z) : Z := u64 (index - snapshotIndex_ l).

(** [entries_[off]] inside the vector. *)
Definition entry_at (l : RaftLog) (off : Z) : option LogEntry := entries_ l !! Z.to_nat off.

(** [entries_.back()]; the vector holds at least the sentinel. *)
Definition back (l : RaftLog) : LogEntry := default LogEntry_default (last (entries_ l)).

Definition LastIndex (l : RaftLog) : Z := le_index (back l).
Definition LastTerm (l : RaftLog) : Z := le_term (back l).
Definition SnapshotIndex (l : RaftLog) : Z := snapshotIndex_ l.
Definition SnapshotTerm (l : RaftLog) : Z := snapshotTerm_ l.
Definition Log_Size (l : RaftLog) : Z := u64 (len (entries_ l) - 1).

Definition GetEntry (l : RaftLog) (index : Z) : Res LogEntry :=
  let off := Offset l index in
  if len (entries_ l) <=? off then
    Throw (out_of_range ("RaftLog::GetEntry: index " +:+ to_string index +:+ " out of range")%string)
  else of_opt (out_of_range "")%string (entry_at l off).

Definition GetTerm (l : RaftLog) (index : Z) : Z :=
  if index =? snapshotIndex_ l then snapshotTerm_ l
  else
    let off := Offset l index in
    if len (entries_ l) <=? off then 0
    else match entry_at l off with Some e => le_term e | None => 0 end.

(** The loop of [GetEntries]; each turn raises the offset by one, so the size
    of the vector is enough fuel. *)
Fixpoint GetEntries_loop (l : RaftLog) (fuel : nat) (i to : Z) : list LogEntry :=
  match fuel with
  | O => []
  | S fuel' =>
      if (i <? to) && (Offset l i <? len (entries_ l)) then
        match entry_at l (Offset l i) with
        | Some e => e :: GetEntries_loop l fuel' (u64 (i + 1)) to
        | None => []
        end
      else []
  end.

Definition GetEntries (l : RaftLog) (from to : Z) : list LogEntry :=
  GetEntries_loop l (length (entries_ l)) from to.

Definition TruncateFrom (index : Z) (l : RaftLog) : RaftLog :=
  let off := Offset l index in
  if off <? len (entries_ l) then set_entries l (take (Z.to_nat off) (entries_ l)) else l.

Definition SetSnapshot (index term : Z) (l : RaftLog) : RaftLog :=
  let off := Offset l index in
  let kept := if off <? len (entries_ l) then drop (Z.to_nat off) (entries_ l) else [] in
  mkRaftLog (sentinel term index :: kept) index term (wal_ l).

Section LogOps.
Context `{JsonLib}.

(** A record handed to the write-ahead log. *)
Definition journal_write (r : WalRecord) : M RaftLog unit := fun l =>
  match wal_ l with
  | None => (l, Ok tt)
  | Some j => match dump (record_json r) with
              | Ok _ => (set_wal l (j ++ [r]), Ok tt)
              | Throw e => (l, Throw e)
              end
  end.

(** [if (wal_) { RawLogEntry raw; ...; wal_->AppendLogEntry(raw); }] *)
Definition journal_entry (e : LogEntry) : M RaftLog unit := fun l =>
  match wal_ l with
  | None => (l, Ok tt)
  | Some _ => (command ← lift (LogEntry_Serialize e);
               journal_write (RecLogEntry (mkRawLogEntry (le_term e) (le_index e) command))) l
  end.

Definition Append (entry : LogEntry) : M RaftLog unit :=
  modify (fun l => set_entries l (entries_ l ++ [entry]));;
  journal_entry entry.

(** The in-memory part of one turn of [AppendAll]. *)
Definition merge_entry (ne : LogEntry) (l : RaftLog) : RaftLog :=
  let off := Offset l (le_index ne) in
  if off <? len (entries_ l) then
    match entry_at l off with
    | Some e => if le_term e =? le_term ne then l
                else set_entries l (take (Z.to_nat off) (entries_ l) ++ [ne])
    | None => l
    end
  else set_entries l (entries_ l ++ [ne]).

Fixpoint AppendAll (newEntries : list LogEntry) : M RaftLog unit :=
  match newEntries with
  | [] => mret tt
  | ne :: rest =>
      modify (merge_entry ne);;
      journal_entry ne;;
      AppendAll rest
  end.
End LogOps.

(** ** Specification *)

(** The entry at position [i] of the vector has index [snapshotIndex_ + i], and
    the vector starts with the sentinel. *)
Record log_wf (l : RaftLog) : Prop := {
  wf_nonempty : entries_ l <> [];
  wf_index i e : entries_ l !! i = Some e -> le_index e = snapshotIndex_ l + Z.of_nat i;
  wf_head e : head (entries_ l) = Some e -> le_term e = snapshotTerm_ l;
  wf_snap : 0 <= snapshotIndex_ l;
  wf_bound : snapshotIndex_ l + len (entries_ l) < 2 ^ 64;
}.

(** New entries with consecutive indices from [s]. *)
Definition contiguous (s : Z) (new : list LogEntry) : Prop :=
  forall i e, new !! i = Some e -> le_index e = s + Z.of_nat i.

(** The receiver rule of Raft on the entries from the first new index on: keep
    what agrees, and from the first disagreement on take the new entries. *)
Fixpoint merge_suffix (old new : list LogEntry) : list LogEntry :=
  match new, old with
  | [], _ => old
  | _, [] => new
  | n :: new', o :: old' => if le_term o =? le_term n then o :: merge_suffix old' new' else new
  end.

(** The record that journals an entry. *)
Definition raw_of `{JsonLib} (e : LogEntry) : RawLogEntry :=
  mkRawLogEntry (le_term e) (le_index e)
    (match LogEntry_Serialize e with Ok s => s | Throw _ => "" end)%string.

(** Recovery of the journal gives the entries of the log. *)
Definition log_durable `{JsonLib} (l : RaftLog) : Prop :=
  exists j, wal_ l = Some j /\ rr_entries (replay j) = raw_of <$> tail (entries_ l).

(** The log as a finite function of the index. *)
Definition log_lookup (l : RaftLog) (i : Z) : option LogEntry :=
  if snapshotIndex_ l <=? i then entries_ l !! Z.to_nat (i - snapshotIndex_ l) else None.

(** ** Lemmas: reading *)

Lemma Offset_ge l i : log_wf l -> snapshotIndex_ l <= i -> is_u64 i -> Offset l i = i - snapshotIndex_ l.
Proof. intros W Hi [? ?]. pose proof (wf_snap l W). apply u64_small. unfold is_u64. lia. Qed.

(** Below the snapshot the offset wraps around to a value behind the vector. *)
Lemma Offset_lt l i : log_wf l -> i < snapshotIndex_ l -> 0 <= i -> len (entries_ l) <= Offset l i.
Proof.
  intros W Hi H0. pose proof (wf_snap l W). pose proof (wf_bound l W). pose proof (len_nonneg (entries_ l)).
  unfold Offset. rewrite u64_sub_wrap; unfold is_u64; lia.
Qed.

Lemma entry_at_lookup l i : log_wf l -> is_u64 i ->
  log_lookup l i = if len (entries_ l) <=? Offset l i then None else entry_at l (Offset l i).
Proof.
  intros W Hi. unfold log_lookup. destruct (snapshotIndex_ l <=? i) eqn:E; bool_prop.
  - rewrite Offset_ge by done. case_if; [|done]. apply lookup_ge_None. unfold len in *. lia.
  - pose proof (Offset_lt l i W E (proj1 Hi)). case_if; [done|lia].
Qed.

Lemma entry_at_Some l off : 0 <= off < len (entries_ l) -> exists e, entry_at l off = Some e.
Proof. intros H. apply lookup_lt_is_Some_2. unfold len in H. lia. Qed.

Lemma GetEntry_lookup l i : log_wf l -> is_u64 i ->
  GetEntry l i = of_opt (out_of_range ("RaftLog::GetEntry: index " +:+ to_string i +:+ " out of range")%string) (log_lookup l i).
Proof.
  intros W Hi. rewrite entry_at_lookup by done. unfold GetEntry. case_if; [done|].
  destruct (entry_at_Some l (Offset l i)) as [e ->]; [|done]. pose proof (u64_range (i - snapshotIndex_ l)) as [? _].
  split; [done|lia].
Qed.

Lemma head_lookup l e : log_wf l -> entries_ l !! 0%nat = Some e -> le_term e = snapshotTerm_ l.
Proof. intros W He. apply (wf_head l W). destruct (entries_ l); [done|]. by inv He. Qed.

Lemma GetTerm_lookup l i : log_wf l -> is_u64 i -> GetTerm l i = from_option le_term 0 (log_lookup l i).
Proof.
  intros W Hi. unfold GetTerm. case_if.
  - subst i. unfold log_lookup. rewrite Z.leb_refl, Z.sub_diag. change (Z.to_nat 0) with 0%nat.
    destruct (entries_ l !! 0%nat) as [e|] eqn:He; [by rewrite <- (head_lookup l e)|].
    pose proof (wf_nonempty l W). by destruct (entries_ l).
  - rewrite entry_at_lookup by done. case_if; [done|]. by destruct (entry_at l (Offset l i)).
Qed.

Lemma log_size_pos l : log_wf l -> 0 < len (entries_ l).
Proof. intros W. pose proof (wf_nonempty l W). unfold len. destruct (entries_ l); [done|]. simpl. lia. Qed.

Lemma back_lookup l : log_wf l -> entries_ l !! (length (entries_ l) - 1)%nat = Some (back l).
Proof.
  intros W. pose proof (log_size_pos l W). unfold len in *. unfold back. rewrite last_lookup.
  replace (Init.Nat.pred (length (entries_ l))) with (length (entries_ l) - 1)%nat by lia.
  destruct (lookup_lt_is_Some_2 (entries_ l) (length (entries_ l) - 1)) as [e ->]; [lia|done].
Qed.

Lemma LastIndex_wf l : log_wf l -> LastIndex l = snapshotIndex_ l + len (entries_ l) - 1.
Proof.
  intros W. pose proof (log_size_pos l W). unfold LastIndex. rewrite (wf_index l W _ _ (back_lookup l W)).
  unfold len in *. lia.
Qed.

Lemma log_lookup_Some l i : log_wf l -> is_Some (log_lookup l i) <-> snapshotIndex_ l <= i <= LastIndex l.
Proof.
  intros W. rewrite LastIndex_wf by done. unfold log_lookup. case_if.
  - rewrite lookup_lt_is_Some. unfold len. lia.
  - split; [by intros [? ?]|lia].
Qed.

Lemma log_lookup_index l i e : log_wf l -> log_lookup l i = Some e -> le_index e = i.
Proof. intros W. unfold log_lookup. case_if; [|done]. intros He. rewrite (wf_index l W _ _ He). lia. Qed.

Lemma LastIndex_lookup l : log_wf l -> log_lookup l (LastIndex l) = Some (back l).
Proof.
  intros W. rewrite LastIndex_wf by done. pose proof (log_size_pos l W). unfold log_lookup. case_if; [|lia].
  rewrite <- back_lookup by done. f_equal. unfold len in *. lia.
Qed.

#[export] Hint Resolve log_size_pos wf_snap wf_bound wf_nonempty : orc.

Lemma GetEntries_loop_spec l to : log_wf l -> is_u64 to -> forall fuel i,
  snapshotIndex_ l <= i -> is_u64 i -> len (entries_ l) <= i - snapshotIndex_ l + Z.of_nat fuel ->
  GetEntries_loop l fuel i to =
  take (Z.to_nat (to - i)) (drop (Z.to_nat (i - snapshotIndex_ l)) (entries_ l)).
Proof.
  intros W Hto fuel. induction fuel as [|fuel IH]; intros i Hi Hu Hf; cbn [GetEntries_loop].
  - rewrite drop_ge by (unfold len in Hf; lia). by rewrite firstn_nil.
  - rewrite Offset_ge by done. destruct (i <? to) eqn:E1; bool_prop.
    2:{ replace (Z.to_nat (to - i)) with 0%nat by lia. done. }
    simpl. destruct (i - snapshotIndex_ l <? len (entries_ l)) eqn:E2; bool_prop.
    2:{ rewrite drop_ge by (unfold len in E2; lia). by rewrite firstn_nil. }
    destruct (entry_at_Some l (i - snapshotIndex_ l)) as [e He]; [lia|]. rewrite He.
    rewrite (drop_S _ e) by exact He. replace (Z.to_nat (to - i)) with (S (Z.to_nat (to - (i + 1)))) by lia.
    cbn [firstn]. f_equal. unfold is_u64 in *. rewrite u64_small by (unfold is_u64; lia).
    rewrite IH by (unfold is_u64; lia). do 2 f_equal. lia.
Qed.

(** ** Lemmas: appending *)

Lemma log_wf_app l e : log_wf l -> le_index e = LastIndex l + 1 -> LastIndex l + 2 < 2 ^ 64 ->
  log_wf (set_entries l (entries_ l ++ [e])).
Proof.
  intros W He Hb. rewrite LastIndex_wf in * by done. split; simpl.
  - by destruct (entries_ l).
  - intros i x. rewrite lookup_app_Some. intros [Hx|[Hi Hx]]; [by apply (wf_index l W)|].
    apply list_lookup_singleton_Some in Hx as [Hx <-]. rewrite He. unfold len. lia.
  - intros x Hx. apply (wf_head l W). rewrite <- Hx. pose proof (wf_nonempty l W). by destruct (entries_ l).
  - apply (wf_snap l W).
  - rewrite len_app. unfold len at 2. simpl. lia.
Qed.

Lemma log_wf_set l es : log_wf l -> head es = head (entries_ l) -> contiguous (snapshotIndex_ l) es ->
  snapshotIndex_ l + len es < 2 ^ 64 -> log_wf (set_entries l es).
Proof.
  intros W Hh Hc Hb. split; simpl; [| done | | apply (wf_snap l W) | done].
  - pose proof (wf_nonempty l W). destruct (entries_ l), es; simpl in *; congruence.
  - intros e. rewrite Hh. apply (wf_head l W).
Qed.

Lemma contiguous_cons s e new : contiguous s (e :: new) <-> le_index e = s /\ contiguous (s + 1) new.
Proof.
  split.
  - intros Hc. split; [rewrite (Hc 0%nat e eq_refl); lia|]. intros i x Hx. rewrite (Hc (S i) x Hx). lia.
  - intros [He Hc] [|i] x Hx; [inv Hx; lia|]. rewrite (Hc i x Hx). lia.
Qed.

Lemma contiguous_app s a b : contiguous s (a ++ b) <-> contiguous s a /\ contiguous (s + len a) b.
Proof.
  revert s. induction a as [|e a IH]; intros s; simpl.
  - rewrite Z.add_0_r. split; [|tauto]. intros H. split; [|done]. by intros i x Hx.
  - rewrite !contiguous_cons, IH, len_cons. replace (s + 1 + len a) with (s + (len a + 1)) by lia. tauto.
Qed.

Lemma wf_contiguous l : log_wf l -> contiguous (snapshotIndex_ l) (entries_ l).
Proof. intros W i e. apply (wf_index l W). Qed.

Lemma merge_nil_l new : merge_suffix [] new = new.
Proof. by destruct new. Qed.

Lemma merge_contiguous s old new : contiguous s old -> contiguous s new -> contiguous s (merge_suffix old new).
Proof.
  revert s old. induction new as [|n new IH]; intros s [|o old]; simpl; try done. intros Ho Hn. case_if; [|done].
  apply contiguous_cons in Ho as [? Ho]. apply contiguous_cons in Hn as [? Hn].
  apply contiguous_cons. split; [done|]. by apply IH.
Qed.

Lemma len_merge old new : len (merge_suffix old new) <= len old + len new.
Proof.
  revert old. induction new as [|n new IH]; intros [|o old]; cbn [merge_suffix]; rewrite ?len_cons.
  - done.
  - unfold len. simpl. lia.
  - unfold len at 2. simpl. lia.
  - case_if; rewrite !len_cons; [specialize (IH old) | pose proof (len_nonneg old)]; lia.
Qed.

(** One turn of [AppendAll] at the position its index names. *)
Lemma merge_entry_at l pre suf ne : log_wf l -> entries_ l = pre ++ suf -> is_u64 (snapshotIndex_ l + len pre) ->
  le_index ne = snapshotIndex_ l + len pre ->
  merge_entry ne l = set_entries l (pre ++ match suf with
    | o :: suf' => if le_term o =? le_term ne then suf else [ne]
    | [] => [ne] end).
Proof.
  intros W He Hu Hi. pose proof (len_nonneg pre). unfold merge_entry. rewrite Hi, Offset_ge by (try done; lia).
  replace (snapshotIndex_ l + len pre - snapshotIndex_ l) with (len pre) by lia.
  unfold entry_at. rewrite He, len_app. replace (Z.to_nat (len pre)) with (length pre) by (unfold len; lia).
  destruct suf as [|o suf].
  - case_if; [unfold len in *; simpl in *; lia|]. by rewrite app_nil_r.
  - rewrite lookup_app_r, Nat.sub_diag by lia. cbn [lookup list_lookup]. case_if; [|unfold len in *; simpl in *; lia].
    case_if; [destruct l; simpl in *; by rewrite <- He|]. by rewrite take_app_length.
Qed.

(** The element [x] that [AppendAll] leaves at the position of [ne], and the
    rest of the old suffix behind it. *)
Lemma merge_entry_step l pre suf ne : log_wf l -> entries_ l = pre ++ suf -> pre <> [] ->
  snapshotIndex_ l + len pre + len suf + 1 < 2 ^ 64 -> le_index ne = snapshotIndex_ l + len pre ->
  exists x suf2, merge_entry ne l = set_entries l ((pre ++ [x]) ++ suf2) /\
    (forall new, merge_suffix suf (ne :: new) = x :: merge_suffix suf2 new) /\ len suf2 <= len suf /\
    log_wf (set_entries l ((pre ++ [x]) ++ suf2)).
Proof.
  intros W He Hpre Hb Hi. pose proof (len_nonneg suf). pose proof (wf_snap l W). pose proof (len_nonneg pre).
  pose proof (wf_contiguous l W) as Hw. rewrite He in Hw. apply contiguous_app in Hw as [Hcp Hw].
  assert (forall x suf2, le_index x = snapshotIndex_ l + len pre -> contiguous (snapshotIndex_ l + len pre + 1) suf2 ->
    len suf2 <= len suf -> log_wf (set_entries l ((pre ++ [x]) ++ suf2))) as Hwf.
  { intros x suf2 Hx Hc2 Hl. rewrite <- app_assoc. apply log_wf_set; [done| | |].
    - rewrite He. by destruct pre.
    - apply contiguous_app. split; [done|]. by apply contiguous_cons.
    - rewrite len_app. change ([x] ++ suf2) with (x :: suf2). rewrite len_cons. lia. }
  rewrite (merge_entry_at l pre suf) by (unfold is_u64; try done; lia).
  destruct suf as [|o suf]; [|apply contiguous_cons in Hw as [Ho Hw]; destruct (le_term o =? le_term ne) eqn:E].
  - exists ne, []. rewrite app_nil_r. split_and!; try done; [intros; by rewrite !merge_nil_l|].
    rewrite <- (app_nil_r (pre ++ [ne])). by apply Hwf.
  - exists o, suf. rewrite <- app_assoc. rewrite len_cons in *. split_and!; try done; [|lia|].
    + intros new. cbn [merge_suffix]. by rewrite E.
    + rewrite app_assoc. apply Hwf; [done|done|lia].
  - exists ne, []. rewrite app_nil_r. pose proof (len_nonneg suf). rewrite len_cons in *. split_and!.
    + done.
    + intros new. rewrite merge_nil_l. cbn [merge_suffix]. by rewrite E.
    + unfold len at 1. simpl. lia.
    + rewrite <- (app_nil_r (pre ++ [ne])). apply Hwf; [done|done|]. unfold len at 1. simpl. lia.
Qed.

Lemma log_wf_wal l w : log_wf l -> log_wf (mkRaftLog (entries_ l) (snapshotIndex_ l) (snapshotTerm_ l) w).
Proof. intros W. split; apply W. Qed.

Section LogLemmas.
Context {J : JsonLib} {L : JsonLaws J}.

(** The journal after [new] was handed to it. *)
Definition journaled (w : option journal) (new : list LogEntry) : option journal :=
  (fun j => j ++ (RecLogEntry ∘ raw_of <$> new)) <$> w.

Lemma journaled_app w a b : journaled (journaled w a) b = journaled w (a ++ b).
Proof. destruct w as [j|]; [|done]. simpl. f_equal. by rewrite <- app_assoc, fmap_app. Qed.

Lemma journal_entry_ok e l : LogEntry_ok e ->
  journal_entry e l = (mkRaftLog (entries_ l) (snapshotIndex_ l) (snapshotTerm_ l) (journaled (wal_ l) [e]), Ok tt).
Proof.
  intros He. destruct (LogEntry_Serialize_ok e He) as (s & Hs & _ & _ & Hu).
  unfold journal_entry, journaled. destruct l as [es si st [j|]]; [|done]. cbn [wal_]. rewrite Hs, bind_lift_Ok.
  unfold journal_write. cbn [wal_]. destruct He as (? & ? & _).
  destruct (dump_ok (record_json (RecLogEntry (mkRawLogEntry (le_term e) (le_index e) s)))) as (d & -> & _).
  - unfold record_json. json_wf_tac.
  - unfold set_wal. simpl. unfold raw_of. by rewrite Hs.
Qed.

Lemma Append_ok e l : LogEntry_ok e ->
  Append e l = (mkRaftLog (entries_ l ++ [e]) (snapshotIndex_ l) (snapshotTerm_ l) (journaled (wal_ l) [e]), Ok tt).
Proof. intros He. unfold Append. by rewrite bind_modify, journal_entry_ok. Qed.

Lemma AppendAll_split new : forall l pre suf, log_wf l -> entries_ l = pre ++ suf -> pre <> [] ->
  contiguous (snapshotIndex_ l + len pre) new -> Forall LogEntry_ok new ->
  snapshotIndex_ l + len pre + len suf + len new < 2 ^ 64 ->
  let l' := mkRaftLog (pre ++ merge_suffix suf new) (snapshotIndex_ l) (snapshotTerm_ l) (journaled (wal_ l) new) in
  AppendAll new l = (l', Ok tt) /\ log_wf l'.
Proof.
  induction new as [|ne new IH]; intros l pre suf W He Hpre Hc Hok Hb; cbn [AppendAll].
  - assert (merge_suffix suf [] = suf) as -> by (by destruct suf). rewrite <- He. split.
    + unfold mret, M_ret. do 2 f_equal. destruct l as [es si st [j|]]; simpl; by rewrite ?app_nil_r.
    + by apply log_wf_wal.
  - apply contiguous_cons in Hc as [Hi Hc]. apply Forall_cons in Hok as [Hne Hok].
    rewrite len_cons in Hb. pose proof (len_nonneg new).
    destruct (merge_entry_step l pre suf ne W He Hpre ltac:(lia) Hi) as (x & suf2 & Hm & Hmerge & Hl & W1).
    rewrite bind_modify, Hm, (bind_run _ _ _ _ _ (journal_entry_ok ne _ Hne)), Hmerge.
    destruct (IH (mkRaftLog ((pre ++ [x]) ++ suf2) (snapshotIndex_ l) (snapshotTerm_ l) (journaled (wal_ l) [ne]))
      (pre ++ [x]) suf2) as [E W2]; try done; simpl.
    + apply (log_wf_wal _ _ W1).
    + by destruct pre.
    + rewrite len_app. unfold len at 2. simpl. by rewrite Z.add_assoc.
    + rewrite len_app. unfold len at 2. simpl. lia.
    + simpl in E, W2. rewrite journaled_app, <- (app_assoc pre [x] (merge_suffix suf2 new)) in E, W2. by rewrite E.
Qed.

(** Journalled entries replace what recovery had from the first of them on. *)
Lemma pop_ge_split idx a b : Forall (fun x => raw_index x < idx) a -> Forall (fun x => idx <= raw_index x) b ->
  pop_ge idx (a ++ b) = a.
Proof.
  intros Ha. induction b as [|x b IH] using rev_ind; intros Hb.
  - rewrite app_nil_r. by apply pop_ge_lt.
  - apply Forall_app in Hb as [Hb Hx]. inv Hx. rewrite app_assoc, pop_ge_snoc. case_if; [by apply IH|lia].
Qed.

Lemma replay_appended new : forall s a b r, contiguous s new -> new <> [] -> rr_entries r = a ++ b ->
  Forall (fun x => raw_index x < s) a -> Forall (fun x => s <= raw_index x) b ->
  fold_left replay_step (RecLogEntry ∘ raw_of <$> new) r =
  mkRecoveryResult (a ++ (raw_of <$> new)) (rr_hardState r) (rr_latestSnapshot r) (rr_snapshotIndex r) (rr_snapshotTerm r).
Proof.
  induction new as [|e new IH]; intros s a b r Hc Hne Hr Ha Hb; [done|].
  apply contiguous_cons in Hc as [He Hc]. rewrite !fmap_cons. cbn [fold_left].
  assert (replay_step r ((RecLogEntry ∘ raw_of) e) = mkRecoveryResult (a ++ [raw_of e]) (rr_hardState r)
    (rr_latestSnapshot r) (rr_snapshotIndex r) (rr_snapshotTerm r)) as ->.
  { simpl. rewrite Hr, He, pop_ge_split by done. done. }
  destruct new as [|e' new]; [done|].
  rewrite (IH (s + 1) (a ++ [raw_of e]) []); try done; simpl.
  - by rewrite <- app_assoc.
  - by rewrite app_nil_r.
  - apply Forall_app. split; [eapply Forall_impl; [done|]; simpl; lia|]. apply Forall_singleton. simpl. lia.
Qed.

Lemma raw_index_lt s l es : contiguous s es -> s + len es <= l -> Forall (fun x => raw_index x < l) (raw_of <$> es).
Proof.
  intros Hc Hl. apply Forall_fmap, Forall_lookup. intros i e He. simpl. rewrite (Hc i e He).
  apply lookup_lt_Some in He. unfold len in Hl. lia.
Qed.

Lemma raw_index_ge s es : contiguous s es -> Forall (fun x => s <= raw_index x) (raw_of <$> es).
Proof. intros Hc. apply Forall_fmap, Forall_lookup. intros i e He. simpl. rewrite (Hc i e He). lia. Qed.

Lemma merge_terms old new i e : new !! i = Some e -> exists e', merge_suffix old new !! i = Some e' /\ le_term e' = le_term e.
Proof.
  revert old i. induction new as [|n new IH]; intros [|o old] i He; try done; cbn [merge_suffix]; [by exists e|].
  case_if; [|by exists e]. destruct i as [|i]; [|by apply IH]. inv He. by exists o.
Qed.

(** ** Theorems *)

(** In a well-formed log the vector with its wrapping [size_t] offsets is a
    finite function from the indices [SnapshotIndex .. LastIndex] to entries:
    [GetEntry] returns the entry of the index or throws outside that range,
    also below the snapshot where the offset wraps; [GetTerm] gives its term or
    0; [GetEntries] gives the half-open slice; [LastIndex]/[LastTerm] belong to
    the entry with the highest index. *)
Lemma RaftLog_reads l i to : log_wf l -> is_u64 i -> is_u64 to ->
  (is_Some (log_lookup l i) <-> SnapshotIndex l <= i <= LastIndex l) /\
  GetEntry l i = of_opt (out_of_range ("RaftLog::GetEntry: index " +:+ to_string i +:+ " out of range")%string) (log_lookup l i) /\
  (forall e, log_lookup l i = Some e -> le_index e = i) /\
  GetTerm l i = from_option le_term 0 (log_lookup l i) /\
  (SnapshotIndex l <= i -> GetEntries l i to =
     take (Z.to_nat (to - i)) (drop (Z.to_nat (i - SnapshotIndex l)) (entries_ l))) /\
  LastTerm l = GetTerm l (LastIndex l) /\
  Log_Size l = LastIndex l - SnapshotIndex l.
Proof.
  intros W Hi Hto. pose proof (wf_snap l W). pose proof (wf_bound l W). pose proof (log_size_pos l W).
  pose proof (LastIndex_wf l W) as Hlast. split_and!.
  - by apply log_lookup_Some.
  - by apply GetEntry_lookup.
  - intros e. by apply log_lookup_index.
  - by apply GetTerm_lookup.
  - intros Hs. apply GetEntries_loop_spec; try done. unfold SnapshotIndex, len in *. lia.
  - rewrite GetTerm_lookup, LastIndex_lookup; [done|done|done|]. unfold is_u64. lia.
  - unfold Log_Size, SnapshotIndex. rewrite u64_small by (unfold is_u64; lia). lia.
Qed.

(** What the two theorems on [AppendAll] assume: a well-formed log and entries
    with consecutive indices that start inside the log or right behind it,
    above the snapshot. *)
Record append_pre (l : RaftLog) (s : Z) (new : list LogEntry) : Prop := {
  ap_wf : log_wf l;
  ap_contiguous : contiguous s new;
  ap_start : snapshotIndex_ l < s <= LastIndex l + 1;
  ap_ok : Forall LogEntry_ok new;
  ap_bound : LastIndex l + 1 + len new < 2 ^ 64;
}.

Lemma AppendAll_run l s new : append_pre l s new ->
  let n := Z.to_nat (s - snapshotIndex_ l) in
  let l' := mkRaftLog (take n (entries_ l) ++ merge_suffix (drop n (entries_ l)) new)
              (snapshotIndex_ l) (snapshotTerm_ l) (journaled (wal_ l) new) in
  AppendAll new l = (l', Ok tt) /\ log_wf l' /\ len (take n (entries_ l)) = s - snapshotIndex_ l.
Proof.
  intros [W Hc Hs Hok Hb] n. rewrite LastIndex_wf in * by done.
  assert (len (take n (entries_ l)) = s - snapshotIndex_ l) as Hn.
  { unfold n, len in *. rewrite length_take. lia. }
  assert (len (take n (entries_ l)) + len (drop n (entries_ l)) = len (entries_ l)) as Hsum
    by (by rewrite <- len_app, take_drop).
  destruct (AppendAll_split new l (take n (entries_ l)) (drop n (entries_ l))) as [E W']; try done.
  - by rewrite take_drop.
  - intros E. rewrite E in Hn. unfold len in Hn. simpl in Hn. lia.
  - rewrite Hn. by replace (snapshotIndex_ l + (s - snapshotIndex_ l)) with s by lia.
  - lia.
Qed.

(** C10: [AppendAll] implements the receiver rule of Raft.  On a well-formed log
    and consecutive new entries it succeeds, keeps the log well formed, leaves
    everything below the first new index alone, keeps what agrees with the new
    entries and replaces the rest from the first conflict on ([merge_suffix]); after
    it every new index carries the term of its new entry. *)
Theorem AppendAll_refines_merge l s new : append_pre l s new ->
  exists l', AppendAll new l = (l', Ok tt) /\ log_wf l' /\
    (let n := Z.to_nat (s - SnapshotIndex l) in
     entries_ l' = take n (entries_ l) ++ merge_suffix (drop n (entries_ l)) new) /\
    (forall i, i < s -> log_lookup l' i = log_lookup l i) /\
    (forall i e, new !! i = Some e -> GetTerm l' (s + Z.of_nat i) = le_term e).
Proof.
  intros P. destruct (AppendAll_run l s new P) as (E & W' & Hn). eexists. split; [exact E|].
  pose proof (wf_snap l (ap_wf _ _ _ P)). pose proof (ap_start _ _ _ P). split_and!; [done|done| |].
  - intros i Hi. unfold log_lookup. simpl. case_if; [|done]. rewrite lookup_app_l.
    + apply lookup_take_lt. lia.
    + unfold len in Hn. lia.
  - intros i e He. pose proof (lookup_lt_Some _ _ _ He). pose proof (ap_bound _ _ _ P) as Hb.
    pose proof (ap_start _ _ _ P). rewrite GetTerm_lookup by (try done; unfold is_u64, len in *; lia).
    unfold log_lookup. simpl. case_if; [|lia]. rewrite lookup_app_r by (unfold len in Hn; lia).
    destruct (merge_terms (drop (Z.to_nat (s - snapshotIndex_ l)) (entries_ l)) new i e He) as (e' & He' & <-).
    replace (Z.to_nat (s + Z.of_nat i - snapshotIndex_ l) - length (take (Z.to_nat (s - snapshotIndex_ l)) (entries_ l)))%nat
      with i by (unfold len in Hn; lia). by rewrite He'.
Qed.

(** C25: what a recovery finds after [AppendAll] on a log whose journal was up to
    date.  Every new entry is journalled,
    also one the log already has, so recovery yields the entries in front of
    the first new one followed by exactly the new ones.  It agrees with the log
    in memory only when the new entries reach to its end; entries that follow
    an agreeing duplicate are kept in memory and lost by a restart. *)
Theorem AppendAll_recovered l s new : append_pre l s new -> log_durable l -> new <> [] ->
  exists l' j', AppendAll new l = (l', Ok tt) /\ wal_ l' = Some j' /\
    rr_entries (replay j') = raw_of <$> (take (Z.to_nat (s - SnapshotIndex l) - 1) (tail (entries_ l)) ++ new).
Proof.
  intros P (j & Hj & Hd) Hne. destruct (AppendAll_run l s new P) as (E & _ & Hn).
  unfold journaled in E. rewrite Hj in E. simpl in E. eexists _, _. split; [exact E|]. split; [done|].
  destruct P as [W Hc Hs Hok Hb]. pose proof (wf_contiguous l W) as Hw. unfold SnapshotIndex.
  pose proof (wf_nonempty l W). destruct (entries_ l) as [|s0 es] eqn:He; [done|]. simpl in Hd |- *.
  apply contiguous_cons in Hw as [_ Hw]. set (n := (Z.to_nat (s - snapshotIndex_ l) - 1)%nat).
  rewrite replay_app. rewrite <- (take_drop n es) in Hd, Hw.
  assert (len (take n es) = s - snapshotIndex_ l - 1) as Hlen.
  { replace (Z.to_nat (s - snapshotIndex_ l)) with (S n) in Hn by (unfold n; lia). cbn [firstn] in Hn.
    rewrite len_cons in Hn. lia. }
  apply contiguous_app in Hw as [Hw1 Hw2]. rewrite fmap_app in Hd.
  rewrite (replay_appended new s _ _ _ Hc Hne Hd).
  - simpl. by rewrite fmap_app.
  - eapply raw_index_lt; [done|]. lia.
  - replace s with (snapshotIndex_ l + 1 + len (take n es)) by lia. by apply raw_index_ge.
Qed.

(** [SetSnapshot] keeps the entry of the snapshot index behind the new
    sentinel, so every retained entry is found one index too high, although
    the log should discard up to and including that index: reading at [i + 1]
    returns the entry with index [i]. *)
Theorem SetSnapshot_shifts l index term i e : log_wf l -> SnapshotIndex l <= index <= i -> i < LastIndex l + 1 ->
  log_lookup l i = Some e ->
  let l' := SetSnapshot index term l in
  GetEntry l' (i + 1) = Ok e /\ le_index e = i /\ LastIndex l' = LastIndex l /\ ~ log_wf l'.
Proof.
  intros W Hi Hlast He l'. pose proof (wf_snap l W). pose proof (wf_bound l W) as Hb. unfold SnapshotIndex in *.
  pose proof (LastIndex_wf l W) as Hl. pose proof (log_lookup_index l i e W He) as Hie.
  assert (Offset l index = index - snapshotIndex_ l) as Hoff by (apply Offset_ge; unfold is_u64; try done; lia).
  set (n := Z.to_nat (index - snapshotIndex_ l)).
  assert (l' = mkRaftLog (sentinel term index :: drop n (entries_ l)) index term (wal_ l)) as El.
  { unfold l', SetSnapshot. rewrite Hoff. case_if; [done|lia]. }
  assert (entries_ l' !! Z.to_nat (i + 1 - index) = Some e) as Hat.
  { rewrite El. cbn [entries_]. replace (Z.to_nat (i + 1 - index)) with (S (Z.to_nat (i - index))) by lia.
    cbn [lookup list_lookup]. change (drop n (entries_ l) !! Z.to_nat (i - index) = Some e).
    rewrite lookup_drop. unfold log_lookup in He. case_if_in He; [|lia]. rewrite <- He. f_equal. lia. }
  assert (snapshotIndex_ l' = index) as Hsn by (by rewrite El).
  split_and!.
  - unfold GetEntry, Offset, entry_at. rewrite Hsn, u64_small by (unfold is_u64; lia).
    pose proof (lookup_lt_Some _ _ _ Hat). case_if; [unfold len in *; lia|]. by rewrite Hat.
  - done.
  - assert (drop n (entries_ l) <> []) as Hne.
    { intros E. apply (f_equal length) in E. rewrite length_drop in E. unfold len in *. simpl in E. lia. }
    unfold LastIndex, back. rewrite El. cbn [entries_]. rewrite last_cons.
    rewrite <- (take_drop n (entries_ l)) at 2. rewrite last_app.
    destruct (drop n (entries_ l)) as [|x xs] eqn:Ed; [done|]. by destruct (last (x :: xs)) eqn:E; [|apply last_None in E].
  - intros W'. pose proof (wf_index l' W' _ _ Hat). rewrite Hsn in *. lia.
Qed.
End LogLemmas.

(** ** Witnesses and scenarios *)

Section LogExamples.
#[local] Existing Instance RefJson.

Definition ex_put (term index : Z) : LogEntry := mkLogEntry term index OpPut "k" "v" (-1) "".

(** The log a node has after it appended two entries of term 1. *)
Definition ex_log : RaftLog := ((Append (ex_put 1 1);; Append (ex_put 1 2)) (RaftLog_new (Some []))).1.

Lemma ex_log_entries : entries_ ex_log = [sentinel 0 0; ex_put 1 1; ex_put 1 2].
Proof. by vm_compute. Qed.

Lemma ex_log_wf : log_wf ex_log.
Proof.
  split; rewrite ?ex_log_entries; try by vm_compute.
  - intros [|[|[|i]]] e He; [by inv He..|done].
  - intros e He. by inv He.
Qed.

Lemma ex_put_ok t i : is_u64 t -> is_u64 i -> LogEntry_ok (ex_put t i).
Proof. intros ? ?. unfold LogEntry_ok, is_i64. simpl. split_and!; try done; lia. Qed.

Lemma ex_append_pre t : is_u64 t -> append_pre ex_log 1 [ex_put t 1].
Proof.
  intros Ht. split; [apply ex_log_wf| |by vm_compute|by repeat constructor; try apply ex_put_ok|by vm_compute].
  intros [|i] e He; [by inv He|done].
Qed.

Example RaftLog_reads_example : GetEntry ex_log 2 = Ok (ex_put 1 2) /\ GetTerm ex_log 7 = 0.
Proof.
  split.
  - refine (eq_trans (proj1 (proj2 (RaftLog_reads ex_log 2 3 ex_log_wf _ _))) _); by vm_compute.
  - refine (eq_trans (proj1 (proj2 (proj2 (proj2 (RaftLog_reads ex_log 7 8 ex_log_wf _ _))))) _); by vm_compute.
Defined.

Lemma AppendAll_refines_merge_witness :
  exists l', AppendAll [ex_put 2 1] ex_log = (l', Ok tt) /\ entries_ l' = [sentinel 0 0; ex_put 2 1].
Proof.
  assert (append_pre ex_log 1 [ex_put 2 1]) as P by by apply ex_append_pre.
  destruct (AppendAll_refines_merge (L := RefJson_laws) ex_log 1 [ex_put 2 1] P) as (l' & E & _ & Hm & _).
  exists l'. split; [done|]. rewrite Hm. by vm_compute.
Defined.

Lemma AppendAll_recovered_witness :
  exists l' j', AppendAll [ex_put 1 1] ex_log = (l', Ok tt) /\ wal_ l' = Some j' /\
    rr_entries (replay j') = [raw_of (ex_put 1 1)].
Proof.
  assert (append_pre ex_log 1 [ex_put 1 1]) as P by by apply ex_append_pre.
  assert (log_durable ex_log) as D by (eexists; by vm_compute).
  exact (AppendAll_recovered (L := RefJson_laws) ex_log 1 [ex_put 1 1] P D ltac:(done)).
Defined.

Lemma SetSnapshot_shifts_witness : GetEntry (SetSnapshot 1 1 ex_log) 2 = Ok (ex_put 1 1).
Proof. refine (proj1 (SetSnapshot_shifts ex_log 1 1 1 (ex_put 1 1) ex_log_wf _ _ _)); by vm_compute. Defined.

(** A repeated AppendEntries that carries only the first of two entries keeps
    both in memory; a restart then recovers only the first. *)
Example duplicate_append_forgets :
  let l' := (AppendAll [ex_put 1 1] ex_log).1 in
  LastIndex l' = 2 /\ (rr_entries ∘ replay <$> wal_ l') = Some [raw_of (ex_put 1 1)].
Proof. by vm_compute. Qed.
End LogExamples.
