(* ===== verification/RaftNode.v ===== *)
(** * The consensus node (src/raft/RaftNode.{hpp,cpp}, RaftConfig.hpp, RaftState.hpp)

    The state of a node and its operations.  Every stretch of code that runs
    under [mu_] is one definition; a function that releases the lock is the
    sequence of its locked sections ([StartElection_begin], [_response],
    [_finish]; [ReplicateToPeer_prepare], [_response]; [Propose_begin],
    [_finish]; [ApplyLoop_fetch], [ApplyEntry], [ApplyLoop_finish]), and the
    cluster model interleaves them.  The clocks are arguments.  The write-ahead
    log is shared with [log_] and is reached through it.  [Start], [Stop] and the
    threads are in [RaftThreads]. *)
From S2P Require Import Prelude CxxString CxxMap Json KVStore RaftRPC WriteAheadLog RaftLog.
From Stdlib Require Import ZArith Lia Ascii String.
From stdpp Require Import prelude gmap strings sorting.
#[local] Open Scope Z_scope.

Inductive RaftRole : Type := Follower | Candidate | Leader.

#[global] Instance RaftRole_eq_dec : EqDecision RaftRole.
Proof. solve_decision. Defined.

Definition RaftRoleToString (r : RaftRole) : string :=
  match r with Follower => "follower" | Candidate => "candidate" | Leader => "leader" end.

Record RaftPeerInfo := mkRaftPeerInfo { pi_id : string; pi_host : string; pi_port : Z }.

Record RaftConfig := mkRaftConfig {
  cfg_nodeId : string;
  cfg_peers : list RaftPeerInfo;
  cfg_raftPort : Z;
  cfg_electionTimeoutMin : Z;
  cfg_electionTimeoutMax : Z;
  cfg_heartbeatInterval : Z;
  cfg_rpcTimeout : Z;
  cfg_snapshotThreshold : Z;
}.

Record RaftNode := mkRaftNode {
  config_ : RaftConfig;
  store_ : KVStore;
  log_ : RaftLog;
  currentTerm_ : Z;
  votedFor_ : string;
  commitIndex_ : Z;
  lastApplied_ : Z;
  role_ : RaftRole;
  leaderId_ : string;
  nextIndex_ : gmap string Z;
  matchIndex_ : gmap string Z;
  lastHeartbeat_ : Z;
}.

(** Assignments to the fields. *)
Definition set_store (s : KVStore) (n : RaftNode) : RaftNode :=
  mkRaftNode (config_ n) s (log_ n) (currentTerm_ n) (votedFor_ n) (commitIndex_ n) (lastApplied_ n)
    (role_ n) (leaderId_ n) (nextIndex_ n) (matchIndex_ n) (lastHeartbeat_ n).
Definition set_log (l : RaftLog) (n : RaftNode) : RaftNode :=
  mkRaftNode (config_ n) (store_ n) l (currentTerm_ n) (votedFor_ n) (commitIndex_ n) (lastApplied_ n)
    (role_ n) (leaderId_ n) (nextIndex_ n) (matchIndex_ n) (lastHeartbeat_ n).
Definition set_term (t : Z) (n : RaftNode) : RaftNode :=
  mkRaftNode (config_ n) (store_ n) (log_ n) t (votedFor_ n) (commitIndex_ n) (lastApplied_ n)
    (role_ n) (leaderId_ n) (nextIndex_ n) (matchIndex_ n) (lastHeartbeat_ n).
Definition set_votedFor (v : string) (n : RaftNode) : RaftNode :=
  mkRaftNode (config_ n) (store_ n) (log_ n) (currentTerm_ n) v (commitIndex_ n) (lastApplied_ n)
    (role_ n) (leaderId_ n) (nextIndex_ n) (matchIndex_ n) (lastHeartbeat_ n).
Definition set_commit (c : Z) (n : RaftNode) : RaftNode :=
  mkRaftNode (config_ n) (store_ n) (log_ n) (currentTerm_ n) (votedFor_ n) c (lastApplied_ n)
    (role_ n) (leaderId_ n) (nextIndex_ n) (matchIndex_ n) (lastHeartbeat_ n).
Definition set_applied (a : Z) (n : RaftNode) : RaftNode :=
  mkRaftNode (config_ n) (store_ n) (log_ n) (currentTerm_ n) (votedFor_ n) (commitIndex_ n) a
    (role_ n) (leaderId_ n) (nextIndex_ n) (matchIndex_ n) (lastHeartbeat_ n).
Definition set_role (r : RaftRole) (n : RaftNode) : RaftNode :=
  mkRaftNode (config_ n) (store_ n) (log_ n) (currentTerm_ n) (votedFor_ n) (commitIndex_ n) (lastApplied_ n)
    r (leaderId_ n) (nextIndex_ n) (matchIndex_ n) (lastHeartbeat_ n).
Definition set_leaderId (i : string) (n : RaftNode) : RaftNode :=
  mkRaftNode (config_ n) (store_ n) (log_ n) (currentTerm_ n) (votedFor_ n) (commitIndex_ n) (lastApplied_ n)
    (role_ n) i (nextIndex_ n) (matchIndex_ n) (lastHeartbeat_ n).
Definition set_next (peer : string) (i : Z) (n : RaftNode) : RaftNode :=
  mkRaftNode (config_ n) (store_ n) (log_ n) (currentTerm_ n) (votedFor_ n) (commitIndex_ n) (lastApplied_ n)
    (role_ n) (leaderId_ n) (<[peer := i]> (nextIndex_ n)) (matchIndex_ n) (lastHeartbeat_ n).
Definition set_match (peer : string) (i : Z) (n : RaftNode) : RaftNode :=
  mkRaftNode (config_ n) (store_ n) (log_ n) (currentTerm_ n) (votedFor_ n) (commitIndex_ n) (lastApplied_ n)
    (role_ n) (leaderId_ n) (nextIndex_ n) (<[peer := i]> (matchIndex_ n)) (lastHeartbeat_ n).
Definition set_heartbeat (t : Z) (n : RaftNode) : RaftNode :=
  mkRaftNode (config_ n) (store_ n) (log_ n) (currentTerm_ n) (votedFor_ n) (commitIndex_ n) (lastApplied_ n)
    (role_ n) (leaderId_ n) (nextIndex_ n) (matchIndex_ n) t.

(** A call on the log of the node. *)
Definition withLog {A} (m : M RaftLog A) : M RaftNode A := fun n =>
  let '(l, r) := m (log_ n) in (set_log l n, r).

(** [try { ... } catch (...) {}] *)
Definition catch_all {S} (m : M S unit) : M S unit := fun s => ((m s).1, Ok tt).

Definition peer_ids (n : RaftNode) : list string := pi_id <$> cfg_peers (config_ n).
Definition nodeId (n : RaftNode) : string := cfg_nodeId (config_ n).

Definition QuorumSize (n : RaftNode) : Z := (len (cfg_peers (config_ n)) + 1) / 2 + 1.

Definition IsLogUpToDate (n : RaftNode) (lastLogIndex lastLogTerm : Z) : bool :=
  let myLastTerm := LastTerm (log_ n) in
  let myLastIndex := LastIndex (log_ n) in
  if negb (lastLogTerm =? myLastTerm) then myLastTerm <? lastLogTerm
  else myLastIndex <=? lastLogIndex.

Definition ResetElectionTimer (now : Z) : M RaftNode unit := modify (set_heartbeat now).

Section NodeOps.
Context `{JsonLib}.
#[local] Open Scope string_scope.
#[local] Open Scope Z_scope.

(** ** Persistence *)

Definition PersistHardState : M RaftNode unit :=
  n ← getS;
  withLog (journal_write (RecHardState (mkHardState (currentTerm_ n) (votedFor_ n)))).

(** ** Election *)

Definition BecomeFollower (now term : Z) (leaderId : string) : M RaftNode unit :=
  modify (set_term term);;
  modify (set_role Follower);;
  modify (set_votedFor "");;
  (if String.eqb leaderId "" then mret tt else modify (set_leaderId leaderId));;
  PersistHardState;;
  ResetElectionTimer now.

Fixpoint init_peers (lastIndex : Z) (peers : list string) (n : RaftNode) : RaftNode :=
  match peers with
  | [] => n
  | p :: rest => init_peers lastIndex rest (set_match p 0 (set_next p (u64 (lastIndex + 1)) n))
  end.

Definition BecomeLeader : M RaftNode unit :=
  modify (set_role Leader);;
  n ← getS;
  modify (set_leaderId (nodeId n));;
  let lastIndex := LastIndex (log_ n) in
  modify (init_peers lastIndex (peer_ids n));;
  noop ← lift (LogEntry_NoOp (currentTerm_ n) (u64 (lastIndex + 1)));
  withLog (Append noop).

(** [std::chrono::milliseconds] in nanoseconds, the unit of the clocks. *)
Definition ms (t : Z) : Z := t * 1000000.

(** [elapsed >= timeout] in a turn of [ElectionLoop] that is not a leader's; the
    timeout is a number of milliseconds. *)
Definition ElectionLoop_fires (now timeout : Z) (n : RaftNode) : bool :=
  bool_decide (role_ n <> Leader) && (ms timeout <=? now - lastHeartbeat_ n).

(** The first locked section of [StartElection]; the request it then sends. *)
Definition StartElection_begin (now : Z) : M RaftNode RequestVoteRequest :=
  modify (fun n => set_term (u64 (currentTerm_ n + 1)) n);;
  n ← getS;
  modify (set_votedFor (nodeId n));;
  modify (set_role Candidate);;
  PersistHardState;;
  let lastIndex := LastIndex (log_ n) in
  let lastTerm := LastTerm (log_ n) in
  modify (set_heartbeat now);;
  mret (mkRequestVoteRequest (currentTerm_ n) (nodeId n) lastIndex lastTerm).

(** The locked section of one response.  The result is whether the function
    returns, and the increment of [votes]. *)
Definition StartElection_response (now term : Z) (resp : RequestVoteResponse) : M RaftNode (bool * Z) :=
  n ← getS;
  if currentTerm_ n <? vr_term resp then
    BecomeFollower now (vr_term resp) "";;
    mret (true, 0)
  else if vr_voteGranted resp && (currentTerm_ n =? term) && bool_decide (role_ n = Candidate)
  then mret (false, 1)
  else mret (false, 0).

(** One turn of the loop over the futures: [None] is a timeout or a failed
    future; an exception of the locked section is swallowed. *)
Definition StartElection_turn (now term : Z) (o : option RequestVoteResponse) : M RaftNode (bool * Z) := fun n =>
  match o with
  | None => (n, Ok (false, 0))
  | Some resp =>
      let '(n', r) := StartElection_response now term resp n in
      (n', Ok (match r with Ok x => x | Throw _ => (false, 0) end))
  end.

Definition StartElection_finish (term votes : Z) : M RaftNode unit :=
  n ← getS;
  if bool_decide (role_ n <> Candidate) || negb (currentTerm_ n =? term) then mret tt
  else if QuorumSize n <=? votes then BecomeLeader
  else mret tt.

Fixpoint StartElection_loop (now term : Z) (futures : list (option RequestVoteResponse)) (votes : Z) : M RaftNode unit :=
  match futures with
  | [] => StartElection_finish term votes
  | f :: rest =>
      '(returned, vote) ← StartElection_turn now term f;
      if returned : bool then mret tt else StartElection_loop now term rest (votes + vote)
  end.

(** The whole function when no other thread of the node gets the lock in
    between; [futures] are the outcomes of the requests, one per peer. *)
Definition StartElection (now : Z) (futures : list (option RequestVoteResponse)) : M RaftNode unit :=
  req ← StartElection_begin now;
  StartElection_loop now (vq_term req) futures 1.

(** ** Replication *)

(** The loop that collects up to 100 entries. *)
Fixpoint collect_entries (l : RaftLog) (fuel : nat) (i next lastIndex : Z) : list LogEntry :=
  match fuel with
  | O => []
  | S fuel' =>
      if (i <=? lastIndex) && (i <? u64 (next + 100)) then
        match GetEntry l i with
        | Ok e => e :: collect_entries l fuel' (u64 (i + 1)) next lastIndex
        | Throw _ => []
        end
      else []
  end.

Definition ReplicateToPeer_prepare (peerId : string) (n : RaftNode) : option AppendEntriesRequest :=
  if bool_decide (role_ n <> Leader) then None
  else
    let next := match nextIndex_ n !! peerId with Some i => i | None => u64 (LastIndex (log_ n) + 1) end in
    let prevIndex := u64 (next - 1) in
    let prevTerm := GetTerm (log_ n) prevIndex in
    let entries := collect_entries (log_ n) 100 next next (LastIndex (log_ n)) in
    Some (mkAppendEntriesRequest (currentTerm_ n) (nodeId n) prevIndex prevTerm entries (commitIndex_ n)).

(** The entries of [matchIndex_] that reach [i], and the leader itself. *)
Definition replicated (n : RaftNode) (i : Z) : Z :=
  1 + len (filter (fun kv => i <= kv.2) (map_to_list (matchIndex_ n))).

(** The loop of [AdvanceCommitIndex], from [i] down to the commit index. *)
Fixpoint commit_loop (n : RaftNode) (fuel : nat) (i : Z) : option Z :=
  match fuel with
  | O => None
  | S fuel' =>
      if i <=? commitIndex_ n then None
      else if negb (GetTerm (log_ n) i =? currentTerm_ n) then commit_loop n fuel' (i - 1)
      else if QuorumSize n <=? replicated n i then Some i
      else commit_loop n fuel' (i - 1)
  end.

Definition AdvanceCommitIndex (n : RaftNode) : RaftNode :=
  let lastIndex := LastIndex (log_ n) in
  match commit_loop n (Z.to_nat (lastIndex - commitIndex_ n)) lastIndex with
  | Some i => set_commit i n
  | None => n
  end.

(** The last index of the leader's log with the conflicting term, or 0. *)
Fixpoint last_in_term (l : RaftLog) (term : Z) (fuel : nat) (i : Z) : Z :=
  match fuel with
  | O => 0
  | S fuel' =>
      if i <=? SnapshotIndex l then 0
      else if GetTerm l i =? term then i
      else last_in_term l term fuel' (i - 1)
  end.

(** The section that handles the response to [req]. *)
Definition ReplicateToPeer_response (now : Z) (peerId : string) (req : AppendEntriesRequest)
    (resp : AppendEntriesResponse) : M RaftNode unit :=
  catch_all (
    n ← getS;
    if currentTerm_ n <? ar_term resp then BecomeFollower now (ar_term resp) ""
    else if bool_decide (role_ n <> Leader) || negb (ar_term resp =? currentTerm_ n) then mret tt
    else if ar_success resp then
      let newMatch := u64 (aq_prevLogIndex req + len (aq_entries req)) in
      let m := Z.max (default 0 (matchIndex_ n !! peerId)) newMatch in
      modify (set_match peerId m);;
      modify (set_next peerId (u64 (m + 1)));;
      modify AdvanceCommitIndex
    else if 0 <? ar_conflictTerm resp then
      let last := LastIndex (log_ n) in
      let lastInTerm := last_in_term (log_ n) (ar_conflictTerm resp)
                          (Z.to_nat (last - SnapshotIndex (log_ n))) last in
      modify (set_next peerId (if 0 <? lastInTerm then u64 (lastInTerm + 1) else ar_conflictIndex resp))
    else
      modify (set_next peerId (if 0 <? ar_conflictIndex resp then ar_conflictIndex resp else 1))).

(** The whole function without interleaving; [o] is the outcome of the request. *)
Definition ReplicateToPeer (now : Z) (peerId : string) (o : option AppendEntriesResponse) : M RaftNode unit := fun n =>
  match ReplicateToPeer_prepare peerId n, o with
  | Some req, Some resp => ReplicateToPeer_response now peerId req resp n
  | _, _ => (n, Ok tt)
  end.

Fixpoint SendHeartbeatsToAll (now : Z) (peers : list string) (o : string -> option AppendEntriesResponse) : M RaftNode unit :=
  match peers with
  | [] => mret tt
  | p :: rest => ReplicateToPeer now p (o p);; SendHeartbeatsToAll now rest o
  end.

(** ** RPC handlers *)

(** [while (ci > SnapshotIndex() && GetTerm(ci - 1) == prevTerm) --ci;] *)
Fixpoint first_in_term (l : RaftLog) (prevTerm : Z) (fuel : nat) (ci : Z) : Z :=
  match fuel with
  | O => ci
  | S fuel' =>
      if (SnapshotIndex l <? ci) && (GetTerm l (ci - 1) =? prevTerm)
      then first_in_term l prevTerm fuel' (ci - 1) else ci
  end.

(** The consistency check on the previous entry: [None] when it passes. *)
Definition check_prev (l : RaftLog) (respTerm : Z) (req : AppendEntriesRequest) : option AppendEntriesResponse :=
  if 0 <? aq_prevLogIndex req then
    if LastIndex l <? aq_prevLogIndex req then
      Some (mkAppendEntriesResponse respTerm false (u64 (LastIndex l + 1)) 0)
    else
      let prevTerm := GetTerm l (aq_prevLogIndex req) in
      if negb (prevTerm =? aq_prevLogTerm req) then
        let ci := first_in_term l prevTerm (Z.to_nat (aq_prevLogIndex req - SnapshotIndex l)) (aq_prevLogIndex req) in
        Some (mkAppendEntriesResponse respTerm false ci prevTerm)
      else None
  else None.

Definition HandleAppendEntries (now : Z) (req : AppendEntriesRequest) : M RaftNode AppendEntriesResponse :=
  n ← getS;
  let respTerm := currentTerm_ n in
  if aq_term req <? currentTerm_ n then mret (mkAppendEntriesResponse respTerm false 0 0)
  else
    (if currentTerm_ n <? aq_term req then BecomeFollower now (aq_term req) (aq_leaderId req) else mret tt);;
    ResetElectionTimer now;;
    modify (set_leaderId (aq_leaderId req));;
    n1 ← getS;
    match check_prev (log_ n1) respTerm req with
    | Some resp => mret resp
    | None =>
        withLog (AppendAll (aq_entries req));;
        modify (fun n => if commitIndex_ n <? aq_leaderCommit req
                         then set_commit (Z.min (aq_leaderCommit req) (LastIndex (log_ n))) n else n);;
        mret (mkAppendEntriesResponse respTerm true 0 0)
    end.

Definition HandleRequestVote (now : Z) (req : RequestVoteRequest) : M RaftNode RequestVoteResponse :=
  n ← getS;
  let respTerm := currentTerm_ n in
  if vq_term req <? currentTerm_ n then mret (mkRequestVoteResponse respTerm false)
  else
    (if currentTerm_ n <? vq_term req then BecomeFollower now (vq_term req) "" else mret tt);;
    n1 ← getS;
    let alreadyVoted := negb (String.eqb (votedFor_ n1) "") && negb (String.eqb (votedFor_ n1) (vq_candidateId req)) in
    let logUpToDate := IsLogUpToDate n1 (vq_lastLogIndex req) (vq_lastLogTerm req) in
    if negb alreadyVoted && logUpToDate then
      modify (set_votedFor (vq_candidateId req));;
      ResetElectionTimer now;;
      PersistHardState;;
      mret (mkRequestVoteResponse respTerm true)
    else mret (mkRequestVoteResponse respTerm false).

(** ** Apply *)

(** The entry the loop applies next, and its index. *)
Definition ApplyLoop_fetch (n : RaftNode) : option (Z * LogEntry) :=
  if lastApplied_ n <? commitIndex_ n then
    let next := u64 (lastApplied_ n + 1) in
    match GetEntry (log_ n) next with Ok e => Some (next, e) | Throw _ => None end
  else None.

(** The call to the store; the result is the notifications of the watchers and
    whether [applyCallback_] is called. *)
Definition ApplyEntry (now : Z) (entry : LogEntry) (s : KVStore) : KVStore * list Notification * bool :=
  match le_opType entry with
  | OpNoOp => (s, [], false)
  | OpPut =>
      let ttl := if 0 <? le_ttl_ms entry then Some (le_ttl_ms entry) else None in
      let '(_, s', ns) := Put now (le_key entry) (le_value entry) (le_index entry) ttl s in (s', ns, true)
  | OpDelete =>
      let '(_, s', ns) := KVStore.Delete (le_key entry) (le_index entry) s in (s', ns, true)
  | OpOther _ => (s, [], true)
  end.

Definition ApplyLoop_finish (next : Z) (n : RaftNode) : RaftNode := set_applied next n.

(** One turn of the inner loop without interleaving. *)
Definition ApplyLoop_turn (now : Z) (n : RaftNode) : option RaftNode :=
  match ApplyLoop_fetch n with
  | None => None
  | Some (next, e) =>
      let '(s', _, _) := ApplyEntry now e (store_ n) in
      Some (ApplyLoop_finish next (set_store s' n))
  end.

(** The inner loop; every turn raises [lastApplied_] towards [commitIndex_]. *)
Fixpoint ApplyLoop_inner (fuel : nat) (now : Z) (n : RaftNode) : RaftNode :=
  match fuel with
  | O => n
  | S fuel' => match ApplyLoop_turn now n with Some n' => ApplyLoop_inner fuel' now n' | None => n end
  end.

Definition MaybeSnapshot (now : Z) : M RaftNode unit :=
  n ← getS;
  if cfg_snapshotThreshold (config_ n) <? Log_Size (log_ n) then
    snap ← lift (TakeSnapshot now (store_ n));
    let snapIndex := lastApplied_ n in
    let snapTerm := GetTerm (log_ n) snapIndex in
    withLog (journal_write (RecSnapshot snapIndex snapTerm snap));;
    withLog (modify (SetSnapshot snapIndex snapTerm))
  else mret tt.

Definition ApplyLoop_pass (now : Z) : M RaftNode unit :=
  modify (fun n => ApplyLoop_inner (Z.to_nat (commitIndex_ n - lastApplied_ n)) now n);;
  MaybeSnapshot now.

(** ** Propose *)

Record ProposeResult := mkProposeResult { pr_ok : bool; pr_error : string; pr_index : Z }.

(** Up to the wait: the result of the call, or the index to wait for. *)
Definition Propose_begin (key value : string) (op : OpType) (ttl_ms : Z) : M RaftNode (ProposeResult + Z) :=
  n ← getS;
  if bool_decide (role_ n <> Leader) then
    mret (inl (mkProposeResult false ("not leader (leader=" +:+ leaderId_ n +:+ ")")%string 0))
  else
    let index := u64 (LastIndex (log_ n) + 1) in
    let entry := mkLogEntry (currentTerm_ n) index op key value ttl_ms "" in
    command ← lift (LogEntry_Serialize entry);
    withLog (Append (mkLogEntry (currentTerm_ n) index op key value ttl_ms command));;
    mret (inr index).

(** The wait is over, by its predicate or by the deadline, in state [n]. *)
Definition Propose_finish (index : Z) (n : RaftNode) : ProposeResult :=
  let committed := (index <=? lastApplied_ n) || bool_decide (role_ n <> Leader) in
  if negb committed then mkProposeResult false "timeout waiting for commit" index
  else if bool_decide (role_ n <> Leader) then mkProposeResult false "lost leadership during proposal" index
  else mkProposeResult true "" index.

(** ** Construction *)

Fixpoint recover_entries (raws : list RawLogEntry) : M RaftNode unit :=
  match raws with
  | [] => mret tt
  | raw :: rest =>
      e ← lift (LogEntry_Deserialize (raw_command raw));
      withLog (Append e);;
      recover_entries rest
  end.

(** Recovery of a persisted state; [clock] is read by [RestoreSnapshot]. *)
Definition recover_node (clock : nat -> Z) (recovery : RecoveryResult) : M RaftNode unit :=
  modify (set_term (hs_term (rr_hardState recovery)));;
  modify (set_votedFor (hs_votedFor (rr_hardState recovery)));;
  (match rr_latestSnapshot recovery with
   | Some snap =>
       (fun n => let '(s, r) := RestoreSnapshot clock snap (store_ n) in (set_store s n, r));;
       withLog (modify (SetSnapshot (rr_snapshotIndex recovery) (rr_snapshotTerm recovery)));;
       modify (set_applied (rr_snapshotIndex recovery));;
       modify (set_commit (rr_snapshotIndex recovery))
   | None => mret tt
   end);;
  recover_entries (rr_entries recovery).

Definition RaftNode_init (config : RaftConfig) (store : KVStore) (wal : option journal) : RaftNode :=
  mkRaftNode config store (RaftLog_new wal) 0 "" 0 0 Follower "" ∅ ∅ 0.

Definition RaftNode_new (config : RaftConfig) (store : KVStore) (wal : option journal)
    (clock : nat -> Z) (now : Z) : RaftNode * Res unit :=
  ((match wal with Some j => recover_node clock (replay j) | None => mret tt end);;
   modify (set_heartbeat now)) (RaftNode_init config store wal).

(** ** Accessors *)

Definition IsLeader (n : RaftNode) : bool := bool_decide (role_ n = Leader).
Definition GetRole (n : RaftNode) : RaftRole := role_ n.
Definition GetCurrentTerm (n : RaftNode) : Z := currentTerm_ n.
Definition GetCommitIndex (n : RaftNode) : Z := commitIndex_ n.
Definition GetLeaderId (n : RaftNode) : string := leaderId_ n.
End NodeOps.

(** ** Lemmas: hard state and voting *)

(** What makes a node able to persist its hard state: text the JSON library can
    write, and a term of its width. *)
Record node_ok (n : RaftNode) : Prop := {
  ok_id : nodeId n <> ""%string;
  ok_id_utf8 : utf8_valid (nodeId n) = true;
  ok_term : is_u64 (currentTerm_ n);
  ok_vote_utf8 : utf8_valid (votedFor_ n) = true;
}.

(** The last hard state of the journal is the one in memory. *)
Definition hs_durable (n : RaftNode) : Prop :=
  exists j, wal_ (log_ n) = Some j /\ rr_hardState (replay j) = mkHardState (currentTerm_ n) (votedFor_ n).

(** The effects of the operations, without the monad. *)
Definition persisted (n : RaftNode) : RaftNode :=
  match wal_ (log_ n) with
  | Some j => set_log (set_wal (log_ n) (j ++ [RecHardState (mkHardState (currentTerm_ n) (votedFor_ n))])) n
  | None => n
  end.

Definition as_follower (now term : Z) (leaderId : string) (n : RaftNode) : RaftNode :=
  let n1 := set_votedFor "" (set_role Follower (set_term term n)) in
  set_heartbeat now (persisted (if String.eqb leaderId "" then n1 else set_leaderId leaderId n1)).

(** The state in which [HandleRequestVote] decides, and whether it grants. *)
Definition vote_pre (now : Z) (req : RequestVoteRequest) (n : RaftNode) : RaftNode :=
  if currentTerm_ n <? vq_term req then as_follower now (vq_term req) "" n else n.

Definition vote_grants (req : RequestVoteRequest) (n : RaftNode) : bool :=
  (String.eqb (votedFor_ n) "" || String.eqb (votedFor_ n) (vq_candidateId req)) &&
  IsLogUpToDate n (vq_lastLogIndex req) (vq_lastLogTerm req).

Definition vote_cast (now : Z) (c : string) (n : RaftNode) : RaftNode :=
  persisted (set_heartbeat now (set_votedFor c n)).

Lemma hs_durable_persisted n j : wal_ (log_ n) = Some j -> hs_durable (persisted n).
Proof.
  intros Hj. unfold hs_durable, persisted. rewrite Hj. eexists. split; [done|]. by rewrite replay_app.
Qed.

Lemma hs_durable_wal n : hs_durable n -> exists j, wal_ (log_ n) = Some j.
Proof. intros (j & Hj & _). by exists j. Qed.

Lemma persisted_fields n :
  config_ (persisted n) = config_ n /\ currentTerm_ (persisted n) = currentTerm_ n /\
  votedFor_ (persisted n) = votedFor_ n /\ role_ (persisted n) = role_ n.
Proof. unfold persisted. by destruct (wal_ (log_ n)). Qed.

Lemma as_follower_fields now t i n : let n' := as_follower now t i n in
  config_ n' = config_ n /\ currentTerm_ n' = t /\ votedFor_ n' = ""%string /\ role_ n' = Follower.
Proof. unfold as_follower. destruct (String.eqb i ""); unfold persisted; simpl; by destruct (wal_ (log_ n)). Qed.

Lemma as_follower_durable now t i n j : wal_ (log_ n) = Some j -> hs_durable (as_follower now t i n).
Proof.
  intros Hj. unfold as_follower. set (n1 := if String.eqb i "" then _ else _).
  assert (wal_ (log_ n1) = Some j) as Hj1 by (unfold n1; by destruct (String.eqb i "")).
  destruct (hs_durable_persisted n1 j Hj1) as (j' & ? & ?). by exists j'.
Qed.

Section NodeLemmas.
Context {J : JsonLib} {L : JsonLaws J}.

Lemma PersistHardState_run n : is_u64 (currentTerm_ n) -> utf8_valid (votedFor_ n) = true ->
  PersistHardState n = (persisted n, Ok tt).
Proof.
  intros Ht Hv. unfold PersistHardState, persisted, withLog. unfold mbind, M_bind, getS. cbv beta iota.
  unfold journal_write. destruct (wal_ (log_ n)) as [j|] eqn:Hj; [|by destruct n].
  destruct (dump_ok (record_json (RecHardState (mkHardState (currentTerm_ n) (votedFor_ n))))) as (d & -> & _); [|done].
  unfold record_json. json_wf_tac.
Qed.

Lemma BecomeFollower_run now t i n : is_u64 t -> BecomeFollower now t i n = (as_follower now t i n, Ok tt).
Proof.
  intros Ht. unfold BecomeFollower. rewrite !bind_modify. unfold as_follower.
  destruct (String.eqb i "") eqn:Ei.
  - rewrite bind_ret. erewrite bind_run by (by apply PersistHardState_run). done.
  - rewrite bind_modify. erewrite bind_run by (by apply PersistHardState_run). done.
Qed.

Lemma HandleRequestVote_run now req n : is_u64 (vq_term req) -> is_u64 (currentTerm_ n) ->
  utf8_valid (vq_candidateId req) = true ->
  HandleRequestVote now req n =
    if vq_term req <? currentTerm_ n then (n, Ok (mkRequestVoteResponse (currentTerm_ n) false))
    else
      let n1 := vote_pre now req n in
      if vote_grants req n1
      then (vote_cast now (vq_candidateId req) n1, Ok (mkRequestVoteResponse (currentTerm_ n) true))
      else (n1, Ok (mkRequestVoteResponse (currentTerm_ n) false)).
Proof.
  intros Ht Hc Hu. unfold HandleRequestVote. rewrite bind_getS. cbv zeta.
  case_if; [done|]. assert (forall (f : unit -> M RaftNode RequestVoteResponse),
    ((if currentTerm_ n <? vq_term req then BecomeFollower now (vq_term req) "" else mret tt) ≫= f) n =
    f tt (vote_pre now req n)) as ->.
  { intros f. unfold vote_pre. case_if; [|done]. apply bind_run. by apply BecomeFollower_run. }
  rewrite bind_getS.
  assert (is_u64 (currentTerm_ (vote_pre now req n))) as Ht1.
  { unfold vote_pre. case_if; [|done]. pose proof (as_follower_fields now (vq_term req) "" n) as (_ & -> & _). done. }
  unfold vote_grants. rewrite negb_andb, !negb_involutive. cbv zeta. case_if; [|done]. rewrite bind_modify. unfold ResetElectionTimer. rewrite bind_modify.
  erewrite bind_run by (by apply PersistHardState_run). done.
Qed.
End NodeLemmas.

(** ** Lemmas: what the other operations leave alone *)

(** The hard state a recovery of the journal would give. *)
Definition log_hs (l : RaftLog) : option HardState := rr_hardState ∘ replay <$> wal_ l.

Definition same_hs (l l' : RaftLog) : Prop := log_hs l' = log_hs l.

(** Everything that matters for voting is unchanged. *)
Definition same_vote (n n' : RaftNode) : Prop :=
  config_ n' = config_ n /\ currentTerm_ n' = currentTerm_ n /\ votedFor_ n' = votedFor_ n /\
  role_ n' = role_ n /\ same_hs (log_ n) (log_ n').

#[global] Instance same_hs_preorder : PreOrder same_hs.
Proof. split; [done|]. intros a b c H1 H2. unfold same_hs in *. congruence. Qed.

#[global] Instance same_vote_preorder : PreOrder same_vote.
Proof. split; [done|]. unfold same_vote, same_hs. intros a b c ? ?. intuition congruence. Qed.

Lemma hs_durable_log n : hs_durable n <-> log_hs (log_ n) = Some (mkHardState (currentTerm_ n) (votedFor_ n)).
Proof.
  unfold hs_durable, log_hs. split.
  - intros (j & -> & <-). done.
  - destruct (wal_ (log_ n)) as [j|]; [|done]. intros E. inv E. by exists j.
Qed.

Lemma same_vote_durable n n' : same_vote n n' -> hs_durable n -> hs_durable n'.
Proof.
  intros (_ & Ht & Hv & _ & Hh). rewrite !hs_durable_log. unfold same_hs in Hh. congruence.
Qed.

Lemma same_vote_ok n n' : same_vote n n' -> node_ok n -> node_ok n'.
Proof. intros (Hc & Ht & Hv & _) [? ? ? ?]. split; unfold nodeId in *; congruence. Qed.

Section Frame.
Context `{JsonLib}.

Lemma keeps_withLog {A} (m : M RaftLog A) : keeps same_hs m -> keeps same_vote (withLog m).
Proof.
  intros Hm n. unfold withLog. specialize (Hm (log_ n)). destruct (m (log_ n)) as [l r]. by split_and!.
Qed.

Lemma keeps_journal r : ~ is_hard_state r -> keeps same_hs (journal_write r).
Proof.
  intros Hr l. unfold journal_write, same_hs, log_hs. destruct (wal_ l) as [j|] eqn:Hj; [|simpl; by rewrite Hj].
  destruct (dump (record_json r)); simpl; [|by rewrite Hj]. rewrite replay_app. by destruct r.
Qed.

Lemma keeps_journal_entry e : keeps same_hs (journal_entry e).
Proof.
  intros l. unfold journal_entry. destruct (wal_ l); [|done].
  refine ((_ : keeps same_hs _) l). keeps_tac. apply keeps_journal. by intros [].
Qed.

Lemma keeps_Append e : keeps same_hs (Append e).
Proof. unfold Append. keeps_tac; [by unfold same_hs|apply keeps_journal_entry]. Qed.

Lemma same_hs_merge_entry e l : same_hs l (merge_entry e l).
Proof. unfold merge_entry, same_hs. repeat case_if; done. Qed.

Lemma keeps_AppendAll es : keeps same_hs (AppendAll es).
Proof.
  induction es as [|e es IH]; cbn [AppendAll]; keeps_tac; [apply same_hs_merge_entry|apply keeps_journal_entry|done].
Qed.

Lemma same_vote_init_peers i ps n : same_vote n (init_peers i ps n).
Proof. revert n. induction ps as [|p ps IH]; intros n; [done|]. simpl. etrans; [|apply IH]. by unfold same_vote, same_hs. Qed.

Lemma same_vote_AdvanceCommitIndex n : same_vote n (AdvanceCommitIndex n).
Proof. unfold AdvanceCommitIndex. case_if; by unfold same_vote, same_hs. Qed.

Lemma keeps_MaybeSnapshot now : keeps same_vote (MaybeSnapshot now).
Proof.
  unfold MaybeSnapshot. keeps_tac.
  - apply keeps_withLog, keeps_journal. by intros [].
  - apply keeps_withLog. keeps_tac. by unfold same_hs.
Qed.

Lemma keeps_Propose_begin k v op ttl : keeps same_vote (Propose_begin k v op ttl).
Proof. unfold Propose_begin. keeps_tac. apply keeps_withLog, keeps_Append. Qed.
End Frame.

(** The two effects an operation other than voting can have on the voting
    state: none, or the node follows a strictly higher term, durably and with
    no vote. *)
Inductive vote_effect (n n' : RaftNode) : Prop :=
| ve_same : same_vote n n' -> vote_effect n n'
| ve_follow t : is_u64 t -> currentTerm_ n < t -> config_ n' = config_ n -> currentTerm_ n' = t ->
    votedFor_ n' = ""%string -> role_ n' = Follower -> hs_durable n' -> vote_effect n n'.

Lemma vote_effect_same n n' n'' : vote_effect n n' -> same_vote n' n'' -> vote_effect n n''.
Proof.
  intros [Hs|t Hu Ht Hc Ht' Hv Hr Hd] Hs'.
  - apply ve_same. by etrans.
  - pose proof (same_vote_durable _ _ Hs' Hd). destruct Hs' as (? & ? & ? & ? & ?). by apply (ve_follow _ _ t); try congruence.
Qed.

Lemma as_follower_effect now t i n : is_u64 t -> currentTerm_ n < t -> hs_durable n ->
  vote_effect n (as_follower now t i n).
Proof.
  intros Hu Ht (j & Hj & _). pose proof (as_follower_fields now t i n) as (? & ? & ? & ?).
  pose proof (as_follower_durable now t i n j Hj). by apply (ve_follow _ _ t).
Qed.

Section Effects.
Context {J : JsonLib} {L : JsonLaws J}.

Lemma HandleAppendEntries_effect now req n : is_u64 (aq_term req) -> hs_durable n ->
  vote_effect n (HandleAppendEntries now req n).1.
Proof.
  intros Hu Hd. unfold HandleAppendEntries. rewrite bind_getS. cbv zeta. case_if; [by apply ve_same|].
  set (n1 := if currentTerm_ n <? aq_term req then as_follower now (aq_term req) (aq_leaderId req) n else n).
  assert (forall (f : unit -> M RaftNode AppendEntriesResponse),
    ((if currentTerm_ n <? aq_term req then BecomeFollower now (aq_term req) (aq_leaderId req) else mret tt) ≫= f) n =
    f tt n1) as ->.
  { intros f. unfold n1. case_if; [|done]. apply bind_run. by apply BecomeFollower_run. }
  apply (vote_effect_same _ n1).
  { unfold n1. destruct (currentTerm_ n <? aq_term req) eqn:E1; bool_prop; [by apply as_follower_effect|by apply ve_same]. }
  refine ((_ : keeps same_vote _) n1). unfold ResetElectionTimer. keeps_tac; try by unfold same_vote, same_hs.
  destruct (check_prev _ _ _); keeps_tac; [apply keeps_withLog, keeps_AppendAll|].
  case_if; by unfold same_vote, same_hs.
Qed.

Lemma ReplicateToPeer_response_effect now p req resp n : is_u64 (ar_term resp) -> hs_durable n ->
  vote_effect n (ReplicateToPeer_response now p req resp n).1.
Proof.
  intros Hu Hd. unfold ReplicateToPeer_response, catch_all. rewrite bind_getS. cbn [fst]. case_if.
  - rewrite BecomeFollower_run by done. by apply as_follower_effect.
  - apply ve_same. refine ((_ : keeps same_vote _) n).
    keeps_tac; try (by unfold same_vote, same_hs); apply same_vote_AdvanceCommitIndex.
Qed.

Lemma StartElection_turn_effect now t o n : (forall resp, o = Some resp -> is_u64 (vr_term resp)) -> hs_durable n ->
  exists n' stop v, StartElection_turn now t o n = (n', Ok (stop, v)) /\ vote_effect n n' /\
    (stop = false -> n' = n /\ (v = 0 \/ v = 1 /\ exists resp, o = Some resp /\ vr_voteGranted resp = true)).
Proof.
  intros Ho Hd. destruct o as [resp|]; [|exists n, false, 0; split_and!; [done|by apply ve_same|by auto]].
  specialize (Ho resp eq_refl). unfold StartElection_turn, StartElection_response. rewrite bind_getS. case_if.
  - rewrite (bind_run _ _ _ _ _ (BecomeFollower_run now _ "" n Ho)). eexists _, true, 0. split; [done|].
    split; [by apply as_follower_effect|done].
  - case_if; [exists n, false, 1|exists n, false, 0]; (split; [done|]; split; [by apply ve_same|]); intros _;
      (split; [done|]); [right|by left]. split; [done|]. by exists resp.
Qed.

(** A candidate takes the next term, votes for itself and makes that durable. *)
Definition as_candidate (now : Z) (n : RaftNode) : RaftNode :=
  set_heartbeat now (persisted (set_role Candidate (set_votedFor (nodeId n) (set_term (u64 (currentTerm_ n + 1)) n)))).

Lemma StartElection_begin_run now n : node_ok n ->
  StartElection_begin now n = (as_candidate now n,
    Ok (mkRequestVoteRequest (u64 (currentTerm_ n + 1)) (nodeId n) (LastIndex (log_ n)) (LastTerm (log_ n)))).
Proof.
  intros [_ Hid _ _]. unfold StartElection_begin. rewrite bind_modify, bind_getS, !bind_modify.
  erewrite bind_run by (apply PersistHardState_run; [apply u64_range|exact Hid]). by rewrite bind_modify.
Qed.

Lemma as_candidate_fields now n j : wal_ (log_ n) = Some j -> let n' := as_candidate now n in
  config_ n' = config_ n /\ currentTerm_ n' = u64 (currentTerm_ n + 1) /\ votedFor_ n' = nodeId n /\
  role_ n' = Candidate /\ hs_durable n'.
Proof.
  intros Hj. unfold as_candidate. set (n1 := set_role Candidate _).
  pose proof (persisted_fields n1) as (Hc & Ht & Hv & Hr). simpl. rewrite Hc, Ht, Hv, Hr. split_and!; try done.
  destruct (hs_durable_persisted n1 j Hj) as (j' & ? & ?). by exists j'.
Qed.

Lemma vote_cast_fields now c n j : wal_ (log_ n) = Some j -> let n' := vote_cast now c n in
  config_ n' = config_ n /\ currentTerm_ n' = currentTerm_ n /\ votedFor_ n' = c /\
  role_ n' = role_ n /\ hs_durable n'.
Proof.
  intros Hj. unfold vote_cast. set (n1 := set_heartbeat now _).
  pose proof (persisted_fields n1) as (Hc & Ht & Hv & Hr). simpl. rewrite Hc, Ht, Hv, Hr. split_and!; try done.
  by apply (hs_durable_persisted n1 j).
Qed.

(** A finished election either changes nothing or makes the node the leader of
    its term, and then it had a quorum. *)
Lemma StartElection_finish_effect t v n :
  let n' := (StartElection_finish t v n).1 in
  same_vote n n' \/
  (same_vote (set_role Leader n) n' /\ role_ n = Candidate /\ currentTerm_ n = t /\ QuorumSize n <= v).
Proof.
  unfold StartElection_finish. rewrite bind_getS. case_if; [by left|]. case_if; [|by left]. right.
  bool_prop. apply bool_decide_eq_false in H. split_and!; [|by destruct (decide (role_ n = Candidate))|done|done].
  unfold BecomeLeader. rewrite bind_modify. refine ((_ : keeps same_vote _) (set_role Leader n)).
  keeps_tac; [by unfold same_vote, same_hs|apply same_vote_init_peers|apply keeps_withLog, keeps_Append].
Qed.
End Effects.

(** Requests and responses carry the term of their sender. *)
Lemma ReplicateToPeer_prepare_term p n req : ReplicateToPeer_prepare p n = Some req ->
  aq_term req = currentTerm_ n /\ role_ n = Leader.
Proof.
  unfold ReplicateToPeer_prepare. destruct (bool_decide (role_ n <> Leader)) eqn:E; [done|].
  apply bool_decide_eq_false in E. intros Hr.
  split; [|by destruct (decide (role_ n = Leader))].
  exact (f_equal (fun o => match o with Some r => aq_term r | None => 0 end) (eq_sym Hr)).
Qed.

Lemma check_prev_term l t req resp : check_prev l t req = Some resp -> ar_term resp = t /\ ar_success resp = false.
Proof. unfold check_prev. repeat case_if; intros E'; inv E'; done. Qed.

Lemma HandleAppendEntries_term `{JsonLib} now req n n' resp :
  HandleAppendEntries now req n = (n', Ok resp) -> ar_term resp = currentTerm_ n.
Proof.
  unfold HandleAppendEntries. rewrite bind_getS. cbv zeta. case_if; [intros E'; by inv E'|].
  match goal with |- ?m n = _ -> _ => assert (returns (fun r => ar_term r = currentTerm_ n) m) as Hr end.
  { repeat (apply returns_bind; intros ?). destruct (check_prev _ _ _) eqn:Ec.
    - apply returns_ret. by apply check_prev_term in Ec as [? _].
    - repeat (apply returns_bind; intros ?). by apply returns_ret. }
  apply Hr.
Qed.

(** A restarted node has the hard state of its journal. *)
Lemma RaftNode_new_vote `{JsonLib} config store j clock now :
  let n := (RaftNode_new config store (Some j) clock now).1 in
  let hs := rr_hardState (replay j) in
  same_vote (set_votedFor (hs_votedFor hs) (set_term (hs_term hs) (RaftNode_init config store (Some j)))) n.
Proof.
  unfold RaftNode_new, recover_node. set (r := replay j). cbv zeta.
  assert (forall raws, keeps same_vote (recover_entries raws)) as Hre.
  { induction raws as [|raw raws IH]; cbn [recover_entries]; keeps_tac; [|done]. apply keeps_withLog, keeps_Append. }
  set (n1 := set_votedFor _ _).
  match goal with |- same_vote _ (((_ ≫= fun _ => _ ≫= fun _ => ?m) ≫= ?f) _).1 =>
    change (same_vote n1 ((m ≫= f) n1).1) end.
  match goal with |- same_vote _ (?m n1).1 => refine ((_ : keeps same_vote m) n1) end.
  keeps_tac; [|apply Hre|by unfold same_vote, same_hs].
  destruct (rr_latestSnapshot r) as [snap|]; keeps_tac; try by unfold same_vote, same_hs.
  intros n. destruct (RestoreSnapshot clock snap (store_ n)). by unfold same_vote, same_hs.
Qed.
