(* ===== verification/RaftCluster.v ===== *)
(** * A cluster of nodes and its network

    The step relation interleaves the locked sections of all the nodes of a
    cluster.  The network keeps every message that was ever sent: a step may
    deliver any of them, any number of times and in any order, or never.  The
    replication thread of a node has one AppendEntries call at a time
    ([calls]): it waits for the answer to its request or gives the call up.  A
    node may stop at any point and restart from its journal; what it had in
    memory and in flight is gone.  [granted] is a history variable: the votes
    that were cast.  The theorem is election safety. *)
From S2P Require Import Prelude CxxString CxxMap Json KVStore RaftRPC WriteAheadLog RaftLog RaftNode.
From Stdlib Require Import ZArith Lia Ascii String.
From stdpp Require Import prelude gmap strings sorting relations.
#[local] Open Scope Z_scope.

(** ** The model *)

(** A response carries the request it answers: [RaftPeer] matches them by the
    sequence number of the frame. *)
Inductive Msg : Type :=
| MVoteReq (from to : string) (req : RequestVoteRequest)
| MVoteResp (from to : string) (req : RequestVoteRequest) (resp : RequestVoteResponse)
| MAppendReq (from to : string) (req : AppendEntriesRequest)
| MAppendResp (from to : string) (req : AppendEntriesRequest) (resp : AppendEntriesResponse).

(** The locals of a [StartElection] in progress: its term, the peers whose
    futures it has not looked at, the votes it counted (and whose they are). *)
Record Election := mkElection {
  el_term : Z;
  el_pending : list string;
  el_votes : Z;
  el_voters : list string;
}.

(** The locals of a turn of [ApplyLoop]: the entry, and whether the store has it. *)
Record Applying := mkApplying { ap_next : Z; ap_entry : LogEntry; ap_stored : bool }.

(** [calls]: the peer and the request the replication thread waits for, in the
    [wait_for] of [ReplicateToPeer]. *)
Record Cluster := mkCluster {
  nodes : gmap string RaftNode;
  elections : gmap string Election;
  applying : gmap string Applying;
  calls : gmap string (string * AppendEntriesRequest);
  net : list Msg;
  granted : list (string * Z * string);
}.

Definition set_node (i : string) (n : RaftNode) (c : Cluster) : Cluster :=
  mkCluster (<[i := n]> (nodes c)) (elections c) (applying c) (calls c) (net c) (granted c).
Definition set_election (i : string) (e : option Election) (c : Cluster) : Cluster :=
  mkCluster (nodes c) (match e with Some e => <[i := e]> (elections c) | None => delete i (elections c) end)
    (applying c) (calls c) (net c) (granted c).
Definition set_applying (i : string) (a : option Applying) (c : Cluster) : Cluster :=
  mkCluster (nodes c) (elections c)
    (match a with Some a => <[i := a]> (applying c) | None => delete i (applying c) end) (calls c) (net c) (granted c).
Definition set_call (i : string) (q : option (string * AppendEntriesRequest)) (c : Cluster) : Cluster :=
  mkCluster (nodes c) (elections c) (applying c)
    (match q with Some q => <[i := q]> (calls c) | None => delete i (calls c) end) (net c) (granted c).
Definition send (ms : list Msg) (c : Cluster) : Cluster :=
  mkCluster (nodes c) (elections c) (applying c) (calls c) (net c ++ ms) (granted c).
Definition record_vote (v : string) (t : Z) (d : string) (c : Cluster) : Cluster :=
  mkCluster (nodes c) (elections c) (applying c) (calls c) (net c) (granted c ++ [(v, t, d)]).

(** What may happen: nodes stop and restart; a leader handles, in a later term
    it leads, the response to a call it made in an earlier one and still waits
    for ([ReplicateToPeer] compares the response's term with [currentTerm_], not
    the request's); clients send compare-and-swap requests, which change the
    store of one node and nothing else. *)
Record Faults := mkFaults { restarts : bool; late : bool; swaps : bool }.
Definition all_faults : Faults := mkFaults true true true.

Section Cluster.
Context `{JsonLib}.
(** The members and their configurations. *)
Variable members : list string.
Variable cfg : string -> RaftConfig.

Inductive step (f : Faults) (c : Cluster) : Cluster -> Prop :=
(** the election timer fires *)
| st_election i n n' req now :
    nodes c !! i = Some n -> elections c !! i = None -> role_ n <> Leader -> currentTerm_ n + 1 < 2 ^ 64 ->
    StartElection_begin now n = (n', Ok req) ->
    step f c (record_vote i (vq_term req) i (send ((fun p => MVoteReq i p req) <$> peer_ids n)
      (set_election i (Some (mkElection (vq_term req) (peer_ids n) 1 [i])) (set_node i n' c))))
(** the RPC server handles a vote request *)
| st_vote i n n' from req resp now :
    nodes c !! i = Some n -> MVoteReq from i req ∈ net c ->
    HandleRequestVote now req n = (n', Ok resp) ->
    let c' := send [MVoteResp i from req resp] (set_node i n' c) in
    step f c (if vr_voteGranted resp then record_vote i (vq_term req) (vq_candidateId req) c' else c')
(** a candidate looks at the next future: a response to its request, or none in time *)
| st_vote_response i n n' e p rest o stop v now :
    nodes c !! i = Some n -> elections c !! i = Some e -> el_pending e = p :: rest ->
    (forall resp, o = Some resp -> exists req, vq_term req = el_term e /\ MVoteResp p i req resp ∈ net c) ->
    StartElection_turn now (el_term e) o n = (n', Ok (stop, v)) ->
    step f c (set_election i (if stop : bool then None else
        Some (mkElection (el_term e) rest (el_votes e + v) (if v =? 1 then p :: el_voters e else el_voters e)))
      (set_node i n' c))
(** all futures are done: the count *)
| st_election_end i n e :
    nodes c !! i = Some n -> elections c !! i = Some e -> el_pending e = [] ->
    step f c (set_election i None (set_node i (StartElection_finish (el_term e) (el_votes e) n).1 c))
(** replication to one peer: the thread sends a request and waits *)
| st_replicate i n p req :
    nodes c !! i = Some n -> calls c !! i = None -> p ∈ peer_ids n -> ReplicateToPeer_prepare p n = Some req ->
    step f c (set_call i (Some (p, req)) (send [MAppendReq i p req] c))
| st_append i n n' from req r now :
    nodes c !! i = Some n -> MAppendReq from i req ∈ net c ->
    HandleAppendEntries now req n = (n', r) ->
    step f c (send (match r with Ok resp => [MAppendResp i from req resp] | Throw _ => [] end) (set_node i n' c))
(** the answer it waits for arrives in time *)
| st_append_response i n p req resp now :
    nodes c !! i = Some n -> calls c !! i = Some (p, req) -> MAppendResp p i req resp ∈ net c ->
    late f = true \/ aq_term req = currentTerm_ n \/ currentTerm_ n < ar_term resp ->
    step f c (set_call i None (set_node i (ReplicateToPeer_response now p req resp n).1 c))
(** the call fails or times out, and its answer is never looked at *)
| st_call_lost i n q :
    nodes c !! i = Some n -> calls c !! i = Some q ->
    step f c (set_call i None c)
(** a client request reaches the node *)
| st_propose i n k v op ttl :
    nodes c !! i = Some n -> op_ok op -> is_i64 ttl ->
    step f c (set_node i (Propose_begin k v op ttl n).1 c)
(** compare-and-swap goes to the store; the handler has read the role before,
    and the JSON parser yields UTF-8 *)
| st_swap i n now key expected value :
    swaps f = true -> nodes c !! i = Some n -> utf8_valid value = true ->
    step f c (set_node i (set_store (CAS now key expected value 0 (store_ n)).1.2 n) c)
(** the apply thread *)
| st_apply_fetch i n next e :
    nodes c !! i = Some n -> applying c !! i = None -> ApplyLoop_fetch n = Some (next, e) ->
    step f c (set_applying i (Some (mkApplying next e false)) c)
| st_apply_store i n a now :
    nodes c !! i = Some n -> applying c !! i = Some a -> ap_stored a = false ->
    step f c (set_applying i (Some (mkApplying (ap_next a) (ap_entry a) true))
      (set_node i (set_store (ApplyEntry now (ap_entry a) (store_ n)).1.1 n) c))
| st_apply_finish i n a :
    nodes c !! i = Some n -> applying c !! i = Some a -> ap_stored a = true ->
    step f c (set_applying i None (set_node i (ApplyLoop_finish (ap_next a) n) c))
| st_snapshot i n now :
    nodes c !! i = Some n -> applying c !! i = None ->
    step f c (set_node i (MaybeSnapshot now n).1 c)
(** the process stops and starts again on its journal *)
| st_restart i n n' j clock now :
    restarts f = true -> nodes c !! i = Some n -> wal_ (log_ n) = Some j ->
    RaftNode_new (cfg i) KVStore_new (Some j) clock now = (n', Ok tt) ->
    step f c (set_call i None (set_applying i None (set_election i None (set_node i n' c)))).

(** All nodes start on empty journals. *)
Definition cluster_init (c : Cluster) : Prop :=
  (forall i, is_Some (nodes c !! i) <-> i ∈ members) /\
  (forall i n, nodes c !! i = Some n -> exists clock now,
     n = (RaftNode_new (cfg i) KVStore_new (Some []) clock now).1) /\
  elections c = ∅ /\ applying c = ∅ /\ calls c = ∅ /\ net c = [] /\ granted c = [].

Definition reachable (c : Cluster) : Prop := exists c0, cluster_init c0 /\ rtc (step all_faults) c0 c.

(** The configurations describe one cluster: distinct non-empty names, and
    every node has the others as its peers. *)
Definition cluster_config : Prop :=
  NoDup members /\
  forall i, i ∈ members ->
    i <> ""%string /\ utf8_valid i = true /\ cfg_nodeId (cfg i) = i /\
    i :: (pi_id <$> cfg_peers (cfg i)) ≡ₚ members.

(** ** The invariant *)

Definition msg_ok (g : list (string * Z * string)) (m : Msg) : Prop :=
  match m with
  | MVoteReq from _ req =>
      from ∈ members /\ vq_candidateId req = from /\ is_u64 (vq_term req)
  | MVoteResp from to req resp =>
      is_u64 (vr_term resp) /\ vq_candidateId req = to /\
      (vr_voteGranted resp = true -> (from, vq_term req, to) ∈ g)
  | MAppendReq _ _ req => is_u64 (aq_term req)
  | MAppendResp _ _ _ resp => is_u64 (ar_term resp)
  end.

(** The counted votes of an election in progress are votes of distinct members
    other than those still to come. *)
Record election_ok (g : list (string * Z * string)) (i : string) (e : Election) : Prop := {
  eo_count : el_votes e = len (el_voters e);
  eo_nodup : NoDup (el_voters e ++ el_pending e);
  eo_members v : v ∈ el_voters e ++ el_pending e -> v ∈ members;
  eo_granted v : v ∈ el_voters e -> (v, el_term e, i) ∈ g;
}.

Definition has_quorum (g : list (string * Z * string)) (i : string) (t size : Z) : Prop :=
  exists q, NoDup q /\ (forall v, v ∈ q -> v ∈ members /\ (v, t, i) ∈ g) /\ size <= len q.

Record cluster_inv (c : Cluster) : Prop := {
  inv_node i n : nodes c !! i = Some n ->
    i ∈ members /\ config_ n = cfg i /\ node_ok n /\ hs_durable n;
  inv_vote v t d : (v, t, d) ∈ granted c -> d <> ""%string /\
    exists n, nodes c !! v = Some n /\ t <= currentTerm_ n /\ (t = currentTerm_ n -> votedFor_ n = d);
  inv_once v t d d' : (v, t, d) ∈ granted c -> (v, t, d') ∈ granted c -> d = d';
  inv_msg m : m ∈ net c -> msg_ok (granted c) m;
  inv_election i e : elections c !! i = Some e -> election_ok (granted c) i e;
  inv_leader i n : nodes c !! i = Some n -> role_ n = Leader ->
    has_quorum (granted c) i (currentTerm_ n) (QuorumSize n);
}.

Lemma msg_ok_mono g g' m : g ⊆ g' -> msg_ok g m -> msg_ok g' m.
Proof. intros Hg. destruct m; simpl; try done. intros (? & ? & Hr). split_and!; try done. intros E. by apply Hg, Hr. Qed.

Lemma election_ok_mono g g' i e : g ⊆ g' -> election_ok g i e -> election_ok g' i e.
Proof. intros Hg [? ? ? Hv]. split; try done. intros v Hin. by apply Hg, Hv. Qed.

Lemma has_quorum_mono g g' i t s : g ⊆ g' -> has_quorum g i t s -> has_quorum g' i t s.
Proof.
  intros Hg (q & ? & Hq & ?). exists q. split_and!; try done. intros v Hv. destruct (Hq v Hv). by split; [|apply Hg].
Qed.

Lemma sub_app_l {A} (l k : list A) : l ⊆ l ++ k.
Proof. intros x Hx. apply elem_of_app. by left. Qed.

(** ** Preservation *)

(** A node moves without casting a vote or winning an election. *)
Lemma inv_frame c i n n' : cluster_inv c -> nodes c !! i = Some n ->
  config_ n' = config_ n -> node_ok n' -> hs_durable n' -> currentTerm_ n <= currentTerm_ n' ->
  (currentTerm_ n = currentTerm_ n' -> votedFor_ n' = votedFor_ n) ->
  (role_ n' = Leader -> role_ n = Leader /\ currentTerm_ n = currentTerm_ n') ->
  cluster_inv (set_node i n' c).
Proof.
  intros I Hn Hc' Hok' Hd' Ht Hv Hl. destruct (inv_node c I i n Hn) as (Hi & Hc & Hok & Hd). split; simpl; try apply I.
  - intros k x. rewrite lookup_insert. case_decide; [|by apply I]. subst k. intros [= <-]. split_and!; [done|congruence|done|done].
  - intros v t d Hg. destruct (inv_vote c I v t d Hg) as (? & x & Hx & Htx & Hvx). split; [done|].
    rewrite lookup_insert. case_decide; [|by exists x]. subst v. exists n'. rewrite Hn in Hx. inv Hx.
    split_and!; [done|lia|]. intros ->. rewrite Hv by lia. apply Hvx. lia.
  - intros k x. rewrite lookup_insert. case_decide; [|by apply I]. subst k. intros [= <-] Hr.
    destruct (Hl Hr) as [Hr' E]. unfold QuorumSize. rewrite Hc', <- E. by apply (inv_leader c I i n Hn).
Qed.

Lemma inv_effect c i n n' : cluster_inv c -> nodes c !! i = Some n -> vote_effect n n' -> cluster_inv (set_node i n' c).
Proof.
  intros I Hn He. destruct (inv_node c I i n Hn) as (_ & _ & Hok & Hd).
  destruct He as [Hs|t Hu Hlt Hc' Ht' Hv' Hr' Hd'].
  - pose proof (same_vote_ok _ _ Hs Hok). pose proof (same_vote_durable _ _ Hs Hd).
    destruct Hs as (? & Ht & ? & Hr & _). apply (inv_frame c i n n'); try done; [lia|]. by rewrite Hr, Ht.
  - apply (inv_frame c i n n'); try done; [|lia|lia|congruence].
    destruct Hok. split; unfold nodeId in *; [congruence|congruence|by rewrite Ht'|by rewrite Hv'].
Qed.

Lemma inv_send c ms : cluster_inv c -> Forall (msg_ok (granted c)) ms -> cluster_inv (send ms c).
Proof.
  intros I Hms. split; simpl; try apply I. intros m [Hm|Hm]%elem_of_app; [by apply I|].
  rewrite Forall_forall in Hms. by apply Hms.
Qed.

Lemma inv_set_election c i e : cluster_inv c -> (forall x, e = Some x -> election_ok (granted c) i x) ->
  cluster_inv (set_election i e c).
Proof.
  intros I He. split; simpl; try apply I. intros k x. destruct e as [e|].
  - rewrite lookup_insert. case_decide; [|by apply I]. subst k. intros [= <-]. by apply He.
  - rewrite lookup_delete_Some. intros [_ Hx]. by apply I.
Qed.

Lemma inv_set_applying c i a : cluster_inv c -> cluster_inv (set_applying i a c).
Proof. intros I. split; simpl; apply I. Qed.

Lemma inv_set_call c i q : cluster_inv c -> cluster_inv (set_call i q c).
Proof. intros I. split; simpl; apply I. Qed.

(** A node casts its vote for [d] in term [t]. *)
Lemma inv_cast c i n n' d : cluster_inv c -> nodes c !! i = Some n ->
  d <> ""%string -> utf8_valid d = true -> is_u64 (currentTerm_ n') ->
  config_ n' = config_ n -> votedFor_ n' = d -> hs_durable n' -> currentTerm_ n <= currentTerm_ n' ->
  (currentTerm_ n' = currentTerm_ n -> votedFor_ n = ""%string \/ votedFor_ n = d) ->
  (role_ n' = Leader -> role_ n = Leader /\ currentTerm_ n' = currentTerm_ n) ->
  cluster_inv (record_vote i (currentTerm_ n') d (set_node i n' c)).
Proof.
  intros I Hn Hd Hu Ht64 Hc Hv Hdur Ht Hfree Hrole. destruct (inv_node c I i n Hn) as (Hi & Hcfg & Hok & _).
  assert (forall t d', (i, t, d') ∈ granted c -> t <= currentTerm_ n' /\ (t = currentTerm_ n' -> d' = d)) as Hold.
  { intros t d' Hg. destruct (inv_vote c I i t d' Hg) as (Hd' & x & Hx & Htx & Hvx). rewrite Hn in Hx. inv Hx.
    split; [lia|]. intros ->. destruct Hfree as [E|E]; [lia| |]; rewrite Hvx in E by lia; congruence. }
  split; simpl.
  - intros k x. rewrite lookup_insert. case_decide; [|by apply I]. subst k. intros [= <-]. split_and!; [done|congruence| |done].
    destruct Hok. split; unfold nodeId in *; congruence.
  - intros v t d' [Hg|Hg]%elem_of_app.
    + destruct (inv_vote c I v t d' Hg) as (? & x & Hx & Htx & Hvx). split; [done|].
      rewrite lookup_insert. case_decide; [|by exists x]. subst v. exists n'. destruct (Hold t d' Hg) as [? E].
      split_and!; [done|done|]. intros ->. by rewrite E.
    + apply list_elem_of_singleton in Hg as [= -> -> ->]. split; [done|]. exists n'. by rewrite lookup_insert_eq.
  - intros v t d1 d2 [H1|H1]%elem_of_app [H2|H2]%elem_of_app.
    + by apply (inv_once c I v t).
    + apply list_elem_of_singleton in H2 as [= -> -> ->]. by apply Hold in H1 as [_ ->].
    + apply list_elem_of_singleton in H1 as [= -> -> ->]. apply Hold in H2 as [_ ->]; done.
    + apply list_elem_of_singleton in H1 as [= -> -> ->]. by apply list_elem_of_singleton in H2 as [= ->].
  - intros m Hm. eapply msg_ok_mono; [|by apply I]. apply sub_app_l.
  - intros k e He. eapply election_ok_mono; [|by apply I]. apply sub_app_l.
  - intros k x. rewrite lookup_insert. case_decide.
    + subst k. intros [= <-] Hr. destruct (Hrole Hr) as [Hr' E]. unfold QuorumSize. rewrite Hc, E.
      eapply has_quorum_mono; [|by apply (inv_leader c I i n)]. apply sub_app_l.
    + intros Hx Hr. eapply has_quorum_mono; [|by apply (inv_leader c I k x)]. apply sub_app_l.
Qed.

(** A candidate whose counted votes reach the quorum becomes the leader. *)
Lemma inv_elected c i n n' : cluster_inv c -> nodes c !! i = Some n -> same_vote (set_role Leader n) n' ->
  has_quorum (granted c) i (currentTerm_ n) (QuorumSize n) -> cluster_inv (set_node i n' c).
Proof.
  intros I Hn Hs Hq. destruct (inv_node c I i n Hn) as (Hi & Hc & Hok & Hd).
  pose proof (same_vote_durable _ _ Hs Hd) as Hd'.
  assert (node_ok n') as Hok'. { apply (same_vote_ok _ _ Hs). destruct Hok. by split. }
  destruct Hs as (Hc' & Ht & Hv & _ & _). simpl in *. split; simpl; try apply I.
  - intros k x. rewrite lookup_insert. case_decide; [|by apply I]. subst k. intros [= <-]. split_and!; [done|congruence|done|done].
  - intros v t d Hg. destruct (inv_vote c I v t d Hg) as (? & x & Hx & Htx & Hvx). split; [done|].
    rewrite lookup_insert. case_decide; [|by exists x]. subst v. exists n'. rewrite Hn in Hx. inv Hx.
    rewrite Ht, Hv. by split_and!.
  - intros k x. rewrite lookup_insert. case_decide; [|by apply I]. subst k. intros [= <-] _. unfold QuorumSize. by rewrite Hc', Ht.
Qed.

(** Two lists of members that together exceed the membership share one. *)
Lemma quorum_intersect (q1 q2 : list string) : NoDup q1 -> NoDup q2 ->
  (forall v, v ∈ q1 -> v ∈ members) -> (forall v, v ∈ q2 -> v ∈ members) ->
  len members < len q1 + len q2 -> exists v, v ∈ q1 /\ v ∈ q2.
Proof.
  intros N1 N2 H1 H2 Hlen. destruct (decide (Exists (.∈ q2) q1)) as [Hx|Hx]; [by apply Exists_exists in Hx|].
  exfalso. assert (NoDup (q1 ++ q2)) as N.
  { apply NoDup_app. split_and!; [done| |done]. intros v Hv Hv'. apply Hx, Exists_exists. by exists v. }
  assert (q1 ++ q2 ⊆+ members) as Hs.
  { apply NoDup_submseteq; [done|]. intros v [Hv|Hv]%elem_of_app; [by apply H1|by apply H2]. }
  apply submseteq_length in Hs. rewrite length_app in Hs. unfold len in Hlen. lia.
Qed.
End Cluster.

Section Safety.
Context {J : JsonLib} {L : JsonLaws J}.
Variable members : list string.
Variable cfg : string -> RaftConfig.
Hypothesis config_ok : cluster_config members cfg.

#[local] Abbreviation inv := (cluster_inv members cfg).

Lemma inv_peers c i n : inv c -> nodes c !! i = Some n -> i :: peer_ids n ≡ₚ members /\ nodeId n = i.
Proof.
  intros I Hn. destruct (inv_node _ _ c I i n Hn) as (Hi & Hc & _). destruct config_ok as [_ Hcfg].
  destruct (Hcfg i Hi) as (_ & _ & Hid & Hp). unfold peer_ids, nodeId. by rewrite Hc.
Qed.

Lemma step_election c i n n' req now : inv c -> nodes c !! i = Some n -> currentTerm_ n + 1 < 2 ^ 64 ->
  StartElection_begin now n = (n', Ok req) ->
  inv (record_vote i (vq_term req) i (send ((fun p => MVoteReq i p req) <$> peer_ids n)
    (set_election i (Some (mkElection (vq_term req) (peer_ids n) 1 [i])) (set_node i n' c)))).
Proof.
  intros I Hn Hb Hrun. destruct (inv_node _ _ c I i n Hn) as (Hi & Hc & Hok & (j & Hj & _)).
  destruct (inv_peers c i n I Hn) as [Hp Hid]. destruct (proj2 config_ok i Hi) as (Hne & Hu & _).
  rewrite (StartElection_begin_run now n Hok) in Hrun. inv Hrun. cbn [vq_term].
  destruct (as_candidate_fields now n j Hj) as (Hc' & Ht & Hv & Hr & Hd).
  destruct (ok_term n Hok) as [H0 _]. rewrite u64_small in * by (unfold is_u64; lia).
  assert (inv (record_vote (nodeId n) (currentTerm_ n + 1) (nodeId n) (set_node (nodeId n) (as_candidate now n) c))) as I1.
  { rewrite <- Ht. apply (inv_cast _ _ c _ n); try done; rewrite ?Ht; try lia; [unfold is_u64; lia|congruence]. }
  set (c1 := record_vote _ _ _ _) in I1.
  change (inv (send ((fun p => MVoteReq (nodeId n) p
      (mkRequestVoteRequest (currentTerm_ n + 1) (nodeId n) (LastIndex (log_ n)) (LastTerm (log_ n)))) <$> peer_ids n)
    (set_election (nodeId n) (Some (mkElection (currentTerm_ n + 1) (peer_ids n) 1 [nodeId n])) c1))).
  apply inv_send.
  - apply inv_set_election; [done|]. intros x [= <-]. split; simpl; [done| | |].
    + rewrite Hp. apply config_ok.
    + intros v Hv'. by rewrite <- Hp.
    + intros v ->%list_elem_of_singleton. apply elem_of_app. right. by apply list_elem_of_singleton.
  - apply Forall_fmap, Forall_forall. intros p Hp'. simpl. split_and!; try done; unfold is_u64; lia.
Qed.

Lemma step_vote c i n n' from req resp now : inv c -> nodes c !! i = Some n -> MVoteReq from i req ∈ net c ->
  HandleRequestVote now req n = (n', Ok resp) ->
  let c' := send [MVoteResp i from req resp] (set_node i n' c) in
  inv (if vr_voteGranted resp then record_vote i (vq_term req) (vq_candidateId req) c' else c').
Proof.
  intros I Hn Hm Hrun c'. destruct (inv_node _ _ c I i n Hn) as (Hi & Hc & Hok & Hd).
  destruct (inv_msg _ _ c I _ Hm) as (Hfrom & Hcand & Hu). destruct (proj2 config_ok from Hfrom) as (Hne & Hutf & _).
  subst from. rewrite HandleRequestVote_run in Hrun; [|done|apply Hok|done].
  destruct (vq_term req <? currentTerm_ n) eqn:E.
  { injection Hrun as <- <-. simpl. apply inv_send; [by apply inv_effect with n; [| |apply ve_same]|].
    apply Forall_singleton. simpl. split_and!; [apply Hok|done|done]. }
  bool_prop. cbv zeta in Hrun. assert (vote_effect n (vote_pre now req n) /\ currentTerm_ (vote_pre now req n) = vq_term req) as [He Ht].
  { unfold vote_pre. destruct (currentTerm_ n <? vq_term req) eqn:E1; bool_prop.
    - split; [by apply as_follower_effect|]. apply as_follower_fields.
    - split; [by apply ve_same|]. lia. }
  set (n1 := vote_pre now req n) in *. pose proof (inv_effect _ _ c i n n1 I Hn He) as I1.
  assert (nodes (set_node i n1 c) !! i = Some n1) as Hn1 by apply lookup_insert_eq.
  destruct (vote_grants req n1) eqn:Eg; injection Hrun as <- <-; simpl.
  - destruct (inv_node _ _ _ I1 i n1 Hn1) as (_ & _ & Hok1 & (j1 & Hj1 & _)).
    destruct (vote_cast_fields now (vq_candidateId req) n1 j1 Hj1) as (Hc' & Ht' & Hv' & Hr' & Hd').
    assert (inv (record_vote i (currentTerm_ (vote_cast now (vq_candidateId req) n1)) (vq_candidateId req) (set_node i (vote_cast now (vq_candidateId req) n1) (set_node i n1 c)))) as I2.
    { apply (inv_cast _ _ _ _ n1); try done; [rewrite Ht'; apply Hok1|lia| |by rewrite Hr', Ht'].
      intros _. unfold vote_grants in Eg. apply andb_true_iff in Eg as [Eg _].
      apply orb_true_iff in Eg as [Eg|Eg]; apply String.eqb_eq in Eg; auto. }
    rewrite Ht', Ht in I2. unfold record_vote, set_node in I2. simpl in I2. rewrite insert_insert_eq in I2.
    apply (inv_send _ _ _ [MVoteResp i (vq_candidateId req) req (mkRequestVoteResponse (currentTerm_ n) true)] I2).
    apply Forall_singleton. simpl. split_and!; [apply Hok|done|]. intros _. apply elem_of_app. right. by apply list_elem_of_singleton.
  - apply inv_send; [done|]. apply Forall_singleton. simpl. split_and!; [apply Hok|done|done].
Qed.

Lemma step_vote_response c i n n' e p rest o stop v now : inv c ->
  nodes c !! i = Some n -> elections c !! i = Some e -> el_pending e = p :: rest ->
  (forall resp, o = Some resp -> exists req, vq_term req = el_term e /\ MVoteResp p i req resp ∈ net c) ->
  StartElection_turn now (el_term e) o n = (n', Ok (stop, v)) ->
  inv (set_election i (if stop : bool then None else
        Some (mkElection (el_term e) rest (el_votes e + v) (if v =? 1 then p :: el_voters e else el_voters e)))
      (set_node i n' c)).
Proof.
  intros I Hn He Hp Ho Hrun. destruct (inv_node _ _ c I i n Hn) as (_ & _ & _ & Hd).
  assert (forall resp, o = Some resp -> is_u64 (vr_term resp) /\ (vr_voteGranted resp = true -> (p, el_term e, i) ∈ granted c)) as Hresp.
  { intros resp E. destruct (Ho resp E) as (req & <- & Hm). by destruct (inv_msg _ _ c I _ Hm) as (? & ? & ?). }
  destruct (StartElection_turn_effect now (el_term e) o n (fun r E => proj1 (Hresp r E)) Hd) as (n1 & s1 & v1 & E1 & Heff & Hstop).
  rewrite Hrun in E1. injection E1 as <- <- <-. apply inv_set_election; [by apply (inv_effect _ _ c i n n')|].
  intros x Hx. destruct stop; [done|]. injection Hx as <-. destruct (Hstop eq_refl) as [_ Hv].
  destruct (inv_election _ _ c I i e He) as [Hcnt Hnd Hmem Hgr]. rewrite Hp in *.
  assert (p :: el_voters e ++ rest ≡ₚ el_voters e ++ p :: rest) as Hperm by apply Permutation_middle.
  destruct Hv as [->|[-> (resp & -> & Hgrant)]]; simpl.
  - rewrite <- Hperm in Hnd. split; simpl; [lia| |intros w Hw; apply Hmem; rewrite <- Hperm; by right|done].
    by apply NoDup_cons in Hnd as [_ ?].
  - split; simpl.
    + rewrite len_cons. lia.
    + by rewrite Hperm.
    + intros w Hw. apply Hmem. by rewrite <- Hperm.
    + intros w [->|Hw]%elem_of_cons; [by apply (Hresp resp)|by apply Hgr].
Qed.

Lemma step_election_end c i n e : inv c -> nodes c !! i = Some n -> elections c !! i = Some e -> el_pending e = [] ->
  inv (set_election i None (set_node i (StartElection_finish (el_term e) (el_votes e) n).1 c)).
Proof.
  intros I Hn He Hp. apply inv_set_election; [|done].
  destruct (StartElection_finish_effect (el_term e) (el_votes e) n) as [Hs|(Hs & Hr & Ht & Hq)].
  - apply (inv_effect _ _ c i n); [done|done|]. by apply ve_same.
  - apply (inv_elected _ _ c i n); [done|done|done|]. destruct (inv_election _ _ c I i e He) as [Hcnt Hnd Hmem Hgr].
    exists (el_voters e). rewrite Hp, app_nil_r in *. split_and!; [done| |lia]. intros v Hv. rewrite Ht. auto.
Qed.

Lemma step_restart c i n n' j clock now : inv c -> nodes c !! i = Some n -> wal_ (log_ n) = Some j ->
  RaftNode_new (cfg i) KVStore_new (Some j) clock now = (n', Ok tt) -> inv (set_node i n' c).
Proof.
  intros I Hn Hj Hrun. destruct (inv_node _ _ c I i n Hn) as (_ & Hc & Hok & (j' & Hj' & Hhs)).
  rewrite Hj in Hj'. injection Hj' as <-.
  pose proof (RaftNode_new_vote (cfg i) KVStore_new j clock now) as Hs. rewrite Hrun, Hhs in Hs. simpl in Hs.
  assert (hs_durable n') as Hd'.
  { apply (same_vote_durable _ _ Hs). by exists j. }
  destruct Hs as (Hc' & Ht & Hv & Hr & _). simpl in *.
  apply (inv_frame _ _ c i n n'); try done; [congruence| |lia|congruence].
  destruct Hok. split; unfold nodeId in *; congruence.
Qed.

Lemma step_inv b c c' : inv c -> step cfg b c c' -> inv c'.
Proof.
  intros I Hstep.
  destruct Hstep as [i n n' req now Hn _ _ Hb Hr|i n n' from req resp now Hn Hm Hr|i n n' e p rest o stop v now Hn He Hp Ho Hr
    |i n e Hn He Hp|i n p req Hn _ _ Hr|i n n' from req r now Hn Hm Hr|i n p req resp now Hn _ Hm _|i n q Hn _|i n k v op ttl Hn _ _|i n now key expected value _ Hn _
    |i n next e Hn Ha Hf|i n a now Hn Ha Hf|i n a Hn Ha Hf|i n now Hn Ha|i n n' j clock now _ Hn Hj Hr];
    destruct (inv_node _ _ c I i n Hn) as (_ & _ & Hok & Hd).
  - by apply (step_election c i n n' req now).
  - by apply (step_vote c i n n' from req resp now).
  - by apply (step_vote_response c i n n' e p rest o stop v now).
  - by apply step_election_end.
  - apply inv_set_call, inv_send; [done|]. apply Forall_singleton. apply ReplicateToPeer_prepare_term in Hr as [Ht _].
    simpl. rewrite Ht. apply Hok.
  - pose proof (inv_msg _ _ c I _ Hm) as Hu. simpl in Hu.
    pose proof (HandleAppendEntries_effect now req n Hu Hd) as He. rewrite Hr in He.
    apply inv_send; [by apply (inv_effect _ _ c i n)|]. destruct r as [resp|]; [|constructor].
    apply Forall_singleton. simpl. rewrite (HandleAppendEntries_term _ _ _ _ _ Hr). apply Hok.
  - apply inv_set_call, (inv_effect _ _ c i n); [done|done|]. apply ReplicateToPeer_response_effect; [|done]. apply (inv_msg _ _ c I _ Hm).
  - by apply inv_set_call.
  - apply (inv_effect _ _ c i n); [done|done|]. apply ve_same, keeps_Propose_begin.
  - apply (inv_effect _ _ c i n); [done|done|]. apply ve_same. by unfold same_vote, same_hs.
  - by apply inv_set_applying.
  - apply inv_set_applying, (inv_effect _ _ c i n); [done|done|]. apply ve_same. by unfold same_vote, same_hs.
  - apply inv_set_applying, (inv_effect _ _ c i n); [done|done|]. apply ve_same. by unfold same_vote, same_hs.
  - apply (inv_effect _ _ c i n); [done|done|]. apply ve_same, keeps_MaybeSnapshot.
  - apply inv_set_call, inv_set_applying, inv_set_election; [|done]. by apply (step_restart c i n n' j clock now).
Qed.

Lemma init_inv c : cluster_init members cfg c -> inv c.
Proof.
  intros (Hdom & Hnew & He & _ & _ & Hnet & Hg). split.
  - intros i n Hn. destruct (Hnew i n Hn) as (clock & now & En).
    assert (i ∈ members) as Hi by (apply Hdom; by eexists).
    destruct (proj2 config_ok i Hi) as (Hne & Hu & Hid & _).
    pose proof (RaftNode_new_vote (cfg i) KVStore_new [] clock now) as Hs. rewrite <- En in Hs. simpl in Hs.
    assert (hs_durable n) as Hd by (apply (same_vote_durable _ _ Hs); by exists []).
    destruct Hs as (Hc & Ht & Hv & _). simpl in *. split_and!; try done.
    split; unfold nodeId; rewrite ?Hc, ?Hid, ?Ht, ?Hv; done.
  - intros v t d. rewrite Hg. by intros ?%not_elem_of_nil.
  - intros v t d d'. rewrite Hg. by intros ?%not_elem_of_nil.
  - intros m. rewrite Hnet. by intros ?%not_elem_of_nil.
  - intros i e. by rewrite He, lookup_empty.
  - intros i n Hn Hr. exfalso. destruct (Hnew i n Hn) as (clock & now & En).
    pose proof (RaftNode_new_vote (cfg i) KVStore_new [] clock now) as Hs. rewrite <- En in Hs.
    destruct Hs as (_ & _ & _ & Hr' & _). simpl in Hr'. congruence.
Qed.

Lemma reachable_inv c : reachable members cfg c -> inv c.
Proof.
  intros (c0 & H0 & Hsteps). apply init_inv in H0. induction Hsteps as [|c1 c2 c3 Hs _ IH]; [done|].
  apply IH. by apply (step_inv all_faults c1).
Qed.

Lemma vote_effect_term n n' : vote_effect n n' -> currentTerm_ n <= currentTerm_ n'.
Proof. intros [(_ & -> & _)|]; lia. Qed.

Lemma HandleRequestVote_term now req n n' resp : is_u64 (vq_term req) -> node_ok n -> hs_durable n ->
  utf8_valid (vq_candidateId req) = true -> HandleRequestVote now req n = (n', Ok resp) ->
  currentTerm_ n <= currentTerm_ n'.
Proof.
  intros Hu Hok Hd Hc. rewrite HandleRequestVote_run by (try apply Hok; done). case_if; [intros [= <- _]; lia|]. cbv zeta.
  assert (currentTerm_ n <= currentTerm_ (vote_pre now req n)).
  { unfold vote_pre. destruct (currentTerm_ n <? vq_term req) eqn:E1; bool_prop; [|lia].
    by apply vote_effect_term, as_follower_effect. }
  case_if; intros [= <- _]; [|done]. unfold vote_cast.
  pose proof (persisted_fields (set_heartbeat now (set_votedFor (vq_candidateId req) (vote_pre now req n)))) as (_ & -> & _). done.
Qed.

(** Terms never decrease, in memory and across restarts. *)
Lemma step_term b c c' i n : inv c -> step cfg b c c' -> nodes c !! i = Some n ->
  exists n', nodes c' !! i = Some n' /\ currentTerm_ n <= currentTerm_ n'.
Proof.
  intros I Hstep Hi.
  assert (forall k m m', nodes c !! k = Some m -> currentTerm_ m <= currentTerm_ m' ->
    exists n', <[k := m']> (nodes c) !! i = Some n' /\ currentTerm_ n <= currentTerm_ n') as Hset.
  { intros k m m' Hk Hle. rewrite lookup_insert. case_decide; [|by exists n]. subst k. exists m'. rewrite Hi in Hk. by inv Hk. }
  destruct Hstep as [k m m' req now Hn _ _ Hb Hr|k m m' from req resp now Hn Hm Hr c1|k m m' e p rest o stop v now Hn He Hp Ho Hr
    |k m e Hn He Hp|k m p req Hn _ _ Hr|k m m' from req r now Hn Hm Hr|k m p req resp now Hn _ Hm _|k m q Hn _|k m key v op ttl Hn _ _|k m now key expected value _ Hn _
    |k m next e Hn Ha Hf|k m a now Hn Ha Hf|k m a Hn Ha Hf|k m now Hn Ha|k m m' j clock now _ Hn Hj Hr];
    destruct (inv_node _ _ c I k m Hn) as (_ & Hc & Hok & Hd); cbn [nodes send set_election set_applying set_call record_vote set_node].
  - apply (Hset k m); [done|]. rewrite StartElection_begin_run in Hr by done. injection Hr as <- _.
    destruct Hd as (j & Hj & _). destruct (as_candidate_fields now m j Hj) as (_ & -> & _).
    destruct (ok_term m Hok). rewrite u64_small by (unfold is_u64; lia). lia.
  - assert (nodes (if vr_voteGranted resp then record_vote k (vq_term req) (vq_candidateId req) c1 else c1) = <[k := m']> (nodes c))
      as -> by (by destruct (vr_voteGranted resp)).
    apply (Hset k m); [done|]. destruct (inv_msg _ _ c I _ Hm) as (Hfrom & Hcand & Hu).
    apply (HandleRequestVote_term now req m m' resp); try done. rewrite Hcand. by apply (proj2 config_ok).
  - apply (Hset k m); [done|].
    destruct (StartElection_turn_effect now (el_term e) o m) as (m1 & s1 & v1 & E1 & Heff & _); [|done|].
    { intros resp E. destruct (Ho resp E) as (req & _ & Hm). apply (inv_msg _ _ c I _ Hm). }
    rewrite Hr in E1. injection E1 as <- _ _. by apply vote_effect_term.
  - apply (Hset k m); [done|].
    destruct (StartElection_finish_effect (el_term e) (el_votes e) m) as [(_ & Ht & _)|[(_ & Ht & _) _]]; simpl in Ht; lia.
  - by exists n.
  - apply (Hset k m); [done|]. pose proof (HandleAppendEntries_effect now req m (inv_msg _ _ c I _ Hm) Hd) as He.
    rewrite Hr in He. by apply vote_effect_term.
  - apply (Hset k m); [done|]. apply vote_effect_term, ReplicateToPeer_response_effect; [|done]. apply (inv_msg _ _ c I _ Hm).
  - by exists n.
  - apply (Hset k m); [done|]. apply vote_effect_term, ve_same, keeps_Propose_begin.
  - by apply (Hset k m).
  - by exists n.
  - by apply (Hset k m).
  - by apply (Hset k m).
  - apply (Hset k m); [done|]. apply vote_effect_term, ve_same, keeps_MaybeSnapshot.
  - apply (Hset k m); [done|]. destruct Hd as (j' & Hj' & Hhs). rewrite Hj in Hj'. injection Hj' as <-.
    pose proof (RaftNode_new_vote (cfg k) KVStore_new j clock now) as (_ & Ht & _). rewrite Hr, Hhs in Ht. simpl in Ht. lia.
Qed.

(** A quorum of a node is a majority of the members. *)
Lemma quorum_majority c i n : inv c -> nodes c !! i = Some n -> len members < 2 * QuorumSize n.
Proof.
  intros I Hn. destruct (inv_peers c i n I Hn) as [Hp _]. apply Permutation_length in Hp.
  unfold peer_ids in Hp. simpl in Hp. rewrite length_fmap in Hp. unfold QuorumSize, len. Z.to_euclidean_division_equations. lia.
Qed.

(** The votes of a majority in a term. *)
Definition elected (g : list (string * Z * string)) (d : string) (t : Z) : Prop :=
  exists size, len members < 2 * size /\ has_quorum members g d t size.

Lemma elected_mono g g' d t : g ⊆ g' -> elected g d t -> elected g' d t.
Proof. intros Hg (s & Hs & Hq). exists s. split; [done|]. by apply (has_quorum_mono _ g). Qed.

Lemma elected_unique c d d' t : inv c -> elected (granted c) d t -> elected (granted c) d' t -> d = d'.
Proof.
  intros I (s1 & L1 & q1 & N1 & H1 & S1) (s2 & L2 & q2 & N2 & H2 & S2).
  destruct (quorum_intersect members q1 q2 N1 N2) as (v & Hv1 & Hv2); [intros v Hv; by apply H1|intros v Hv; by apply H2|lia|].
  destruct (H1 v Hv1) as [_ G1]. destruct (H2 v Hv2) as [_ G2]. by apply (inv_once _ _ c I v t).
Qed.

Lemma leader_elected c i n : inv c -> nodes c !! i = Some n -> role_ n = Leader -> elected (granted c) i (currentTerm_ n).
Proof. intros I Hn Hr. exists (QuorumSize n). split; [by apply (quorum_majority c i)|]. by apply (inv_leader _ _ c I). Qed.
End Safety.

(** ** Theorems *)

(** C2: election safety.  However the nodes' threads interleave, whatever the
    network loses, repeats or reorders, and however often nodes stop and
    restart on their journals, there are never two leaders of one term. *)
Theorem election_safety {J : JsonLib} {L : JsonLaws J} members cfg c i j ni nj :
  cluster_config members cfg -> reachable members cfg c ->
  nodes c !! i = Some ni -> nodes c !! j = Some nj ->
  role_ ni = Leader -> role_ nj = Leader -> currentTerm_ ni = currentTerm_ nj -> i = j.
Proof.
  intros Hcfg Hr Hi Hj Hli Hlj Ht. pose proof (reachable_inv members cfg Hcfg c Hr) as I.
  pose proof (leader_elected members cfg Hcfg c i ni I Hi Hli) as Ei. rewrite Ht in Ei.
  by apply (elected_unique members cfg c i j (currentTerm_ nj) I Ei), (leader_elected members cfg Hcfg).
Qed.

(** C17: a node votes for at most one candidate in a term, across restarts: two
    granted responses of one voter for one term answer the same candidate, and
    that candidate is a member. *)
Theorem one_vote_per_term {J : JsonLib} {L : JsonLaws J} members cfg c v a b qa qb ra rb :
  cluster_config members cfg -> reachable members cfg c ->
  MVoteResp v a qa ra ∈ net c -> MVoteResp v b qb rb ∈ net c ->
  vr_voteGranted ra = true -> vr_voteGranted rb = true -> vq_term qa = vq_term qb -> a = b.
Proof.
  intros Hcfg Hr Ha Hb Ga Gb Ht. pose proof (reachable_inv members cfg Hcfg c Hr) as I.
  destruct (inv_msg _ _ c I _ Ha) as (_ & _ & Va). destruct (inv_msg _ _ c I _ Hb) as (_ & _ & Vb).
  specialize (Va Ga). specialize (Vb Gb). rewrite Ht in Va. by apply (inv_once _ _ c I v _ a b Va Vb).
Qed.

(** C18: the term of a node never decreases, and at every moment its journal
    holds its current term and vote, so that a restart resumes with them. *)
Theorem term_monotone_durable {J : JsonLib} {L : JsonLaws J} members cfg c c' i n :
  cluster_config members cfg -> reachable members cfg c -> rtc (step cfg all_faults) c c' -> nodes c !! i = Some n ->
  exists n' j', nodes c' !! i = Some n' /\ currentTerm_ n <= currentTerm_ n' /\
    wal_ (log_ n') = Some j' /\ rr_hardState (replay j') = mkHardState (currentTerm_ n') (votedFor_ n').
Proof.
  intros Hcfg Hr Hsteps Hn. apply (reachable_inv members cfg Hcfg) in Hr.
  revert n Hn. induction Hsteps as [c|c c1 c2 Hs _ IH]; intros n Hn.
  - destruct (inv_node _ _ c Hr i n Hn) as (_ & _ & _ & (j & Hj & Hh)). by exists n, j.
  - destruct (step_term members cfg Hcfg all_faults c c1 i n Hr Hs Hn) as (n1 & Hn1 & Hle).
    destruct (IH (step_inv members cfg Hcfg all_faults c c1 Hr Hs) n1 Hn1) as (n' & j' & ? & ? & ? & ?).
    exists n', j'. split_and!; try done. lia.
Qed.

(** ** Witnesses and scenarios *)

Section ClusterExamples.
#[local] Existing Instance RefJson.
#[local] Open Scope string_scope.
#[local] Open Scope Z_scope.

Definition ex_members : list string := ["n1"; "n2"; "n3"].
Definition ex_cfg (i : string) : RaftConfig :=
  mkRaftConfig i ((fun p => mkRaftPeerInfo p "host" 2380) <$> filter (fun p => p <> i) ex_members)
    2380 150 300 50 50 10000.

Lemma ex_config_ok : cluster_config ex_members ex_cfg.
Proof.
  split; [by apply (bool_decide_unpack _); vm_compute|].
  intros i Hi. unfold ex_members in Hi. rewrite !elem_of_cons in Hi.
  destruct Hi as [->|[->|[->|Hi%not_elem_of_nil]]]; [..|done]; split_and!; try done; vm_compute.
  - apply perm_swap.
  - etrans; [apply perm_swap|]. constructor. apply perm_swap.
Qed.

Definition ex_new (i : string) : RaftNode := (RaftNode_new (ex_cfg i) KVStore_new (Some []) (fun _ => 0) 0).1.
Definition ex_c0 : Cluster :=
  mkCluster (<["n1" := ex_new "n1"]> (<["n2" := ex_new "n2"]> (<["n3" := ex_new "n3"]> ∅))) ∅ ∅ ∅ [] [].

Lemma ex_init : cluster_init ex_members ex_cfg ex_c0.
Proof.
  split_and!; try done.
  - intros i. unfold ex_c0, ex_members. cbn [nodes]. rewrite !elem_of_cons, !lookup_insert_is_Some', lookup_empty.
    split; [intros [<-|[<-|[<-|[? ?]]]]; auto; done|]. intros [->|[->|[->|Hi%not_elem_of_nil]]]; auto. done.
  - intros i n. unfold ex_c0. cbn [nodes]. rewrite !lookup_insert, lookup_empty.
    repeat case_decide; intros Hn; inv Hn; by eexists _, _.
Qed.

(** The first election: [n1] times out, gets the vote of [n2], does not hear
    from [n3] in time and becomes the leader. *)
Definition ex_n1 : RaftNode := (StartElection_begin 200 (ex_new "n1")).1.
Definition ex_req : RequestVoteRequest := mkRequestVoteRequest 1 "n1" 0 0.
Definition ex_c1 : Cluster :=
  record_vote "n1" 1 "n1" (send ((fun p => MVoteReq "n1" p ex_req) <$> peer_ids (ex_new "n1"))
    (set_election "n1" (Some (mkElection 1 (peer_ids (ex_new "n1")) 1 ["n1"])) (set_node "n1" ex_n1 ex_c0))).
Definition ex_n2 : RaftNode := (HandleRequestVote 201 ex_req (ex_new "n2")).1.
Definition ex_resp : RequestVoteResponse := mkRequestVoteResponse 0 true.
Definition ex_c2 : Cluster :=
  record_vote "n2" 1 "n1" (send [MVoteResp "n2" "n1" ex_req ex_resp] (set_node "n2" ex_n2 ex_c1)).
Definition ex_c3 : Cluster := set_election "n1" (Some (mkElection 1 ["n3"] 2 ["n2"; "n1"])) (set_node "n1" ex_n1 ex_c2).
Definition ex_c4 : Cluster := set_election "n1" (Some (mkElection 1 [] 2 ["n2"; "n1"])) (set_node "n1" ex_n1 ex_c3).
Definition ex_el : Election := mkElection 1 [] 2 ["n2"; "n1"].
Definition ex_leader : RaftNode := (StartElection_finish (el_term ex_el) (el_votes ex_el) ex_n1).1.
Definition ex_c5 : Cluster := set_election "n1" None (set_node "n1" ex_leader ex_c4).

Lemma ex_step1 b : step ex_cfg b ex_c0 ex_c1.
Proof. refine (st_election ex_cfg b ex_c0 "n1" (ex_new "n1") ex_n1 ex_req 200 _ _ _ _ _); by vm_compute. Qed.

Lemma ex_step2 b : step ex_cfg b ex_c1 ex_c2.
Proof.
  refine (st_vote ex_cfg b ex_c1 "n2" (ex_new "n2") ex_n2 "n1" ex_req ex_resp 201 _ _ _); [by vm_compute| |by vm_compute].
  vm_compute. left.
Qed.

Lemma ex_step3 b : step ex_cfg b ex_c2 ex_c3.
Proof.
  refine (st_vote_response ex_cfg b ex_c2 "n1" ex_n1 ex_n1 (mkElection 1 ["n2"; "n3"] 1 ["n1"]) "n2" ["n3"] (Some ex_resp)
      false 1 202 _ _ _ _ _); [by vm_compute..| |by vm_compute].
  intros resp [= <-]. exists ex_req. split; [done|]. vm_compute. right. right. left.
Qed.

Lemma ex_step4 b : step ex_cfg b ex_c3 ex_c4.
Proof.
  refine (st_vote_response ex_cfg b ex_c3 "n1" ex_n1 ex_n1 (mkElection 1 ["n3"] 2 ["n2"; "n1"]) "n3" [] None
      false 0 250 _ _ _ _ _); [by vm_compute..|done|by vm_compute].
Qed.

Lemma ex_step5 b : step ex_cfg b ex_c4 ex_c5.
Proof. unfold ex_c5, ex_leader. refine (st_election_end ex_cfg b ex_c4 "n1" ex_n1 ex_el _ _ _); by vm_compute. Qed.

Lemma ex_steps : rtc (step ex_cfg all_faults) ex_c0 ex_c5.
Proof.
  eapply rtc_l; [apply ex_step1|]. eapply rtc_l; [apply ex_step2|]. eapply rtc_l; [apply ex_step3|].
  eapply rtc_l; [apply ex_step4|]. apply rtc_once, ex_step5.
Qed.

Lemma ex_reachable : reachable ex_members ex_cfg ex_c5.
Proof. exists ex_c0. split; [apply ex_init|apply ex_steps]. Qed.

Lemma election_safety_witness :
  exists c n, reachable ex_members ex_cfg c /\ nodes c !! "n1" = Some n /\ role_ n = Leader /\ currentTerm_ n = 1 /\
    forall j nj, nodes c !! j = Some nj -> role_ nj = Leader -> currentTerm_ nj = 1 -> "n1" = j.
Proof.
  exists ex_c5, ex_leader. split; [apply ex_reachable|]. split_and!; try by vm_compute. intros j nj Hj Hr Ht.
  apply (election_safety (L := RefJson_laws) ex_members ex_cfg ex_c5 "n1" j ex_leader nj ex_config_ok ex_reachable);
    [by vm_compute|done|by vm_compute|done|by rewrite Ht; vm_compute].
Defined.

Lemma one_vote_per_term_witness :
  exists c, reachable ex_members ex_cfg c /\ MVoteResp "n2" "n1" ex_req ex_resp ∈ net c /\
    forall b qb rb, MVoteResp "n2" b qb rb ∈ net c -> vr_voteGranted rb = true -> 1 = vq_term qb -> "n1" = b.
Proof.
  assert (MVoteResp "n2" "n1" ex_req ex_resp ∈ net ex_c5) as Hin by (vm_compute; right; right; left).
  exists ex_c5. split; [apply ex_reachable|]. split; [exact Hin|]. intros b qb rb Hb Gb Ht.
  exact (one_vote_per_term (L := RefJson_laws) ex_members ex_cfg ex_c5 "n2" "n1" b ex_req qb ex_resp rb
    ex_config_ok ex_reachable Hin Hb eq_refl Gb Ht).
Defined.

Lemma term_monotone_durable_witness :
  exists n' j', nodes ex_c5 !! "n2" = Some n' /\ 0 <= currentTerm_ n' /\ wal_ (log_ n') = Some j' /\
    rr_hardState (replay j') = mkHardState (currentTerm_ n') (votedFor_ n').
Proof.
  assert (reachable ex_members ex_cfg ex_c0) as H0 by (exists ex_c0; split; [apply ex_init|apply rtc_refl]).
  exact (term_monotone_durable (L := RefJson_laws) ex_members ex_cfg ex_c0 ex_c5 "n2" (ex_new "n2")
    ex_config_ok H0 ex_steps eq_refl).
Defined.

(** Without the assumption that the journal survives a crash the theorems fail:
    the hard states [n2] wrote when it voted are not synced, and without them a
    restarted [n2] votes for [n3] in the same term. *)
Example double_vote_after_lost_hard_state :
  let n2 := (RaftNode_new (ex_cfg "n2") KVStore_new (Some []) (fun _ => 0) 0).1 in
  let first := HandleRequestVote 1 (mkRequestVoteRequest 1 "n1" 0 0) n2 in
  let restarted := (RaftNode_new (ex_cfg "n2") KVStore_new (Some []) (fun _ => 0) 2).1 in
  let second := HandleRequestVote 3 (mkRequestVoteRequest 1 "n3" 0 0) restarted in
  first.2 = Ok (mkRequestVoteResponse 0 true) /\
  wal_ (log_ first.1) = Some [RecHardState (mkHardState 1 ""); RecHardState (mkHardState 1 "n1")] /\
  second.2 = Ok (mkRequestVoteResponse 0 true).
Proof. by vm_compute. Qed.
End ClusterExamples.
