(* ===== verification/RaftReplication.v ===== *)
(** * Replication, commitment, application and restart of a node

    Theorems on the operations of [RaftNode] that move log entries: the request
    a leader sends, what a follower does with it, how the leader backs up and
    advances its commit index, how committed entries reach the store, and what
    a restart finds. *)
From S2P Require Import Prelude CxxString CxxMap Json KVStore RaftRPC WriteAheadLog RaftLog RaftNode.
From Stdlib Require Import ZArith Lia Ascii String.
From stdpp Require Import prelude gmap strings sorting.
#[local] Open Scope Z_scope.

(** ** Advancing the commit index *)

(** An index the leader may commit: of its own term, and on a majority. *)
Definition committable (n : RaftNode) (i : Z) : Prop :=
  GetTerm (log_ n) i = currentTerm_ n /\ QuorumSize n <= replicated n i.

Lemma commit_loop_spec n fuel i : i - commitIndex_ n <= Z.of_nat fuel ->
  match commit_loop n fuel i with
  | Some k => commitIndex_ n < k <= i /\ committable n k /\ forall m, k < m <= i -> ~ committable n m
  | None => forall m, commitIndex_ n < m <= i -> ~ committable n m
  end.
Proof.
  revert i. induction fuel as [|fuel IH]; intros i Hf; cbn [commit_loop].
  - intros m Hm. lia.
  - destruct (i <=? commitIndex_ n) eqn:E1; bool_prop; [intros m Hm; lia|].
    assert (~ committable n i -> match commit_loop n fuel (i - 1) with
      | Some k => commitIndex_ n < k <= i /\ committable n k /\ forall m, k < m <= i -> ~ committable n m
      | None => forall m, commitIndex_ n < m <= i -> ~ committable n m end) as Hnext.
    { intros Hno. specialize (IH (i - 1) ltac:(lia)). destruct (commit_loop n fuel (i - 1)) as [k|].
      - destruct IH as (Hk & Hck & Hm). split_and!; [lia|lia|done|]. intros m Hm'.
        destruct (decide (m = i)); [by subst|]. apply Hm. lia.
      - intros m Hm'. destruct (decide (m = i)); [by subst|]. apply IH. lia. }
    destruct (GetTerm (log_ n) i =? currentTerm_ n) eqn:E2; bool_prop; cbn [negb].
    2:{ apply Hnext. by intros [? _]. }
    destruct (QuorumSize n <=? replicated n i) eqn:E3; bool_prop.
    + split_and!; [lia|lia|by split|]. intros m Hm. lia.
    + apply Hnext. intros [_ ?]. lia.
Qed.

(** More than half of the members, the node itself and its peers, have the
    entries up to [i]: the peers [ps] do according to [matchIndex_]. *)
Definition held_by_majority (n : RaftNode) (i : Z) : Prop :=
  exists ps, NoDup ps /\ len (cfg_peers (config_ n)) + 1 < 2 * (1 + len ps) /\
    forall p, p ∈ ps -> p ∈ peer_ids n /\ exists m, matchIndex_ n !! p = Some m /\ i <= m.

(** [matchIndex_] speaks of peers only. *)
Definition tracks_peers (n : RaftNode) : Prop := forall p, is_Some (matchIndex_ n !! p) -> p ∈ peer_ids n.

Lemma replicated_count n ps k : NoDup ps -> (forall p, p ∈ ps -> exists m, matchIndex_ n !! p = Some m /\ k <= m) -> 1 + len ps <= replicated n k.
Proof.
  intros Hnd Hps. unfold replicated. set (kvs := filter _ _). enough (length ps <= length kvs)%nat by (unfold len; lia).
  rewrite <- (length_fmap fst kvs). apply submseteq_length, NoDup_submseteq; [done|]. intros p Hp. destruct (Hps p Hp) as (m & Hm & Hk).
  apply list_elem_of_fmap. exists (p, m). split; [done|]. apply list_elem_of_filter. split; [done|]. by apply elem_of_map_to_list.
Qed.

Lemma quorum_held n i : tracks_peers n -> QuorumSize n <= replicated n i <-> held_by_majority n i.
Proof.
  intros Ht. unfold QuorumSize. set (N := len (cfg_peers (config_ n)) + 1). pose proof (Z.div_mod N 2 ltac:(done)). pose proof (Z.mod_pos_bound N 2 ltac:(done)). split.
  - intros Hq. exists (filter (fun kv => i <= kv.2) (map_to_list (matchIndex_ n))).*1. split_and!.
    + eapply sublist_NoDup; [apply (NoDup_fst_map_to_list (matchIndex_ n))|]. apply fmap_sublist, sublist_filter.
    + unfold replicated in Hq. unfold len at 2. rewrite length_fmap. unfold len in Hq at 1. lia.
    + intros p ([q m] & -> & [Hm Hin%elem_of_map_to_list]%list_elem_of_filter)%list_elem_of_fmap. split; [apply Ht; by eexists|]. by exists m.
  - intros (ps & Hnd & Hlen & Hps). pose proof (replicated_count n ps i Hnd ltac:(intros p Hp; by apply Hps)). lia.
Qed.

(** C21: [AdvanceCommitIndex] sets the commit index to the highest entry of the
    leader's own term that more than half of the members hold, the leader
    itself and the peers whose [matchIndex_] has reached it, if that is above
    the current one, and changes nothing else; in particular it never moves
    back and never commits an entry of an earlier term by counting replicas. *)
Theorem AdvanceCommitIndex_max n : tracks_peers n ->
  let n' := AdvanceCommitIndex n in
  n' = set_commit (commitIndex_ n') n /\ commitIndex_ n <= commitIndex_ n' /\
  (forall i, commitIndex_ n' < i <= LastIndex (log_ n) -> GetTerm (log_ n) i = currentTerm_ n -> ~ held_by_majority n i) /\
  (commitIndex_ n' <> commitIndex_ n -> GetTerm (log_ n) (commitIndex_ n') = currentTerm_ n /\ held_by_majority n (commitIndex_ n') /\
     commitIndex_ n' <= LastIndex (log_ n)).
Proof.
  intros Ht. unfold AdvanceCommitIndex. set (last := LastIndex (log_ n)).
  pose proof (commit_loop_spec n (Z.to_nat (last - commitIndex_ n)) last ltac:(lia)) as H.
  assert (forall i, ~ committable n i -> GetTerm (log_ n) i = currentTerm_ n -> ~ held_by_majority n i) as Hno.
  { intros i Hi Et Hm. apply Hi. split; [done|]. by apply quorum_held. }
  destruct (commit_loop n _ last) as [k|]; simpl.
  - destruct H as (Hk & [Et Hq] & Hm). split_and!; [done|lia|auto|]. intros _. split_and!; [done|by apply quorum_held|lia].
  - split_and!; [by destruct n|lia|auto|done].
Qed.

(** ** The request of the leader *)

Lemma collect_entries_spec l next : log_wf l -> snapshotIndex_ l <= next -> next + 100 < 2 ^ 64 ->
  forall fuel i, next <= i -> Z.of_nat fuel <= next + 100 - i ->
  collect_entries l fuel i next (LastIndex l) = take fuel (drop (Z.to_nat (i - snapshotIndex_ l)) (entries_ l)).
Proof.
  intros W Hs Hb. pose proof (wf_snap l W). pose proof (wf_bound l W). pose proof (LastIndex_wf l W).
  induction fuel as [|fuel IH]; intros i Hi Hf; cbn [collect_entries]; [done|].
  rewrite (u64_small (next + 100)) by (unfold is_u64; lia).
  destruct (i <=? LastIndex l) eqn:E; bool_prop.
  - destruct (i <? next + 100) eqn:E2; bool_prop; [|lia]. cbn [andb].
    rewrite GetEntry_lookup by (try done; unfold is_u64; lia).
    destruct (log_lookup l i) as [e|] eqn:He.
    2:{ exfalso. assert (is_Some (log_lookup l i)) as [? ?]; [|congruence]. apply log_lookup_Some; [done|lia]. }
    cbn [of_opt]. unfold log_lookup in He. case_if_in He; [|lia]. rewrite (drop_S _ e) by exact He. cbn [firstn]. f_equal.
    rewrite u64_small by (unfold is_u64; lia). rewrite IH by lia. do 2 f_equal. lia.
  - cbn [andb]. rewrite drop_ge; [by rewrite firstn_nil|]. unfold len in *. lia.
Qed.

Lemma contiguous_slice s es k m : contiguous s es -> contiguous (s + Z.of_nat k) (take m (drop k es)).
Proof.
  intros Hc i e He. apply lookup_take_Some in He as [He _]. rewrite lookup_drop in He. rewrite (Hc _ _ He). lia.
Qed.

(** The request a leader with a well-formed log prepares for a peer names
    the entry in front of [nextIndex] with its term and carries the following
    entries, consecutive and at most 100, exactly as the log has them. *)
Theorem ReplicateToPeer_request p n next : log_wf (log_ n) -> role_ n = Leader ->
  nextIndex_ n !! p = Some next -> SnapshotIndex (log_ n) < next -> next + 100 < 2 ^ 64 ->
  exists req, ReplicateToPeer_prepare p n = Some req /\
    aq_term req = currentTerm_ n /\ aq_leaderId req = nodeId n /\ aq_leaderCommit req = commitIndex_ n /\
    aq_prevLogIndex req = next - 1 /\ aq_prevLogTerm req = GetTerm (log_ n) (next - 1) /\
    aq_entries req = GetEntries (log_ n) next (next + 100) /\
    contiguous (aq_prevLogIndex req + 1) (aq_entries req) /\ len (aq_entries req) <= 100.
Proof.
  intros W Hr Hn Hs Hb. unfold SnapshotIndex in Hs. pose proof (wf_snap _ W).
  unfold ReplicateToPeer_prepare. rewrite bool_decide_false by (intros Hx; by apply Hx). rewrite Hn.
  rewrite (u64_small (next - 1)) by (unfold is_u64; lia).
  eexists. split; [reflexivity|]. cbn [aq_term aq_leaderId aq_leaderCommit aq_prevLogIndex aq_prevLogTerm aq_entries].
  rewrite (collect_entries_spec (log_ n) next W ltac:(lia) Hb 100 next ltac:(lia) ltac:(lia)).
  assert (GetEntries (log_ n) next (next + 100) = take 100 (drop (Z.to_nat (next - snapshotIndex_ (log_ n))) (entries_ (log_ n)))) as ->.
  { unfold GetEntries. rewrite GetEntries_loop_spec; [f_equal; lia|done|unfold is_u64; lia|lia|unfold is_u64; lia|unfold len; lia]. }
  split_and!; try done.
  - replace (next - 1 + 1) with (snapshotIndex_ (log_ n) + Z.of_nat (Z.to_nat (next - snapshotIndex_ (log_ n)))) by lia.
    apply contiguous_slice. by apply wf_contiguous.
  - unfold len. rewrite length_take. lia.
Qed.

(** ** The follower *)

Lemma first_in_term_spec l t fuel ci : snapshotIndex_ l <= ci -> ci - snapshotIndex_ l <= Z.of_nat fuel ->
  let r := first_in_term l t fuel ci in
  snapshotIndex_ l <= r <= ci /\ (forall k, r <= k < ci -> GetTerm l k = t) /\
  (r = snapshotIndex_ l \/ GetTerm l (r - 1) <> t).
Proof.
  revert ci. induction fuel as [|fuel IH]; intros ci Hs Hf; cbn [first_in_term]; unfold SnapshotIndex; cbv zeta.
  - split_and!; [lia|lia|intros; lia|left; lia].
  - destruct (snapshotIndex_ l <? ci) eqn:E1; bool_prop; cbn [andb]; [|split_and!; [lia|lia|intros; lia|left; lia]].
    destruct (GetTerm l (ci - 1) =? t) eqn:E2; bool_prop; [|split_and!; [lia|lia|intros; lia|by right]].
    destruct (IH (ci - 1)) as ((? & ?) & Hk & Hr); [lia|lia|]. split_and!; [lia|lia| |done].
    intros k ?. destruct (decide (k = ci - 1)); [by subst|]. apply Hk. lia.
Qed.

(** The entry in front of the new ones is in the log with the term the leader
    has for it. *)
Definition prev_matches (l : RaftLog) (req : AppendEntriesRequest) : Prop :=
  aq_prevLogIndex req = 0 \/
  (aq_prevLogIndex req <= LastIndex l /\ GetTerm l (aq_prevLogIndex req) = aq_prevLogTerm req).

(** The hint of a refusal: behind the end of the log, or the run of entries with
    the conflicting term that ends at the previous index. *)
Definition conflict_hint (l : RaftLog) (prev index term : Z) : Prop :=
  (LastIndex l < prev /\ index = LastIndex l + 1 /\ term = 0) \/
  (prev <= LastIndex l /\ term = GetTerm l prev /\ snapshotIndex_ l <= index <= prev /\
   (forall k, index <= k <= prev -> GetTerm l k = term) /\
   (index = snapshotIndex_ l \/ GetTerm l (index - 1) <> term)).

Lemma check_prev_spec l t req : log_wf l -> 0 <= aq_prevLogIndex req -> snapshotIndex_ l <= aq_prevLogIndex req ->
  match check_prev l t req with
  | None => prev_matches l req
  | Some resp => ~ prev_matches l req /\ ar_term resp = t /\ ar_success resp = false /\
      conflict_hint l (aq_prevLogIndex req) (ar_conflictIndex resp) (ar_conflictTerm resp)
  end.
Proof.
  intros W H0 Hs. pose proof (wf_snap l W). pose proof (wf_bound l W). pose proof (LastIndex_wf l W).
  pose proof (log_size_pos l W). unfold check_prev, prev_matches.
  destruct (0 <? aq_prevLogIndex req) eqn:E0; bool_prop; [|left; lia].
  destruct (LastIndex l <? aq_prevLogIndex req) eqn:E1; bool_prop.
  - split_and!; [lia|done|done|]. left. cbn. rewrite u64_small by (unfold is_u64; lia). done.
  - destruct (GetTerm l (aq_prevLogIndex req) =? aq_prevLogTerm req) eqn:E2; bool_prop; cbn [negb]; [by right|].
    split_and!; [lia|done|done|]. right. unfold SnapshotIndex. cbn.
    set (pt := GetTerm l (aq_prevLogIndex req)).
    destruct (first_in_term_spec l pt (Z.to_nat (aq_prevLogIndex req - snapshotIndex_ l)) (aq_prevLogIndex req))
      as ((? & ?) & Hk & Hr); [lia|lia|]. split_and!; try done.
    intros k ?. destruct (decide (k = aq_prevLogIndex req)); [by subst|]. apply Hk. lia.
Qed.

(** The node after the term check: it follows the sender of the request. *)
Definition heard (now : Z) (req : AppendEntriesRequest) (n : RaftNode) : RaftNode :=
  set_leaderId (aq_leaderId req) (set_heartbeat now
    (if currentTerm_ n <? aq_term req then as_follower now (aq_term req) (aq_leaderId req) n else n)).

Lemma persisted_log n : entries_ (log_ (persisted n)) = entries_ (log_ n) /\
  snapshotIndex_ (log_ (persisted n)) = snapshotIndex_ (log_ n) /\ snapshotTerm_ (log_ (persisted n)) = snapshotTerm_ (log_ n) /\
  commitIndex_ (persisted n) = commitIndex_ n.
Proof. unfold persisted. by destruct (wal_ (log_ n)). Qed.

Lemma heard_log now req n : let n1 := heard now req n in
  entries_ (log_ n1) = entries_ (log_ n) /\ snapshotIndex_ (log_ n1) = snapshotIndex_ (log_ n) /\
  snapshotTerm_ (log_ n1) = snapshotTerm_ (log_ n) /\ commitIndex_ n1 = commitIndex_ n.
Proof.
  unfold heard. destruct (currentTerm_ n <? aq_term req); [|done]. unfold as_follower. simpl.
  destruct (String.eqb (aq_leaderId req) ""); match goal with |- context [persisted ?m] => apply (persisted_log m) end.
Qed.

(** Two logs with the same vector read the same. *)
Lemma log_ext_reads l l' : entries_ l' = entries_ l -> snapshotIndex_ l' = snapshotIndex_ l -> snapshotTerm_ l' = snapshotTerm_ l ->
  LastIndex l' = LastIndex l /\ (forall i, GetTerm l' i = GetTerm l i) /\ (log_wf l -> log_wf l').
Proof.
  destruct l as [es si st w], l' as [es' si' st' w']. simpl. intros -> -> ->. split_and!; try done.
  intros W. apply (log_wf_wal _ w' W).
Qed.

Section Follower.
Context {J : JsonLib} {L : JsonLaws J}.

Lemma HandleAppendEntries_run now req n : is_u64 (aq_term req) -> currentTerm_ n <= aq_term req ->
  let n1 := heard now req n in
  HandleAppendEntries now req n =
    match check_prev (log_ n1) (currentTerm_ n) req with
    | Some resp => (n1, Ok resp)
    | None =>
        match AppendAll (aq_entries req) (log_ n1) with
        | (l', Ok _) =>
            (if commitIndex_ n1 <? aq_leaderCommit req
             then set_commit (Z.min (aq_leaderCommit req) (LastIndex l')) (set_log l' n1) else set_log l' n1,
             Ok (mkAppendEntriesResponse (currentTerm_ n) true 0 0))
        | (l', Throw e) => (set_log l' n1, Throw e)
        end
    end.
Proof.
  intros Hu Ht n1. unfold HandleAppendEntries. rewrite bind_getS. cbv zeta. case_if; [lia|].
  assert (forall (f : unit -> M RaftNode AppendEntriesResponse),
    ((if currentTerm_ n <? aq_term req then BecomeFollower now (aq_term req) (aq_leaderId req) else mret tt) ≫= f) n =
    f tt (if currentTerm_ n <? aq_term req then as_follower now (aq_term req) (aq_leaderId req) n else n)) as ->.
  { intros f. case_if; [|done]. apply bind_run. by apply BecomeFollower_run. }
  unfold ResetElectionTimer. rewrite !bind_modify, bind_getS. fold n1.
  change (set_leaderId _ (set_heartbeat _ _)) with n1.
  destruct (check_prev (log_ n1) (currentTerm_ n) req) as [resp|]; [done|].
  unfold withLog. unfold mbind, M_bind. destruct (AppendAll (aq_entries req) (log_ n1)) as [l' [[]|e]]; [|done].
  unfold modify. simpl. by destruct (commitIndex_ n1 <? aq_leaderCommit req).
Qed.

(** A request a leader can have sent to a node with this log. *)
Record request_wf (l : RaftLog) (req : AppendEntriesRequest) : Prop := {
  rq_term : is_u64 (aq_term req);
  rq_prev : snapshotIndex_ l <= aq_prevLogIndex req;
  rq_contiguous : contiguous (aq_prevLogIndex req + 1) (aq_entries req);
  rq_ok : Forall LogEntry_ok (aq_entries req);
  rq_bound : LastIndex l + 1 + len (aq_entries req) < 2 ^ 64;
}.

Lemma prev_matches_ext l l' req : LastIndex l' = LastIndex l -> (forall i, GetTerm l' i = GetTerm l i) ->
  prev_matches l' req <-> prev_matches l req.
Proof. intros E1 E2. unfold prev_matches. by rewrite E1, E2. Qed.

Lemma conflict_hint_ext l l' p i t : LastIndex l' = LastIndex l -> snapshotIndex_ l' = snapshotIndex_ l ->
  (forall i, GetTerm l' i = GetTerm l i) -> conflict_hint l' p i t -> conflict_hint l p i t.
Proof.
  intros E1 E2 E3. unfold conflict_hint. rewrite E1, E2, !E3. intros [?|(? & ? & ? & Hk & ?)]; [by left|right].
  split_and!; try done; try lia. intros k ?. rewrite <- E3. by apply Hk.
Qed.

Lemma append_pre_prev l req : log_wf l -> request_wf l req -> prev_matches l req ->
  append_pre l (aq_prevLogIndex req + 1) (aq_entries req).
Proof.
  intros W [? ? ? ? ?] Hm. pose proof (wf_snap l W). pose proof (LastIndex_wf l W). pose proof (log_size_pos l W).
  split; try done. destruct Hm as [Hm|[Hm _]]; lia.
Qed.

Lemma request_wf_ext l l' req : LastIndex l' = LastIndex l -> snapshotIndex_ l' = snapshotIndex_ l ->
  request_wf l req -> request_wf l' req.
Proof. intros E1 E2 [? ? ? ? ?]. split; rewrite ?E1, ?E2; done. Qed.

Lemma heard_fields now req n : currentTerm_ n <= aq_term req -> let n1 := heard now req n in
  currentTerm_ n1 = aq_term req /\ leaderId_ n1 = aq_leaderId req.
Proof.
  intros Ht. unfold heard. destruct (currentTerm_ n <? aq_term req) eqn:E; bool_prop; [|split; [simpl; lia|done]].
  pose proof (as_follower_fields now (aq_term req) (aq_leaderId req) n) as (_ & H & _). done.
Qed.

(** C19: what a follower does with an AppendEntries request, on every branch.  A
    stale term is refused and changes nothing.  Otherwise the node adopts the
    term and the leader; if its log has the previous entry with the leader's
    term the new entries are merged and the commit index follows the leader up
    to the end of the log, and if not the log stays as it is and the response
    points to the end of the log or to the first entry of the conflicting
    term.  No branch throws, and the log stays well formed. *)
Theorem HandleAppendEntries_spec now req n : log_wf (log_ n) -> request_wf (log_ n) req ->
  exists n' resp, HandleAppendEntries now req n = (n', Ok resp) /\ ar_term resp = currentTerm_ n /\
  ((aq_term req < currentTerm_ n /\ n' = n /\ ar_success resp = false) \/
   (currentTerm_ n <= aq_term req /\ currentTerm_ n' = aq_term req /\ leaderId_ n' = aq_leaderId req /\
    log_wf (log_ n') /\
    ((prev_matches (log_ n) req /\ ar_success resp = true /\
      (let k := Z.to_nat (aq_prevLogIndex req + 1 - snapshotIndex_ (log_ n)) in
       entries_ (log_ n') = take k (entries_ (log_ n)) ++ merge_suffix (drop k (entries_ (log_ n))) (aq_entries req)) /\
      commitIndex_ n' = (if commitIndex_ n <? aq_leaderCommit req
                         then Z.min (aq_leaderCommit req) (LastIndex (log_ n')) else commitIndex_ n)) \/
     (~ prev_matches (log_ n) req /\ ar_success resp = false /\ entries_ (log_ n') = entries_ (log_ n) /\
      commitIndex_ n' = commitIndex_ n /\
      conflict_hint (log_ n) (aq_prevLogIndex req) (ar_conflictIndex resp) (ar_conflictTerm resp))))).
Proof.
  intros W Q. destruct (decide (aq_term req < currentTerm_ n)) as [Hstale|Ht].
  { exists n, (mkAppendEntriesResponse (currentTerm_ n) false 0 0). split; [|by auto].
    unfold HandleAppendEntries. rewrite bind_getS. cbv zeta. case_if; [done|lia]. }
  apply Z.nlt_ge in Ht. rewrite HandleAppendEntries_run by (try done; apply Q). cbv zeta.
  destruct (heard_log now req n) as (He & Hsi & Hst & Hci). destruct (heard_fields now req n Ht) as [Ht1 Hl1].
  set (n1 := heard now req n) in *. clearbody n1. destruct (log_ext_reads (log_ n) (log_ n1) He Hsi Hst) as (HL & HT & HW).
  pose proof (HW W) as W1. pose proof (request_wf_ext _ _ _ HL Hsi Q) as Q1.
  pose proof (check_prev_spec (log_ n1) (currentTerm_ n) req W1) as Hp. pose proof (wf_snap _ W1). destruct Q1 as [? Hprev ? ? ?] eqn:EQ.
  specialize (Hp ltac:(lia) Hprev). destruct (check_prev (log_ n1) (currentTerm_ n) req) as [resp|].
  - destruct Hp as (Hno & Htr & Hf & Hh). exists n1, resp. split_and!; [done|done|]. right. split_and!; [done..|]. right.
    rewrite <- (prev_matches_ext (log_ n) (log_ n1)) by done. split_and!; try done. by apply (conflict_hint_ext (log_ n) (log_ n1)).
  - pose proof (append_pre_prev _ _ W1 Q1 Hp) as P. destruct (AppendAll_run _ _ _ P) as (E & W' & _). rewrite E, Hci.
    eexists _, _. split; [done|]. split; [done|]. right.
    assert (forall (b : bool) c m, let m' := (if b then set_commit c m else m) in
      currentTerm_ m' = currentTerm_ m /\ leaderId_ m' = leaderId_ m /\ log_ m' = log_ m /\
      commitIndex_ m' = if b then c else commitIndex_ m) as Hset by (by intros []).
    match goal with |- context [if ?b then set_commit ?c ?m else ?m] => destruct (Hset b c m) as (E1 & E2 & E3 & E4) end.
    rewrite E1, E2, E3, E4. cbn [currentTerm_ leaderId_ log_ set_log]. split_and!; [done..|]. left. rewrite <- (prev_matches_ext (log_ n) (log_ n1)) by done.
    split_and!; [done|done|simpl; by rewrite He, Hsi|simpl; by rewrite Hci].
Qed.
End Follower.

(** ** Backing up *)

Lemma last_in_term_spec l t fuel i : i - snapshotIndex_ l <= Z.of_nat fuel ->
  let r := last_in_term l t fuel i in
  (r = 0 \/ (snapshotIndex_ l < r <= i /\ GetTerm l r = t)) /\
  (0 <= snapshotIndex_ l -> forall k, Z.max r (snapshotIndex_ l) < k <= i -> GetTerm l k <> t).
Proof.
  revert i. induction fuel as [|fuel IH]; intros i Hf; cbn [last_in_term]; [split; [by left|lia]|]. unfold SnapshotIndex.
  destruct (i <=? snapshotIndex_ l) eqn:E; bool_prop; [split; [by left|lia]|].
  destruct (GetTerm l i =? t) eqn:E2; bool_prop; [split; [right|]; lia|].
  destruct (IH (i - 1)) as [Hr Hmax]; [lia|]. split; [destruct Hr as [?|?]; [by left|right; lia]|].
  intros H0 k Hk. destruct (decide (k = i)) as [->|Hne]; [done|]. apply Hmax; [done|lia].
Qed.

(** The search for the common prefix makes progress.  When the leader handles
    a refusal whose hint comes from a follower's log, the index it tries next is
    at least 1 and strictly below the one it had tried, provided its own log has
    no entry with the conflicting term from the refused index on. *)
Theorem backtrack_progress `{JsonLib} now p req resp n lf next :
  log_wf (log_ n) -> log_wf lf -> (SnapshotIndex lf = 0 -> SnapshotTerm lf = 0) ->
  role_ n = Leader -> ar_term resp = currentTerm_ n -> ar_success resp = false ->
  1 < next -> conflict_hint lf (next - 1) (ar_conflictIndex resp) (ar_conflictTerm resp) ->
  (0 < ar_conflictTerm resp -> forall i, next - 1 <= i <= LastIndex (log_ n) -> GetTerm (log_ n) i <> ar_conflictTerm resp) ->
  exists n' next', ReplicateToPeer_response now p req resp n = (n', Ok tt) /\
    nextIndex_ n' !! p = Some next' /\ 1 <= next' < next.
Proof.
  intros W Wf Hz Hr Ht Hs Hn Hh Hno. unfold ReplicateToPeer_response, catch_all. rewrite bind_getS.
  rewrite Ht, Z.ltb_irrefl, Z.eqb_refl, Hs. rewrite bool_decide_false by (intros Hx; by apply Hx). cbn [orb negb].
  pose proof (wf_snap _ Wf). pose proof (LastIndex_wf _ Wf). pose proof (log_size_pos _ Wf). unfold SnapshotIndex, SnapshotTerm in *.
  assert (ar_conflictIndex resp <= next - 1) as Hle by (destruct Hh as [(? & -> & _)|(_ & _ & ? & _)]; lia).
  destruct (0 <? ar_conflictTerm resp) eqn:E; bool_prop.
  - destruct Hh as [(_ & _ & ?)|(_ & Hct & Hci & Hk & _)]; [lia|].
    assert (1 <= ar_conflictIndex resp) as Hge1.
    { destruct (decide (ar_conflictIndex resp = 0)) as [E0|]; [|lia]. exfalso.
      pose proof (Hk 0 ltac:(lia)) as Hk0. unfold GetTerm in Hk0. rewrite (Hz ltac:(lia)) in Hk0.
      replace (snapshotIndex_ lf) with 0 in Hk0 by lia. simpl in Hk0. lia. }
    destruct (last_in_term_spec (log_ n) (ar_conflictTerm resp) (Z.to_nat (LastIndex (log_ n) - snapshotIndex_ (log_ n)))
      (LastIndex (log_ n)) ltac:(lia)) as [[E0|[Hb Hlt]] _].
    + rewrite E0. simpl. eexists _, _. split; [done|]. simpl. rewrite lookup_insert_eq. split; [done|]. lia.
    + set (r := last_in_term _ _ _ _) in *. pose proof (wf_snap _ W). pose proof (wf_bound _ W). pose proof (LastIndex_wf _ W).
      destruct (0 <? r) eqn:E1; bool_prop; [|lia]. eexists _, _. split; [done|]. simpl. rewrite lookup_insert_eq. split; [done|].
      rewrite u64_small by (unfold is_u64; lia). destruct (decide (next - 1 <= r)); [|lia]. exfalso. apply (Hno E r); [lia|done].
  - eexists _, _. split; [done|]. simpl. rewrite lookup_insert_eq. split; [done|].
    destruct (0 <? ar_conflictIndex resp) eqn:E1; bool_prop; lia.
Qed.

(** ** Applying committed entries *)

(** The effect of an entry on the store. *)
Definition apply_to (now : Z) (s : KVStore) (e : LogEntry) : KVStore := (ApplyEntry now e s).1.1.

Lemma ApplyLoop_inner_spec now n : log_wf (log_ n) -> commitIndex_ n <= LastIndex (log_ n) ->
  forall fuel a s, snapshotIndex_ (log_ n) <= a -> a + Z.of_nat fuel = commitIndex_ n ->
  ApplyLoop_inner fuel now (set_applied a (set_store s n)) =
  set_applied (commitIndex_ n) (set_store (fold_left (apply_to now)
    (take fuel (drop (Z.to_nat (a + 1 - snapshotIndex_ (log_ n))) (entries_ (log_ n)))) s) n).
Proof.
  intros W Hc. pose proof (wf_snap _ W). pose proof (wf_bound _ W). pose proof (LastIndex_wf _ W).
  induction fuel as [|fuel IH]; intros a s Ha Hf.
  - simpl. replace (commitIndex_ n) with a by lia. done.
  - cbn [ApplyLoop_inner]. unfold ApplyLoop_turn, ApplyLoop_fetch. cbn [lastApplied_ commitIndex_ log_ set_applied set_store store_].
    destruct (a <? commitIndex_ n) eqn:E; bool_prop; [|lia]. rewrite u64_small by (unfold is_u64; lia).
    rewrite GetEntry_lookup by (try done; unfold is_u64; lia).
    destruct (log_lookup (log_ n) (a + 1)) as [e|] eqn:He.
    2:{ exfalso. assert (is_Some (log_lookup (log_ n) (a + 1))) as [? ?]; [|congruence]. apply log_lookup_Some; [done|lia]. }
    cbn [of_opt]. unfold log_lookup in He. case_if_in He; [|lia]. rewrite (drop_S _ e) by exact He. cbn [firstn fold_left].
    unfold apply_to at 2. destruct (ApplyEntry now e s) as [[s' ns] cb]. cbn [fst].
    change (ApplyLoop_finish (a + 1) (set_store s' (set_applied a (set_store s n)))) with (set_applied (a + 1) (set_store s' n)).
    rewrite IH by lia. do 4 f_equal. f_equal. lia.
Qed.

(** The entries between the two indices, as a slice of the log. *)
Lemma GetEntries_committed n : log_wf (log_ n) ->
  snapshotIndex_ (log_ n) <= lastApplied_ n <= commitIndex_ n -> commitIndex_ n <= LastIndex (log_ n) ->
  GetEntries (log_ n) (lastApplied_ n + 1) (commitIndex_ n + 1) =
  take (Z.to_nat (commitIndex_ n - lastApplied_ n))
    (drop (Z.to_nat (lastApplied_ n + 1 - snapshotIndex_ (log_ n))) (entries_ (log_ n))).
Proof.
  intros W Ha Hc. pose proof (wf_snap _ W). pose proof (wf_bound _ W). pose proof (LastIndex_wf _ W).
  unfold GetEntries. rewrite GetEntries_loop_spec; [f_equal; lia|done|unfold is_u64; lia|lia|unfold is_u64; lia|unfold len; lia].
Qed.

(** C22: on a log that took no snapshot, the apply loop hands the committed entries
    to the store exactly once and in index order: it stops with everything up to the commit index applied,
    the store is the fold of the entries between the two indices, and nothing
    else of the node changes. *)
Theorem ApplyLoop_in_order now n : log_wf (log_ n) ->
  SnapshotIndex (log_ n) <= lastApplied_ n <= commitIndex_ n -> commitIndex_ n <= LastIndex (log_ n) ->
  let es := GetEntries (log_ n) (lastApplied_ n + 1) (commitIndex_ n + 1) in
  let n' := ApplyLoop_inner (Z.to_nat (commitIndex_ n - lastApplied_ n)) now n in
  n' = set_applied (commitIndex_ n) (set_store (fold_left (apply_to now) es (store_ n)) n) /\
  contiguous (lastApplied_ n + 1) es /\ len es = commitIndex_ n - lastApplied_ n /\
  ApplyLoop_turn now n' = None.
Proof.
  intros W Ha Hc. unfold SnapshotIndex in Ha. pose proof (wf_snap _ W). pose proof (wf_bound _ W). pose proof (LastIndex_wf _ W) as HL.
  set (es := GetEntries _ _ _). cbv zeta.
  pose proof (GetEntries_committed n W Ha Hc) as Hes. fold es in Hes.
  assert (contiguous (lastApplied_ n + 1) es /\ len es = commitIndex_ n - lastApplied_ n) as [Hco Hlen].
  { rewrite Hes. split.
    - replace (lastApplied_ n + 1) with (snapshotIndex_ (log_ n) + Z.of_nat (Z.to_nat (lastApplied_ n + 1 - snapshotIndex_ (log_ n)))) at 1 by lia.
      apply contiguous_slice. by apply wf_contiguous.
    - unfold len in *. rewrite length_take, length_drop. lia. }
  assert (ApplyLoop_inner (Z.to_nat (commitIndex_ n - lastApplied_ n)) now n
    = set_applied (commitIndex_ n) (set_store (fold_left (apply_to now) es (store_ n)) n)) as ->.
  { rewrite Hes, <- (ApplyLoop_inner_spec now n W Hc _ (lastApplied_ n)) by lia. by destruct n. }
  split_and!; try done. unfold ApplyLoop_turn, ApplyLoop_fetch. simpl. by rewrite Z.ltb_irrefl.
Qed.

(** ** Restart *)

Section Restart.
Context {J : JsonLib} {L : JsonLaws J}.

Lemma recover_entries_run es : forall n, Forall LogEntry_ok es ->
  recover_entries (raw_of <$> es) n =
  (set_log (mkRaftLog (entries_ (log_ n) ++ es) (snapshotIndex_ (log_ n)) (snapshotTerm_ (log_ n))
     (journaled (wal_ (log_ n)) es)) n, Ok tt).
Proof.
  induction es as [|e es IH]; intros n Hok.
  - simpl. unfold mret, M_ret. do 2 f_equal. destruct n as [? ? [? ? ? [j|]]]; simpl; by rewrite ?app_nil_r.
  - apply Forall_cons in Hok as [He Hok]. rewrite fmap_cons. cbn [recover_entries].
    destruct (LogEntry_Serialize_ok e He) as (s & Hs & _ & Hd & _).
    assert (raw_command (raw_of e) = s) as -> by (unfold raw_of; by rewrite Hs). rewrite Hd, bind_lift_Ok.
    unfold withLog at 1. erewrite bind_run by (by rewrite Append_ok). rewrite IH by done.
    cbn [log_ set_log entries_ snapshotIndex_ snapshotTerm_ wal_]. by rewrite <- app_assoc, journaled_app.
Qed.

(** C20: a restart gives the node its term, its vote and its log back.  For a
    node without a snapshot whose journal is up to date, the constructor
    succeeds with the same term, vote and entries, as a follower with nothing
    committed; and the journal it leaves, which now has the entries once more,
    is up to date again. *)
Theorem restart_restores config store n j clock now :
  wal_ (log_ n) = Some j -> hs_durable n -> log_durable (log_ n) -> log_wf (log_ n) ->
  head (entries_ (log_ n)) = Some (sentinel 0 0) -> snapshotIndex_ (log_ n) = 0 ->
  rr_latestSnapshot (replay j) = None -> Forall LogEntry_ok (tail (entries_ (log_ n))) ->
  exists n', RaftNode_new config store (Some j) clock now = (n', Ok tt) /\
    currentTerm_ n' = currentTerm_ n /\ votedFor_ n' = votedFor_ n /\ role_ n' = Follower /\
    commitIndex_ n' = 0 /\ lastApplied_ n' = 0 /\ store_ n' = store /\
    entries_ (log_ n') = entries_ (log_ n) /\ log_wf (log_ n') /\ hs_durable n' /\ log_durable (log_ n').
Proof.
  intros Hj (j1 & Hj1 & Hhs) (j2 & Hj2 & Hes) W Hh Hsi Hsn Hok. rewrite Hj in Hj1, Hj2. injection Hj1 as <-. injection Hj2 as <-.
  destruct (entries_ (log_ n)) as [|s0 es] eqn:E; [done|]. simpl in Hh, Hes, Hok. injection Hh as ->.
  unfold RaftNode_new, recover_node. rewrite Hsn, Hhs, Hes.
  set (n0 := RaftNode_init config store (Some j)). cbn [hs_term hs_votedFor].
  set (n1 := set_votedFor (votedFor_ n) (set_term (currentTerm_ n) n0)).
  erewrite bind_run.
  2:{ rewrite !bind_modify, bind_ret. by apply recover_entries_run. }
  eexists. split; [done|]. split_and!; try done.
  - assert (snapshotTerm_ (log_ n) = 0) as Hst.
    { symmetry. apply (wf_head _ W (sentinel 0 0)). by rewrite E. }
    pose proof (log_wf_wal _ (journaled (Some j) es) W) as W'. rewrite E, Hsi, Hst in W'. exact W'.
  - rewrite hs_durable_log. unfold log_hs. simpl. rewrite (list_fmap_compose raw_of RecLogEntry es).
    rewrite <- Hes, replay_reappend_all. by rewrite Hhs.
  - eexists. split; [reflexivity|]. simpl. rewrite (list_fmap_compose raw_of RecLogEntry es), <- Hes, replay_reappend_all. by rewrite Hes.
Qed.
End Restart.

(** ** Proposals *)

Section Propose.
Context {J : JsonLib} {L : JsonLaws J}.

(** Appending the next entry keeps the journal up to date. *)
Lemma Append_durable l e : log_wf l -> log_durable l -> le_index e = LastIndex l + 1 ->
  log_durable (mkRaftLog (entries_ l ++ [e]) (snapshotIndex_ l) (snapshotTerm_ l) (journaled (wal_ l) [e])).
Proof.
  intros W (j & Hj & Hd) He. unfold log_durable. rewrite Hj. eexists. split; [done|]. cbn [entries_].
  pose proof (LastIndex_wf l W) as HL. pose proof (wf_contiguous l W) as Hc. pose proof (wf_nonempty l W).
  destruct (entries_ l) as [|s0 es] eqn:E; [done|]. apply contiguous_cons in Hc as [_ Hc]. rewrite len_cons in HL.
  simpl in Hd. rewrite replay_app, (replay_appended [e] (LastIndex l + 1) (raw_of <$> es) []).
  - simpl. by rewrite fmap_app.
  - apply contiguous_cons. split; [done|]. by intros i x Hx.
  - done.
  - by rewrite app_nil_r.
  - eapply raw_index_lt; [done|]. lia.
  - constructor.
Qed.

(** The locked section of a leader's proposal. *)
Lemma Propose_begin_leader key value op ttl n :
  op_ok op -> utf8_valid key = true -> utf8_valid value = true -> is_i64 ttl ->
  is_u64 (currentTerm_ n) -> log_wf (log_ n) -> LastIndex (log_ n) + 2 < 2 ^ 64 -> role_ n = Leader ->
  exists l' s, let index := LastIndex (log_ n) + 1 in
    let e := mkLogEntry (currentTerm_ n) index op key value ttl s in
    Propose_begin key value op ttl n = (set_log l' n, Ok (inr index)) /\
    LogEntry_Deserialize s = Ok (mkLogEntry (currentTerm_ n) index op key value ttl "") /\
    entries_ l' = entries_ (log_ n) ++ [e] /\ log_wf l' /\ (log_durable (log_ n) -> log_durable l').
Proof.
  intros Hop Hk Hv Httl Ht W Hb Hr. unfold Propose_begin. rewrite bind_getS.
  rewrite bool_decide_false by (intros Hx; by apply Hx). cbv zeta.
  pose proof (LastIndex_wf _ W). pose proof (wf_snap _ W). pose proof (log_size_pos _ W).
  rewrite u64_small by (unfold is_u64; lia). set (index := LastIndex (log_ n) + 1).
  assert (is_u64 index) as Hi by (unfold is_u64, index; lia).
  assert (forall c, utf8_valid c = true -> LogEntry_ok (mkLogEntry (currentTerm_ n) index op key value ttl c)) as Hok
    by (intros c Hc; exact (conj Ht (conj Hi (conj Hop (conj Hk (conj Hv (conj Httl Hc))))))).
  destruct (LogEntry_Serialize_ok (mkLogEntry (currentTerm_ n) index op key value ttl "")) as (s & Hs & _ & Hd & Hu); [by apply Hok|].
  rewrite Hs, bind_lift_Ok. unfold withLog. erewrite bind_run by (rewrite Append_ok; [done|by apply Hok]).
  eexists _, s. split; [done|]. split_and!; [done|done| |].
  - apply (log_wf_wal (set_entries (log_ n) _)). apply log_wf_app; [done|done|lia].
  - intros D. by apply Append_durable.
Qed.

Lemma Propose_begin_follower key value op ttl n : role_ n <> Leader ->
  Propose_begin key value op ttl n =
  (n, Ok (inl (mkProposeResult false ("not leader (leader=" +:+ leaderId_ n +:+ ")")%string 0))).
Proof. intros Hr. unfold Propose_begin. rewrite bind_getS. by rewrite bool_decide_true. Qed.

Lemma Propose_finish_ok index n : pr_ok (Propose_finish index n) = true <-> role_ n = Leader /\ index <= lastApplied_ n.
Proof.
  unfold Propose_finish. destruct (role_ n); rewrite ?bool_decide_true, ?bool_decide_false by (done || (intros Hx; by apply Hx));
    rewrite ?orb_true_r, ?orb_false_r; cbn; try (split; [done|by intros [? ?]]).
  destruct (index <=? lastApplied_ n) eqn:E; bool_prop; cbn; split; try done; lia.
Qed.

(** A proposal.  A node that is not the leader refuses it and changes
    nothing.  A leader appends exactly one entry, with its term and the next
    index, whose command text is the entry's own serialisation; the log stays
    well formed and its journal up to date; the caller waits for that index and
    is told success exactly when the node is still the leader and has applied
    that index. *)
Theorem Propose_appends key value op ttl n :
  op_ok op -> utf8_valid key = true -> utf8_valid value = true -> is_i64 ttl ->
  is_u64 (currentTerm_ n) -> log_wf (log_ n) -> LastIndex (log_ n) + 2 < 2 ^ 64 ->
  (role_ n <> Leader -> Propose_begin key value op ttl n =
     (n, Ok (inl (mkProposeResult false ("not leader (leader=" +:+ leaderId_ n +:+ ")")%string 0)))) /\
  (role_ n = Leader -> exists n' s, let index := LastIndex (log_ n) + 1 in
     let e := mkLogEntry (currentTerm_ n) index op key value ttl s in
     Propose_begin key value op ttl n = (n', Ok (inr index)) /\
     LogEntry_Deserialize s = Ok (mkLogEntry (currentTerm_ n) index op key value ttl "") /\
     entries_ (log_ n') = entries_ (log_ n) ++ [e] /\ log_wf (log_ n') /\
     (log_durable (log_ n) -> log_durable (log_ n')) /\
     forall n2, pr_ok (Propose_finish index n2) = true <-> role_ n2 = Leader /\ index <= lastApplied_ n2).
Proof.
  intros Hop Hk Hv Httl Ht W Hb. split; intros Hr; [by apply Propose_begin_follower|].
  destruct (Propose_begin_leader key value op ttl n) as (l' & s & E & Hd & He & W' & D); try done.
  exists (set_log l' n), s. split_and!; try done. intros n2. apply Propose_finish_ok.
Qed.
End Propose.

(** ** Witnesses *)

Section ReplicationExamples.
#[local] Existing Instance RefJson.
#[local] Open Scope string_scope.
#[local] Open Scope Z_scope.

(** A node of term 1 with the two entries of [ex_log], all journalled. *)
Definition ex_config : RaftConfig :=
  mkRaftConfig "n1" [mkRaftPeerInfo "n2" "host" 2380; mkRaftPeerInfo "n3" "host" 2380] 2380 150 300 50 50 10000.
Definition ex_node (r : RaftRole) : RaftNode :=
  persisted (mkRaftNode ex_config KVStore_new ex_log 1 "n1" 2 0 r "n1" {["n2" := 3]} ∅ 0).

Lemma ex_node_wf r : log_wf (log_ (ex_node r)).
Proof. exact (log_wf_wal ex_log (wal_ (log_ (ex_node r))) ex_log_wf). Qed.

(** One of two peers has acknowledged both entries. *)
Definition ex_acked_node : RaftNode := mkRaftNode ex_config KVStore_new ex_log 1 "n1" 0 0 Leader "n1" {["n2" := 3]} {["n2" := 2]} 0.

Lemma AdvanceCommitIndex_max_witness : commitIndex_ (AdvanceCommitIndex ex_acked_node) = 2 /\ held_by_majority ex_acked_node 2.
Proof.
  assert (tracks_peers ex_acked_node) as Ht.
  { intros p [m Hm]. cbn [matchIndex_ ex_acked_node] in Hm. apply lookup_singleton_Some in Hm as [<- _]. by left. }
  assert (commitIndex_ (AdvanceCommitIndex ex_acked_node) = 2) as E by (by vm_compute). split; [exact E|].
  destruct (AdvanceCommitIndex_max ex_acked_node Ht) as (_ & _ & _ & Hc). rewrite E in Hc. by apply Hc.
Defined.

Lemma ReplicateToPeer_request_witness :
  exists req, ReplicateToPeer_prepare "n2" (ex_node Leader) = Some req /\ aq_prevLogIndex req = 2 /\ aq_prevLogTerm req = 1.
Proof.
  destruct (ReplicateToPeer_request "n2" (ex_node Leader) 3 (ex_node_wf Leader) eq_refl) as (req & E & _ & _ & _ & Hi & Ht & _);
    [by vm_compute..|]. exists req. split; [exact E|]. split; [exact Hi|]. rewrite Ht. by vm_compute.
Defined.

Definition ex_append : AppendEntriesRequest := mkAppendEntriesRequest 2 "n3" 1 1 [ex_put 2 2] 1.

Lemma HandleAppendEntries_spec_witness :
  exists n' resp, HandleAppendEntries 5 ex_append (ex_node Follower) = (n', Ok resp) /\ ar_term resp = 1.
Proof.
  assert (request_wf (log_ (ex_node Follower)) ex_append) as Q.
  { split; [by vm_compute..| | |by vm_compute].
    - intros [|i] e He; [by inv He|done].
    - repeat constructor; by vm_compute. }
  destruct (HandleAppendEntries_spec (L := RefJson_laws) 5 ex_append (ex_node Follower) (ex_node_wf Follower) Q)
    as (n' & resp & E & Ht & _). exists n', resp. split; [exact E|]. rewrite Ht. by vm_compute.
Defined.

Lemma backtrack_progress_witness :
  exists n' next', ReplicateToPeer_response 5 "n2" ex_append (mkAppendEntriesResponse 1 false 1 0) (ex_node Leader) = (n', Ok tt) /\
    nextIndex_ n' !! "n2" = Some next' /\ 1 <= next' < 3.
Proof.
  apply (backtrack_progress 5 "n2" ex_append (mkAppendEntriesResponse 1 false 1 0) (ex_node Leader) (RaftLog_new None) 3 (ex_node_wf Leader)).
  - split; try by vm_compute.
    + intros [|i] e He; [by inv He|done].
    + intros e He. by inv He.
  - done.
  - by vm_compute.
  - by vm_compute.
  - done.
  - done.
  - left. by vm_compute.
  - cbn [ar_conflictTerm]. lia.
Defined.

Lemma ApplyLoop_in_order_witness :
  ApplyLoop_inner 2 7 (ex_node Leader) =
  set_applied 2 (set_store (fold_left (apply_to 7) [ex_put 1 1; ex_put 1 2] KVStore_new) (ex_node Leader)).
Proof. refine (proj1 (ApplyLoop_in_order 7 (ex_node Leader) (ex_node_wf Leader) _ _)); by vm_compute. Defined.

Definition ex_journal : journal := default [] (wal_ (log_ (ex_node Leader))).

Lemma restart_restores_witness :
  exists n', RaftNode_new ex_config KVStore_new (Some ex_journal) (fun _ => 0) 9 = (n', Ok tt) /\
    currentTerm_ n' = 1 /\ votedFor_ n' = "n1" /\ entries_ (log_ n') = entries_ ex_log.
Proof.
  assert (wal_ (log_ (ex_node Leader)) = Some ex_journal) as Hj by (by vm_compute).
  destruct (restart_restores (L := RefJson_laws) ex_config KVStore_new (ex_node Leader) ex_journal (fun _ => 0) 9 Hj)
    as (n' & E & Ht & Hv & _ & _ & _ & _ & He & _).
  - exists ex_journal. split; [done|]. by vm_compute.
  - exists ex_journal. split; [done|]. by vm_compute.
  - apply ex_node_wf.
  - by vm_compute.
  - by vm_compute.
  - by vm_compute.
  - assert (tail (entries_ (log_ (ex_node Leader))) = [ex_put 1 1; ex_put 1 2]) as -> by (by vm_compute).
    apply Forall_cons. split; [by apply ex_put_ok|]. apply Forall_cons. split; [by apply ex_put_ok|constructor].
  - exists n'. split_and!; [exact E|rewrite Ht; by vm_compute|rewrite Hv; by vm_compute|rewrite He; by vm_compute].
Defined.

Lemma Propose_appends_witness :
  exists n', Propose_begin "k" "v" OpPut (-1) (ex_node Leader) = (n', Ok (inr 3)) /\ LastIndex (log_ n') = 3.
Proof.
  destruct (proj2 (Propose_appends (L := RefJson_laws) "k" "v" OpPut (-1) (ex_node Leader) I eq_refl eq_refl ltac:(done)
    ltac:(done) (ex_node_wf Leader) ltac:(by vm_compute)) eq_refl) as (n' & s & E & _ & He & _).
  exists n'. split; [exact E|]. unfold LastIndex, back. rewrite He, last_snoc. by vm_compute.
Defined.
End ReplicationExamples.
