(* ===== verification/RaftTyping.v ===== *)
(** * The types of the consensus state

    The terms, indices, versions and deadlines of a node, its log, its journal,
    its store and the messages it sends have the width of their C++ types, and
    the strings are UTF-8.  The judgement [typed] of the prelude carries this
    through the operations, outcome by outcome, with restarts and snapshots; it
    follows that no message of the network fails to serialise, that each arrives
    as it was sent, and that a node can always be started from its journal. *)
From S2P Require Import Prelude CxxString CxxMap Json KVStore RaftRPC WriteAheadLog RaftLog RaftNode RaftCluster RaftReplication.
From Stdlib Require Import ZArith Lia Ascii String.
From stdpp Require Import prelude gmap strings sorting relations.
#[local] Open Scope Z_scope.

#[local] Create HintDb typing.

(** ** Types *)

(** A journalled entry: its fields are those of a log entry and its text is the
    text of this entry. *)
Definition raw_typed `{JsonLib} (raw : RawLogEntry) : Prop :=
  exists e, LogEntry_ok e /\ raw_term raw = le_term e /\ raw_index raw = le_index e /\ LogEntry_Serialize e = Ok (raw_command raw).

(** A key and its entry.  The two clock readings of an entry are arguments of
    the operations and not constrained. *)
Definition entry_typed (kv : string * KVEntry) : Prop :=
  utf8_valid kv.1 = true /\ utf8_valid (kv_value kv.2) = true /\ is_u64 (kv_version kv.2) /\ is_u64 (kv_raftIndex kv.2) /\
  (forall t, kv_expiresAt kv.2 = Some t -> is_i64 t).

Record store_typed (s : KVStore) : Prop := {
  st_data : Forall entry_typed (data_ s);
  st_watch : is_u64 (nextWatchId_ s);
}.

(** The text of a snapshot is that of typed entries. *)
Definition snapshot_typed `{JsonLib} (data : string) : Prop :=
  utf8_valid data = true /\ exists items, Forall entry_typed items /\ dump (JArr (snapshot_item <$> items)) = Ok data.

Definition record_typed `{JsonLib} (r : WalRecord) : Prop :=
  match r with
  | RecLogEntry raw => raw_typed raw
  | RecHardState s => is_u64 (hs_term s) /\ utf8_valid (hs_votedFor s) = true
  | RecSnapshot index term data => is_u64 index /\ is_u64 term /\ snapshot_typed data
  end.

Record log_typed `{JsonLib} (l : RaftLog) : Prop := {
  lt_entries : Forall LogEntry_ok (entries_ l);
  lt_index : is_u64 (snapshotIndex_ l);
  lt_term : is_u64 (snapshotTerm_ l);
  lt_wal j : wal_ l = Some j -> Forall record_typed j;
}.

Record node_typed `{JsonLib} (n : RaftNode) : Prop := {
  nt_id : utf8_valid (nodeId n) = true;
  nt_term : is_u64 (currentTerm_ n);
  nt_vote : utf8_valid (votedFor_ n) = true;
  nt_commit : is_u64 (commitIndex_ n);
  nt_applied : is_u64 (lastApplied_ n);
  nt_next : map_Forall (fun _ x => is_u64 x) (nextIndex_ n);
  nt_match : map_Forall (fun _ x => is_u64 x) (matchIndex_ n);
  nt_leader : utf8_valid (leaderId_ n) = true;
  nt_store : store_typed (store_ n);
  nt_log : log_typed (log_ n);
}.

(** Destructs the node of the hypothesis and rebuilds it. *)
Ltac retype H := destruct H; split; cbn in *; try done; auto.

Lemma is_u64_u64 z : is_u64 (u64 z).
Proof. apply u64_range. Qed.

Lemma is_u64_0 : is_u64 0.
Proof. unfold is_u64. lia. Qed.

#[local] Hint Resolve is_u64_u64 is_u64_0 : core.

Lemma sentinel_ok t i : is_u64 t -> is_u64 i -> LogEntry_ok (sentinel t i).
Proof. intros ? ?. unfold LogEntry_ok, is_i64. simpl. split_and!; try done; lia. Qed.

(** ** Reading *)

Section Reads.
Context `{JsonLib}.

Lemma back_typed l : log_typed l -> LogEntry_ok (back l).
Proof.
  intros [He _ _ _]. unfold back. destruct (last (entries_ l)) as [e|] eqn:E; simpl.
  - apply last_Some_elem_of in E. rewrite Forall_forall in He. by apply He.
  - apply (sentinel_ok 0 0); done.
Qed.

Lemma LastIndex_typed l : log_typed l -> is_u64 (LastIndex l).
Proof. intros Hl. apply (back_typed l Hl). Qed.

Lemma LastTerm_typed l : log_typed l -> is_u64 (LastTerm l).
Proof. intros Hl. apply (back_typed l Hl). Qed.

Lemma entry_at_typed l i e : log_typed l -> entry_at l i = Some e -> LogEntry_ok e.
Proof. intros [He _ _ _]. unfold entry_at. by apply Forall_lookup_1. Qed.

Lemma GetTerm_typed l i : log_typed l -> is_u64 (GetTerm l i).
Proof.
  intros Hl. unfold GetTerm. case_if; [apply Hl|]. cbv zeta. case_if; [done|].
  destruct (entry_at l (Offset l i)) as [e|] eqn:Ee; [|done]. exact (proj1 (entry_at_typed l _ e Hl Ee)).
Qed.

Lemma GetEntry_typed l i e : log_typed l -> GetEntry l i = Ok e -> LogEntry_ok e.
Proof.
  intros Hl. unfold GetEntry. case_if; [done|]. destruct (entry_at l (Offset l i)) as [x|] eqn:Ee; [|done].
  intros [= <-]. exact (entry_at_typed l _ x Hl Ee).
Qed.

Lemma collect_typed l fuel : log_typed l -> forall i next last, Forall LogEntry_ok (collect_entries l fuel i next last).
Proof.
  intros Hl. induction fuel as [|fuel IH]; intros i next last; cbn [collect_entries]; [constructor|]. case_if; [|constructor].
  destruct (GetEntry l i) as [e|] eqn:Ee; [|constructor]. constructor; [by apply (GetEntry_typed l i)|apply IH].
Qed.

Lemma first_in_term_typed l t : is_u64 (snapshotIndex_ l) -> forall fuel ci, is_u64 ci -> is_u64 (first_in_term l t fuel ci).
Proof.
  intros [Hs _]. induction fuel as [|fuel IH]; intros ci Hc; [done|]. cbn [first_in_term]. unfold SnapshotIndex.
  destruct (snapshotIndex_ l <? ci) eqn:E; bool_prop; cbn [andb]; [|done]. case_if; [|done]. apply IH. unfold is_u64 in *. lia.
Qed.

Lemma check_prev_typed l t req resp : log_typed l -> is_u64 t -> is_u64 (aq_prevLogIndex req) -> check_prev l t req = Some resp ->
  AppendEntriesResponse_ok resp.
Proof.
  intros Hl Ht Hp. unfold check_prev. case_if; [|done]. case_if; [intros [= <-]; split_and!; simpl; auto|]. cbv zeta. case_if; [|done]. intros [= <-].
  split_and!; [done|by apply first_in_term_typed; [apply Hl|]|by apply GetTerm_typed].
Qed.
End Reads.

(** ** The log *)

Section LogTyping.
Context {J : JsonLib} {L : JsonLaws J}.

Lemma set_entries_typed l es : Forall LogEntry_ok es -> log_typed l -> log_typed (set_entries l es).
Proof. intros He Hl. retype Hl. Qed.

Lemma journal_write_typed r : record_typed r -> typed log_typed (journal_write r) (fun _ => True).
Proof.
  intros Hr l Hl. unfold journal_write. destruct (wal_ l) as [j|] eqn:Ej; [|done]. destruct (dump _); [|done]. split; [|done].
  pose proof (lt_wal l Hl j Ej). retype Hl. intros j' [= <-]. apply Forall_app. split; [done|]. by apply Forall_singleton.
Qed.

Lemma journal_entry_typed e : LogEntry_ok e -> typed log_typed (journal_entry e) (fun _ => True).
Proof.
  intros He l Hl. unfold journal_entry. destruct (wal_ l); [|done]. revert l Hl.
  change (typed log_typed (command ← lift (LogEntry_Serialize e); journal_write (RecLogEntry (mkRawLogEntry (le_term e) (le_index e) command))) (fun _ => True)).
  refine (typed_bind _ (fun s => LogEntry_Serialize e = Ok s) _ _ _ _ _); [by apply typed_lift|].
  intros s Es. apply journal_write_typed. by exists e.
Qed.

Lemma Append_typed e : LogEntry_ok e -> typed log_typed (Append e) (fun _ => True).
Proof.
  intros He. unfold Append. typed_tac; [|by apply journal_entry_typed]. intros l Hl. apply set_entries_typed; [|done].
  apply Forall_app. split; [apply Hl|by apply Forall_singleton].
Qed.

Lemma merge_entry_typed e l : LogEntry_ok e -> log_typed l -> log_typed (merge_entry e l).
Proof.
  intros He Hl. unfold merge_entry. cbv zeta. pose proof (lt_entries l Hl) as Hes. repeat case_match; try done; apply set_entries_typed; try done;
    apply Forall_app; (split; [|by apply Forall_singleton]); [by apply Forall_take|done].
Qed.

Lemma AppendAll_typed es : Forall LogEntry_ok es -> typed log_typed (AppendAll es) (fun _ => True).
Proof.
  induction 1 as [|e es He _ IH]; cbn [AppendAll]; typed_tac; [done|intros l Hl; by apply merge_entry_typed|].
  refine (typed_bind _ (fun _ => True) _ _ _ _ _); [by apply journal_entry_typed|done].
Qed.

Lemma SetSnapshot_typed index term l : is_u64 index -> is_u64 term -> log_typed l -> log_typed (SetSnapshot index term l).
Proof.
  intros Hi Ht Hl. pose proof (lt_entries l Hl). unfold SetSnapshot. retype Hl. constructor; [by apply sentinel_ok|]. case_if; [by apply Forall_drop|constructor].
Qed.

(** ** Replay *)

Record recovery_typed (r : RecoveryResult) : Prop := {
  rt_entries : Forall raw_typed (rr_entries r);
  rt_term : is_u64 (hs_term (rr_hardState r));
  rt_vote : utf8_valid (hs_votedFor (rr_hardState r)) = true;
  rt_sindex : is_u64 (rr_snapshotIndex r);
  rt_sterm : is_u64 (rr_snapshotTerm r);
  rt_snapshot data : rr_latestSnapshot r = Some data -> snapshot_typed data;
}.

Lemma drop_ge_typed i l : Forall raw_typed l -> Forall raw_typed (WriteAheadLog.drop_ge i l).
Proof. induction 1 as [|x l Hx Hl IH]; cbn [WriteAheadLog.drop_ge]; [constructor|]. case_if; [done|by constructor]. Qed.

Lemma replay_typed j : Forall record_typed j -> recovery_typed (replay j).
Proof.
  intros Hj. unfold replay. apply fold_left_invariant; [|by split].
  intros res r Hr Hres. rewrite Forall_forall in Hj. specialize (Hj r Hr). destruct r as [raw|s|index term data]; retype Hres.
  - apply Forall_app. split; [|by apply Forall_singleton]. by apply Forall_reverse, drop_ge_typed, Forall_reverse.
  - apply Hj.
  - apply Hj.
  - apply Hj.
  - apply Hj.
  - intros data' [= <-]. apply Hj.
Qed.
End LogTyping.

(** ** The store *)

Section StoreTyping.
Context {J : JsonLib} {L : JsonLaws J}.

Lemma KVStore_new_typed : store_typed KVStore_new.
Proof. split; [constructor|]. unfold is_u64. simpl. lia. Qed.

Lemma map_put_typed k e m : entry_typed (k, e) -> Forall entry_typed m -> Forall entry_typed (map_put k e m).
Proof.
  intros He. induction 1 as [|[k' e'] m Hk Hm IH]; cbn [map_put]; [by apply Forall_singleton|]. repeat case_if; auto using Forall_cons_2.
Qed.

Lemma map_erase_typed k m : Forall entry_typed m -> Forall entry_typed (map_erase k m).
Proof. induction 1 as [|[k' e'] m Hk Hm IH]; cbn [map_erase]; [done|]. repeat case_if; auto using Forall_cons_2. Qed.

Lemma map_find_typed k e m : Forall entry_typed m -> map_find k m = Some e -> entry_typed (k, e).
Proof.
  induction 1 as [|[k' e'] m Hk Hm IH]; cbn [map_find]; [done|]. destruct (String.eqb_spec k k') as [->|]; [by intros [= <-]|done].
Qed.

Lemma set_data_typed s d : Forall entry_typed d -> store_typed s -> store_typed (set_data s d).
Proof. intros Hd Hs. retype Hs. Qed.

Lemma is_i64_i64 z : is_i64 (i64 z).
Proof. unfold is_i64, i64. pose proof (Z.mod_pos_bound (z + 2 ^ 63) (2 ^ 64)). lia. Qed.

Lemma Put_typed now k v i ttl s : utf8_valid k = true -> utf8_valid v = true -> is_u64 i -> store_typed s -> store_typed (Put now k v i ttl s).1.2.
Proof.
  intros Hk Hv Hi Hs. unfold Put. set (vc := match map_find k (data_ s) with Some _ => _ | None => _ end).
  assert (is_u64 vc.1) as Hver by (unfold vc; destruct (map_find k (data_ s)); simpl; [done|unfold is_u64; lia]). destruct vc as [version createdAt].
  apply set_data_typed; [|done]. apply map_put_typed; [|apply Hs]. split_and!; try done. simpl. intros t. destruct ttl; simpl; [|done].
  intros [= <-]. apply is_i64_i64.
Qed.

Lemma Delete_typed k i s : store_typed s -> store_typed (KVStore.Delete k i s).1.2.
Proof.
  intros Hs. unfold KVStore.Delete. destruct (map_find k (data_ s)); [|done]. apply set_data_typed; [|done]. apply map_erase_typed, Hs.
Qed.

Lemma CAS_typed now k x v s : utf8_valid v = true -> store_typed s -> store_typed (CAS now k x v 0 s).1.2.
Proof.
  intros Hv Hs. unfold CAS. destruct (map_find k (data_ s)) as [e|] eqn:E; [|done]. case_if; [done|].
  destruct (map_find_typed k e _ (st_data s Hs) E) as (? & ? & ? & ? & ?). apply set_data_typed; [|done]. apply map_put_typed; [|apply Hs]. split_and!; simpl; auto.
Qed.

Lemma ApplyEntry_typed now e s : LogEntry_ok e -> store_typed s -> store_typed (ApplyEntry now e s).1.1.
Proof.
  intros (_ & Hi & _ & Hk & Hv & _) Hs. unfold ApplyEntry. destruct (le_opType e); [| |done|done].
  - match goal with |- context [Put ?a ?b ?c ?d ?t s] => pose proof (Put_typed a b c d t s Hk Hv Hi Hs) as Hp; by destruct (Put a b c d t s) as [[? ?] ?] end.
  - pose proof (Delete_typed (le_key e) (le_index e) s Hs) as Hp. by destruct (KVStore.Delete (le_key e) (le_index e) s) as [[? ?] ?].
Qed.

Lemma entry_json_wf kv : entry_typed kv -> json_wf (snapshot_item kv) = true.
Proof.
  destruct kv as [k e]. intros (Hk & Hv & Hver & Hri & Hx). cbn [fst snd] in *.
  assert (is_i64 (match kv_expiresAt e with Some t => to_ms t | None => -1 end)) as Hms.
  { destruct (kv_expiresAt e) as [t|]; [|unfold is_i64; lia]. specialize (Hx t eq_refl). unfold is_i64, to_ms in *. Z.to_euclidean_division_equations. lia. }
  unfold snapshot_item. json_wf_tac.
Qed.

Lemma TakeSnapshot_typed now s data : store_typed s -> TakeSnapshot now s = Ok data -> snapshot_typed data.
Proof.
  intros Hs. unfold TakeSnapshot, dump. destruct (json_dump _) as [x|] eqn:E; [|done]. intros [= <-]. split; [by apply dump_utf8 in E|].
  eexists. split; [|unfold dump; by rewrite E]. apply Forall_forall. intros kv [_ Hin]%list_elem_of_filter. by apply (proj1 (Forall_forall _ _) (st_data s Hs)).
Qed.

(** An entry of a snapshot is restored with its fields; the deadline is that
    of the millisecond. *)
Lemma restore_item_typed now kv : entry_typed kv -> exists kv', restore_item now (snapshot_item kv) = Ok kv' /\ entry_typed kv'.
Proof.
  destruct kv as [k e]. intros (Hk & Hv & Hver & Hri & _). unfold restore_item, snapshot_item. cbn [fst snd] in *.
  set (ms := match kv_expiresAt e with Some t => to_ms t | None => -1 end).
  exists (k, mkKVEntry (kv_value e) (u64 (kv_version e)) (u64 (kv_raftIndex e)) now now (if 0 <=? i64 ms then Some (i64 (i64 ms * 1000000)) else None)).
  split; [reflexivity|]. split_and!; cbn -[u64 i64]; [done|done|apply is_u64_u64|apply is_u64_u64|]. intros t. case_if; [|done]. intros [= <-]. apply is_i64_i64.
Qed.

Lemma restore_loop_typed clock items : Forall entry_typed items -> forall i s, store_typed s ->
  exists s', restore_loop clock i (snapshot_item <$> items) s = (s', Ok tt) /\ store_typed s'.
Proof.
  induction 1 as [|kv items Hkv _ IH]; intros i s Hs; [by exists s|]. rewrite fmap_cons. cbn [restore_loop].
  destruct (restore_item_typed (clock i) kv Hkv) as ([k e] & -> & He). rewrite bind_lift_Ok, bind_modify. apply IH.
  apply set_data_typed; [|done]. apply map_put_typed; [done|apply Hs].
Qed.

Lemma RestoreSnapshot_typed clock data s : snapshot_typed data -> store_typed s ->
  exists s', RestoreSnapshot clock data s = (s', Ok tt) /\ store_typed s'.
Proof.
  intros (_ & items & Hi & Hd) Hs. destruct (dump_ok (JArr (snapshot_item <$> items))) as (x & Hx & Hp & _).
  { cbn [json_wf]. apply forallb_forall. intros j (kv & -> & Hin)%list_elem_of_In%list_elem_of_fmap. apply entry_json_wf.
    rewrite Forall_forall in Hi. by apply Hi. }
  rewrite Hd in Hx. injection Hx as <-. unfold RestoreSnapshot. rewrite Hp, bind_lift_Ok, bind_modify. apply restore_loop_typed; [done|].
  by apply set_data_typed.
Qed.
End StoreTyping.

(** ** The node *)

Section NodeTyping.
Context {J : JsonLib} {L : JsonLaws J}.
#[local] Abbreviation node_op m Q := (typed node_typed m Q).

Lemma withLog_typed {A} (m : M RaftLog A) Q : typed log_typed m Q -> node_op (withLog m) Q.
Proof.
  intros Hm n Hn. unfold withLog. destruct (Hm (log_ n) (nt_log n Hn)) as [Hl Hq]. destruct (m (log_ n)) as [l r]. split; [|done]. retype Hn.
Qed.

Lemma set_log_typed l n : log_typed l -> node_typed n -> node_typed (set_log l n).
Proof. intros Hl Hn. retype Hn. Qed.
Lemma set_term_typed t n : is_u64 t -> node_typed n -> node_typed (set_term t n).
Proof. intros Ht Hn. retype Hn. Qed.
Lemma set_role_typed r n : node_typed n -> node_typed (set_role r n).
Proof. intros Hn. retype Hn. Qed.
Lemma set_votedFor_typed v n : utf8_valid v = true -> node_typed n -> node_typed (set_votedFor v n).
Proof. intros Hv Hn. retype Hn. Qed.
Lemma set_leaderId_typed v n : utf8_valid v = true -> node_typed n -> node_typed (set_leaderId v n).
Proof. intros Hv Hn. retype Hn. Qed.
Lemma set_heartbeat_typed t n : node_typed n -> node_typed (set_heartbeat t n).
Proof. intros Hn. retype Hn. Qed.
Lemma set_commit_typed i n : is_u64 i -> node_typed n -> node_typed (set_commit i n).
Proof. intros Hi Hn. retype Hn. Qed.
Lemma set_applied_typed i n : is_u64 i -> node_typed n -> node_typed (set_applied i n).
Proof. intros Hi Hn. retype Hn. Qed.
Lemma set_store_typed s n : store_typed s -> node_typed n -> node_typed (set_store s n).
Proof. intros Hs Hn. retype Hn. Qed.
Lemma set_next_typed p i n : is_u64 i -> node_typed n -> node_typed (set_next p i n).
Proof. intros Hi Hn. retype Hn. by apply map_Forall_insert_2. Qed.
Lemma set_match_typed p i n : is_u64 i -> node_typed n -> node_typed (set_match p i n).
Proof. intros Hi Hn. retype Hn. by apply map_Forall_insert_2. Qed.

#[local] Hint Resolve set_log_typed set_term_typed set_role_typed set_votedFor_typed set_leaderId_typed set_heartbeat_typed set_commit_typed
  set_applied_typed set_store_typed set_next_typed set_match_typed : typing.
#[local] Hint Resolve nt_id nt_term nt_vote nt_commit nt_applied nt_leader nt_store nt_log : typing.
#[local] Hint Resolve LastIndex_typed LastTerm_typed GetTerm_typed is_u64_u64 is_u64_0 : typing.

Lemma PersistHardState_typed : node_op PersistHardState (fun _ => True).
Proof. unfold PersistHardState. typed_tac. apply withLog_typed, journal_write_typed. split; simpl; eauto with typing. Qed.

Lemma BecomeFollower_typed now t i : is_u64 t -> utf8_valid i = true -> node_op (BecomeFollower now t i) (fun _ => True).
Proof.
  intros Ht Hi. unfold BecomeFollower, ResetElectionTimer. typed_tac; eauto with typing.
  refine (typed_bind _ (fun _ => True) _ _ _ _ _); [typed_tac; eauto with typing|intros _ _].
  refine (typed_bind _ (fun _ => True) _ _ _ PersistHardState_typed _). intros _ _. typed_tac. eauto with typing.
Qed.

Lemma StartElection_begin_typed now : node_op (StartElection_begin now) RequestVoteRequest_ok.
Proof.
  unfold StartElection_begin. typed_tac; eauto with typing.
  refine (typed_bind _ (fun _ => True) _ _ _ PersistHardState_typed _). intros _ _. cbv zeta. typed_tac; eauto with typing.
  unfold RequestVoteRequest_ok. simpl. split_and!; eauto with typing.
Qed.

Lemma StartElection_turn_typed now t o : (forall resp, o = Some resp -> is_u64 (vr_term resp)) -> node_op (StartElection_turn now t o) (fun _ => True).
Proof.
  intros Ho n Hn. unfold StartElection_turn. destruct o as [resp|]; [|done].
  assert (node_op (StartElection_response now t resp) (fun _ => True)) as Hr.
  { unfold StartElection_response. typed_tac; try done.
    refine (typed_bind _ (fun _ => True) _ _ _ (BecomeFollower_typed now _ "" (Ho resp eq_refl) eq_refl) _). intros _ _. by typed_tac. }
  destruct (Hr n Hn) as [Hn' _]. by destruct (StartElection_response now t resp n).
Qed.

Lemma init_peers_typed i ps : forall n, node_typed n -> node_typed (init_peers i ps n).
Proof. induction ps as [|p ps IH]; intros n Hn; cbn [init_peers]; [done|]. apply IH. eauto with typing. Qed.

Lemma LogEntry_NoOp_typed t i e : is_u64 t -> is_u64 i -> LogEntry_NoOp t i = Ok e -> LogEntry_ok e.
Proof.
  intros Ht Hi. unfold LogEntry_NoOp. destruct (dump _) as [s|] eqn:E; [|done]. intros [= <-]. unfold LogEntry_ok, is_i64. simpl.
  split_and!; try done; try lia. unfold dump in E. destruct (json_dump _) as [s'|] eqn:Es; [|done]. injection E as <-. by apply dump_utf8 in Es.
Qed.

Lemma BecomeLeader_typed : node_op BecomeLeader (fun _ => True).
Proof.
  unfold BecomeLeader. typed_tac; eauto with typing; [intros; by apply init_peers_typed|].
  refine (typed_bind _ LogEntry_ok _ _ _ _ _); [|intros e He; by apply withLog_typed, Append_typed].
  apply typed_lift. intros e. apply LogEntry_NoOp_typed; eauto with typing.
Qed.

Lemma StartElection_finish_typed t v : node_op (StartElection_finish t v) (fun _ => True).
Proof. unfold StartElection_finish. typed_tac; try done. apply BecomeLeader_typed. Qed.

Lemma HandleRequestVote_typed now req : RequestVoteRequest_ok req -> node_op (HandleRequestVote now req) (fun r => is_u64 (vr_term r)).
Proof.
  intros (Ht & Hc & _ & _). unfold HandleRequestVote, ResetElectionTimer. refine (typed_bind _ _ _ _ _ (typed_getS _) _). intros n0 Hn0. cbv zeta.
  case_if; [typed_tac; simpl; eauto with typing|].
  refine (typed_bind _ (fun _ => True) _ _ _ _ _); [case_if; [by apply BecomeFollower_typed|by typed_tac]|intros _ _].
  refine (typed_bind _ _ _ _ _ (typed_getS _) _). intros n1 Hn1. cbv zeta. typed_tac; simpl; eauto with typing.
  refine (typed_bind _ (fun _ => True) _ _ _ PersistHardState_typed _). intros _ _. typed_tac. simpl. eauto with typing.
Qed.

Lemma prepare_typed p n req : node_typed n -> ReplicateToPeer_prepare p n = Some req -> AppendEntriesRequest_ok req.
Proof.
  intros Hn. unfold ReplicateToPeer_prepare. case_if; [done|]. cbv zeta. intros Hreq%(inj Some). subst req. unfold AppendEntriesRequest_ok.
  cbn [aq_term aq_leaderId aq_prevLogIndex aq_prevLogTerm aq_entries aq_leaderCommit]. split_and!; eauto using collect_typed with typing.
Qed.

Lemma AdvanceCommitIndex_typed n : node_typed n -> node_typed (AdvanceCommitIndex n).
Proof.
  intros Hn. unfold AdvanceCommitIndex. pose proof (LastIndex_typed _ (nt_log n Hn)) as [? ?]. destruct (nt_commit n Hn) as [? ?].
  pose proof (commit_loop_spec n (Z.to_nat (LastIndex (log_ n) - commitIndex_ n)) (LastIndex (log_ n)) ltac:(lia)) as Hk.
  destruct (commit_loop _ _ _) as [k|]; [|done]. destruct Hk as (? & _). apply set_commit_typed; [unfold is_u64; lia|done].
Qed.

Lemma ReplicateToPeer_response_typed now p req resp : AppendEntriesResponse_ok resp -> node_op (ReplicateToPeer_response now p req resp) (fun _ => True).
Proof.
  intros (Ht & Hi & Hc) n0 Hn0. unfold ReplicateToPeer_response, catch_all. cbn [fst snd]. split; [|done]. revert n0 Hn0.
  match goal with |- forall n, _ -> node_typed (?m n).1 => enough (node_op m (fun _ => True)) as H by (intros n Hn; by apply H) end.
  typed_tac; try done; [by apply BecomeFollower_typed|..]; intros; eauto using AdvanceCommitIndex_typed with typing.
  - apply set_match_typed; [|done]. apply Z.max_case; [|eauto with typing].
    destruct (matchIndex_ a !! p) as [x|] eqn:Ex; [exact (nt_match a H p x Ex)|done].
  - case_if; eauto with typing.
  - apply set_next_typed; [|done]. case_if; [done|unfold is_u64; lia].
Qed.

Lemma HandleAppendEntries_typed now req : AppendEntriesRequest_ok req -> node_op (HandleAppendEntries now req) AppendEntriesResponse_ok.
Proof.
  intros (Ht & Hid & Hp & Hpt & He & Hc). unfold HandleAppendEntries. refine (typed_bind _ _ _ _ _ (typed_getS _) _). intros n0 Hn0. cbv zeta.
  assert (forall b, AppendEntriesResponse_ok (mkAppendEntriesResponse (currentTerm_ n0) b 0 0)) as Hresp by (intros b; split_and!; simpl; eauto with typing).
  case_if; [by typed_tac|].
  refine (typed_bind _ (fun _ => True) _ _ _ _ _); [case_if; [by apply BecomeFollower_typed|by typed_tac]|intros _ _].
  unfold ResetElectionTimer. typed_tac; eauto with typing.
  destruct (check_prev (log_ a) (currentTerm_ n0) req) as [resp|] eqn:Ec.
  { apply typed_ret. apply (check_prev_typed (log_ a) (currentTerm_ n0) req); eauto with typing. }
  refine (typed_bind _ (fun _ => True) _ _ _ (withLog_typed _ _ (AppendAll_typed _ He)) _). intros _ _. typed_tac; [|done].
  intros n Hn. case_if; [|done]. apply set_commit_typed; [|done]. apply Z.min_case; eauto with typing.
Qed.

(** The JSON library refuses strings that are not UTF-8, so what [Propose]
    appends is typed whatever the client sends. *)
Lemma LogEntry_Serialize_utf8 e s : LogEntry_Serialize e = Ok s ->
  utf8_valid (le_key e) = true /\ utf8_valid (le_value e) = true /\ utf8_valid s = true.
Proof.
  unfold LogEntry_Serialize, dump. destruct (json_dump (LogEntry_json e)) as [s'|] eqn:E; [|done]. intros [= <-].
  assert (json_utf8 (LogEntry_json e) = true) as Hu.
  { destruct (json_utf8 (LogEntry_json e)) eqn:Hu; [done|]. by rewrite (dump_invalid _ Hu) in E. }
  apply dump_utf8 in E.
  assert (LogEntry_json e = JObj [("command", JStr (le_command e)); ("index", JInt (le_index e)); ("key", JStr (le_key e));
    ("op", JInt (op_to_int (le_opType e))); ("term", JInt (le_term e)); ("ttl_ms", JInt (le_ttl_ms e)); ("value", JStr (le_value e))]%string) as Hl
    by reflexivity.
  rewrite Hl in Hu. cbn [json_utf8 forallb fst snd] in Hu. rewrite !andb_true_iff in Hu. tauto.
Qed.

Lemma Propose_begin_typed k v op ttl : op_ok op -> is_i64 ttl -> node_op (Propose_begin k v op ttl) (fun _ => True).
Proof.
  intros Ho Httl. unfold Propose_begin. typed_tac; try done.
  refine (typed_bind _ (fun s => LogEntry_Serialize (mkLogEntry (currentTerm_ a) (u64 (LastIndex (log_ a) + 1)) op k v ttl "") = Ok s) _ _ _ _ _);
    [by apply typed_lift|]. intros s Hs. apply LogEntry_Serialize_utf8 in Hs as (? & ? & ?).
  refine (typed_bind _ (fun _ => True) _ _ _ _ _); [|intros _ _; by typed_tac]. apply withLog_typed, Append_typed. unfold LogEntry_ok. simpl.
  split_and!; eauto with typing.
Qed.

Lemma MaybeSnapshot_typed now : node_op (MaybeSnapshot now) (fun _ => True).
Proof.
  unfold MaybeSnapshot. typed_tac; try done. refine (typed_bind _ snapshot_typed _ _ _ _ _).
  { apply typed_lift. intros snap. apply TakeSnapshot_typed. by apply nt_store. }
  intros snap Hsnap. cbv zeta. refine (typed_bind _ (fun _ => True) _ _ _ _ _); [apply withLog_typed, journal_write_typed; split_and!; eauto with typing|intros _ _].
  apply withLog_typed. typed_tac. intros l Hl. apply SetSnapshot_typed; eauto with typing.
Qed.

Lemma recover_entries_typed raws : Forall raw_typed raws -> node_op (recover_entries raws) (fun _ => True).
Proof.
  induction 1 as [|raw raws (e & He & _ & _ & Es) _ IH]; cbn [recover_entries]; [by typed_tac|].
  destruct (LogEntry_Serialize_ok e He) as (s & Es' & _ & Ed & _). rewrite Es in Es'. injection Es' as <-. rewrite Ed.
  refine (typed_bind _ LogEntry_ok _ _ _ _ _); [apply typed_lift; by intros ? [= <-]|]. intros x Hx.
  refine (typed_bind _ (fun _ => True) _ _ _ _ _); [by apply withLog_typed, Append_typed|done].
Qed.

Lemma recover_node_typed clock r : recovery_typed r -> node_op (recover_node clock r) (fun _ => True).
Proof.
  intros [He Ht Hv Hsi Hst Hsnap]. unfold recover_node. typed_tac; eauto with typing.
  refine (typed_bind _ (fun _ => True) _ _ _ _ _); [|intros _ _; by apply recover_entries_typed].
  destruct (rr_latestSnapshot r) as [snap|]; [|by typed_tac]. specialize (Hsnap snap eq_refl).
  refine (typed_bind _ (fun _ => True) _ _ _ _ _).
  { intros n Hn. destruct (RestoreSnapshot_typed clock snap (store_ n) Hsnap (nt_store n Hn)) as (s & -> & Hs). split; [simpl; eauto with typing|done]. }
  intros _ _. refine (typed_bind _ (fun _ => True) _ _ _ _ _); [|intros _ _; typed_tac; eauto with typing].
  apply withLog_typed. typed_tac. intros l Hl. by apply SetSnapshot_typed.
Qed.

Lemma RaftNode_new_typed config store j clock now : utf8_valid (cfg_nodeId config) = true -> store_typed store -> Forall record_typed j ->
  node_typed (RaftNode_new config store (Some j) clock now).1.
Proof.
  intros Hid Hst Hj. unfold RaftNode_new.
  assert (node_typed (RaftNode_init config store (Some j))) as H0.
  { split; try done; try apply map_Forall_empty. split; try done; [|by intros ? [= <-]]. apply Forall_singleton. by apply sentinel_ok. }
  match goal with |- node_typed (?m ?n).1 => enough (node_op m (fun _ => True)) as H by (by apply H) end.
  refine (typed_bind _ (fun _ => True) _ _ _ _ _); [by apply recover_node_typed, replay_typed|intros _ _]. typed_tac. eauto with typing.
Qed.
End NodeTyping.

(** ** The cluster *)

(** The payload of a message survives the wire: it serialises, and the other
    end reads back the value that was sent. *)
Definition crosses_wire `{JsonLib} (m : Msg) : Prop :=
  match m with
  | MVoteReq _ _ req => exists s, RequestVoteRequest_Serialize req = Ok s /\ RequestVoteRequest_Deserialize s = Ok req
  | MVoteResp _ _ _ resp => exists s, RequestVoteResponse_Serialize resp = Ok s /\ RequestVoteResponse_Deserialize s = Ok resp
  | MAppendReq _ _ req => exists s, AppendEntriesRequest_Serialize req = Ok s /\ AppendEntriesRequest_Deserialize s = Ok req
  | MAppendResp _ _ _ resp => exists s, AppendEntriesResponse_Serialize resp = Ok s /\ AppendEntriesResponse_Deserialize s = Ok resp
  end.

Definition msg_typed (m : Msg) : Prop :=
  match m with
  | MVoteReq _ _ req => RequestVoteRequest_ok req
  | MVoteResp _ _ _ resp => is_u64 (vr_term resp)
  | MAppendReq _ _ req => AppendEntriesRequest_ok req
  | MAppendResp _ _ _ resp => AppendEntriesResponse_ok resp
  end.

Record typed_cluster `{JsonLib} (c : Cluster) : Prop := {
  tc_nodes : map_Forall (fun _ n => node_typed n) (nodes c);
  tc_applying : map_Forall (fun _ a => is_u64 (ap_next a) /\ LogEntry_ok (ap_entry a)) (applying c);
  tc_net : Forall msg_typed (net c);
}.

Section ClusterTyping.
Context {J : JsonLib} {L : JsonLaws J}.
Variable members : list string.
Variable cfg : string -> RaftConfig.
Hypothesis config_ok : cluster_config members cfg.

Lemma msg_typed_crosses m : msg_typed m -> crosses_wire m.
Proof.
  destruct m; simpl; [apply RequestVoteRequest_rt|apply RequestVoteResponse_rt|apply AppendEntriesRequest_rt|apply AppendEntriesResponse_rt].
Qed.

Lemma set_node_typed i n c : node_typed n -> typed_cluster c -> typed_cluster (set_node i n c).
Proof. intros Hn Hc. retype Hc. by apply map_Forall_insert_2. Qed.
Lemma set_election_typed i e c : typed_cluster c -> typed_cluster (set_election i e c).
Proof. intros Hc. retype Hc. Qed.
Lemma set_call_typed i q c : typed_cluster c -> typed_cluster (set_call i q c).
Proof. intros Hc. retype Hc. Qed.
Lemma set_applying_typed i a c : (forall x, a = Some x -> is_u64 (ap_next x) /\ LogEntry_ok (ap_entry x)) -> typed_cluster c -> typed_cluster (set_applying i a c).
Proof.
  intros Ha Hc. retype Hc. destruct a as [a|]; [apply map_Forall_insert_2; auto|by apply map_Forall_delete].
Qed.
Lemma send_typed ms c : Forall msg_typed ms -> typed_cluster c -> typed_cluster (send ms c).
Proof. intros Hm Hc. retype Hc. by apply Forall_app. Qed.
Lemma record_vote_typed v t d c : typed_cluster c -> typed_cluster (record_vote v t d c).
Proof. intros Hc. retype Hc. Qed.

Lemma node_at c i n : typed_cluster c -> nodes c !! i = Some n -> node_typed n.
Proof. intros Hc. apply (tc_nodes c Hc). Qed.
Lemma msg_in c m : typed_cluster c -> m ∈ net c -> msg_typed m.
Proof. intros Hc. apply Forall_forall, (tc_net c Hc). Qed.

(** A typed operation, run from a typed node. *)
Lemma typed_run {A} (m : M RaftNode A) Q n n' r : typed node_typed m Q -> node_typed n -> m n = (n', r) ->
  node_typed n' /\ forall a, r = Ok a -> Q a.
Proof. intros Hm Hn E. specialize (Hm n Hn). by rewrite E in Hm. Qed.

#[local] Hint Resolve set_node_typed set_election_typed set_applying_typed set_call_typed send_typed record_vote_typed : typing.

Lemma member_id i : i ∈ members -> utf8_valid (cfg_nodeId (cfg i)) = true.
Proof. intros Hi. destruct (proj2 config_ok i Hi) as (_ & Hu & -> & _). done. Qed.

Lemma step_typed f c c' : cluster_inv members cfg c -> typed_cluster c -> step cfg f c c' -> typed_cluster c'.
Proof.
  intros I Hc [i n n' req now Hn _ _ _ Hr|i n n' from req resp now Hn Hm Hr c1|i n n' e p rest o stop v now Hn _ _ Ho Hr|i n e Hn _ _|
    i n p req Hn _ _ Hr|i n n' from req r now Hn Hm Hr|i n p req resp now Hn _ Hm _|i n q Hn _|i n k v op ttl Hn Hop Httl|i n now key expected value _ Hn Hv|i n next e Hn _ Hf|
    i n a now Hn Ha _|i n a Hn Ha _|i n now Hn _|i n n' j clock now _ Hn Hj Hr]; pose proof (node_at c i n Hc Hn) as Tn.
  - destruct (typed_run _ _ _ _ _ (StartElection_begin_typed now) Tn Hr) as [Tn' Tq]. apply record_vote_typed, send_typed; [|eauto with typing].
    apply Forall_fmap, Forall_true. intros p. exact (Tq req eq_refl).
  - destruct (typed_run _ _ _ _ _ (HandleRequestVote_typed now req (msg_in c _ Hc Hm)) Tn Hr) as [Tn' Tr].
    assert (typed_cluster c1). { apply send_typed; [|eauto with typing]. apply Forall_singleton. exact (Tr resp eq_refl). }
    destruct (vr_voteGranted resp); [by apply record_vote_typed|done].
  - assert (forall resp, o = Some resp -> is_u64 (vr_term resp)) as To by (intros resp E; destruct (Ho resp E) as (req & _ & Hm); exact (msg_in c _ Hc Hm)).
    destruct (typed_run _ _ _ _ _ (StartElection_turn_typed now (el_term e) o To) Tn Hr) as [Tn' _]. eauto with typing.
  - apply set_election_typed, set_node_typed; [|done]. by apply (StartElection_finish_typed (el_term e) (el_votes e)).
  - apply set_call_typed, send_typed; [|done]. apply Forall_singleton. exact (prepare_typed p n req Tn Hr).
  - destruct (typed_run _ _ _ _ _ (HandleAppendEntries_typed now req (msg_in c _ Hc Hm)) Tn Hr) as [Tn' Tr].
    apply send_typed; [|eauto with typing]. destruct r as [resp|]; [|constructor]. apply Forall_singleton. exact (Tr resp eq_refl).
  - apply set_call_typed, set_node_typed; [|done]. by apply (ReplicateToPeer_response_typed now p req resp (msg_in c _ Hc Hm)).
  - by apply set_call_typed.
  - apply set_node_typed; [|done]. by apply (Propose_begin_typed k v op ttl).
  - apply set_node_typed; [|done]. apply set_store_typed; [|done]. apply CAS_typed; [done|by apply nt_store].
  - apply set_applying_typed; [|done]. intros x [= <-]. simpl. unfold ApplyLoop_fetch in Hf. case_if_in Hf; [|done].
    destruct (GetEntry _ _) as [x|] eqn:Ex; [|done]. injection Hf as <- <-. split; [apply is_u64_u64|]. by apply (GetEntry_typed _ _ _ (nt_log n Tn)) in Ex.
  - destruct (tc_applying c Hc i a Ha) as [? He]. apply set_applying_typed; [by intros x [= <-]|]. apply set_node_typed; [|done].
    apply set_store_typed; [|done]. apply ApplyEntry_typed; [done|by apply nt_store].
  - destruct (tc_applying c Hc i a Ha) as [? _]. apply set_applying_typed; [done|]. apply set_node_typed; [|done]. by apply set_applied_typed.
  - apply set_node_typed; [|done]. by apply (MaybeSnapshot_typed now).
  - pose proof (RaftNode_new_typed (cfg i) KVStore_new j clock now (member_id i (proj1 (inv_node _ _ c I i n Hn))) KVStore_new_typed (lt_wal _ (nt_log n Tn) j Hj)) as Tn'. rewrite Hr in Tn'.
    apply set_call_typed, set_applying_typed; [done|]. eauto with typing.
Qed.

Lemma init_typed c : cluster_init members cfg c -> typed_cluster c.
Proof.
  intros (Hd & Hn & _ & Ha & _ & Hm & _). split; [|by rewrite Ha|by rewrite Hm].
  intros i n Hi. destruct (Hn i n Hi) as (clock & now & ->). apply RaftNode_new_typed; [|apply KVStore_new_typed|done]. apply member_id, Hd. by eexists.
Qed.

Lemma reachable_typed c : reachable members cfg c -> typed_cluster c.
Proof.
  intros (c0 & Hi & Hr). pose proof (init_inv _ _ config_ok _ Hi) as I. apply init_typed in Hi.
  induction Hr as [c|c c1 c2 Hs _ IH]; [done|]. apply IH; [by eapply step_typed|by eapply step_inv].
Qed.

(** A typed journal can always be started from. *)
Lemma recover_entries_ok raws : Forall raw_typed raws -> forall n, exists n', recover_entries raws n = (n', Ok tt).
Proof.
  induction 1 as [|raw raws (e & He & _ & _ & Es) _ IH]; intros n; cbn [recover_entries]; [by eexists|].
  destruct (LogEntry_Serialize_ok e He) as (s & Es' & _ & Ed & _). rewrite Es in Es'. injection Es' as <-. rewrite Ed, bind_lift_Ok.
  erewrite bind_run; [apply IH|]. unfold withLog. by rewrite (Append_ok e _ He).
Qed.

Lemma restart_ok config store j clock now : store_typed store -> Forall record_typed j ->
  exists n', RaftNode_new config store (Some j) clock now = (n', Ok tt).
Proof.
  intros Hst Hj. destruct (replay_typed j Hj) as [He _ _ _ _ Hs]. unfold RaftNode_new, recover_node. set (r := replay j) in *.
  set (n0 := set_votedFor (hs_votedFor (rr_hardState r)) (set_term (hs_term (rr_hardState r)) (RaftNode_init config store (Some j)))).
  assert (forall n, exists n', (recover_entries (rr_entries r);; modify (set_heartbeat now)) n = (n', Ok tt)) as Hgo.
  { intros n. destruct (recover_entries_ok _ He n) as [n' E]. erewrite bind_run; [by eexists|exact E]. }
  destruct (rr_latestSnapshot r) as [snap|].
  - destruct (RestoreSnapshot_typed clock snap (store_ n0) (Hs snap eq_refl) Hst) as (s' & Er & _).
    destruct (Hgo (set_commit (rr_snapshotIndex r) (set_applied (rr_snapshotIndex r) (set_log (SetSnapshot (rr_snapshotIndex r) (rr_snapshotTerm r) (log_ n0)) (set_store s' n0)))))
      as [n' E]. exists n'. rewrite <- E. unfold mbind, M_bind, modify, withLog. cbn -[RestoreSnapshot recover_entries SetSnapshot]. cbn -[recover_entries SetSnapshot] in Er. by rewrite Er.
  - destruct (Hgo n0) as [n' E]. exists n'. rewrite <- E. done.
Qed.
End ClusterTyping.

(** C16: the state of consensus is typed, always.  After any interleaving of
    elections, votes, replication, late responses, client requests,
    compare-and-swap, snapshots and restarts: of every node the term, the indices,
    the vote, the leader, the log, the journal (the fields and the text of every
    entry, the hard states, the snapshots) and the store (keys, values, versions,
    indices, deadlines) have 64-bit numbers in the range of their type and strings
    that are UTF-8; every message on the network serialises and is read back by
    the other end as it was sent; and a node that stops starts again from its
    journal without an error.  (The clock readings [lastHeartbeat_], [createdAt]
    and [updatedAt] are arguments of the model and are not constrained.) *)
Theorem cluster_typed {J : JsonLib} {L : JsonLaws J} members cfg c :
  cluster_config members cfg -> reachable members cfg c ->
  map_Forall (fun _ n => node_typed n) (nodes c) /\
  Forall crosses_wire (net c) /\
  forall i n j clock now, nodes c !! i = Some n -> wal_ (log_ n) = Some j ->
    exists n', RaftNode_new (cfg i) KVStore_new (Some j) clock now = (n', Ok tt).
Proof.
  intros Hid Hr. apply reachable_typed in Hr as [Hn Ha Hm]; [|done]. split_and!; [done|by eapply Forall_impl, msg_typed_crosses|].
  intros i n j clock now Hi Hj. apply restart_ok; [apply KVStore_new_typed|]. exact (lt_wal _ (nt_log n (Hn i n Hi)) j Hj).
Qed.

#[local] Existing Instances RefJson RefJson_laws.

Definition ex_leader_wal : journal := default [] (wal_ (log_ ex_leader)).

Lemma ex_leader_at : nodes ex_c5 !! "n1"%string = Some ex_leader.
Proof. by vm_compute. Qed.
Lemma ex_leader_journal : wal_ (log_ ex_leader) = Some ex_leader_wal /\ rr_latestSnapshot (replay ex_leader_wal) = None.
Proof. by vm_compute. Qed.
Lemma ex_req_sent : MVoteReq "n1" "n2" ex_req ∈ net ex_c5.
Proof. vm_compute. left. Qed.

Lemma cluster_typed_witness :
  node_typed ex_leader /\ crosses_wire (MVoteReq "n1" "n2" ex_req) /\
  exists n', RaftNode_new (ex_cfg "n1") KVStore_new (Some ex_leader_wal) (fun _ => 0) 9 = (n', Ok tt).
Proof.
  destruct (cluster_typed ex_members ex_cfg ex_c5 ex_config_ok ex_reachable) as (Hn & Hm & Hr).
  split; [exact (Hn "n1"%string ex_leader ex_leader_at)|]. split; [exact (proj1 (Forall_forall _ _) Hm _ ex_req_sent)|].
  exact (Hr "n1"%string ex_leader ex_leader_wal (fun _ => 0) 9 ex_leader_at (proj1 ex_leader_journal)).
Defined.
