(* ===== verification/RaftSolo.v ===== *)
(** * A cluster of one node

    [AdvanceCommitIndex] is called when a peer has answered, and only then.  A
    node without peers elects itself, appends, and commits nothing: this holds
    in every state it can reach, and no proposal on it ever succeeds. *)
From S2P Require Import Prelude CxxString CxxMap Json KVStore RaftRPC WriteAheadLog RaftLog RaftNode RaftCluster RaftReplication.
From Stdlib Require Import ZArith Lia Ascii String.
From stdpp Require Import prelude gmap strings sorting relations.
#[local] Open Scope Z_scope.

(** ** Nothing is committed *)

Definition no_snapshot_above (r : WalRecord) : Prop :=
  match r with RecSnapshot index _ _ => index = 0 | _ => True end.

Definition idle_log (l : RaftLog) : Prop := forall j, wal_ l = Some j -> Forall no_snapshot_above j.

Record idle_node (n : RaftNode) : Prop := {
  id_commit : commitIndex_ n = 0;
  id_applied : lastApplied_ n = 0;
  id_log : idle_log (log_ n);
}.

#[local] Ltac reidle H := destruct H; split; cbn in *; try done; auto.

Section Idle.
Context {J : JsonLib} {L : JsonLaws J}.

Lemma journal_write_idle r : no_snapshot_above r -> typed idle_log (journal_write r) (fun _ => True).
Proof.
  intros Hr l Hl. unfold journal_write. destruct (wal_ l) as [j|] eqn:Ej; [|done]. destruct (dump _); [|done]. split; [|done].
  intros j' [= <-]. apply Forall_app. split; [by apply Hl|]. by apply Forall_singleton.
Qed.

Lemma Append_idle e : typed idle_log (Append e) (fun _ => True).
Proof.
  unfold Append. typed_tac; [done|]. intros l Hl. unfold journal_entry. destruct (wal_ l); [|done]. revert l Hl.
  change (typed idle_log (command ← lift (LogEntry_Serialize e); journal_write (RecLogEntry (mkRawLogEntry (le_term e) (le_index e) command))) (fun _ => True)).
  refine (typed_bind _ (fun _ => True) _ _ _ _ _); [by apply typed_lift|]. intros s _. by apply journal_write_idle.
Qed.

Lemma withLog_idle {A} (m : M RaftLog A) : typed idle_log m (fun _ => True) -> typed idle_node (withLog m) (fun _ => True).
Proof.
  intros Hm n Hn. unfold withLog. destruct (Hm (log_ n) (id_log n Hn)) as [Hl _]. destruct (m (log_ n)) as [l r]. split; [|done]. reidle Hn.
Qed.

Lemma PersistHardState_idle : typed idle_node PersistHardState (fun _ => True).
Proof. unfold PersistHardState. typed_tac. by apply withLog_idle, journal_write_idle. Qed.

Lemma StartElection_begin_idle now : typed idle_node (StartElection_begin now) (fun _ => True).
Proof.
  unfold StartElection_begin. typed_tac; try (by intros s Hs; reidle Hs).
  refine (typed_bind _ (fun _ => True) _ _ _ PersistHardState_idle _). intros _ _. cbv zeta. typed_tac; [|done]. intros s Hs. reidle Hs.
Qed.

Lemma init_peers_idle i ps : forall n, idle_node n -> idle_node (init_peers i ps n).
Proof. induction ps as [|p ps IH]; intros n Hn; cbn [init_peers]; [done|]. apply IH. reidle Hn. Qed.

Lemma StartElection_finish_idle t v : typed idle_node (StartElection_finish t v) (fun _ => True).
Proof.
  unfold StartElection_finish, BecomeLeader. typed_tac; try done; try (by intros s Hs; reidle Hs); [intros; by apply init_peers_idle|].
  refine (typed_bind _ (fun _ => True) _ _ _ _ _); [by apply typed_lift|intros e _; apply withLog_idle, Append_idle].
Qed.

Lemma Propose_begin_idle k v op ttl : typed idle_node (Propose_begin k v op ttl) (fun _ => True).
Proof.
  unfold Propose_begin. typed_tac; try done. refine (typed_bind _ (fun _ => True) _ _ _ _ _); [by apply typed_lift|intros s _].
  refine (typed_bind _ (fun _ => True) _ _ _ _ _); [apply withLog_idle, Append_idle|intros _ _; by typed_tac].
Qed.

(** A snapshot is taken of what was applied: of nothing. *)
Lemma MaybeSnapshot_idle now : typed idle_node (MaybeSnapshot now) (fun _ => True).
Proof.
  unfold MaybeSnapshot. refine (typed_bind _ _ _ _ _ (typed_getS _) _). intros n Hn. case_if; [|by typed_tac].
  refine (typed_bind _ (fun _ => True) _ _ _ _ _); [by apply typed_lift|intros snap _]. cbv zeta.
  refine (typed_bind _ (fun _ => True) _ _ _ _ _); [apply withLog_idle, journal_write_idle, Hn|intros _ _].
  apply withLog_idle. typed_tac. done.
Qed.

Lemma replay_idle j : Forall no_snapshot_above j -> rr_snapshotIndex (replay j) = 0.
Proof.
  intros Hj. unfold replay. apply fold_left_invariant; [|done]. intros res r Hr Hres. rewrite Forall_forall in Hj. specialize (Hj r Hr).
  by destruct r.
Qed.

Lemma recover_entries_idle raws : typed idle_node (recover_entries raws) (fun _ => True).
Proof.
  induction raws as [|raw raws IH]; cbn [recover_entries]; [by typed_tac|].
  refine (typed_bind _ (fun _ => True) _ _ _ _ _); [by apply typed_lift|intros e _].
  refine (typed_bind _ (fun _ => True) _ _ _ _ _); [apply withLog_idle, Append_idle|done].
Qed.

Lemma recover_node_idle clock r : rr_snapshotIndex r = 0 -> typed idle_node (recover_node clock r) (fun _ => True).
Proof.
  intros Hi. unfold recover_node. rewrite Hi. typed_tac; try (by intros s Hs; reidle Hs).
  refine (typed_bind _ (fun _ => True) _ _ _ _ _); [|intros _ _; apply recover_entries_idle].
  destruct (rr_latestSnapshot r) as [snap|]; [|by typed_tac].
  refine (typed_bind _ (fun _ => True) _ _ _ _ _).
  { intros n Hn. destruct (RestoreSnapshot clock snap (store_ n)) as [s x]. split; [reidle Hn|done]. }
  intros _ _. refine (typed_bind _ (fun _ => True) _ _ _ _ _); [apply withLog_idle; by typed_tac|intros _ _].
  typed_tac; intros s Hs; reidle Hs.
Qed.

Lemma RaftNode_new_idle config store j clock now : Forall no_snapshot_above j -> idle_node (RaftNode_new config store (Some j) clock now).1.
Proof.
  intros Hj. unfold RaftNode_new. match goal with |- idle_node (?m ?n).1 => enough (typed idle_node m (fun _ => True)) as H end.
  { apply H. split; try done. by intros ? [= <-]. }
  refine (typed_bind _ (fun _ => True) _ _ _ _ _); [by apply recover_node_idle, replay_idle|intros _ _]. typed_tac. intros s Hs. reidle Hs.
Qed.
End Idle.

(** ** The cluster *)

Record solo_inv (c : Cluster) : Prop := {
  so_nodes : map_Forall (fun _ n => idle_node n) (nodes c);
  so_applying : applying c = ∅;
  so_net : net c = [];
}.

Section Solo.
Context {J : JsonLib} {L : JsonLaws J}.
Variable i : string.
Variable cfg : string -> RaftConfig.
Hypothesis config_ok : cluster_config [i] cfg.

Lemma solo_no_peers c k n : cluster_inv [i] cfg c -> nodes c !! k = Some n -> peer_ids n = [].
Proof.
  intros I Hn. destruct (inv_peers [i] cfg config_ok c k n I Hn) as [Hp _]. apply Permutation_length in Hp. simpl in Hp.
  destruct (peer_ids n); [done|]. simpl in Hp. lia.
Qed.

Lemma solo_set_node k n c : idle_node n -> solo_inv c -> solo_inv (set_node k n c).
Proof. intros Hn Hc. reidle Hc. by apply map_Forall_insert_2. Qed.

Lemma solo_step f c c' : cluster_inv [i] cfg c -> solo_inv c -> step cfg f c c' -> solo_inv c'.
Proof.
  intros I Hc Hs. pose proof (so_net c Hc) as Hnet. pose proof (so_applying c Hc) as Hap.
  destruct Hs as [k n n' req now Hn _ _ _ Hr|k n n' from req resp now Hn Hm|k n n' e p rest o stop v now Hn _ _ Ho Hr|k n e Hn _ _|
    k n p req Hn _ Hp _|k n n' from req r now Hn Hm _|k n p req resp now Hn _ Hm _|k n q Hn _|k n x v op ttl Hn _ _|
    k n now key expected value _ Hn _|k n next e Hn _ Hf|
    k n a now Hn Ha _|k n a Hn Ha _|k n now Hn _|k n n' j clock now _ Hn Hj Hr];
    pose proof (so_nodes c Hc k n Hn) as Tn; try (rewrite Hnet in Hm; by apply not_elem_of_nil in Hm);
    try (rewrite Hap, lookup_empty in Ha; done).
  - pose proof (StartElection_begin_idle now n Tn) as [Tn' _]. rewrite Hr in Tn'. rewrite (solo_no_peers c k n I Hn).
    pose proof (solo_set_node k n' c Tn' Hc) as Hc'. reidle Hc'. by rewrite app_nil_r.
  - destruct o as [resp|]; [destruct (Ho resp eq_refl) as (req & _ & Hm); rewrite Hnet in Hm; by apply not_elem_of_nil in Hm|].
    injection Hr as <- _ _. pose proof (solo_set_node k n c Tn Hc) as Hc'. by reidle Hc'.
  - pose proof (solo_set_node k _ c (proj1 (StartElection_finish_idle (el_term e) (el_votes e) n Tn)) Hc) as Hc'. by reidle Hc'.
  - rewrite (solo_no_peers c k n I Hn) in Hp. by apply not_elem_of_nil in Hp.
  - by reidle Hc.
  - apply solo_set_node; [|done]. by apply (Propose_begin_idle x v op ttl).
  - apply solo_set_node; [|done]. reidle Tn.
  - unfold ApplyLoop_fetch in Hf. rewrite (id_commit n Tn), (id_applied n Tn) in Hf. done.
  - apply solo_set_node; [|done]. by apply (MaybeSnapshot_idle now).
  - pose proof (RaftNode_new_idle (cfg k) KVStore_new j clock now (id_log n Tn j Hj)) as Tn'. rewrite Hr in Tn'.
    pose proof (solo_set_node k n' c Tn' Hc) as Hc'. destruct Hc' as [? Ha' ?]. split; [done| |done]. cbn in *. by rewrite Ha', delete_empty.
Qed.

Lemma solo_reachable c : reachable [i] cfg c -> solo_inv c.
Proof.
  intros (c0 & Hi & Hr). pose proof (init_inv _ _ config_ok _ Hi) as I.
  assert (solo_inv c0) as S0.
  { destruct Hi as (_ & Hn & _ & Ha & _ & Hm & _). split; [|done|done]. intros k n Hk. destruct (Hn k n Hk) as (clock & now & ->).
    by apply RaftNode_new_idle. }
  clear Hi. induction Hr as [c|c c1 c2 Hs _ IH]; [done|]. apply IH; [by eapply step_inv|by eapply solo_step].
Qed.
End Solo.

(** C26: a cluster of one node accepts no write.  Whatever such a node does, with
    elections, client requests, compare-and-swap, snapshots and restarts, it commits and applies
    nothing; a proposal that waits on it, at any index, is never answered with
    success. *)
Theorem solo_never_commits {J : JsonLib} {L : JsonLaws J} i cfg c n :
  cluster_config [i] cfg -> reachable [i] cfg c -> nodes c !! i = Some n ->
  commitIndex_ n = 0 /\ lastApplied_ n = 0 /\ forall index, 1 <= index -> pr_ok (Propose_finish index n) = false.
Proof.
  intros Hcfg Hr Hn. destruct (so_nodes c (solo_reachable i cfg Hcfg c Hr) i n Hn) as [Hc Ha _]. split_and!; [done|done|].
  intros index Hi. unfold Propose_finish. rewrite Ha. replace (index <=? 0) with false by lia. cbn [orb].
  by destruct (bool_decide (role_ n <> Leader)).
Qed.

(** ** Witness *)

Section SoloExample.
#[local] Existing Instances RefJson RefJson_laws.
#[local] Open Scope string_scope.
#[local] Open Scope Z_scope.

(** The node elects itself and takes a proposal. *)
Definition ex_solo_cfg (i : string) : RaftConfig := mkRaftConfig i [] 2380 100 200 50 50 10000.
Definition ex_solo_new : RaftNode := (RaftNode_new (ex_solo_cfg "solo") KVStore_new (Some []) (fun _ => 0) 0).1.
Definition ex_solo_c0 : Cluster := mkCluster {["solo" := ex_solo_new]} ∅ ∅ ∅ [] [].
Definition ex_solo_n1 : RaftNode := (StartElection_begin 200 ex_solo_new).1.
Definition ex_solo_c1 : Cluster :=
  record_vote "solo" 1 "solo" (send [] (set_election "solo" (Some (mkElection 1 [] 1 ["solo"])) (set_node "solo" ex_solo_n1 ex_solo_c0))).
Definition ex_solo_leader : RaftNode := (StartElection_finish 1 1 ex_solo_n1).1.
Definition ex_solo_c2 : Cluster := set_election "solo" None (set_node "solo" ex_solo_leader ex_solo_c1).
Definition ex_solo_n3 : RaftNode := (Propose_begin "mykey" "hello" OpPut (-1) ex_solo_leader).1.
Definition ex_solo_c3 : Cluster := set_node "solo" ex_solo_n3 ex_solo_c2.

Lemma ex_solo_config : cluster_config ["solo"] ex_solo_cfg.
Proof.
  split; [apply NoDup_singleton|]. intros i ->%list_elem_of_singleton. by split_and!.
Qed.

Lemma ex_solo_steps : rtc (step ex_solo_cfg all_faults) ex_solo_c0 ex_solo_c3.
Proof.
  eapply rtc_l; [refine (st_election ex_solo_cfg _ ex_solo_c0 "solo" ex_solo_new ex_solo_n1 (mkRequestVoteRequest 1 "solo" 0 0) 200 _ _ _ _ _); by vm_compute|].
  eapply rtc_l; [refine (st_election_end ex_solo_cfg _ ex_solo_c1 "solo" ex_solo_n1 (mkElection 1 [] 1 ["solo"]) _ _ _); by vm_compute|].
  apply rtc_once. refine (st_propose ex_solo_cfg _ ex_solo_c2 "solo" ex_solo_leader "mykey" "hello" OpPut (-1) _ _ _); [by vm_compute|done|].
  unfold is_i64. lia.
Qed.

Lemma ex_solo_reachable : reachable ["solo"] ex_solo_cfg ex_solo_c3.
Proof.
  exists ex_solo_c0. split; [|apply ex_solo_steps]. split_and!; try done.
  - intros k. unfold ex_solo_c0. cbn [nodes]. rewrite lookup_singleton_is_Some, list_elem_of_singleton. naive_solver.
  - intros k n. unfold ex_solo_c0. cbn [nodes]. rewrite lookup_singleton_Some. intros [<- <-]. by eexists _, _.
Qed.

Lemma ex_solo_at : nodes ex_solo_c3 !! "solo" = Some ex_solo_n3.
Proof. by vm_compute. Qed.

(** The leader with the entry in its log waits in vain. *)
Lemma solo_never_commits_witness :
  role_ ex_solo_n3 = Leader /\ LastIndex (log_ ex_solo_n3) = 2 /\ pr_ok (Propose_finish 2 ex_solo_n3) = false.
Proof.
  destruct (solo_never_commits "solo" ex_solo_cfg ex_solo_c3 ex_solo_n3 ex_solo_config ex_solo_reachable ex_solo_at) as (_ & _ & Hf).
  split_and!; [by vm_compute|by vm_compute|exact (Hf 2 ltac:(lia))].
Defined.
End SoloExample.
