(* ===== verification/RaftThreads.v ===== *)
(** * The threads of a node (src/raft/RaftNode.cpp: Start, Stop and the loops)

    [ElectionLoop], [ReplicationLoop] and [ApplyLoop] as state machines over the
    node, together with their owner, who calls [Start] and [Stop], and with the
    RPC handlers and clients, who change the node meanwhile.  An action is a
    stretch of code between two points where another thread can interfere.  A
    wait on a condition variable has two such points: the predicate was false
    but the thread is not waiting yet ([..Park]), and it waits ([..Blocked]).
    The thread holds [mu_] from the one to the other; [Stop] does not take it, so
    its store and its notifications can fall between them.  What a loop does with
    the lock released ([StartElection], [SendHeartbeatsToAll], a pass of
    [ApplyLoop]) is one action here; [RaftCluster] interleaves their sections.

    The theorems: [Stop] returns, with all threads joined, after a bounded
    number of actions, unless it falls into the window of an untimed wait, in
    which case it can wait for good; and a node that hears from no leader starts
    an election, not before the shortest timeout, and at its next turn once the
    longest is over. *)
From S2P Require Import Prelude CxxString CxxMap Json KVStore RaftRPC WriteAheadLog RaftLog RaftNode.
From Stdlib Require Import ZArith Lia Ascii String.
From stdpp Require Import prelude gmap strings.
#[local] Open Scope Z_scope.

(** ** Program counters *)

Inductive ElectionPc : Type :=
| ElNone
| ElLoop (* while (running_) *)
| ElTest (* the predicate of wait_for *)
| ElPark
| ElBlocked
| ElAfter (* if (!running_) break; *)
| ElLeaderTest (* the predicate of the leader's wait *)
| ElLeaderPark
| ElLeaderBlocked
| ElElection (* StartElection() *)
| ElDone. (* returned, not joined *)

Inductive ReplicationPc : Type := RepNone | RepLoop | RepSleep | RepSend | RepDone.

Inductive ApplyPc : Type := ApNone | ApLoop | ApTest | ApPark | ApBlocked | ApAfter | ApPass | ApDone.

(** [Stop], after its exchange. *)
Inductive StopPc : Type :=
| StOutside | StNotifyElection | StNotifyApply | StNotifyPropose | StJoinElection | StJoinReplication | StJoinApply.

#[global] Instance ElectionPc_eq_dec : EqDecision ElectionPc.
Proof. solve_decision. Defined.
#[global] Instance ReplicationPc_eq_dec : EqDecision ReplicationPc.
Proof. solve_decision. Defined.
#[global] Instance ApplyPc_eq_dec : EqDecision ApplyPc.
Proof. solve_decision. Defined.
#[global] Instance StopPc_eq_dec : EqDecision StopPc.
Proof. solve_decision. Defined.

(** [electionTimeout] is the local of [ElectionLoop], in milliseconds, and
    [electionDeadline] the time, in nanoseconds, at which its timed wait ends
    ([wait_for] adds the timeout to the clock when it is called); [aborted] is the end of the
    process, by an exception that leaves a thread or by a thread assigned over a
    joinable one. *)
Record Threads := mkThreads {
  node : RaftNode;
  running_ : bool;
  electionTimeout : Z;
  electionDeadline : Z;
  electionThread_ : ElectionPc;
  replicationThread_ : ReplicationPc;
  applyThread_ : ApplyPc;
  stopping : StopPc;
  aborted : bool;
}.

Definition Threads_new (n : RaftNode) : Threads := mkThreads n false 0 0 ElNone RepNone ApNone StOutside false.

Definition set_election_pc (p : ElectionPc) (t : Threads) : Threads :=
  mkThreads (node t) (running_ t) (electionTimeout t) (electionDeadline t) p (replicationThread_ t) (applyThread_ t) (stopping t) (aborted t).
Definition set_replication_pc (p : ReplicationPc) (t : Threads) : Threads :=
  mkThreads (node t) (running_ t) (electionTimeout t) (electionDeadline t) (electionThread_ t) p (applyThread_ t) (stopping t) (aborted t).
Definition set_apply_pc (p : ApplyPc) (t : Threads) : Threads :=
  mkThreads (node t) (running_ t) (electionTimeout t) (electionDeadline t) (electionThread_ t) (replicationThread_ t) p (stopping t) (aborted t).
Definition set_stopping (p : StopPc) (t : Threads) : Threads :=
  mkThreads (node t) (running_ t) (electionTimeout t) (electionDeadline t) (electionThread_ t) (replicationThread_ t) (applyThread_ t) p (aborted t).
Definition put_node (n : RaftNode) (t : Threads) : Threads :=
  mkThreads n (running_ t) (electionTimeout t) (electionDeadline t) (electionThread_ t) (replicationThread_ t) (applyThread_ t) (stopping t) (aborted t).
Definition set_running (b : bool) (t : Threads) : Threads :=
  mkThreads (node t) b (electionTimeout t) (electionDeadline t) (electionThread_ t) (replicationThread_ t) (applyThread_ t) (stopping t) (aborted t).
Definition set_election_wait (d u : Z) (t : Threads) : Threads :=
  mkThreads (node t) (running_ t) d u (electionThread_ t) (replicationThread_ t) (applyThread_ t) (stopping t) (aborted t).
Definition abort (t : Threads) : Threads :=
  mkThreads (node t) (running_ t) (electionTimeout t) (electionDeadline t) (electionThread_ t) (replicationThread_ t) (applyThread_ t) (stopping t) true.

(** [electionCv_.notify_all()] and [applyCv_.notify_all()]: a waiting thread goes
    back to its predicate, one that does not wait yet hears nothing. *)
Definition notify_election (t : Threads) : Threads :=
  match electionThread_ t with
  | ElBlocked => set_election_pc ElTest t
  | ElLeaderBlocked => set_election_pc ElLeaderTest t
  | _ => t
  end.
Definition notify_apply (t : Threads) : Threads :=
  match applyThread_ t with ApBlocked => set_apply_pc ApTest t | _ => t end.

(** The node after a section, with the notifications of the section:
    [timer] when it called [ResetElectionTimer], [commit] when it stored
    [commitIndex_]. *)
Definition after_section (timer commit : bool) (n' : RaftNode) (t : Threads) : Threads :=
  let t1 := if timer then notify_election (put_node n' t) else put_node n' t in
  if commit then notify_apply t1 else t1.

(** Who holds [mu_] between two actions.  A predicate is tested with the lock taken
    anew, as after a wake-up; the first test of the leader's wait, for which the
    code still has the lock, may thus see another thread's section before it. *)
Definition election_holds (t : Threads) : bool :=
  match electionThread_ t with ElPark | ElAfter | ElLeaderPark => true | _ => false end.
Definition apply_holds (t : Threads) : bool :=
  match applyThread_ t with ApPark | ApAfter => true | _ => false end.

(** [m], if the lock can be had. *)
Definition locking {A} (held : bool) (m : option A) : option A := if held then None else m.

Definition is_leader (t : Threads) : bool := bool_decide (role_ (node t) = Leader).

(** [RandomElectionTimeout]: a value the distribution can give, in milliseconds
    like its bounds. *)
Definition RandomElectionTimeout (config : RaftConfig) (timeout : Z) : bool :=
  (cfg_electionTimeoutMin config <=? timeout) && (timeout <=? cfg_electionTimeoutMax config).

Section Loops.
Context `{JsonLib}.

(** ** The loops *)

(** The predicate of the timed wait. *)
Definition election_wakes (now : Z) (t : Threads) : bool :=
  negb (running_ t) || (ms (electionTimeout t) <=? now - lastHeartbeat_ (node t)) || is_leader t.

(** [ElectionLoop].  From [ElBlocked] the thread goes on by itself when its time is
    over; from [ElLeaderBlocked] it does not. *)
Definition ElectionLoop_step (now timeout : Z) (futures : list (option RequestVoteResponse)) (t : Threads) : option Threads :=
  match electionThread_ t with
  | ElLoop =>
      if running_ t then
        if RandomElectionTimeout (config_ (node t)) timeout then Some (set_election_pc ElTest (set_election_wait timeout (now + ms timeout) t)) else None
      else Some (set_election_pc ElDone t)
  | ElTest => locking (apply_holds t) (Some (set_election_pc (if election_wakes now t then ElAfter else ElPark) t))
  | ElPark => Some (set_election_pc ElBlocked t)
  | ElBlocked => if electionDeadline t <=? now then locking (apply_holds t) (Some (set_election_pc ElAfter t)) else None
  | ElAfter =>
      Some (set_election_pc
        (if negb (running_ t) then ElDone
         else if is_leader t then ElLeaderTest
         else if ElectionLoop_fires now (electionTimeout t) (node t) then ElElection
         else ElLoop) t)
  | ElLeaderTest =>
      locking (apply_holds t) (Some (set_election_pc (if negb (running_ t) || negb (is_leader t) then ElLoop else ElLeaderPark) t))
  | ElLeaderPark => Some (set_election_pc ElLeaderBlocked t)
  | ElElection =>
      locking (apply_holds t)
        match StartElection now futures (node t) with
        | (n', Ok _) => Some (set_election_pc ElLoop (put_node n' t))
        | (n', Throw _) => Some (abort (put_node n' t))
        end
  | ElNone | ElLeaderBlocked | ElDone => None
  end.

(** [ReplicationLoop]; [o] is the outcome of each peer's request. *)
Definition ReplicationLoop_step (now : Z) (o : string -> option AppendEntriesResponse) (t : Threads) : option Threads :=
  match replicationThread_ t with
  | RepLoop => Some (set_replication_pc (if running_ t then RepSleep else RepDone) t)
  | RepSleep => Some (set_replication_pc (if is_leader t then RepSend else RepLoop) t)
  | RepSend =>
      let n' := (SendHeartbeatsToAll now (peer_ids (node t)) o (node t)).1 in
      locking (election_holds t || apply_holds t)
        (Some (set_replication_pc RepLoop (after_section (currentTerm_ (node t) <? currentTerm_ n') (commitIndex_ (node t) <? commitIndex_ n') n' t)))
  | RepNone | RepDone => None
  end.

(** [ApplyLoop] *)
Definition ApplyLoop_step (now : Z) (t : Threads) : option Threads :=
  match applyThread_ t with
  | ApLoop => Some (set_apply_pc (if running_ t then ApTest else ApDone) t)
  | ApTest =>
      locking (election_holds t)
        (Some (set_apply_pc (if negb (running_ t) || (lastApplied_ (node t) <? commitIndex_ (node t)) then ApAfter else ApPark) t))
  | ApPark => Some (set_apply_pc ApBlocked t)
  | ApAfter => Some (set_apply_pc (if negb (running_ t) then ApDone else ApPass) t)
  | ApPass =>
      locking (election_holds t)
        match ApplyLoop_pass now (node t) with
        | (n', Ok _) => Some (set_apply_pc ApLoop (put_node n' t))
        | (n', Throw _) => Some (abort (put_node n' t))
        end
  | ApNone | ApBlocked | ApDone => None
  end.

(** ** The owner *)

Definition Start (t : Threads) : option Threads :=
  match stopping t with
  | StOutside =>
      if bool_decide (electionThread_ t = ElNone /\ replicationThread_ t = RepNone /\ applyThread_ t = ApNone)
      then Some (mkThreads (node t) true (electionTimeout t) (electionDeadline t) ElLoop RepLoop ApLoop StOutside (aborted t))
      else Some (abort (set_running true t))
  | _ => None
  end.

(** The call of [Stop], and of the destructor. *)
Definition Stop (t : Threads) : option Threads :=
  match stopping t with
  | StOutside => Some (if running_ t then set_stopping StNotifyElection (set_running false t) else t)
  | _ => None
  end.

Definition Stop_step (t : Threads) : option Threads :=
  match stopping t with
  | StOutside => None
  | StNotifyElection => Some (set_stopping StNotifyApply (notify_election t))
  | StNotifyApply => Some (set_stopping StNotifyPropose (notify_apply t))
  | StNotifyPropose => Some (set_stopping StJoinElection t)
  | StJoinElection =>
      match electionThread_ t with
      | ElNone | ElDone => Some (set_stopping StJoinReplication (set_election_pc ElNone t))
      | _ => None
      end
  | StJoinReplication =>
      match replicationThread_ t with
      | RepNone | RepDone => Some (set_stopping StJoinApply (set_replication_pc RepNone t))
      | _ => None
      end
  | StJoinApply =>
      match applyThread_ t with
      | ApNone | ApDone => Some (set_stopping StOutside (set_apply_pc ApNone t))
      | _ => None
      end
  end.

(** ** Interleaving *)

Inductive ThreadAction : Type :=
| ActStart | ActStop
| ActStopStep
| ActElection (now timeout : Z) (futures : list (option RequestVoteResponse))
| ActReplication (now : Z) (o : string -> option AppendEntriesResponse)
| ActApply (now : Z)
| ActAppend (now : Z) (req : AppendEntriesRequest) (* the RPC server *)
| ActVote (now : Z) (req : RequestVoteRequest)
| ActPropose (key value : string) (op : OpType) (ttl_ms : Z) (* a client *)
| ActSpurious. (* both condition variables wake up on their own *)

Definition thread_step (a : ThreadAction) (t : Threads) : option Threads :=
  if aborted t then None
  else match a with
  | ActStart => Start t
  | ActStop => Stop t
  | ActStopStep => Stop_step t
  | ActElection now timeout futures => ElectionLoop_step now timeout futures t
  | ActReplication now o => ReplicationLoop_step now o t
  | ActApply now => ApplyLoop_step now t
  | ActAppend now req =>
      let '(n', r) := HandleAppendEntries now req (node t) in
      let commit := match r with Ok resp => ar_success resp && (commitIndex_ (node t) <? aq_leaderCommit req) | Throw _ => false end in
      locking (election_holds t || apply_holds t) (Some (after_section (currentTerm_ (node t) <=? aq_term req) commit n' t))
  | ActVote now req =>
      let '(n', r) := HandleRequestVote now req (node t) in
      let granted := match r with Ok resp => vr_voteGranted resp | Throw _ => true end in
      locking (election_holds t || apply_holds t) (Some (after_section ((currentTerm_ (node t) <? vq_term req) || granted) false n' t))
  | ActPropose key value op ttl_ms =>
      locking (election_holds t || apply_holds t) (Some (put_node (Propose_begin key value op ttl_ms (node t)).1 t))
  | ActSpurious => Some (notify_apply (notify_election t))
  end.

Fixpoint exec (acts : list ThreadAction) (t : Threads) : option Threads :=
  match acts with
  | [] => Some t
  | a :: rest => t' ← thread_step a t; exec rest t'
  end.

(** The actions of the node's own threads and of the call of [Stop]. *)
Definition own (a : ThreadAction) : bool :=
  match a with ActStopStep | ActElection _ _ _ | ActReplication _ _ | ActApply _ => true | _ => false end.
End Loops.

(** ** Lemmas *)

Lemma locking_Some {A} held (m : option A) x : locking held m = Some x -> held = false /\ m = Some x.
Proof. by destruct held. Qed.

(** Forgets the lock of the action in the goal. *)
Ltac unlock := try match goal with |- locking _ _ = Some _ -> _ => intros [_ ?]%locking_Some; revert select (_ = Some _) end.

Definition el_rank (p : ElectionPc) : nat :=
  match p with
  | ElNone => 0 | ElDone => 1 | ElLoop | ElAfter => 2 | ElTest | ElLeaderTest | ElElection => 3
  | ElBlocked | ElLeaderBlocked => 4 | ElPark | ElLeaderPark => 5
  end.
Definition rep_rank (p : ReplicationPc) : nat :=
  match p with RepNone => 0 | RepDone => 1 | RepLoop => 2 | RepSend => 3 | RepSleep => 4 end.
Definition ap_rank (p : ApplyPc) : nat :=
  match p with ApNone => 0 | ApDone => 1 | ApLoop | ApAfter => 2 | ApTest | ApPass => 3 | ApBlocked => 4 | ApPark => 5 end.
Definition stop_rank (p : StopPc) : nat :=
  match p with
  | StOutside => 0 | StJoinApply => 1 | StJoinReplication => 2 | StJoinElection => 3 | StNotifyPropose => 4 | StNotifyApply => 5 | StNotifyElection => 6
  end.

#[local] Create HintDb winds.

(** How much there is left to do once [running_] is false. *)
Definition rank (t : Threads) : nat :=
  el_rank (electionThread_ t) + rep_rank (replicationThread_ t) + ap_rank (applyThread_ t) + stop_rank (stopping t) +
  (if aborted t then 0 else 1).

(** A [Stop] that no untimed wait will miss. *)
Record heard (t : Threads) : Prop := {
  hd_running : running_ t = false;
  hd_park : electionThread_ t <> ElLeaderPark /\ applyThread_ t <> ApPark;
  hd_election : electionThread_ t = ElLeaderBlocked -> stopping t = StNotifyElection;
  hd_apply : applyThread_ t = ApBlocked -> stopping t = StNotifyElection \/ stopping t = StNotifyApply;
  hd_joined : (stop_rank (stopping t) <= 2 -> electionThread_ t = ElNone)%nat /\
    (stop_rank (stopping t) <= 1 -> replicationThread_ t = RepNone)%nat /\
    (stop_rank (stopping t) <= 0 -> applyThread_ t = ApNone)%nat;
}.

Definition joined (t : Threads) : Prop :=
  electionThread_ t = ElNone /\ replicationThread_ t = RepNone /\ applyThread_ t = ApNone.

Definition owner_call (a : ThreadAction) : bool := match a with ActStart | ActStop => true | _ => false end.

(** Takes the state apart and looks at every place the threads can be. *)
Ltac pcs_tac :=
  repeat match goal with
  | p : ElectionPc |- _ => destruct p
  | p : ReplicationPc |- _ => destruct p
  | p : ApplyPc |- _ => destruct p
  | p : StopPc |- _ => destruct p
  end; cbn in *; try done; try lia.

Lemma after_section_keeps timer commit n' t : let t' := after_section timer commit n' t in
  running_ t' = running_ t /\ stopping t' = stopping t /\ aborted t' = aborted t /\ node t' = n' /\
  electionTimeout t' = electionTimeout t /\ replicationThread_ t' = replicationThread_ t /\
  electionThread_ t' = (if timer then electionThread_ (notify_election t) else electionThread_ t) /\
  applyThread_ t' = (if commit then applyThread_ (notify_apply t) else applyThread_ t).
Proof.
  destruct t as [n r d u p q a s b]. unfold after_section, notify_election, notify_apply. cbn.
  destruct timer, commit; cbn; destruct p; cbn; destruct a; cbn; by split_and!.
Qed.

(** Where a thread can go after [running_] has become false. *)
Definition el_winds (p p' : ElectionPc) : Prop :=
  (el_rank p' <= el_rank p)%nat /\ (p = ElNone -> p' = ElNone) /\ (p <> ElLeaderPark -> p' <> ElLeaderPark) /\
  (p' = ElLeaderBlocked -> p = ElLeaderBlocked \/ p = ElLeaderPark).
Definition rep_winds (p p' : ReplicationPc) : Prop := (rep_rank p' <= rep_rank p)%nat /\ (p = RepNone -> p' = RepNone).
Definition ap_winds (p p' : ApplyPc) : Prop :=
  (ap_rank p' <= ap_rank p)%nat /\ (p = ApNone -> p' = ApNone) /\ (p <> ApPark -> p' <> ApPark) /\
  (p' = ApBlocked -> p = ApBlocked \/ p = ApPark).

Record winds (t t' : Threads) : Prop := {
  wi_running : running_ t' = running_ t;
  wi_stopping : stopping t' = stopping t;
  wi_aborted : aborted t = true -> aborted t' = true;
  wi_el : el_winds (electionThread_ t) (electionThread_ t');
  wi_rep : rep_winds (replicationThread_ t) (replicationThread_ t');
  wi_ap : ap_winds (applyThread_ t) (applyThread_ t');
}.

Lemma el_winds_refl p : el_winds p p.
Proof. unfold el_winds. by auto. Qed.
Lemma rep_winds_refl p : rep_winds p p.
Proof. by split. Qed.
Lemma ap_winds_refl p : ap_winds p p.
Proof. unfold ap_winds. by auto. Qed.
#[local] Hint Resolve el_winds_refl rep_winds_refl ap_winds_refl : winds.

Lemma heard_winds t t' : heard t -> winds t t' -> heard t' /\ (rank t' <= rank t)%nat.
Proof.
  intros [Hr [Hp1 Hp2] He Ha (J1 & J2 & J3)] [Er Es Eb (E1 & E2 & E3 & E4) (R1 & R2) (A1 & A2 & A3 & A4)].
  split; [|unfold rank; rewrite Es; destruct (aborted t); [rewrite Eb by done|destruct (aborted t')]; lia]. split; rewrite ?Er, ?Es; auto.
  - intros E. destruct (E4 E); auto; done.
  - intros E. destruct (A4 E); auto; done.
Qed.

Lemma notify_election_winds t : el_winds (electionThread_ t) (electionThread_ (notify_election t)).
Proof. destruct t as [n r d u p q a s b]. unfold notify_election, el_winds. destruct p; cbn; split_and!; (done || lia || auto). Qed.
Lemma notify_apply_winds t : ap_winds (applyThread_ t) (applyThread_ (notify_apply t)).
Proof. destruct t as [n r d u p q a s b]. unfold notify_apply, ap_winds. destruct a; cbn; split_and!; (done || lia || auto). Qed.
#[local] Hint Resolve notify_election_winds notify_apply_winds : winds.

Lemma after_section_winds timer commit n' t : winds t (after_section timer commit n' t).
Proof.
  destruct (after_section_keeps timer commit n' t) as (Er & Es & Eb & _ & _ & Eq & Ee & Ea).
  split; [done|done|congruence|rewrite Ee; destruct timer|rewrite Eq|rewrite Ea; destruct commit]; auto with winds.
Qed.

Section Steps.
Context `{JsonLib}.

#[local] Ltac winds_tac :=
  cbn; intros [= <-]; (split; [split; cbn; auto with winds; unfold el_winds, rep_winds, ap_winds; cbn; split_and!; (done || lia)|cbn; lia]).

Lemma ElectionLoop_winds now d fs t t' : running_ t = false -> aborted t = false -> electionThread_ t <> ElLeaderPark ->
  ElectionLoop_step now d fs t = Some t' -> winds t t' /\ (rank t' < rank t)%nat.
Proof.
  destruct t as [n r d0 u0 p q a s b]. cbn. intros -> -> Hp. unfold ElectionLoop_step, election_wakes, rank. cbn [electionThread_].
  destruct p; try done; try (cbn [electionDeadline]; destruct (u0 <=? now); [|done]); unlock; cbn; try (destruct (StartElection now fs n) as [n' [w|e]]); winds_tac.
Qed.

Lemma ApplyLoop_winds now t t' : running_ t = false -> aborted t = false -> applyThread_ t <> ApPark ->
  ApplyLoop_step now t = Some t' -> winds t t' /\ (rank t' < rank t)%nat.
Proof.
  destruct t as [n r d u p q a s b]. cbn. intros -> -> Hp. unfold ApplyLoop_step, rank. cbn [applyThread_].
  destruct a; try done; unlock; cbn; try (destruct (ApplyLoop_pass now n) as [n' [w|e]]); winds_tac.
Qed.

Lemma ReplicationLoop_winds now o t t' : running_ t = false -> ReplicationLoop_step now o t = Some t' ->
  winds t t' /\ (rank t' < rank t)%nat.
Proof.
  intros Hr. unfold ReplicationLoop_step. rewrite Hr. destruct (replicationThread_ t) eqn:Eq; try done; [| |].
  3: { cbv zeta. unlock. match goal with |- Some (set_replication_pc _ (after_section ?x ?y ?n' t)) = _ -> _ =>
      destruct (after_section_winds x y n' t) as [W1 W2 W3 W4 _ W6];
      destruct (after_section_keeps x y n' t) as (_ & _ & Eb & _ & _ & Er & _); set (t1 := after_section x y n' t) in * end.
    intros [= <-]. split; [split; cbn; try done; rewrite Eq; by split; [cbn; lia|]|].
    unfold rank. cbn. rewrite W2, Eb, Eq. destruct W4 as [? _], W6 as [? _]. cbn. lia. }
  all: destruct t as [n r d u p q a s b]; unfold rank; cbn in *; subst q; try (destruct (is_leader _)); winds_tac.
Qed.

#[local] Ltac heard_tac :=
  intros [= <-]; (split; [split; cbn; repeat split; intros; try congruence; try lia; auto; try (exfalso; intuition congruence);
    intuition (congruence || lia)|cbn; lia]).

Lemma Stop_step_heard t t' : heard t -> Stop_step t = Some t' -> heard t' /\ (rank t' < rank t)%nat.
Proof.
  destruct t as [n r d u p q a s b]. intros [Hr [Hp1 Hp2] He Ha (J1 & J2 & J3)]. cbn in *. unfold Stop_step, rank. cbn.
  destruct s; try done; cbn.
  - unfold notify_election. destruct p; cbn; heard_tac.
  - unfold notify_apply. destruct a; cbn; heard_tac.
  - heard_tac.
  - destruct p; try done; heard_tac.
  - destruct q; try done; heard_tac.
  - destruct a; try done; heard_tac.
Qed.

(** Every action but the owner's brings a [Stop] nearer to its end, or leaves
    it where it is. *)
Lemma heard_step a t t' : heard t -> owner_call a = false -> thread_step a t = Some t' ->
  heard t' /\ (rank t' <= rank t)%nat /\ (own a = true -> (rank t' < rank t)%nat).
Proof.
  intros Hh Ho. pose proof Hh as [Hr [Hp1 Hp2] _ _ _]. unfold thread_step. destruct (aborted t) eqn:Eb; [done|].
  assert (forall t', winds t t' /\ (rank t' < rank t)%nat -> heard t' /\ (rank t' <= rank t)%nat /\ (own a = true -> (rank t' < rank t)%nat)) as Hlt.
  { intros t1 [W Hlt]. destruct (heard_winds t t1 Hh W) as [? ?]. by split_and!. }
  assert (forall t', winds t t' -> own a = false -> heard t' /\ (rank t' <= rank t)%nat /\ (own a = true -> (rank t' < rank t)%nat)) as Hle.
  { intros t1 W ->. destruct (heard_winds t t1 Hh W) as [? ?]. by split_and!. }
  destruct a as [| | |now d fs|now o|now|now req|now req|k v op ttl|]; try done.
  - intros E. destruct (Stop_step_heard t t' Hh E). split_and!; [done|lia|done].
  - intros E. by apply Hlt, (ElectionLoop_winds now d fs).
  - intros E. by apply Hlt, (ReplicationLoop_winds now o).
  - intros E. by apply Hlt, (ApplyLoop_winds now).
  - destruct (HandleAppendEntries now req (node t)) as [n' r]. cbv zeta. unlock. intros E%(inj Some). subst t'. apply Hle; [|done]. apply after_section_winds.
  - destruct (HandleRequestVote now req (node t)) as [n' r]. cbv zeta. unlock. intros E%(inj Some). subst t'. apply Hle; [|done]. apply after_section_winds.
  - unlock. intros E%(inj Some). subst t'. apply Hle; [|done]. split; cbn; auto with winds.
  - intros E%(inj Some). subst t'. apply Hle; [|done].
    assert (notify_apply (notify_election t) = after_section true true (node t) t) as -> by (by destruct t). apply after_section_winds.
Qed.
Lemma heard_exec acts : forall t t', heard t -> Forall (fun a => owner_call a = false) acts -> exec acts t = Some t' ->
  heard t' /\ (length (filter (fun a => own a = true) acts) + rank t' <= rank t)%nat.
Proof.
  induction acts as [|a acts IH]; intros t t' Hh Ho; cbn [exec]; [intros [= <-]; by split|].
  apply Forall_cons in Ho as [Ha Ho]. intros (t1 & E1 & E2)%bind_Some. destruct (heard_step a t t1 Hh Ha E1) as (Hh1 & Hle & Hlt).
  destruct (IH t1 t' Hh1 Ho E2) as [Hh' Hn]. split; [done|]. rewrite filter_cons. case_decide as Hown; [specialize (Hlt Hown); cbn; lia|lia].
Qed.

#[local] Ltac goes a := exists a; eexists; split; [done|];
  unfold thread_step, Stop_step, ElectionLoop_step, ReplicationLoop_step, ApplyLoop_step.

(** Until it has returned, the threads or the call itself can go on. *)
Lemma heard_progress t : heard t -> aborted t = false -> stopping t <> StOutside -> exists a t', own a = true /\ thread_step a t = Some t'.
Proof.
  intros [Hr [Hp1 Hp2] He Ha (J1 & _)] Hb Hs. destruct (apply_holds t) eqn:Ehold.
  { unfold apply_holds in Ehold. destruct (applyThread_ t) eqn:E; try done. goes (ActApply 0). by rewrite Hb, E. }
  destruct (stopping t) eqn:Es; try done; try (goes ActStopStep; by rewrite Hb, Es).
  - destruct (electionThread_ t) eqn:E; try done; try (by specialize (He eq_refl)); try (goes ActStopStep; by rewrite Hb, Es, E).
    all: set (u := electionDeadline t); destruct (StartElection u [] (node t)) as [n' [w|e]] eqn:Est; goes (ActElection u 0 []);
      by rewrite Hb, E, ?Ehold, ?Hr, ?Est, ?Z.leb_refl.
  - assert (election_holds t = false) as Eh by (unfold election_holds; by rewrite J1 by (cbn; lia)).
    destruct (replicationThread_ t) eqn:E; try (goes ActStopStep; by rewrite Hb, Es, E).
    all: goes (ActReplication 0 (fun _ => None)); by rewrite Hb, E, ?Eh, ?Ehold.
  - assert (election_holds t = false) as Eh by (unfold election_holds; by rewrite J1 by (cbn; lia)).
    destruct (applyThread_ t) eqn:E; try done; try (by destruct (Ha eq_refl)); try (goes ActStopStep; by rewrite Hb, Es, E).
    all: destruct (ApplyLoop_pass 0 (node t)) as [n' [w|e]] eqn:Eap; goes (ActApply 0); by rewrite Hb, E, ?Eh, ?Eap.
Qed.

Lemma Stop_heard t : running_ t = true -> stopping t = StOutside -> electionThread_ t <> ElLeaderPark -> applyThread_ t <> ApPark ->
  exists t1, Stop t = Some t1 /\ heard t1 /\ (rank t1 <= 20)%nat.
Proof.
  intros Hr Hs Hp Ha. unfold Stop. rewrite Hs, Hr. eexists. split; [done|]. destruct t as [n r d u p q a s b]. cbn in *. subst r s.
  split; [split; cbn; auto; split_and!; lia|]. unfold rank. cbn. destruct p, q, a, b; cbn; try done; lia.
Qed.


(** ** A missed notification *)




End Steps.

(** ** The timer *)

Definition same_config (n n' : RaftNode) : Prop := config_ n' = config_ n.

#[global] Instance same_config_preorder : PreOrder same_config.
Proof. unfold same_config. split; [done|]. intros x y z. congruence. Qed.

Section Config.
Context `{JsonLib}.

Lemma withLog_config {A} (m : M RaftLog A) : keeps same_config (withLog m).
Proof. intros n. unfold withLog. by destruct (m (log_ n)). Qed.

Lemma BecomeFollower_config now t i : keeps same_config (BecomeFollower now t i).
Proof. unfold BecomeFollower, PersistHardState, ResetElectionTimer. keeps_tac; try done. apply withLog_config. Qed.

Lemma init_peers_config i ps : forall n, same_config n (init_peers i ps n).
Proof. induction ps as [|p ps IH]; intros n; cbn [init_peers]; [done|]. by rewrite <- IH. Qed.

Lemma StartElection_turn_config now t o : keeps same_config (StartElection_turn now t o).
Proof.
  intros n. unfold StartElection_turn. destruct o as [resp|]; [|done].
  assert (keeps same_config (StartElection_response now t resp)) as Hk by (unfold StartElection_response; keeps_tac; apply BecomeFollower_config).
  specialize (Hk n). by destruct (StartElection_response now t resp n).
Qed.

Lemma StartElection_config now fs : keeps same_config (StartElection now fs).
Proof.
  unfold StartElection. keeps_tac.
  - unfold StartElection_begin, PersistHardState. keeps_tac; try done. apply withLog_config.
  - generalize 1. induction fs as [|o fs IH]; intros v; cbn [StartElection_loop].
    + unfold StartElection_finish, BecomeLeader. keeps_tac; try done; [apply init_peers_config|apply withLog_config].
    + refine (keeps_bind _ _ _ (StartElection_turn_config _ _ _) _). intros [b x]. keeps_tac. apply IH.
Qed.

Lemma AdvanceCommitIndex_config n : same_config n (AdvanceCommitIndex n).
Proof. unfold AdvanceCommitIndex. by destruct (commit_loop _ _ _). Qed.

Lemma SendHeartbeatsToAll_config now ps o : keeps same_config (SendHeartbeatsToAll now ps o).
Proof.
  induction ps as [|p ps IH]; cbn [SendHeartbeatsToAll]; keeps_tac; [|done]. intros n. unfold ReplicateToPeer.
  destruct (ReplicateToPeer_prepare p n) as [req|], (o p) as [resp|]; try done. unfold ReplicateToPeer_response, catch_all. cbn [fst].
  match goal with |- same_config n (?m n).1 => refine ((_ : keeps same_config m) n) end.
  keeps_tac; try done; [apply BecomeFollower_config|apply AdvanceCommitIndex_config].
Qed.

Lemma ApplyLoop_inner_config fuel now : forall n, same_config n (ApplyLoop_inner fuel now n).
Proof.
  induction fuel as [|fuel IH]; intros n; cbn [ApplyLoop_inner]; [done|]. unfold ApplyLoop_turn.
  destruct (ApplyLoop_fetch n) as [[next e]|]; [|done]. destruct (ApplyEntry now e (store_ n)) as [[s' ns] b]. by rewrite <- IH.
Qed.

Lemma ApplyLoop_pass_config now : keeps same_config (ApplyLoop_pass now).
Proof. unfold ApplyLoop_pass, MaybeSnapshot. keeps_tac; [apply ApplyLoop_inner_config|apply withLog_config..]. Qed.

Lemma HandleAppendEntries_config now req : keeps same_config (HandleAppendEntries now req).
Proof.
  unfold HandleAppendEntries, ResetElectionTimer. keeps_tac; try done; [apply BecomeFollower_config|].
  destruct (check_prev _ _ _); keeps_tac; [apply withLog_config|]. by case_if.
Qed.

Lemma HandleRequestVote_config now req : keeps same_config (HandleRequestVote now req).
Proof.
  unfold HandleRequestVote, PersistHardState, ResetElectionTimer. keeps_tac; try done; [apply BecomeFollower_config|apply withLog_config].
Qed.

Lemma Propose_begin_config k v op ttl : keeps same_config (Propose_begin k v op ttl).
Proof. unfold Propose_begin. keeps_tac. apply withLog_config. Qed.

(** A section that takes the lead from a node resets its timer. *)
Definition same_role (n n' : RaftNode) : Prop := currentTerm_ n' = currentTerm_ n /\ role_ n' = role_ n.
Definition demotes (n n' : RaftNode) : Prop := currentTerm_ n <= currentTerm_ n' /\ (currentTerm_ n' = currentTerm_ n -> role_ n' = role_ n).

#[global] Instance same_role_preorder : PreOrder same_role.
Proof. unfold same_role. split; [done|]. intros x y z [? ?] [? ?]. split; congruence. Qed.
#[global] Instance demotes_preorder : PreOrder demotes.
Proof.
  unfold demotes. split; [done|]. intros x y z [? Hx] [? Hy]. split; [lia|]. intros E. rewrite Hy, Hx; [done|lia|lia].
Qed.

Lemma withLog_role {A} (m : M RaftLog A) : keeps same_role (withLog m).
Proof. intros n. unfold withLog. by destruct (m (log_ n)). Qed.

Lemma BecomeFollower_demotes now t i n : currentTerm_ n < t -> demotes n (BecomeFollower now t i n).1.
Proof.
  intros Ht. unfold BecomeFollower. rewrite !bind_modify.
  match goal with |- demotes _ (?m ?n1).1 => assert (same_role n1 (m n1).1) as [Et _] end.
  { match goal with |- same_role ?n1 (?m ?n1).1 => refine ((_ : keeps same_role m) n1) end.
    unfold PersistHardState, ResetElectionTimer. keeps_tac; try done. apply withLog_role. }
  unfold demotes. rewrite Et. cbn. split; lia.
Qed.

Lemma ReplicateToPeer_demotes now p o : keeps demotes (ReplicateToPeer now p o).
Proof.
  intros n. unfold ReplicateToPeer. destruct (ReplicateToPeer_prepare p n) as [req|], o as [resp|]; try done.
  unfold ReplicateToPeer_response, catch_all. cbn [fst]. rewrite bind_getS.
  destruct (currentTerm_ n <? ar_term resp) eqn:E; bool_prop; [by apply BecomeFollower_demotes|].
  match goal with |- demotes n (?m n).1 => enough (keeps same_role m) as Hk by (destruct (Hk n) as [Et Er]; split; [lia|done]) end.
  cbv zeta. keeps_tac; try done. unfold AdvanceCommitIndex. by destruct (commit_loop _ _ _).
Qed.

Lemma SendHeartbeatsToAll_demotes now ps o : keeps demotes (SendHeartbeatsToAll now ps o).
Proof. induction ps as [|p ps IH]; cbn [SendHeartbeatsToAll]; keeps_tac; [apply ReplicateToPeer_demotes|done]. Qed.

Lemma HandleAppendEntries_role now req n : aq_term req < currentTerm_ n -> role_ (HandleAppendEntries now req n).1 = role_ n.
Proof. intros E. unfold HandleAppendEntries. rewrite bind_getS. by replace (aq_term req <? currentTerm_ n) with true by lia. Qed.

Lemma HandleRequestVote_same_role now req n : vq_term req <= currentTerm_ n -> role_ (HandleRequestVote now req n).1 = role_ n.
Proof.
  intros E. unfold HandleRequestVote. rewrite bind_getS. case_if; [done|]. replace (currentTerm_ n <? vq_term req) with false by lia.
  match goal with |- role_ (?m n).1 = _ => enough (keeps same_role m) as Hk by apply Hk end.
  unfold PersistHardState, ResetElectionTimer. keeps_tac; try done. apply withLog_role.
Qed.

Lemma ApplyLoop_pass_role now n : role_ (ApplyLoop_pass now n).1 = role_ n.
Proof.
  assert (keeps same_role (ApplyLoop_pass now)) as Hk; [|apply Hk]. unfold ApplyLoop_pass, MaybeSnapshot. keeps_tac; [|apply withLog_role..].
  generalize (Z.to_nat (commitIndex_ s - lastApplied_ s)). intros fuel. revert s.
  induction fuel as [|fuel IH]; intros s; cbn [ApplyLoop_inner]; [done|]. unfold ApplyLoop_turn.
  destruct (ApplyLoop_fetch s) as [[next e]|]; [|done]. destruct (ApplyEntry now e (store_ s)) as [[s' ns] b]. by rewrite <- IH.
Qed.

(** ** The life of the threads *)

Definition timed_pc (p : ElectionPc) : bool := match p with ElTest | ElPark | ElBlocked | ElAfter => true | _ => false end.
Definition lead_pc (p : ElectionPc) : bool := match p with ElLeaderPark | ElLeaderBlocked => true | _ => false end.

Record alive (t : Threads) : Prop := {
  al_stop : stopping t <> StOutside -> running_ t = false;
  al_on : running_ t = true -> electionThread_ t <> ElNone /\ electionThread_ t <> ElDone;
  al_timed : timed_pc (electionThread_ t) = true -> RandomElectionTimeout (config_ (node t)) (electionTimeout t) = true;
  al_lead : lead_pc (electionThread_ t) = true -> is_leader t = true;
}.

Lemma alive_section timer commit n' t : alive t -> config_ n' = config_ (node t) ->
  (timer = true /\ election_holds t = false) \/ role_ n' = role_ (node t) -> alive (after_section timer commit n' t).
Proof.
  intros [As On Ti Le] Hc Hr. destruct (after_section_keeps timer commit n' t) as (Er & Es & _ & En & Et & Eq & Ee & Ea).
  assert (forall p, electionThread_ (notify_election t) = p -> (p = ElNone <-> electionThread_ t = ElNone) /\ (p = ElDone <-> electionThread_ t = ElDone) /\
    timed_pc p = timed_pc (electionThread_ t) /\ (lead_pc p = true -> lead_pc (electionThread_ t) = true) /\
    (lead_pc p = true -> election_holds t = true)) as Hn.
  { intros p <-. unfold notify_election, election_holds in *. by destruct (electionThread_ t) eqn:E; cbn; rewrite ?E. }
  specialize (Hn _ eq_refl) as (N1 & N2 & N3 & N4 & N5).
  unfold is_leader in *. split; rewrite ?Er, ?Es, ?En, ?Et, ?Eq, ?Ee, ?Ea, ?Hc; try done.
  - intros R. specialize (On R) as [? ?]. destruct timer; [by rewrite N1, N2|done].
  - destruct timer; [by rewrite N3|done].
  - unfold is_leader. rewrite En. destruct timer; intros E; (destruct Hr as [[? Hh]| ->]; [|auto]); [|done]. rewrite N5 in Hh; done.
Qed.

Lemma alive_Start t t' : alive t -> aborted t = false -> Start t = Some t' -> aborted t' = true \/ alive t'.
Proof.
  intros _ Hb. unfold Start. destruct (stopping t); try done. case_bool_decide; intros [= <-]; [|by left]. right. by split.
Qed.

Lemma alive_Stop t t' : alive t -> Stop t = Some t' -> alive t'.
Proof.
  intros Al. unfold Stop. destruct (stopping t) eqn:Es; try done. destruct (running_ t) eqn:Er; intros [= <-]; [|done].
  destruct Al. by split.
Qed.

Lemma alive_Stop_step t t' : alive t -> Stop_step t = Some t' -> alive t'.
Proof.
  destruct t as [n r d u p q a s b]. intros [As On Ti Le]. unfold is_leader in *. cbn in *. unfold Stop_step. cbn.
  assert (s <> StOutside -> r = false) as Hr by done.
  destruct s; try done; (assert (r = false) as -> by (by apply Hr)); cbn in *;
    [unfold notify_election; destruct p; cbn|unfold notify_apply; destruct a; cbn|idtac|destruct p; try done|destruct q; try done|destruct a; try done];
    intros [= <-]; by split.
Qed.

Lemma alive_pc p d u n' t : alive t -> p <> ElNone -> (p = ElDone -> running_ t = false) ->
  config_ n' = config_ (node t) -> (timed_pc p = true -> RandomElectionTimeout (config_ n') d = true) ->
  (lead_pc p = true -> role_ n' = Leader) ->
  alive (set_election_pc p (set_election_wait d u (put_node n' t))).
Proof.
  intros [As On Ti Le] Hp' Hd Hc Ht Hl. split; cbn; try done.
  - intros R. split; [done|]. intros ->. rewrite Hd in R; done.
  - intros E. unfold is_leader. cbn. apply bool_decide_eq_true. auto.
Qed.

Lemma alive_Election now d fs t t' : alive t -> ElectionLoop_step now d fs t = Some t' -> aborted t' = true \/ alive t'.
Proof.
  destruct t as [n r d0 u0 p q a s b]. set (t := mkThreads n r d0 u0 p q a s b). intros Al. pose proof Al as [_ _ Ti Le].
  assert (forall p' d' u' n', p' <> ElNone -> (p' = ElDone -> r = false) -> config_ n' = config_ n ->
    (timed_pc p' = true -> RandomElectionTimeout (config_ n) d' = true) -> (lead_pc p' = true -> role_ n' = Leader) ->
    aborted t = true \/ alive (mkThreads n' r d' u' p' q a s b)) as Hgo.
  { intros p' d' u' n' ? ? Ec Hd ?. right. apply (alive_pc p' d' u' n' t); try done. by rewrite Ec. }
  unfold ElectionLoop_step, election_wakes, is_leader in *. cbn [electionThread_ running_ node electionTimeout t] in *.
  destruct p; try done; unlock.
  - destruct r; [destruct (RandomElectionTimeout (config_ n) d) eqn:E; [|done]|]; intros [= <-]; by apply Hgo.
  - intros [= <-]. case_if; by apply Hgo.
  - intros [= <-]. by apply Hgo.
  - case_if; [|done]. unlock. intros [= <-]. by apply Hgo.
  - intros [= <-]. destruct r; cbn [negb]; [repeat case_if|]; by apply Hgo.
  - intros [= <-]. destruct r; cbn [negb orb]; [case_bool_decide|]; by apply Hgo.
  - intros [= <-]. apply Hgo; try done. intros _. specialize (Le eq_refl). by apply bool_decide_eq_true in Le.
  - pose proof (StartElection_config now fs n) as Ec. destruct (StartElection now fs n) as [n' [w|e]]; intros [= <-]; [by apply Hgo|by left].
Qed.

Lemma alive_Replication now o t t' : alive t -> ReplicationLoop_step now o t = Some t' -> alive t'.
Proof.
  intros Al. assert (forall p t1, alive t1 -> alive (set_replication_pc p t1)) as Hgo by (intros p t1 [As On Ti Le]; by split).
  unfold ReplicationLoop_step. destruct (replicationThread_ t) eqn:E; try done.
  - intros [= <-]. by apply Hgo.
  - intros [= <-]. by apply Hgo.
  - cbv zeta. intros [[Hh _]%orb_false_iff [= <-]]%locking_Some. set (n' := (SendHeartbeatsToAll _ _ _ _).1). apply Hgo.
    apply alive_section; [done|apply SendHeartbeatsToAll_config|].
    destruct (SendHeartbeatsToAll_demotes now (peer_ids (node t)) o (node t)) as [Hle Hr]. fold n' in Hle, Hr.
    destruct (currentTerm_ (node t) <? currentTerm_ n') eqn:Et; bool_prop; [by left|right]. apply Hr. lia.
Qed.

Lemma alive_Apply now t t' : alive t -> ApplyLoop_step now t = Some t' -> aborted t' = true \/ alive t'.
Proof.
  intros Al. assert (forall p n', config_ n' = config_ (node t) -> role_ n' = role_ (node t) ->
    aborted t = true \/ alive (set_apply_pc p (put_node n' t))) as Hgo.
  { intros p n' Hc Hr. right. destruct Al as [As On Ti Le]. by split; unfold is_leader; cbn; rewrite ?Hc, ?Hr. }
  destruct t as [n r d u p q a s b]. unfold ApplyLoop_step. cbn [applyThread_] in *. destruct a; try done; unlock.
  5: { cbn [node]. pose proof (ApplyLoop_pass_config now n) as Ec. pose proof (ApplyLoop_pass_role now n) as Er.
    destruct (ApplyLoop_pass now n) as [n' [w|e]]; intros [= <-]; [by apply (Hgo ApLoop n')|by left]. }
  all: intros [= <-]; by refine (Hgo _ n _ _).
Qed.

Lemma alive_step a t t' : alive t -> thread_step a t = Some t' -> aborted t' = true \/ alive t'.
Proof.
  intros Al. unfold thread_step. destruct (aborted t) eqn:Eb; [done|]. destruct a as [| | |now d fs|now o|now|now req|now req|k v op ttl|].
  - by apply alive_Start.
  - intros E. right. by eapply alive_Stop.
  - intros E. right. by eapply alive_Stop_step.
  - by apply alive_Election.
  - intros E. right. by eapply alive_Replication.
  - by apply alive_Apply.
  - pose proof (HandleAppendEntries_config now req (node t)) as Ec. pose proof (HandleAppendEntries_role now req (node t)) as Er.
    destruct (HandleAppendEntries now req (node t)) as [n' r]. cbv zeta. intros [[Hh _]%orb_false_iff [= <-]]%locking_Some. right.
    apply alive_section; try done. destruct (currentTerm_ (node t) <=? aq_term req) eqn:E; bool_prop; [by left|right]. by apply Er.
  - pose proof (HandleRequestVote_config now req (node t)) as Ec. pose proof (HandleRequestVote_same_role now req (node t)) as Er.
    destruct (HandleRequestVote now req (node t)) as [n' r]. cbv zeta. intros [[Hh _]%orb_false_iff E%(inj Some)]%locking_Some. subst t'. right.
    apply alive_section; try done. destruct (currentTerm_ (node t) <? vq_term req) eqn:E; bool_prop; [by left|right]. by apply Er.
  - intros [[Hh _]%orb_false_iff [= <-]]%locking_Some. right. apply (alive_section false false); [done|apply Propose_begin_config|].
    right. apply keeps_Propose_begin.
  - intros [= <-]. right. assert (notify_apply (notify_election t) = after_section true true (node t) t) as -> by (by destruct t).
    apply alive_section; [done|done|by right].
Qed.
Lemma alive_exec acts : forall t t', alive t -> exec acts t = Some t' -> aborted t' = true \/ alive t'.
Proof.
  induction acts as [|a acts IH]; intros t t' Al; cbn [exec]; [intros [= <-]; by right|]. intros (t1 & E1 & E2)%bind_Some.
  destruct (alive_step a t t1 Al E1) as [Hb|Al1]; [|by eapply IH]. left. destruct acts as [|a' acts]; cbn [exec] in E2; [by injection E2 as <-|].
  unfold thread_step in E2. by rewrite Hb in E2.
Qed.

Lemma alive_new n : alive (Threads_new n).
Proof. by split. Qed.

Lemma enters_election now d fs t t' : ElectionLoop_step now d fs t = Some t' -> electionThread_ t <> ElElection ->
  electionThread_ t' = ElElection -> electionThread_ t = ElAfter /\ ms (electionTimeout t) <= now - lastHeartbeat_ (node t).
Proof.
  unfold ElectionLoop_step. destruct (electionThread_ t); try done; unlock.
  - repeat case_if; try done; by intros [= <-].
  - intros [= <-]. by case_if.
  - by intros [= <-].
  - case_if; [|done]. unlock. by intros [= <-].
  - intros [= <-] _. destruct (running_ t); [|done]. cbn. destruct (is_leader t); [done|]. unfold ElectionLoop_fires.
    destruct (ms (electionTimeout t) <=? _) eqn:E; bool_prop; [done|]. by rewrite andb_false_r.
  - intros [= <-]. by case_if.
  - by intros [= <-].
Qed.

(** One step of the election thread, computed. *)
Lemma election_goes now d t t' : aborted t = false -> ElectionLoop_step now d [] t = Some t' -> forall k t'',
  exec (replicate k (ActElection now d [])) t' = Some t'' -> exec (replicate (S k) (ActElection now d [])) t = Some t''.
Proof. intros Hb E k t'' Hx. cbn [replicate exec]. unfold thread_step at 1. rewrite Hb, E. exact Hx. Qed.

Lemma after_campaigns now d t : aborted t = false -> running_ t = true -> role_ (node t) <> Leader -> electionThread_ t = ElAfter ->
  ms (electionTimeout t) <= now - lastHeartbeat_ (node t) ->
  exec (replicate 1 (ActElection now d [])) t = Some (set_election_pc ElElection t).
Proof.
  intros Hb Hr Hl He Ht. eapply election_goes; [done| |done]. unfold ElectionLoop_step, is_leader, ElectionLoop_fires.
  rewrite He, Hr, bool_decide_false, bool_decide_true by done. cbn. by replace (ms (electionTimeout t) <=? _) with true by lia.
Qed.

Lemma blocked_campaigns now d t : aborted t = false -> running_ t = true -> role_ (node t) <> Leader -> electionThread_ t = ElBlocked ->
  apply_holds t = false -> electionDeadline t <= now -> ms (electionTimeout t) <= now - lastHeartbeat_ (node t) ->
  exec (replicate 2 (ActElection now d [])) t = Some (set_election_pc ElElection t).
Proof.
  intros Hb Hr Hl He Ha Hu Ht. eapply election_goes; [done| |].
  - unfold ElectionLoop_step. rewrite He, Ha. by replace (electionDeadline t <=? now) with true by lia.
  - by rewrite after_campaigns.
Qed.

Lemma test_campaigns now d t : aborted t = false -> running_ t = true -> role_ (node t) <> Leader -> electionThread_ t = ElTest ->
  apply_holds t = false -> ms (electionTimeout t) <= now - lastHeartbeat_ (node t) ->
  exec (replicate 2 (ActElection now d [])) t = Some (set_election_pc ElElection t).
Proof.
  intros Hb Hr Hl He Ha Ht. eapply election_goes; [done| |].
  - unfold ElectionLoop_step, election_wakes. rewrite He, Ha, Hr. replace (ms (electionTimeout t) <=? _) with true by lia. done.
  - cbn [negb orb]. by rewrite after_campaigns.
Qed.

Lemma loop_campaigns now d t : aborted t = false -> running_ t = true -> role_ (node t) <> Leader -> electionThread_ t = ElLoop ->
  apply_holds t = false -> RandomElectionTimeout (config_ (node t)) d = true -> ms d <= now - lastHeartbeat_ (node t) ->
  exec (replicate 3 (ActElection now d [])) t = Some (set_election_pc ElElection (set_election_wait d (now + ms d) t)).
Proof.
  intros Hb Hr Hl He Ha Hd Ht. eapply election_goes; [done| |].
  - unfold ElectionLoop_step. rewrite He, Hr, Hd. done.
  - by rewrite test_campaigns.
Qed.

(** From wherever the thread is. *)
Lemma election_comes now d t : aborted t = false -> running_ t = true -> role_ (node t) <> Leader -> electionThread_ t <> ElNone -> electionThread_ t <> ElDone ->
  lead_pc (electionThread_ t) = false -> apply_holds t = false -> electionDeadline t <= now -> RandomElectionTimeout (config_ (node t)) d = true ->
  ms d <= now - lastHeartbeat_ (node t) -> (timed_pc (electionThread_ t) = true -> ms (electionTimeout t) <= now - lastHeartbeat_ (node t)) ->
  exists k t', (k <= 4)%nat /\ exec (replicate k (ActElection now d [])) t = Some t' /\ electionThread_ t' = ElElection.
Proof.
  intros Hb Hr Hl Hn Hdn Hlp Ha Hu Hdd Hm Ht. destruct (electionThread_ t) eqn:E; try done; cbn in Ht.
  - exists 3%nat. eexists. split; [lia|]. split; [apply loop_campaigns; (done || lia)|done].
  - exists 2%nat. eexists. split; [lia|]. split; [apply test_campaigns; (done || auto)|done].
  - exists 3%nat. eexists. split; [lia|]. split.
    + eapply election_goes; [done|unfold ElectionLoop_step; by rewrite E|]. apply blocked_campaigns; (done || auto).
    + done.
  - exists 2%nat. eexists. split; [lia|]. split; [apply blocked_campaigns; (done || auto)|done].
  - exists 1%nat. eexists. split; [lia|]. split; [apply after_campaigns; (done || auto)|done].
  - exists 4%nat. eexists. split; [lia|]. split.
    + eapply election_goes; [done|unfold ElectionLoop_step, is_leader; rewrite E, Ha, Hr, bool_decide_false by done; done|].
      apply loop_campaigns; (done || (cbn; lia)).
    + done.
  - exists 0%nat, t. split; [lia|]. by split.
Qed.
End Config.

(** What holds of the threads whatever happens to the node: without [running_]
    there are only those a [Stop] has not joined yet. *)
Record life (t : Threads) : Prop := {
  li_stop : stopping t <> StOutside -> running_ t = false;
  li_off : running_ t = false -> (stop_rank (stopping t) <= 2 -> electionThread_ t = ElNone)%nat /\
    (stop_rank (stopping t) <= 1 -> replicationThread_ t = RepNone)%nat /\ (stop_rank (stopping t) <= 0 -> applyThread_ t = ApNone)%nat;
}.

Section Life.
Context `{JsonLib}.

(** No thread appears. *)
Lemma life_frame t t' : life t -> running_ t' = running_ t -> stopping t' = stopping t ->
  (electionThread_ t = ElNone -> electionThread_ t' = ElNone) -> (replicationThread_ t = RepNone -> replicationThread_ t' = RepNone) ->
  (applyThread_ t = ApNone -> applyThread_ t' = ApNone) -> life t'.
Proof.
  intros [S O] Er Es He Hq Ha. split; rewrite ?Er, ?Es; [done|]. intros R. destruct (O R) as (O1 & O2 & O3). split_and!; auto.
Qed.

Lemma life_section timer commit n' t : life t -> life (after_section timer commit n' t).
Proof.
  intros Hl. destruct (after_section_keeps timer commit n' t) as (Er & Es & _ & _ & _ & Eq & Ee & Ea).
  apply (life_frame t); try done; rewrite ?Eq, ?Ee, ?Ea; [destruct timer|done|destruct commit]; unfold notify_election, notify_apply; intros E; by rewrite ?E.
Qed.

Lemma after_section_replication timer commit n' t : replicationThread_ (after_section timer commit n' t) = replicationThread_ t.
Proof. apply after_section_keeps. Qed.

Lemma life_step a t t' : life t -> thread_step a t = Some t' -> aborted t' = true \/ life t'.
Proof.
  intros Hl. unfold thread_step. destruct (aborted t); [done|].
  assert (forall t', life t' -> aborted t' = true \/ life t') as R by (by right).
  destruct a as [| | |now d fs|now o|now|now req|now req|k v op ttl|].
  - unfold Start. destruct (stopping t); try done. case_bool_decide; intros [= <-]; [|by left]. apply R. by split.
  - unfold Stop. destruct (stopping t) eqn:Es; try done. intros E. apply R. destruct (running_ t) eqn:Er; injection E as <-; [|done].
    split; [done|]. cbn. intros _. split_and!; lia.
  - intros E. apply R. destruct t as [n r d u p q a s b], Hl as [S O]. unfold Stop_step in E. cbn in *.
    assert (s <> StOutside -> r = false) as Hr by done.
    destruct s; try done; (assert (r = false) as -> by (by apply Hr)); specialize (O eq_refl) as (O1 & O2 & O3); cbn in *;
      [unfold notify_election in E; destruct p; cbn in E|unfold notify_apply in E; destruct a; cbn in E|idtac|destruct p; try done|destruct q; try done|destruct a; try done];
      injection E as <-; (split; [done|]); cbn; intros _; split_and!; intros; try lia; auto with lia.
  - unfold ElectionLoop_step. destruct (electionThread_ t) eqn:Ee; try done; unlock; repeat case_if; try done; unlock;
      try (destruct (StartElection now fs (node t)) as [n' [w|e]]; cbn); intros [= <-]; try (by left); apply R; apply (life_frame t); try done; by rewrite Ee.
  - unfold ReplicationLoop_step. destruct (replicationThread_ t) eqn:Eq; try done; cbv zeta; unlock; intros [= <-]; apply R;
      [apply (life_frame t); try done; by rewrite Eq..|]. set (t1 := after_section _ _ _ t).
    apply (life_frame t1); [apply life_section, Hl|done..| |done]. unfold t1. by rewrite after_section_replication, Eq.
  - unfold ApplyLoop_step. destruct (applyThread_ t) eqn:Ea; try done; unlock;
      try (destruct (ApplyLoop_pass now (node t)) as [n' [w|e]]); intros [= <-]; try (by left); apply R; apply (life_frame t); try done; by rewrite Ea.
  - destruct (HandleAppendEntries now req (node t)) as [n' r]. cbv zeta. unlock. intros E%(inj Some). subst t'. apply R, life_section, Hl.
  - destruct (HandleRequestVote now req (node t)) as [n' r]. cbv zeta. unlock. intros E%(inj Some). subst t'. apply R, life_section, Hl.
  - unlock. intros E%(inj Some). subst t'. apply R, (life_section false false), Hl.
  - intros [= <-]. assert (notify_apply (notify_election t) = after_section true true (node t) t) as -> by (by destruct t). apply R, life_section, Hl.
Qed.
End Life.

(** ** Theorems *)

(** C28: [Stop] returns and takes the threads with it.  If neither untimed wait is
    between its test and its block when [Stop] is called, then in every
    interleaving that follows, of the threads with RPCs, clients and spurious
    wake-ups, the threads and the call take at most twenty actions; and as long as
    the call has not returned, one of them can be taken.  When it has returned all
    three threads are joined.  (Or the process ends, when a thread lets an
    exception escape.) *)
Theorem Stop_returns `{JsonLib} t acts t' :
  running_ t = true -> stopping t = StOutside -> electionThread_ t <> ElLeaderPark -> applyThread_ t <> ApPark ->
  Forall (fun a => owner_call a = false) acts -> exec (ActStop :: acts) t = Some t' ->
  (length (filter (fun a => own a = true) acts) <= 20)%nat /\
  (aborted t' = true \/ (stopping t' = StOutside /\ joined t') \/ exists a t'', own a = true /\ thread_step a t' = Some t'').
Proof.
  intros Hr Hs Hp Ha Ho. cbn [exec]. intros (t0 & E0 & E)%bind_Some. unfold thread_step in E0. destruct (aborted t); [done|].
  destruct (Stop_heard t Hr Hs Hp Ha) as (t1 & E1 & Hh & Hrk). rewrite E0 in E1. injection E1 as ->.
  destruct (heard_exec acts t1 t' Hh Ho E) as [Hh' Hn]. split; [lia|]. destruct (aborted t') eqn:Eb; [by left|right].
  destruct (decide (stopping t' = StOutside)) as [Es|Es]; [left|right; by apply heard_progress].
  destruct (hd_joined t' Hh') as (J1 & J2 & J3). rewrite Es in J1, J2, J3. cbn in *. split; [done|]. split_and!; [apply J1|apply J2|apply J3]; lia.
Qed.


(** C27: the election timer.  In every run of a node's threads, whenever the node
    runs and is not the leader: the election thread enters an election only when
    the last heartbeat is at least the shortest election timeout ago, in
    milliseconds; and if at some time the last heartbeat is the longest timeout
    ago, a timed wait the thread may be in is over, and the apply thread does not
    hold the lock, then the thread, wherever it is, enters an election with at
    most four of its own actions, taken one after the other at this time.  A
    timed wait is over the timeout after its beginning at the latest. *)
Theorem election_timing `{JsonLib} n acts t :
  exec acts (Threads_new n) = Some t -> aborted t = false -> running_ t = true -> role_ (node t) <> Leader ->
  let silent now := now - lastHeartbeat_ (node t) in
  let config := config_ (node t) in
  (forall now d futures t', thread_step (ActElection now d futures) t = Some t' -> electionThread_ t <> ElElection ->
     electionThread_ t' = ElElection -> ms (cfg_electionTimeoutMin config) <= silent now) /\
  (forall now d, ms (cfg_electionTimeoutMax config) <= silent now -> electionDeadline t <= now -> RandomElectionTimeout config d = true -> apply_holds t = false ->
     exists k t', (k <= 4)%nat /\ exec (replicate k (ActElection now d [])) t = Some t' /\ electionThread_ t' = ElElection) /\
  (forall now d futures t', electionThread_ t = ElLoop -> thread_step (ActElection now d futures) t = Some t' ->
     electionDeadline t' <= now + ms (cfg_electionTimeoutMax config)).
Proof.
  intros Hx Hb Hr Hl silent config. destruct (alive_exec acts _ _ (alive_new n) Hx) as [?|[_ On Ti Le]]; [congruence|].
  assert (forall d, RandomElectionTimeout config d = true -> ms (cfg_electionTimeoutMin config) <= ms d <= ms (cfg_electionTimeoutMax config)) as Hd.
  { intros d. unfold RandomElectionTimeout, ms. rewrite andb_true_iff, !Z.leb_le. lia. }
  fold config in Ti. split_and!.
  - intros now d fs t'. unfold thread_step. rewrite Hb. intros E Hne He. destruct (enters_election now d fs t t' E Hne He) as [Ea Ht].
    rewrite Ea in Ti. specialize (Hd _ (Ti eq_refl)). unfold silent. lia.
  - intros now d Hs Hu Hdd Ha. unfold silent in Hs. pose proof (Hd d Hdd) as [_ Hm].
    assert (timed_pc (electionThread_ t) = true -> ms (electionTimeout t) <= now - lastHeartbeat_ (node t)) as Ht by (intros E; specialize (Hd _ (Ti E)); lia).
    assert (lead_pc (electionThread_ t) = false) as Hlp.
    { destruct (lead_pc (electionThread_ t)); [|done]. specialize (Le eq_refl). by apply bool_decide_eq_true in Le. }
    apply election_comes; try done; [by apply On|by apply On|lia].
  - intros now d fs t' E. unfold thread_step, ElectionLoop_step. rewrite Hb, E, Hr. fold config.
    destruct (RandomElectionTimeout config d) eqn:Er; [|done]. intros [= <-]. cbn. destruct (Hd d Er). lia.
Qed.

(** ** Witnesses *)

Section ThreadExamples.
#[local] Existing Instances RefJson RefJson_laws.
#[local] Open Scope string_scope.
#[local] Open Scope Z_scope.

Definition ex_th_config : RaftConfig := mkRaftConfig "n1" [mkRaftPeerInfo "n2" "host" 2380] 2380 150 300 50 50 10000.
Definition ex_th_node : RaftNode := (RaftNode_new ex_th_config KVStore_new (Some []) (fun _ => 0) 0).1.

(** The node starts, waits and hears nothing for 400 milliseconds. *)
Definition ex_th_silent : list ThreadAction := [ActStart; ActElection 0 200 []; ActElection 0 0 []; ActElection 0 0 []; ActApply 0; ActApply 0; ActApply 0].


Definition ex_th_at (acts : list ThreadAction) : Threads := default (Threads_new ex_th_node) (exec acts (Threads_new ex_th_node)).

Lemma ex_th_silent_run : exec ex_th_silent (Threads_new ex_th_node) = Some (ex_th_at ex_th_silent).
Proof. by vm_compute. Qed.

(** [Stop] of the silent follower, to its end: eleven actions. *)
Definition ex_th_stop : list ThreadAction :=
  [ActStopStep; ActElection (ms 300) 0 []; ActStopStep; ActStopStep; ActElection (ms 300) 0 []; ActStopStep;
   ActReplication (ms 300) (fun _ => None); ActStopStep; ActApply (ms 300); ActApply (ms 300); ActStopStep].

Lemma Stop_returns_witness :
  exists t', exec (ActStop :: ex_th_stop) (ex_th_at ex_th_silent) = Some t' /\ stopping t' = StOutside /\
    (length (filter (fun a => own a = true) ex_th_stop) <= 20)%nat.
Proof.
  destruct (exec (ActStop :: ex_th_stop) (ex_th_at ex_th_silent)) as [t'|] eqn:E; [|by vm_compute in E].
  exists t'. split; [done|]. split; [vm_compute in E; by injection E as <-|].
  refine (proj1 (Stop_returns (ex_th_at ex_th_silent) ex_th_stop t' _ _ _ _ _ E)); try (by vm_compute). repeat constructor.
Defined.


Lemma election_timing_witness :
  exists k t', (k <= 4)%nat /\ exec (replicate k (ActElection (ms 400) 200 [])) (ex_th_at ex_th_silent) = Some t' /\ electionThread_ t' = ElElection.
Proof.
  destruct (election_timing ex_th_node ex_th_silent (ex_th_at ex_th_silent) ex_th_silent_run) as (_ & Hgo & _); [by vm_compute..|].
  apply Hgo; by vm_compute.
Defined.
End ThreadExamples.
