(* ===== verification/RaftLogMatching.v ===== *)
(** * Log matching

    Raft's second safety property for the cluster of [RaftCluster]: if the logs
    of two nodes have an entry with the same index and term, they are identical
    up to that index.  The runs considered take no snapshot (the logs stay below
    the threshold) and no node restarts: the last example shows that a restart
    after a repeated AppendEntries leaves a log with a hole, and [SetSnapshot]
    moves entries to other indices ([SetSnapshot_shifts]).

    The proof keeps a ghost table of the entries that were ever created: the
    log of the leader that created the entry, up to it. *)
From S2P Require Import Prelude CxxString CxxMap Json KVStore RaftRPC WriteAheadLog RaftLog RaftNode RaftCluster RaftReplication.
From Stdlib Require Import ZArith Lia Ascii String.
From stdpp Require Import prelude gmap strings sorting relations.
#[local] Open Scope Z_scope.

(** ** Consistent logs *)

#[local] Abbreviation Ghost := (gmap (nat * Z) (list LogEntry)).

(** Every prefix of the log is the one its last entry was created with. *)
Definition consistent (F : Ghost) (l : list LogEntry) : Prop :=
  l !! 0%nat = Some (sentinel 0 0) /\
  forall i e, l !! S i = Some e -> F !! (S i, le_term e) = Some (take (S (S i)) l).

Lemma consistent_mono F F' l : F ⊆ F' -> consistent F l -> consistent F' l.
Proof. intros HF [H0 Hl]. split; [done|]. intros i e He. eapply lookup_weaken; [by apply Hl|done]. Qed.

Lemma consistent_prefix F l1 l2 : consistent F (l1 ++ l2) -> l1 <> [] -> consistent F l1.
Proof.
  intros [H0 Hl] Hne. split; [by destruct l1|]. intros i e He. pose proof (lookup_lt_Some _ _ _ He).
  rewrite (Hl i e) by (by apply lookup_app_l_Some). by rewrite take_app_le by lia.
Qed.

(** Two consistent logs that agree in the term at an index agree up to it. *)
Lemma consistent_agree F l l' i e e' : consistent F l -> consistent F l' ->
  l !! i = Some e -> l' !! i = Some e' -> le_term e = le_term e' -> take (S i) l = take (S i) l'.
Proof.
  intros [H0 Hl] [H0' Hl'] He He' Ht. destruct i as [|i].
  - destruct l as [|x l], l' as [|x' l']; try done. injection H0 as ->. injection H0' as ->. by rewrite !firstn_cons, !firstn_O.
  - pose proof (Hl i e He) as E. rewrite Ht, (Hl' i e' He') in E. by injection E.
Qed.

(** Merging one consistent log into another gives one of the two. *)
Lemma merge_consistent F new : forall pre suf, pre <> [] -> consistent F (pre ++ suf) -> consistent F (pre ++ new) ->
  merge_suffix suf new = suf \/ merge_suffix suf new = new.
Proof.
  induction new as [|e new IH]; intros pre suf Hne H1 H2; [left; by destruct suf|].
  destruct suf as [|o suf]; [by right|]. cbn [merge_suffix]. destruct (le_term o =? le_term e) eqn:E; bool_prop; [|by right].
  assert (o = e) as ->.
  { pose proof (consistent_agree F _ _ (length pre) o e H1 H2) as Ha. rewrite !lookup_app_r, Nat.sub_diag in Ha by lia.
    specialize (Ha eq_refl eq_refl E). rewrite !take_app, !firstn_all2 in Ha by lia.
    replace (S (length pre) - length pre)%nat with 1%nat in Ha by lia. simpl in Ha. by apply app_inv_head in Ha as [= ->]. }
  destruct (IH (pre ++ [e]) suf) as [-> | ->]; rewrite <- ?app_assoc; try done; [by destruct pre|by left|by right].
Qed.

(** ** What the log operations do, with whatever outcome *)

(** Only the journal differs. *)
Definition same_log (l l' : RaftLog) : Prop :=
  entries_ l' = entries_ l /\ snapshotIndex_ l' = snapshotIndex_ l /\ snapshotTerm_ l' = snapshotTerm_ l.

#[export] Instance same_log_preorder : PreOrder same_log.
Proof. split; [done|]. unfold same_log. intros a b c ? ?. intuition congruence. Qed.

Lemma same_log_wf l l' : same_log l l' -> log_wf l -> log_wf l'.
Proof. intros (E1 & E2 & E3) W. destruct W. split; rewrite ?E1, ?E2, ?E3; done. Qed.

Section LogEffects.
Context `{JsonLib}.

Lemma journal_write_log r l : same_log l (journal_write r l).1.
Proof. unfold journal_write. destruct (wal_ l); [|done]. by destruct (dump _). Qed.

Lemma journal_entry_log e l : same_log l (journal_entry e l).1.
Proof.
  unfold journal_entry. destruct (wal_ l); [|done]. refine ((_ : keeps same_log _) l). keeps_tac. intros l'. apply journal_write_log.
Qed.

Lemma Append_log e l : same_log (set_entries l (entries_ l ++ [e])) (Append e l).1.
Proof. unfold Append. rewrite bind_modify. apply journal_entry_log. Qed.

(** [AppendAll] merges the new entries, or the first of them if it throws. *)
Lemma AppendAll_log new : forall l pre suf, log_wf l -> entries_ l = pre ++ suf -> pre <> [] ->
  contiguous (snapshotIndex_ l + len pre) new -> snapshotIndex_ l + len pre + len suf + len new < 2 ^ 64 ->
  exists k, same_log (set_entries l (pre ++ merge_suffix suf (take k new))) (AppendAll new l).1 /\
    ((AppendAll new l).2 = Ok tt -> take k new = new).
Proof.
  induction new as [|ne new IH]; intros l pre suf W He Hpre Hc Hb; cbn [AppendAll].
  - exists O. simpl. assert (merge_suffix suf [] = suf) as -> by (by destruct suf). rewrite <- He. by destruct l.
  - apply contiguous_cons in Hc as [Hi Hc]. rewrite len_cons in Hb. pose proof (len_nonneg new).
    destruct (merge_entry_step l pre suf ne W He Hpre ltac:(lia) Hi) as (x & suf2 & Hm & Hmerge & Hl & W1).
    rewrite bind_modify, Hm. set (l1 := set_entries l ((pre ++ [x]) ++ suf2)) in *.
    pose proof (journal_entry_log ne l1) as Hj. destruct (journal_entry ne l1) as [l2 [[]|ex]] eqn:Ej; cbn [fst] in Hj.
    + rewrite (bind_run _ _ _ _ _ Ej). pose proof (same_log_wf _ _ Hj W1) as W2. destruct Hj as (E1 & E2 & E3).
      destruct (IH l2 (pre ++ [x]) suf2 W2) as (k & Hk & Hall).
      * by rewrite E1.
      * by destruct pre.
      * rewrite E2, len_app. unfold len at 2. simpl. by rewrite Z.add_assoc.
      * rewrite E2, len_app. unfold len at 2. simpl. lia.
      * exists (S k). cbn [firstn]. rewrite Hmerge. split; [|intros Hok; by rewrite (Hall Hok)].
        etrans; [|exact Hk]. rewrite <- app_assoc. by split_and!.
    + exists 1%nat. unfold mbind, M_bind. rewrite Ej. cbn [fst snd firstn]. split; [|done]. rewrite Hmerge, ?firstn_O.
      assert (merge_suffix suf2 [] = suf2) as -> by (by destruct suf2). etrans; [|exact Hj]. unfold l1. by rewrite <- app_assoc.
Qed.
End LogEffects.

(** ** What the sections of a node do to its log *)

(** The log and the indices of the peers stay. *)
Definition same_core (n n' : RaftNode) : Prop := same_log (log_ n) (log_ n') /\ nextIndex_ n' = nextIndex_ n.

#[export] Instance same_core_preorder : PreOrder same_core.
Proof. split; [done|]. intros a b c [H1 E1] [H2 E2]. split; [by etrans|congruence]. Qed.

(** The role changes only with the term. *)
Definition same_role (n n' : RaftNode) : Prop :=
  currentTerm_ n < currentTerm_ n' \/ (currentTerm_ n' = currentTerm_ n /\ role_ n' = role_ n).

Lemma vote_effect_role n n' : vote_effect n n' -> same_role n n'.
Proof. intros [(_ & Ht & _ & Hr & _)|t _ Hlt _ <- _ _ _]; [by right|by left]. Qed.

(** The log grew by one entry of the current term. *)
Definition appended (n n' : RaftNode) : Prop :=
  exists e, le_term e = currentTerm_ n /\ le_index e = u64 (LastIndex (log_ n) + 1) /\
    same_log (set_entries (log_ n) (entries_ (log_ n) ++ [e])) (log_ n').

Definition next_ok (n : RaftNode) : Prop := map_Forall (fun _ i => 0 <= i) (nextIndex_ n).

Lemma u64_nonneg z : 0 <= u64 z.
Proof. apply u64_range. Qed.

Lemma next_ok_set p i n : 0 <= i -> next_ok n -> next_ok (set_next p i n).
Proof. intros Hi Hn. by apply map_Forall_insert_2. Qed.

Section NodeEffects.
Context `{JsonLib}.

Lemma withLog_core {A} (m : M RaftLog A) : keeps same_log m -> keeps same_core (withLog m).
Proof. intros Hm n. unfold withLog. specialize (Hm (log_ n)). by destruct (m (log_ n)) as [l r]. Qed.

Lemma PersistHardState_core : keeps same_core PersistHardState.
Proof. unfold PersistHardState. keeps_tac. apply withLog_core. intros l. apply journal_write_log. Qed.

Lemma BecomeFollower_core now t i : keeps same_core (BecomeFollower now t i).
Proof. unfold BecomeFollower, ResetElectionTimer. keeps_tac; try done; apply PersistHardState_core. Qed.

Lemma StartElection_begin_core now : keeps same_core (StartElection_begin now).
Proof. unfold StartElection_begin. keeps_tac; try done; apply PersistHardState_core. Qed.

Lemma HandleRequestVote_core now req : keeps same_core (HandleRequestVote now req).
Proof.
  unfold HandleRequestVote, ResetElectionTimer. keeps_tac; try done; [apply BecomeFollower_core|apply PersistHardState_core].
Qed.

Lemma StartElection_turn_core now t o : keeps same_core (StartElection_turn now t o).
Proof.
  intros n. unfold StartElection_turn. destruct o as [resp|]; [|done].
  assert (keeps same_core (StartElection_response now t resp)) as Hr.
  { unfold StartElection_response. keeps_tac. apply BecomeFollower_core. }
  specialize (Hr n). by destruct (StartElection_response now t resp n).
Qed.

Lemma init_peers_effect i ps : 0 <= i -> forall n, log_ (init_peers i ps n) = log_ n /\ currentTerm_ (init_peers i ps n) = currentTerm_ n /\
  role_ (init_peers i ps n) = role_ n /\ (next_ok n -> next_ok (init_peers i ps n)).
Proof.
  intros Hi. induction ps as [|p ps IH]; intros n; [done|]. cbn [init_peers].
  destruct (IH (set_match p 0 (set_next p (u64 (i + 1)) n))) as (-> & -> & -> & Hok). split_and!; try done.
  intros Hn. apply Hok. apply (next_ok_set p (u64 (i + 1)) n); [apply u64_nonneg|done].
Qed.

Lemma BecomeLeader_log n : 0 <= LastIndex (log_ n) -> let n' := (BecomeLeader n).1 in
  role_ n' = Leader /\ currentTerm_ n' = currentTerm_ n /\
  (same_log (log_ n) (log_ n') \/ appended n n') /\ (next_ok n -> next_ok n').
Proof.
  intros Hl. unfold BecomeLeader. rewrite bind_modify, bind_getS, !bind_modify. cbn [log_ set_role currentTerm_].
  set (n1 := init_peers _ _ _). destruct (init_peers_effect (LastIndex (log_ n)) (peer_ids (set_role Leader n)) Hl
    (set_leaderId (nodeId (set_role Leader n)) (set_role Leader n))) as (E1 & E2 & E4 & E3). fold n1 in E1, E2, E3, E4. cbn in E1, E2, E4.
  destruct (LogEntry_NoOp (currentTerm_ n) (u64 (LastIndex (log_ n) + 1))) as [e|ex] eqn:Ee.
  - rewrite bind_lift_Ok. unfold withLog. pose proof (Append_log e (log_ n1)) as Ha. destruct (Append e (log_ n1)) as [l r].
    cbn [fst log_ set_log] in *. rewrite E1 in Ha. split; [exact E4|]. split; [exact E2|]. split; [|exact E3]. right. exists e.
    unfold LogEntry_NoOp in Ee. destruct (dump _); [|done]. by injection Ee as <-.
  - unfold mbind, M_bind, lift. cbn [fst]. rewrite E1. split; [exact E4|]. split; [exact E2|]. split; [by left|exact E3].
Qed.

Lemma StartElection_finish_log t v n : 0 <= LastIndex (log_ n) -> let n' := (StartElection_finish t v n).1 in
  n' = n \/
  (role_ n = Candidate /\ currentTerm_ n = t /\ QuorumSize n <= v /\ role_ n' = Leader /\ currentTerm_ n' = currentTerm_ n /\
   (same_log (log_ n) (log_ n') \/ appended n n') /\ (next_ok n -> next_ok n')).
Proof.
  intros Hl. unfold StartElection_finish. rewrite bind_getS. case_if; [by left|]. case_if; [|by left]. right.
  bool_prop. apply bool_decide_eq_false in H0. split; [by destruct (decide (role_ n = Candidate))|]. split; [done|]. split; [done|]. by apply BecomeLeader_log.
Qed.

Lemma Propose_begin_log k v op ttl n : let n' := (Propose_begin k v op ttl n).1 in
  n' = n \/ (role_ n = Leader /\ appended n n' /\ nextIndex_ n' = nextIndex_ n).
Proof.
  unfold Propose_begin. rewrite bind_getS. destruct (bool_decide_reflect (role_ n <> Leader)) as [|Hr]; [by left|]. cbv zeta.
  destruct (LogEntry_Serialize _) as [command|]; [|by left]. right. rewrite bind_lift_Ok.
  split; [by destruct (decide (role_ n = Leader))|]. unfold mbind, M_bind, withLog.
  match goal with |- context [Append ?e (log_ n)] => pose proof (Append_log e (log_ n)) as Ha; destruct (Append e (log_ n)) as [l [[]|]] end;
    (split; [|done]; eexists; split; [|split; [|exact Ha]]; done).
Qed.

Lemma AdvanceCommitIndex_core n : same_core n (AdvanceCommitIndex n).
Proof. unfold AdvanceCommitIndex. by destruct (commit_loop _ _ _). Qed.

Lemma ReplicateToPeer_response_log now p req resp n : 0 <= ar_conflictIndex resp ->
  let n' := (ReplicateToPeer_response now p req resp n).1 in same_log (log_ n) (log_ n') /\ (next_ok n -> next_ok n').
Proof.
  intros Hc. unfold ReplicateToPeer_response, catch_all. cbn [fst]. rewrite bind_getS. cbv zeta.
  repeat case_if; try done.
  - destruct (BecomeFollower_core now (ar_term resp) "" n) as [Hl Hx]. unfold next_ok. by rewrite Hx.
  - rewrite !bind_modify. unfold modify. cbn [fst]. match goal with |- context [AdvanceCommitIndex ?m] => destruct (AdvanceCommitIndex_core m) as [Hl Hx] end.
    split; [exact Hl|]. intros Hn. unfold next_ok. rewrite Hx. by apply next_ok_set; [apply u64_nonneg|].
  - split; [done|]. intros Hn. by apply next_ok_set; [apply u64_nonneg|].
  - split; [done|]. intros Hn. by apply next_ok_set.
  - split; [done|]. intros Hn. by apply next_ok_set.
  - split; [done|]. intros Hn. by apply next_ok_set.
Qed.
End NodeEffects.

(** ** Requests *)

(** A log as the runs considered here have it. *)
Record log_ok (F : Ghost) (l : RaftLog) : Prop := {
  lo_wf : log_wf l;
  lo_snap : snapshotIndex_ l = 0;
  lo_cons : consistent F (entries_ l);
}.

(** There is room for more entries. *)
Definition roomy (l : RaftLog) : Prop := len (entries_ l) + 200 < 2 ^ 64.

(** A request carries nothing, or is refused by every node, or carries a piece
    of a consistent log and names the entry in front of it. *)
Definition append_ok (F : Ghost) (req : AppendEntriesRequest) : Prop :=
  aq_entries req = [] \/ aq_prevLogIndex req = 2 ^ 64 - 1 \/
  exists l pe p, consistent F l /\ contiguous 0 l /\ aq_prevLogIndex req = Z.of_nat p /\ l !! p = Some pe /\
    le_term pe = aq_prevLogTerm req /\ aq_entries req = drop (S p) l /\ len (aq_entries req) <= 100.

Lemma append_ok_mono F F' req : F ⊆ F' -> append_ok F req -> append_ok F' req.
Proof.
  intros HF [?|[?|(l & pe & p & Hc & ?)]]; [by left|by right; left|]. right. right. exists l, pe, p. split; [|done].
  by apply (consistent_mono F).
Qed.

Lemma log_ok_mono F F' l : F ⊆ F' -> log_ok F l -> log_ok F' l.
Proof. intros HF [? ? ?]. split; try done. by apply (consistent_mono F). Qed.

Lemma log_ok_same F l l' : same_log l l' -> log_ok F l -> log_ok F l'.
Proof.
  intros Hs [W S C]. pose proof (same_log_wf _ _ Hs W). destruct Hs as (E1 & E2 & E3). split; [done|congruence|by rewrite E1].
Qed.

Lemma LastIndex_nonneg F l : log_ok F l -> 0 <= LastIndex l.
Proof. intros [W S _]. rewrite LastIndex_wf by done. pose proof (log_size_pos _ W). lia. Qed.

Lemma collect_entries_end l next : LastIndex l < next -> forall fuel, collect_entries l fuel next next (LastIndex l) = [].
Proof. intros Hn [|fuel]; [done|]. cbn [collect_entries]. destruct (next <=? LastIndex l) eqn:E; bool_prop; [lia|done]. Qed.

Lemma prepare_ok F p n req : log_ok F (log_ n) -> roomy (log_ n) -> next_ok n ->
  ReplicateToPeer_prepare p n = Some req -> append_ok F req /\ role_ n = Leader.
Proof.
  intros [W S C] R Hn. unfold ReplicateToPeer_prepare. destruct (bool_decide_reflect (role_ n <> Leader)) as [|Hr]; [done|].
  cbv zeta. set (next := match nextIndex_ n !! p with Some i => i | None => _ end).
  assert (0 <= next) as Hnext. { unfold next. destruct (nextIndex_ n !! p) eqn:E; [by apply (Hn p)|apply u64_nonneg]. }
  intros Hreq. apply (inj Some) in Hreq as <-. split; [|by destruct (decide (role_ n = Leader))]. unfold append_ok. cbn [aq_entries aq_prevLogIndex aq_prevLogTerm].
  pose proof (LastIndex_wf _ W) as HL. rewrite S in HL. unfold roomy in R. clearbody next.
  destruct (decide (LastIndex (log_ n) < next)) as [Hgt|Hle]; [left; by apply collect_entries_end|right].
  destruct (decide (next = 0)) as [->|Hpos]; [by left|right]. rewrite u64_small by (unfold is_u64; lia).
  rewrite (collect_entries_spec (log_ n) next W) by lia. rewrite S, Z.sub_0_r.
  assert (is_Some (entries_ (log_ n) !! Z.to_nat (next - 1))) as [pe Hpe] by (apply lookup_lt_is_Some; unfold len in *; lia).
  exists (take (Z.to_nat next + 100) (entries_ (log_ n))), pe, (Z.to_nat (next - 1)). split_and!.
  - apply (consistent_prefix F _ (drop (Z.to_nat next + 100) (entries_ (log_ n)))); [by rewrite take_drop|].
    destruct (entries_ (log_ n)); [done|]. by rewrite Nat.add_comm.
  - intros i e He. apply lookup_take_Some in He as [He _]. rewrite (wf_index _ W _ _ He), S. lia.
  - lia.
  - rewrite lookup_take_lt by lia. done.
  - rewrite GetTerm_lookup by (try done; unfold is_u64; lia). unfold log_lookup. rewrite S, Z.sub_0_r. case_if; [|lia]. by rewrite Hpe.
  - replace (Datatypes.S (Z.to_nat (next - 1))) with (Z.to_nat next) by lia. rewrite skipn_firstn_comm. f_equal. lia.
  - unfold len. rewrite length_take. lia.
Qed.

(** ** Receiving *)

Lemma first_in_term_nonneg l t : 0 <= snapshotIndex_ l -> forall fuel ci, 0 <= ci -> 0 <= first_in_term l t fuel ci.
Proof.
  intros Hs. induction fuel as [|fuel IH]; intros ci Hc; [done|]. cbn [first_in_term]. unfold SnapshotIndex.
  destruct (snapshotIndex_ l <? ci) eqn:E; bool_prop; cbn [andb]; [|done]. case_if; [|done]. apply IH. lia.
Qed.

Lemma check_prev_nonneg l t req resp : 0 <= snapshotIndex_ l -> check_prev l t req = Some resp -> 0 <= ar_conflictIndex resp.
Proof.
  intros Hs. unfold check_prev. destruct (0 <? aq_prevLogIndex req) eqn:E; bool_prop; [|done].
  case_if; [intros [= <-]; apply u64_nonneg|]. cbv zeta. case_if; [|done]. intros [= <-]. apply first_in_term_nonneg; [done|]. lia.
Qed.

(** The entries after merging an accepted request. *)
Lemma AppendAll_ok `{JsonLib} F l t req : log_ok F l -> roomy l -> append_ok F req -> check_prev l t req = None ->
  log_ok F (AppendAll (aq_entries req) l).1.
Proof.
  intros [W S C] R Ha Hp. pose proof (LastIndex_wf _ W) as HL. rewrite S in HL. unfold roomy in R. pose proof (log_size_pos _ W).
  destruct Ha as [->|[Hx|(m & pe & p & Cm & Hm & Ep & Hpe & Ht & Ee & H100)]]; [done| |].
  { unfold check_prev in Hp. rewrite Hx in Hp. destruct (LastIndex l <? 2 ^ 64 - 1) eqn:E; bool_prop; [done|lia]. }
  assert (exists le, entries_ l !! p = Some le /\ le_term le = le_term pe) as (le & Hle & Hlt).
  { unfold check_prev in Hp. rewrite Ep in Hp. destruct p as [|p].
    - destruct C as [C0 _], Cm as [M0 _]. exists pe. rewrite M0 in Hpe. by rewrite C0, Hpe.
    - destruct (0 <? Z.of_nat (Datatypes.S p)) eqn:E0; bool_prop; [|lia]. destruct (LastIndex l <? _) eqn:E1; bool_prop; [done|].
      cbv zeta in Hp. destruct (GetTerm l _ =? _) eqn:E2; bool_prop; [|done].
      rewrite GetTerm_lookup in E2 by (try done; unfold is_u64; lia). unfold log_lookup in E2. rewrite S, Z.sub_0_r, Nat2Z.id in E2.
      case_if_in E2; [|lia]. destruct (entries_ l !! Datatypes.S p) as [le|] eqn:El; [|apply lookup_ge_None in El; unfold len in *; lia].
      exists le. split; [done|]. simpl in E2. congruence. }
  pose proof (consistent_agree F _ _ p le pe C Cm Hle Hpe Hlt) as Hpre. pose proof (lookup_lt_Some _ _ _ Hle).
  assert (take (Datatypes.S p) (entries_ l) <> []) as Hne by (destruct (entries_ l); [done|by rewrite firstn_cons]).
  assert (len (take (Datatypes.S p) (entries_ l)) = Z.of_nat p + 1) as Hlen by (unfold len; rewrite length_take; lia).
  assert (m = take (Datatypes.S p) (entries_ l) ++ aq_entries req) as Em by (by rewrite Hpre, Ee, take_drop).
  set (pre := take (Datatypes.S p) (entries_ l)) in *. set (suf := drop (Datatypes.S p) (entries_ l)).
  assert (entries_ l = pre ++ suf) as El by (symmetry; apply take_drop).
  rewrite Em in Hm. apply contiguous_app in Hm as [Hcp Hcn]. rewrite Z.add_0_l in Hcn.
  assert (len pre + len suf + len (aq_entries req) < 2 ^ 64) as Hb by (rewrite El, len_app in R; lia).
  destruct (AppendAll_log (aq_entries req) l pre suf W El Hne) as (k & Hk & _); [by rewrite S, Z.add_0_l|lia|].
  apply (log_ok_same F _ _ Hk). rewrite Em in Cm.
  assert (consistent F (pre ++ take k (aq_entries req))) as Ck.
  { apply (consistent_prefix F _ (drop k (aq_entries req))); [by rewrite <- app_assoc, take_drop|]. by destruct pre. }
  assert (log_ok F (set_entries l (pre ++ suf))) as Hold by (rewrite <- El; split; [by destruct l|done|done]).
  destruct (merge_consistent F (take k (aq_entries req)) pre suf Hne) as [-> | ->]; try done; [by rewrite <- El|].
  split; [|done|done]. apply log_wf_set; [done|by rewrite El; destruct pre| |].
  - rewrite S. apply contiguous_app. split; [done|]. rewrite Z.add_0_l. intros i e He. apply lookup_take_Some in He as [He _]. by apply Hcn.
  - rewrite S, len_app. pose proof (len_nonneg suf). unfold len at 2. rewrite length_take. unfold len in *. lia.
Qed.

Lemma HandleAppendEntries_log {J : JsonLib} {L : JsonLaws J} F now req n n' r :
  is_u64 (aq_term req) -> log_ok F (log_ n) -> roomy (log_ n) -> append_ok F req -> HandleAppendEntries now req n = (n', r) ->
  log_ok F (log_ n') /\ nextIndex_ n' = nextIndex_ n /\ (aq_term req < currentTerm_ n -> n' = n) /\
  (currentTerm_ n <= aq_term req -> currentTerm_ n' = aq_term req) /\ (forall resp, r = Ok resp -> 0 <= ar_conflictIndex resp).
Proof.
  intros Hu Ho R Ha Hrun. destruct (decide (aq_term req < currentTerm_ n)) as [Hlt|Hge].
  { unfold HandleAppendEntries in Hrun. rewrite bind_getS in Hrun. cbv zeta in Hrun. case_if_in Hrun; [|lia].
    injection Hrun as <- <-. split_and!; try done; [lia|]. by intros resp [= <-]. }
  rewrite HandleAppendEntries_run in Hrun by (try done; lia). cbv zeta in Hrun.
  destruct (heard_log now req n) as (E1 & E2 & E3 & _). assert (nextIndex_ (heard now req n) = nextIndex_ n) as En.
  { unfold heard. case_if; [|done]. unfold as_follower, persisted. repeat case_match; done. }
  destruct (heard_fields now req n ltac:(lia)) as [Et _]. set (n1 := heard now req n) in *. clearbody n1.
  assert (log_ok F (log_ n1)) as Ho1 by (by apply (log_ok_same F (log_ n))). assert (roomy (log_ n1)) as R1 by (unfold roomy; by rewrite E1).
  pose proof (wf_snap _ (lo_wf _ _ Ho1)). destruct (check_prev (log_ n1) (currentTerm_ n) req) as [resp|] eqn:Ec.
  - injection Hrun as <- <-. split_and!; try done. intros x [= <-]. by apply check_prev_nonneg in Ec.
  - pose proof (AppendAll_ok F (log_ n1) _ req Ho1 R1 Ha Ec) as Hok.
    destruct (AppendAll (aq_entries req) (log_ n1)) as [l' [[]|ex]]; injection Hrun as <- <-; (split_and!; [| |lia| |]); try done;
      try (by case_if); intros x [= <-]; done.
Qed.

(** ** The invariant *)

Section Matching.
Context {J : JsonLib} {L : JsonLaws J}.
Variable members : list string.
Variable cfg : string -> RaftConfig.
Hypothesis config_ok : cluster_config members cfg.

#[local] Abbreviation inv := (cluster_inv members cfg).
#[local] Abbreviation elected := (elected members).

(** Node [n], the winner of term [t], will not create entry [i] of that term. *)
Definition created (i : nat) (t : Z) (n : RaftNode) : Prop :=
  t < currentTerm_ n \/
  (t = currentTerm_ n /\ role_ n <> Candidate /\ (role_ n = Leader -> (i < length (entries_ (log_ n)))%nat)).

Definition lm_msg (F : Ghost) (g : list (string * Z * string)) (m : Msg) : Prop :=
  match m with
  | MAppendReq from to req => from <> to /\ elected g from (aq_term req) /\ append_ok F req
  | MAppendResp _ _ _ resp => 0 <= ar_conflictIndex resp
  | _ => True
  end.

Record lm_inv (F : Ghost) (c : Cluster) : Prop := {
  lm_nodes i n : nodes c !! i = Some n -> log_ok F (log_ n) /\ next_ok n;
  lm_msgs m : m ∈ net c -> lm_msg F (granted c) m;
  lm_ghost i t l : F !! (i, t) = Some l ->
    exists d n, elected (granted c) d t /\ nodes c !! d = Some n /\ created i t n;
}.

Lemma lm_send F c ms : lm_inv F c -> Forall (lm_msg F (granted c)) ms -> lm_inv F (send ms c).
Proof.
  intros [? ? ?] Hms. split; try done. simpl. intros m [Hm|Hm]%elem_of_app; [auto|]. rewrite Forall_forall in Hms. auto.
Qed.

Lemma lm_set_election F c i e : lm_inv F c -> lm_inv F (set_election i e c).
Proof. by intros [? ? ?]. Qed.

Lemma lm_set_applying F c i a : lm_inv F c -> lm_inv F (set_applying i a c).
Proof. by intros [? ? ?]. Qed.

Lemma lm_set_call F c i q : lm_inv F c -> lm_inv F (set_call i q c).
Proof. by intros [? ? ?]. Qed.

Lemma lm_record_vote F c v t d : lm_inv F c -> lm_inv F (record_vote v t d c).
Proof.
  intros [Hn Hm Hg]. pose proof (sub_app_l (granted c) [(v, t, d)]) as Hs. split; simpl; [done| |].
  - intros m Hin. specialize (Hm m Hin). destruct m; try done. destruct Hm as (? & ? & ?). split_and!; try done.
    by apply (elected_mono _ (granted c)).
  - intros i t' l Hl. destruct (Hg i t' l Hl) as (x & n & ? & ? & ?). exists x, n. split_and!; try done.
    by apply (elected_mono _ (granted c)).
Qed.

(** A node moves and creates nothing. *)
Lemma lm_move F c i n n' : lm_inv F c -> nodes c !! i = Some n -> log_ok F (log_ n') -> next_ok n' ->
  (forall k t, elected (granted c) i t -> created k t n -> created k t n') -> lm_inv F (set_node i n' c).
Proof.
  intros [Hn Hm Hg] Hi Ho Hx Hc. split; simpl; [|done|].
  - intros k m. rewrite lookup_insert. case_decide; [intros [= <-]; done|apply Hn].
  - intros k t l Hl. destruct (Hg k t l Hl) as (d & m & He & Hd & Hcr). exists d. rewrite lookup_insert. case_decide; [|by exists m].
    subst d. exists n'. split_and!; try done. apply Hc; [done|]. congruence.
Qed.

Lemma lm_same F c i n n' : lm_inv F c -> nodes c !! i = Some n -> same_log (log_ n) (log_ n') -> next_ok n' ->
  same_role n n' -> lm_inv F (set_node i n' c).
Proof.
  intros I Hi Hs Hx Hr. destruct (lm_nodes _ _ I i n Hi) as [Ho _]. apply (lm_move F c i n n'); try done; [by apply (log_ok_same F (log_ n))|].
  intros k t _. unfold created. destruct Hs as [-> _]. destruct Hr as [Hr|[Et Er]]; [intros [?|(? & ?)]; left; lia|]. by rewrite Et, Er.
Qed.

Lemma lm_core F c i n n' : lm_inv F c -> nodes c !! i = Some n -> same_core n n' -> same_role n n' -> lm_inv F (set_node i n' c).
Proof.
  intros I Hi [Hs Hx] Hr. apply (lm_same F c i n n'); try done. unfold next_ok. rewrite Hx. by apply (lm_nodes _ _ I i n).
Qed.

(** The winner of a term has not created the next entry yet. *)
Lemma ghost_fresh F c i n : inv c -> lm_inv F c -> nodes c !! i = Some n -> elected (granted c) i (currentTerm_ n) ->
  role_ n <> Follower -> F !! (length (entries_ (log_ n)), currentTerm_ n) = None.
Proof.
  intros Ic I Hi He Hr. destruct (F !! _) as [l|] eqn:E; [|done]. exfalso.
  destruct (lm_ghost _ _ I _ _ _ E) as (d & m & Hd & Hm & Hcr).
  rewrite (elected_unique members cfg c d i _ Ic Hd He), Hi in Hm. injection Hm as <-.
  destruct Hcr as [?|(_ & Hnc & Hlead)]; [lia|]. destruct (role_ n); try done. specialize (Hlead eq_refl). lia.
Qed.

(** A log with a new entry, in the table with that entry. *)
Lemma log_ok_snoc F l e : log_ok F l -> roomy l -> le_index e = LastIndex l + 1 -> F !! (length (entries_ l), le_term e) = None ->
  log_ok (<[(length (entries_ l), le_term e) := entries_ l ++ [e]]> F) (set_entries l (entries_ l ++ [e])).
Proof.
  intros [W S [C0 Cs]] R Hi Hnew. pose proof (LastIndex_wf _ W) as HL. unfold roomy in R. split; simpl; [|done|split].
  - apply log_wf_app; [done|done|lia].
  - by apply lookup_app_l_Some.
  - intros k x Hk. destruct (decide (Datatypes.S k < length (entries_ l))%nat) as [Hlt|Hge].
    + rewrite lookup_app_l in Hk by done. rewrite take_app_le by lia.
      apply (lookup_weaken F); [by apply Cs|]. by apply insert_subseteq.
    + pose proof (lookup_lt_Some _ _ _ Hk) as Hk'. rewrite length_app in Hk'. cbn [length] in Hk'.
      assert (Datatypes.S k = length (entries_ l)) as Ek by lia. rewrite Ek in *. rewrite lookup_app_r, Nat.sub_diag in Hk by lia.
      injection Hk as <-. rewrite lookup_insert_eq, firstn_all2; [done|]. rewrite length_app. cbn [length]. lia.
Qed.

(** A larger table with the same winners. *)
Lemma lm_table F F' c i n n' : lm_inv F c -> F ⊆ F' -> nodes c !! i = Some n -> log_ok F' (log_ n') -> next_ok n' ->
  (forall k t l, F' !! (k, t) = Some l -> F !! (k, t) = Some l \/ (elected (granted c) i t /\ created k t n')) ->
  (forall k t, created k t n -> created k t n') -> lm_inv F' (set_node i n' c).
Proof.
  intros I HF Hi Ho Hx Hnew Hcr. split; simpl.
  - intros k m. rewrite lookup_insert. case_decide; [intros [= <-]; done|]. intros Hk. destruct (lm_nodes _ _ I k m Hk) as [? ?].
    split; [by apply (log_ok_mono F)|done].
  - intros m Hm. pose proof (lm_msgs _ _ I m Hm) as Hok. destruct m; try done. destruct Hok as (? & ? & ?). split_and!; try done.
    by apply (append_ok_mono F).
  - intros k t l Hl. destruct (Hnew k t l Hl) as [Hold|[He Hc]].
    + destruct (lm_ghost _ _ I k t l Hold) as (d & m & Hd & Hm & Hk). exists d. rewrite lookup_insert. case_decide; [|by exists m].
      subst d. exists n'. split_and!; try done. apply Hcr. congruence.
    + exists i, n'. by rewrite lookup_insert_eq.
Qed.

(** The winner of a term, leader or about to be, may append an entry. *)
Lemma lm_leads F c i n n' : inv c -> lm_inv F c -> nodes c !! i = Some n -> roomy (log_ n) ->
  elected (granted c) i (currentTerm_ n) -> role_ n <> Follower -> role_ n' = Leader -> currentTerm_ n' = currentTerm_ n ->
  next_ok n' -> (same_log (log_ n) (log_ n') \/ appended n n') -> exists F', lm_inv F' (set_node i n' c).
Proof.
  intros Ic I Hi R He Hr Hr' Ht' Hx Hlog. destruct (lm_nodes _ _ I i n Hi) as [Ho _].
  assert (forall k t, (length (entries_ (log_ n)) <= length (entries_ (log_ n')))%nat -> created k t n -> created k t n') as Hcr.
  { intros k t Hle [?|(-> & Hnc & Hl)]; [left; lia|]. right. split_and!; [done|congruence|]. intros _.
    enough (role_ n = Leader) as Hlead by (specialize (Hl Hlead); lia). by destruct (role_ n). }
  destruct Hlog as [Hs|(e & Et & Ei & Hs)].
  { exists F. apply (lm_move F c i n n'); try done; [by apply (log_ok_same F (log_ n))|]. intros k t _. apply Hcr. by destruct Hs as [-> _]. }
  pose proof (ghost_fresh F c i n Ic I Hi He Hr) as Hnew. rewrite <- Et in Hnew. pose proof (LastIndex_nonneg F _ Ho).
  pose proof (LastIndex_wf _ (lo_wf _ _ Ho)) as HL. rewrite (lo_snap _ _ Ho) in HL. unfold roomy in R.
  rewrite u64_small in Ei by (unfold is_u64; lia). pose proof (log_ok_same _ _ _ Hs (log_ok_snoc F (log_ n) e Ho R Ei Hnew)) as Ho'.
  assert (length (entries_ (log_ n')) = S (length (entries_ (log_ n)))) as Elen.
  { destruct Hs as [E _]. rewrite E. simpl. rewrite length_app. simpl. lia. }
  exists (<[(length (entries_ (log_ n)), le_term e) := entries_ (log_ n) ++ [e]]> F).
  apply (lm_table F _ c i n n'); try done; [by apply insert_subseteq| |intros k t; apply Hcr; lia].
  intros k t l. rewrite lookup_insert_Some. intros [[[= <- <-] _]|[_ Hl]]; [right|by left]. rewrite Et.
  split; [done|]. right. split_and!; [done|congruence|]. intros _. lia.
Qed.

(** ** Steps *)

(** No log has reached the size at which its node takes a snapshot. *)
Definition small (c : Cluster) : Prop :=
  forall i n, nodes c !! i = Some n -> Log_Size (log_ n) <= cfg_snapshotThreshold (config_ n) < 2 ^ 63.

Lemma small_roomy F c i n : lm_inv F c -> small c -> nodes c !! i = Some n -> roomy (log_ n).
Proof.
  intros I Hs Hi. specialize (Hs i n Hi). destruct (lm_nodes _ _ I i n Hi) as [[W S _] _]. pose proof (wf_bound _ W).
  pose proof (log_size_pos _ W). rewrite S in *. unfold Log_Size in Hs. rewrite u64_small in Hs by (unfold is_u64; lia). unfold roomy. lia.
Qed.

Lemma MaybeSnapshot_small now n : Log_Size (log_ n) <= cfg_snapshotThreshold (config_ n) -> (MaybeSnapshot now n).1 = n.
Proof. intros Hs. unfold MaybeSnapshot. rewrite bind_getS. case_if; [lia|done]. Qed.

Lemma HandleRequestVote_role now req n n' resp : is_u64 (vq_term req) -> node_ok n -> hs_durable n ->
  utf8_valid (vq_candidateId req) = true -> HandleRequestVote now req n = (n', Ok resp) -> same_role n n'.
Proof.
  intros Hu Hok Hd Hc. rewrite HandleRequestVote_run by (try apply Hok; done). case_if; [intros [= <- _]; by right|]. cbv zeta.
  assert (same_role n (vote_pre now req n)) as Hr.
  { unfold vote_pre. destruct (currentTerm_ n <? vq_term req) eqn:E1; bool_prop; [|by right]. by apply vote_effect_role, as_follower_effect. }
  case_if; intros [= <- _]; [|done]. unfold vote_cast, same_role in *.
  pose proof (persisted_fields (set_heartbeat now (set_votedFor (vq_candidateId req) (vote_pre now req n)))) as (_ & -> & _ & ->). done.
Qed.

(** A request of its own term never reaches a leader. *)
Lemma append_not_leader F c i n from req : inv c -> lm_inv F c -> nodes c !! i = Some n -> MAppendReq from i req ∈ net c ->
  aq_term req = currentTerm_ n -> role_ n <> Leader.
Proof.
  intros Ic I Hi Hm Ht Hr. destruct (lm_msgs _ _ I _ Hm) as (Hne & He & _). rewrite Ht in He.
  by apply Hne, (elected_unique members cfg c from i _ Ic He), (leader_elected members cfg config_ok c i n).
Qed.

Lemma lm_append F c i n n' from req r now : inv c -> lm_inv F c -> small c -> nodes c !! i = Some n ->
  MAppendReq from i req ∈ net c -> HandleAppendEntries now req n = (n', r) ->
  lm_inv F (send (match r with Ok resp => [MAppendResp i from req resp] | Throw _ => [] end) (set_node i n' c)).
Proof.
  intros Ic I Hs Hi Hm Hr. destruct (lm_nodes _ _ I i n Hi) as [Ho Hx]. destruct (lm_msgs _ _ I _ Hm) as (_ & _ & Ha).
  pose proof (inv_msg _ _ c Ic _ Hm) as Hu. simpl in Hu. destruct (inv_node _ _ c Ic i n Hi) as (_ & _ & _ & Hd).
  destruct (HandleAppendEntries_log F now req n n' r Hu Ho (small_roomy F c i n I Hs Hi) Ha Hr) as (Ho' & Hx' & Hold & Hterm & Hresp).
  pose proof (vote_effect_role _ _ (HandleAppendEntries_effect now req n Hu Hd)) as Hrole. rewrite Hr in Hrole. cbn [fst] in Hrole.
  apply lm_send.
  - apply (lm_move F c i n n'); try done; [unfold next_ok; by rewrite Hx'|]. intros k t He Hc.
    destruct (decide (aq_term req < currentTerm_ n)) as [Hlt|Hge]; [by rewrite Hold|]. specialize (Hterm ltac:(lia)).
    destruct Hrole as [Hlt|[Et Er]]; [destruct Hc as [?|(? & ?)]; left; lia|]. destruct Hc as [?|(-> & Hnc & _)]; [left; lia|].
    right. rewrite Er. split_and!; [done|done|]. intros Hl. exfalso. apply (append_not_leader F c i n from req); try done. lia.
  - destruct r as [resp|]; [|constructor]. apply Forall_singleton. by apply Hresp.
Qed.

Lemma lm_election_end F c i n e : inv c -> lm_inv F c -> small c -> nodes c !! i = Some n -> elections c !! i = Some e ->
  el_pending e = [] -> exists F', lm_inv F' (set_node i (StartElection_finish (el_term e) (el_votes e) n).1 c).
Proof.
  intros Ic I Hs Hi He Hp. destruct (lm_nodes _ _ I i n Hi) as [Ho Hx].
  destruct (StartElection_finish_log (el_term e) (el_votes e) n (LastIndex_nonneg F _ Ho)) as [->|(Hc & Ht & Hq & Hr & Ht' & Hl & Hx')].
  - exists F. apply (lm_core F c i n); try done. by right.
  - apply (lm_leads F c i n); try done; [by apply (small_roomy F c i)| |congruence|by apply Hx'].
    destruct (inv_election _ _ c Ic i e He) as [Hcnt Hnd Hmem Hgr]. exists (QuorumSize n).
    split; [by apply (quorum_majority members cfg config_ok c i)|]. exists (el_voters e). rewrite Hp, app_nil_r in *.
    split_and!; [done| |lia]. intros v Hv. rewrite Ht. auto.
Qed.

Lemma step_matching F c c' : inv c -> lm_inv F c -> small c -> step cfg (mkFaults false true true) c c' -> exists F', lm_inv F' c'.
Proof.
  intros Ic I Hs Hstep.
  destruct Hstep as [i n n' req now Hn _ _ Hb Hr|i n n' from req resp now Hn Hm Hr|i n n' e p rest o stop v now Hn He Hp Ho Hr
    |i n e Hn He Hp|i n p req Hn _ Hin Hr|i n n' from req r now Hn Hm Hr|i n p req resp now Hn _ Hm _|i n q Hn _|i n k v op ttl Hn _ _|i n now key expected value _ Hn _
    |i n next e Hn Ha Hf|i n a now Hn Ha Hf|i n a Hn Ha Hf|i n now Hn Ha|i n n' j clock now Hfalse _ _ _]; [..|done];
    destruct (inv_node _ _ c Ic i n Hn) as (Hi & _ & Hok & Hd); destruct (lm_nodes _ _ I i n Hn) as [Hlog Hnext];
    pose proof (small_roomy F c i n I Hs Hn) as R.
  - exists F. apply lm_record_vote, lm_send; [|by apply Forall_fmap, Forall_forall]. apply lm_set_election.
    pose proof (StartElection_begin_core now n) as Hc. rewrite Hr in Hc. apply (lm_core F c i n n'); try done. left.
    rewrite (StartElection_begin_run now n Hok) in Hr. injection Hr as <- _. destruct Hd as (j & Hj & _).
    destruct (as_candidate_fields now n j Hj) as (_ & -> & _). destruct (ok_term n Hok). rewrite u64_small by (unfold is_u64; lia). lia.
  - exists F. pose proof (HandleRequestVote_core now req n) as Hc. rewrite Hr in Hc. destruct (inv_msg _ _ c Ic _ Hm) as (Hfrom & Hcand & Hu).
    assert (lm_inv F (send [MVoteResp i from req resp] (set_node i n' c))) as I'.
    { apply lm_send; [|by apply Forall_singleton]. apply (lm_core F c i n n'); try done.
      apply (HandleRequestVote_role now req n n' resp); try done. rewrite Hcand. by apply (proj2 config_ok). }
    cbv zeta. destruct (vr_voteGranted resp); [by apply lm_record_vote|done].
  - exists F. apply lm_set_election. pose proof (StartElection_turn_core now (el_term e) o n) as Hc. rewrite Hr in Hc.
    apply (lm_core F c i n n'); try done.
    destruct (StartElection_turn_effect now (el_term e) o n) as (n1 & s1 & v1 & E1 & Heff & _); [|done|].
    { intros resp E. destruct (Ho resp E) as (req & _ & Hm). apply (inv_msg _ _ c Ic _ Hm). }
    rewrite Hr in E1. injection E1 as <- _ _. by apply vote_effect_role.
  - destruct (lm_election_end F c i n e Ic I Hs Hn He Hp) as [F' I']. exists F'. by apply lm_set_election.
  - exists F. destruct (prepare_ok F p n req Hlog R Hnext Hr) as [Ha Hl]. apply ReplicateToPeer_prepare_term in Hr as [Ht _].
    apply lm_set_call, lm_send; [done|]. apply Forall_singleton. split_and!; [|rewrite Ht; by apply (leader_elected members cfg config_ok c i n)|done].
    intros <-. destruct (inv_peers members cfg config_ok c i n Ic Hn) as [Hp _]. pose proof (proj1 config_ok) as Hnd.
    rewrite <- Hp in Hnd. by apply NoDup_cons in Hnd as [? _].
  - exists F. by apply (lm_append F c i n n' from req r now).
  - exists F. destruct (ReplicateToPeer_response_log now p req resp n) as [Hl Hx]; [apply (lm_msgs _ _ I _ Hm)|].
    apply lm_set_call, (lm_same F c i n); [done|done|done|by apply Hx|]. apply vote_effect_role, ReplicateToPeer_response_effect; [|done].
    apply (inv_msg _ _ c Ic _ Hm).
  - exists F. by apply lm_set_call.
  - destruct (Propose_begin_log k v op ttl n) as [->|(Hl & Ha & Hx)].
    + exists F. apply (lm_core F c i n); try done. by right.
    + pose proof (keeps_Propose_begin k v op ttl n) as (_ & Et & _ & Er & _).
      apply (lm_leads F c i n); try done; [by apply (leader_elected members cfg config_ok c i n)|congruence|congruence|unfold next_ok; by rewrite Hx|by right].
  - exists F. apply (lm_core F c i n); try done. by right.
  - exists F. by apply lm_set_applying.
  - exists F. apply lm_set_applying, (lm_core F c i n); try done. by right.
  - exists F. apply lm_set_applying, (lm_core F c i n); try done. by right.
  - exists F. rewrite MaybeSnapshot_small by (by apply (Hs i n)). apply (lm_core F c i n); try done. by right.
Qed.

(** ** Runs without restarts and snapshots *)

Definition quiet_step (c c' : Cluster) : Prop := small c /\ step cfg (mkFaults false true true) c c'.

Definition quietly_reachable (c : Cluster) : Prop := exists c0, cluster_init members cfg c0 /\ rtc quiet_step c0 c.

Lemma init_matching c : cluster_init members cfg c -> lm_inv ∅ c.
Proof.
  intros (_ & Hnew & _ & _ & _ & Hnet & _). split.
  - intros i n Hn. destruct (Hnew i n Hn) as (clock & now & ->).
    assert (log_ (RaftNode_new (cfg i) KVStore_new (Some []) clock now).1 = RaftLog_new (Some [])) as -> by reflexivity.
    split; [|apply map_Forall_empty]. split; [split; try done|done|split; [done|]].
    + intros [|k] e He; [by injection He as <-|done].
    + intros e [= <-]. done.
    + done.
  - intros m. rewrite Hnet. by intros ?%not_elem_of_nil.
  - intros i t l Hl. by rewrite lookup_empty in Hl.
Qed.

Lemma quietly_matching c : quietly_reachable c -> inv c /\ exists F, lm_inv F c.
Proof.
  intros (c0 & H0 & Hr). pose proof (init_inv members cfg config_ok c0 H0) as I0. pose proof (init_matching c0 H0) as M0.
  apply (rtc_ind_r (R := quiet_step) (fun c => inv c /\ exists F, lm_inv F c) c0); [by eauto| |done].
  intros c1 c2 _ [Hs Hstep] [I1 [F M1]]. split; [by apply (step_inv members cfg config_ok (mkFaults false true true) c1)|].
  by apply (step_matching F c1).
Qed.
End Matching.

(** ** Theorem *)

(** C4: log matching.  In every state a cluster reaches without restarts and
    snapshots, however its nodes interleave and whatever the network loses,
    repeats or reorders: if the logs of two nodes have entries of the same term
    at an index, the logs are identical up to and including that index. *)
Theorem log_matching {J : JsonLib} {L : JsonLaws J} members cfg c i j ni nj k ei ej :
  cluster_config members cfg -> quietly_reachable members cfg c ->
  nodes c !! i = Some ni -> nodes c !! j = Some nj ->
  log_lookup (log_ ni) k = Some ei -> log_lookup (log_ nj) k = Some ej -> le_term ei = le_term ej ->
  forall m, m <= k -> log_lookup (log_ ni) m = log_lookup (log_ nj) m.
Proof.
  intros Hcfg Hr Hi Hj Hei Hej Ht m Hm. destruct (quietly_matching members cfg Hcfg c Hr) as [_ [F I]].
  destruct (lm_nodes _ _ _ I i ni Hi) as [[_ Si Ci] _]. destruct (lm_nodes _ _ _ I j nj Hj) as [[_ Sj Cj] _].
  unfold log_lookup in *. rewrite Si, Sj, !Z.sub_0_r in *. case_if_in Hei; [|done]. case_if; [|done].
  pose proof (consistent_agree F _ _ _ ei ej Ci Cj Hei Hej Ht) as Ha.
  rewrite <- (lookup_take_lt (entries_ (log_ ni)) (S (Z.to_nat k))), <- (lookup_take_lt (entries_ (log_ nj)) (S (Z.to_nat k))) by lia.
  by rewrite Ha.
Qed.

(** ** Witness and scenario *)

Section MatchingExamples.
#[local] Existing Instance RefJson.
#[local] Open Scope string_scope.
#[local] Open Scope Z_scope.

(** The leader of [ex_c5] replicates the entry of its election to [n2]. *)
Definition ex_areq : AppendEntriesRequest :=
  default (mkAppendEntriesRequest 0 "" 0 0 [] 0) (ReplicateToPeer_prepare "n2" ex_leader).
Definition ex_c6 : Cluster := set_call "n1" (Some ("n2", ex_areq)) (send [MAppendReq "n1" "n2" ex_areq] ex_c5).
Definition ex_n2' : RaftNode := (HandleAppendEntries 300 ex_areq ex_n2).1.
Definition ex_aresp : AppendEntriesResponse := mkAppendEntriesResponse 1 true 0 0.
Definition ex_c7 : Cluster := send [MAppendResp "n2" "n1" ex_areq ex_aresp] (set_node "n2" ex_n2' ex_c6).

Lemma ex_step6 b : step ex_cfg b ex_c5 ex_c6.
Proof. refine (st_replicate ex_cfg b ex_c5 "n1" ex_leader "n2" ex_areq _ _ _ _); [by vm_compute|by vm_compute| |by vm_compute]. vm_compute. left. Qed.

Lemma ex_step7 b : step ex_cfg b ex_c6 ex_c7.
Proof.
  refine (st_append ex_cfg b ex_c6 "n2" ex_n2 ex_n2' "n1" ex_areq (Ok ex_aresp) 300 _ _ _); [by vm_compute| |by vm_compute].
  apply elem_of_app. right. left.
Qed.

(** [small], decided. *)
Definition small_check (c : Cluster) : bool :=
  forallb (fun kn => (Log_Size (log_ kn.2) <=? cfg_snapshotThreshold (config_ kn.2)) && (cfg_snapshotThreshold (config_ kn.2) <? 2 ^ 63))
    (map_to_list (nodes c)).

Lemma small_check_ok c : small_check c = true -> small c.
Proof.
  intros Hc i n Hn. unfold small_check in Hc. rewrite forallb_forall in Hc.
  assert ((i, n) ∈ map_to_list (nodes c)) as Hin by (by apply elem_of_map_to_list). apply list_elem_of_In, Hc in Hin.
  apply andb_true_iff in Hin as [H1 H2]. bool_prop. done.
Qed.

Lemma ex_quietly : quietly_reachable ex_members ex_cfg ex_c7.
Proof.
  exists ex_c0. split; [apply ex_init|].
  do 7 (eapply rtc_l; [split; [apply small_check_ok; vm_compute; reflexivity|first [apply ex_step1|apply ex_step2|apply ex_step3
    |apply ex_step4|apply ex_step5|apply ex_step6|apply ex_step7]]|]). apply rtc_refl.
Qed.

Lemma log_matching_witness :
  LastIndex (log_ ex_leader) = 1 /\ LastIndex (log_ ex_n2') = 1 /\
  forall m, m <= 1 -> log_lookup (log_ ex_leader) m = log_lookup (log_ ex_n2') m.
Proof.
  split; [by vm_compute|]. split; [by vm_compute|].
  assert (exists e, log_lookup (log_ ex_leader) 1 = Some e /\ le_term e = 1) as (e & He & Ht) by (eexists; by vm_compute).
  assert (exists e, log_lookup (log_ ex_n2') 1 = Some e /\ le_term e = 1) as (e' & He' & Ht') by (eexists; by vm_compute).
  apply (log_matching (L := RefJson_laws) ex_members ex_cfg ex_c7 "n1" "n2" ex_leader ex_n2' 1 e e' ex_config_ok ex_quietly);
    [by vm_compute|by vm_compute|exact He|exact He'|congruence].
Defined.

(** With restarts it fails: a follower that has entries 1 to 3, gets the
    request for entry 1 again and then entry 4 restarts with a log in which
    entry 4 stands at index 2. *)
Example restart_leaves_hole :
  let put i := mkLogEntry 1 i OpPut "k" "v" (-1) "" in
  let n0 := ex_new "n2" in
  let n1 := (HandleAppendEntries 1 (mkAppendEntriesRequest 1 "n1" 0 0 [put 1; put 2; put 3] 0) n0).1 in
  let n2 := (HandleAppendEntries 2 (mkAppendEntriesRequest 1 "n1" 0 0 [put 1] 0) n1).1 in
  let n3 := (HandleAppendEntries 3 (mkAppendEntriesRequest 1 "n1" 3 1 [put 4] 0) n2).1 in
  let n4 := (RaftNode_new (ex_cfg "n2") KVStore_new (wal_ (log_ n3)) (fun _ => 0) 4).1 in
  (le_index <$> entries_ (log_ n3)) = [0; 1; 2; 3; 4] /\ (le_index <$> entries_ (log_ n4)) = [0; 1; 4] /\
  le_index <$> log_lookup (log_ n4) 2 = Some 4.
Proof. by vm_compute. Qed.
End MatchingExamples.
