(* ===== verification/RaftRun.v ===== *)
(** * Running a cluster

    The steps of [RaftCluster] as a function of a schedule: each action names
    the node or the message of the network it is about, by its position, and is
    refused when the step is not enabled.  [run_sound] says that a run of a
    schedule is a run of the step relation with every log below its snapshot
    threshold; concrete runs are then computed. *)
From S2P Require Import Prelude CxxString CxxMap Json KVStore RaftRPC WriteAheadLog RaftLog RaftNode RaftCluster RaftReplication RaftLogMatching.
From Stdlib Require Import ZArith Lia Ascii String.
From stdpp Require Import prelude gmap strings sorting relations.
#[local] Open Scope Z_scope.

Inductive Action : Type :=
| DoElection (i : string) (now : Z)
| DoVote (k : nat) (now : Z)
| DoVoteResponse (i : string) (k : option nat) (now : Z)
| DoElectionEnd (i : string)
| DoReplicate (i p : string)
| DoAppend (k : nat) (now : Z)
| DoAppendResponse (k : nat) (now : Z)
| DoCallLost (i : string)
| DoPropose (i key value : string)
| DoSwap (i : string) (now : Z) (key expected value : string)
| DoFetch (i : string)
| DoStore (i : string) (now : Z)
| DoFinish (i : string).

Section Run.
Context `{JsonLib}.
Variable cfg : string -> RaftConfig.
Variable f : Faults.

Definition act_election (i : string) (now : Z) (c : Cluster) : option Cluster :=
  n ← nodes c !! i;
  match elections c !! i, StartElection_begin now n with
  | None, (n', Ok req) =>
      if bool_decide (role_ n <> Leader) && (currentTerm_ n + 1 <? 2 ^ 64)
      then Some (record_vote i (vq_term req) i (send ((fun p => MVoteReq i p req) <$> peer_ids n)
        (set_election i (Some (mkElection (vq_term req) (peer_ids n) 1 [i])) (set_node i n' c))))
      else None
  | _, _ => None
  end.

Definition act_vote (k : nat) (now : Z) (c : Cluster) : option Cluster :=
  match net c !! k with
  | Some (MVoteReq from i req) =>
      n ← nodes c !! i;
      match HandleRequestVote now req n with
      | (n', Ok resp) =>
          let c' := send [MVoteResp i from req resp] (set_node i n' c) in
          Some (if vr_voteGranted resp then record_vote i (vq_term req) (vq_candidateId req) c' else c')
      | _ => None
      end
  | _ => None
  end.

(** The response to the request of this election from the peer it waits for. *)
Definition vote_answer (i p : string) (e : Election) (k : option nat) (c : Cluster) : option (option RequestVoteResponse) :=
  match k with
  | None => Some None
  | Some k =>
      match net c !! k with
      | Some (MVoteResp q j req resp) =>
          if bool_decide (q = p /\ j = i) && (vq_term req =? el_term e) then Some (Some resp) else None
      | _ => None
      end
  end.

Definition act_vote_response (i : string) (k : option nat) (now : Z) (c : Cluster) : option Cluster :=
  n ← nodes c !! i;
  e ← elections c !! i;
  match el_pending e with
  | p :: rest =>
      o ← vote_answer i p e k c;
      match StartElection_turn now (el_term e) o n with
      | (n', Ok (stop, v)) =>
          Some (set_election i (if stop : bool then None else
              Some (mkElection (el_term e) rest (el_votes e + v) (if v =? 1 then p :: el_voters e else el_voters e))) (set_node i n' c))
      | _ => None
      end
  | [] => None
  end.

Definition act_election_end (i : string) (c : Cluster) : option Cluster :=
  n ← nodes c !! i;
  e ← elections c !! i;
  match el_pending e with
  | [] => Some (set_election i None (set_node i (StartElection_finish (el_term e) (el_votes e) n).1 c))
  | _ => None
  end.

Definition act_replicate (i p : string) (c : Cluster) : option Cluster :=
  n ← nodes c !! i;
  req ← ReplicateToPeer_prepare p n;
  if bool_decide (calls c !! i = None /\ p ∈ peer_ids n) then Some (set_call i (Some (p, req)) (send [MAppendReq i p req] c)) else None.

Definition act_append (k : nat) (now : Z) (c : Cluster) : option Cluster :=
  match net c !! k with
  | Some (MAppendReq from i req) =>
      n ← nodes c !! i;
      let '(n', r) := HandleAppendEntries now req n in
      Some (send (match r with Ok resp => [MAppendResp i from req resp] | Throw _ => [] end) (set_node i n' c))
  | _ => None
  end.

Definition act_append_response (k : nat) (now : Z) (c : Cluster) : option Cluster :=
  match net c !! k with
  | Some (MAppendResp p i req resp) =>
      n ← nodes c !! i;
      if bool_decide (calls c !! i = Some (p, req)) && (late f || (aq_term req =? currentTerm_ n) || (currentTerm_ n <? ar_term resp))
      then Some (set_call i None (set_node i (ReplicateToPeer_response now p req resp n).1 c)) else None
  | _ => None
  end.

Definition act_call_lost (i : string) (c : Cluster) : option Cluster :=
  _ ← nodes c !! i; _ ← calls c !! i; Some (set_call i None c).

Definition act_swap (i : string) (now : Z) (key expected value : string) (c : Cluster) : option Cluster :=
  n ← nodes c !! i;
  if swaps f && utf8_valid value then Some (set_node i (set_store (CAS now key expected value 0 (store_ n)).1.2 n) c) else None.

Definition act_fetch (i : string) (c : Cluster) : option Cluster :=
  n ← nodes c !! i;
  match applying c !! i, ApplyLoop_fetch n with
  | None, Some (next, e) => Some (set_applying i (Some (mkApplying next e false)) c)
  | _, _ => None
  end.

Definition act_store (i : string) (now : Z) (c : Cluster) : option Cluster :=
  n ← nodes c !! i;
  a ← applying c !! i;
  if ap_stored a then None
  else Some (set_applying i (Some (mkApplying (ap_next a) (ap_entry a) true))
      (set_node i (set_store (ApplyEntry now (ap_entry a) (store_ n)).1.1 n) c)).

Definition act_finish (i : string) (c : Cluster) : option Cluster :=
  n ← nodes c !! i;
  a ← applying c !! i;
  if ap_stored a then Some (set_applying i None (set_node i (ApplyLoop_finish (ap_next a) n) c)) else None.

Definition act (a : Action) (c : Cluster) : option Cluster :=
  match a with
  | DoElection i now => act_election i now c
  | DoVote k now => act_vote k now c
  | DoVoteResponse i k now => act_vote_response i k now c
  | DoElectionEnd i => act_election_end i c
  | DoReplicate i p => act_replicate i p c
  | DoAppend k now => act_append k now c
  | DoAppendResponse k now => act_append_response k now c
  | DoCallLost i => act_call_lost i c
  | DoSwap i now key expected value => act_swap i now key expected value c
  | DoPropose i key value => n ← nodes c !! i; Some (set_node i (Propose_begin key value OpPut (-1) n).1 c)
  | DoFetch i => act_fetch i c
  | DoStore i now => act_store i now c
  | DoFinish i => act_finish i c
  end.

Fixpoint run (schedule : list Action) (c : Cluster) : option Cluster :=
  match schedule with
  | [] => Some c
  | a :: rest => if small_check c then c' ← act a c; run rest c' else None
  end.

Lemma act_sound a c c' : act a c = Some c' -> step cfg f c c'.
Proof.
  destruct a as [i now|k now|i k now|i|i p|k now|k now|i|i key value|i now key expected value|i|i now|i]; cbn [act].
  - intros (n & Hn & Ha)%bind_Some. destruct (elections c !! i) eqn:He; [done|]. destruct (StartElection_begin now n) as [n' [req|]] eqn:Hr; [|done].
    case_bool_decide as Hrole; [|done]. destruct (currentTerm_ n + 1 <? 2 ^ 64) eqn:Hb; [|done]. bool_prop. injection Ha as <-. by eapply st_election.
  - unfold act_vote. destruct (net c !! k) as [[from i req| | |]|] eqn:Hm; try done. intros (n & Hn & Ha)%bind_Some.
    destruct (HandleRequestVote now req n) as [n' [resp|]] eqn:Hr; [|done]. injection Ha as <-.
    eapply st_vote; [done|by eapply list_elem_of_lookup_2|done].
  - intros (n & Hn & (e & He & Ha)%bind_Some)%bind_Some. destruct (el_pending e) as [|p rest] eqn:Hp; [done|].
    apply bind_Some in Ha as (o & Ho & Ha). destruct (StartElection_turn now (el_term e) o n) as [n' [[stop v]|]] eqn:Hr; [|done]. injection Ha as <-.
    eapply st_vote_response; try done. intros resp ->. unfold vote_answer in Ho. destruct k as [k|]; [|done].
    destruct (net c !! k) as [[|q j req resp'| |]|] eqn:Hm; try done. case_bool_decide as Hpq; [|done]. destruct Hpq as [-> ->].
    destruct (vq_term req =? el_term e) eqn:E; [|done]. bool_prop. injection Ho as ->. exists req. split; [done|]. by eapply list_elem_of_lookup_2.
  - intros (n & Hn & (e & He & Ha)%bind_Some)%bind_Some. destruct (el_pending e) eqn:Hp; [|done]. injection Ha as <-. by apply st_election_end.
  - intros (n & Hn & (req & Hr & Ha)%bind_Some)%bind_Some. case_bool_decide as Hp; [|done]. destruct Hp. injection Ha as <-. by eapply st_replicate.
  - unfold act_append. destruct (net c !! k) as [[| |from i req|]|] eqn:Hm; try done. intros (n & Hn & Ha)%bind_Some.
    destruct (HandleAppendEntries now req n) as [n' r] eqn:Hr. injection Ha as <-. eapply st_append; [done|by eapply list_elem_of_lookup_2|done].
  - unfold act_append_response. destruct (net c !! k) as [[| | |p i req resp]|] eqn:Hm; try done. intros (n & Hn & Ha)%bind_Some.
    case_bool_decide as Hcall; [|done]. destruct (late f || (aq_term req =? currentTerm_ n) || (currentTerm_ n <? ar_term resp)) eqn:E; [|done]. injection Ha as <-.
    apply st_append_response; [done|done|by eapply list_elem_of_lookup_2|]. apply orb_true_iff in E as [[E|E]%orb_true_iff|E]; bool_prop; auto.
  - intros (n & Hn & (q & Hq & Ha)%bind_Some)%bind_Some. injection Ha as <-. by eapply st_call_lost.
  - intros (n & Hn & Ha)%bind_Some. injection Ha as <-. by apply st_propose; [..|unfold is_i64; lia].
  - intros (n & Hn & Ha)%bind_Some. destruct (swaps f) eqn:E; [|done]. destruct (utf8_valid value) eqn:Ev; [|done]. injection Ha as <-. by apply st_swap.
  - intros (n & Hn & Ha)%bind_Some. destruct (applying c !! i) eqn:He; [done|]. destruct (ApplyLoop_fetch n) as [[next e]|] eqn:Hf; [|done].
    injection Ha as <-. by eapply st_apply_fetch.
  - intros (n & Hn & (a & Ha & Hs)%bind_Some)%bind_Some. destruct (ap_stored a) eqn:E; [done|]. injection Hs as <-. by eapply st_apply_store.
  - intros (n & Hn & (a & Ha & Hs)%bind_Some)%bind_Some. destruct (ap_stored a) eqn:E; [|done]. injection Hs as <-. by apply st_apply_finish.
Qed.

(** A run of a schedule is a run of the cluster below the snapshot thresholds. *)
Lemma run_sound schedule : forall c c', run schedule c = Some c' -> rtc (fun c c' => small c /\ step cfg f c c') c c'.
Proof.
  induction schedule as [|a rest IH]; intros c c'; cbn [run]; [intros [= <-]; apply rtc_refl|].
  destruct (small_check c) eqn:Es; [|done]. intros (c1 & Ha & Hr)%bind_Some.
  eapply rtc_l; [|by apply IH]. split; [by apply small_check_ok|by apply act_sound in Ha].
Qed.
End Run.
