(* ===== verification/RaftSpec.v ===== *)
(** * Abstract Raft

    The consensus protocol of src/raft without its machinery: no journal, no
    words, no JSON, no frames.  A node is its term, its role, its log, its
    commit index and, for a leader, what it knows of the peers; the rules are
    those of the code, including the receiver's rule
    [commit = min(leaderCommit, last index)] and the backing up by conflict
    hints.  [RaftRefinement] shows that the runs of the nodes of [RaftNode] are
    runs of this system; here its safety is proved: what a majority has
    acknowledged is never lost, and the committed prefixes of any two nodes are
    prefixes of one another.

    The receiver's rule is safe only together with the hints.  A leader sends
    100 entries at most, so that a follower may agree with all that it received
    and yet hold a stale tail below [leaderCommit].  The invariant [aimed] says
    why this does not happen: the index a leader sends from is one where a
    follower with a stale tail disagrees at once. *)
From S2P Require Import Prelude RaftRPC RaftLog RaftNode.
From Stdlib Require Import ZArith Lia String.
From stdpp Require Import prelude gmap strings relations.

#[local] Abbreviation Log := (list LogEntry).
#[local] Infix "⊑" := prefix (at level 70).

(** ** The system *)

Record ANode := mkANode {
  a_term : Z;
  a_role : RaftRole;
  a_log : Log;
  a_commit : nat;
  a_next : gmap string nat;
  a_match : gmap string nat;
}.

Record AReq := mkAReq {
  q_term : Z;
  q_prev : nat;
  q_prevTerm : Z;
  q_entries : Log;
  q_commit : nat;
}.

(** A vote request, a replication request, and the two answers to it.  Votes
    are not messages but stay in [a_granted]. *)
Inductive AMsg : Type :=
| AVote (from : string) (t : Z) (lastIndex : nat) (lastTerm : Z)
| AAppend (from to : string) (q : AReq)
| AAck (from to : string) (q : AReq)
| ARefuse (from to : string) (q : AReq) (index : nat) (term : Z).

Record AState := mkAState {
  a_nodes : gmap string ANode;
  a_net : list AMsg;
  a_granted : list (string * Z * string);
}.

Definition last_index (l : Log) : nat := length l - 1.
Definition term_at (l : Log) (k : nat) : Z := default 0%Z (le_term <$> l !! k).
Definition last_term (l : Log) : Z := term_at l (last_index l).

Definition up_to_date (l : Log) (lastIndex : nat) (lastTerm : Z) : Prop :=
  (last_term l < lastTerm)%Z \/ (last_term l = lastTerm /\ last_index l <= lastIndex).

(** The receiver's log after [new] behind entry [prev]. *)
Definition merged (l : Log) (prev : nat) (new : Log) : Log :=
  take (S prev) l ++ merge_suffix (drop (S prev) l) new.

Definition prev_agrees (l : Log) (q : AReq) : Prop :=
  exists e, l !! q_prev q = Some e /\ le_term e = q_prevTerm q.

Definition last_new (q : AReq) : nat := q_prev q + length (q_entries q).

(** The hint of a refusal: the log is too short, or it has the term [term] from
    [index] to the entry in question. *)
Definition refuses (l : Log) (q : AReq) (index : nat) (term : Z) : Prop :=
  (length l <= q_prev q /\ index = length l /\ term = 0%Z) \/
  (term <> q_prevTerm q /\ (0 < term)%Z /\ 1 <= index <= q_prev q /\
   forall k, index <= k <= q_prev q -> exists e, l !! k = Some e /\ le_term e = term).

(** Where a leader continues after a refusal. *)
Definition backs_up (l : Log) (index : nat) (term : Z) (x : nat) : Prop :=
  (term = 0%Z /\ x = index) \/
  ((0 < term)%Z /\ exists r e, l !! r = Some e /\ le_term e = term /\ x = S r /\
     forall k e', r < k -> l !! k = Some e' -> le_term e' <> term) \/
  ((0 < term)%Z /\ x = index /\ forall k e', l !! k = Some e' -> le_term e' <> term).

Definition set_a (i : string) (n : ANode) (ms : list AMsg) (gs : list (string * Z * string)) (a : AState) : AState :=
  mkAState (<[i := n]> (a_nodes a)) (a_net a ++ ms) (a_granted a ++ gs).

Section Spec.
Variable members : list string.

Record quorum (q : list string) : Prop := {
  qr_nodup : NoDup q;
  qr_members v : v ∈ q -> v ∈ members;
  qr_majority : length members < 2 * length q;
}.

Inductive astep (a : AState) : AState -> Prop :=
| as_timeout i n k : a_nodes a !! i = Some n -> a_role n <> Leader ->
    astep a (set_a i (mkANode (a_term n + 1) Candidate (a_log n) (a_commit n) (a_next n) (a_match n))
      (replicate k (AVote i (a_term n + 1) (last_index (a_log n)) (last_term (a_log n)))) [(i, (a_term n + 1)%Z, i)] a)
| as_follow i n t : a_nodes a !! i = Some n -> (a_term n < t)%Z ->
    astep a (set_a i (mkANode t Follower (a_log n) (a_commit n) (a_next n) (a_match n)) [] [] a)
| as_vote i n from li lt : a_nodes a !! i = Some n -> AVote from (a_term n) li lt ∈ a_net a ->
    (forall d, (i, a_term n, d) ∈ a_granted a -> d = from) -> up_to_date (a_log n) li lt ->
    astep a (set_a i n [] [(i, a_term n, from)] a)
| as_lead i n q next' match' : a_nodes a !! i = Some n -> a_role n = Candidate ->
    quorum q -> (forall v, v ∈ q -> (v, a_term n, i) ∈ a_granted a) ->
    map_Forall (fun _ x => x = length (a_log n)) next' -> map_Forall (fun _ m => m = 0) match' ->
    astep a (set_a i (mkANode (a_term n) Leader (a_log n) (a_commit n) next' match') [] [] a)
| as_propose i n e : a_nodes a !! i = Some n -> a_role n = Leader -> le_term e = a_term n ->
    astep a (set_a i (mkANode (a_term n) Leader (a_log n ++ [e]) (a_commit n) (a_next n) (a_match n)) [] [] a)
| as_send i n p : a_nodes a !! i = Some n -> a_role n = Leader -> p <> i ->
    let x := default (length (a_log n)) (a_next n !! p) in
    astep a (set_a i n [AAppend i p (mkAReq (a_term n) (x - 1) (term_at (a_log n) (x - 1))
      (take 100 (drop x (a_log n))) (a_commit n))] [] a)
| as_accept i n from q : a_nodes a !! i = Some n -> AAppend from i q ∈ a_net a -> q_term q = a_term n ->
    prev_agrees (a_log n) q ->
    let l := merged (a_log n) (q_prev q) (q_entries q) in
    astep a (set_a i (mkANode (a_term n) (a_role n) l
        (if decide (a_commit n < q_commit q) then Nat.min (q_commit q) (last_index l) else a_commit n) (a_next n) (a_match n))
      [AAck i from q] [] a)
(** the receiver fails on the way *)
| as_partial i n from q k : a_nodes a !! i = Some n -> AAppend from i q ∈ a_net a -> q_term q = a_term n ->
    prev_agrees (a_log n) q ->
    astep a (set_a i (mkANode (a_term n) (a_role n) (merged (a_log n) (q_prev q) (take k (q_entries q)))
      (a_commit n) (a_next n) (a_match n)) [] [] a)
| as_refuse i n from q index term : a_nodes a !! i = Some n -> AAppend from i q ∈ a_net a -> q_term q = a_term n ->
    refuses (a_log n) q index term -> astep a (set_a i n [ARefuse i from q index term] [] a)
| as_acked i n p q : a_nodes a !! i = Some n -> AAck p i q ∈ a_net a -> a_role n = Leader -> q_term q = a_term n ->
    let m := Nat.max (default 0 (a_match n !! p)) (last_new q) in
    astep a (set_a i (mkANode (a_term n) Leader (a_log n) (a_commit n) (<[p := S m]> (a_next n)) (<[p := m]> (a_match n))) [] [] a)
| as_refused i n p q index term x : a_nodes a !! i = Some n -> ARefuse p i q index term ∈ a_net a ->
    a_role n = Leader -> q_term q = a_term n -> backs_up (a_log n) index term x ->
    astep a (set_a i (mkANode (a_term n) Leader (a_log n) (a_commit n) (<[p := x]> (a_next n)) (a_match n)) [] [] a)
| as_commit i n k q : a_nodes a !! i = Some n -> a_role n = Leader -> a_commit n < k -> 0 < k ->
    (exists e, a_log n !! k = Some e /\ le_term e = a_term n) ->
    quorum (i :: q) -> (forall p, p ∈ q -> exists m, a_match n !! p = Some m /\ k <= m) ->
    astep a (set_a i (mkANode (a_term n) Leader (a_log n) k (a_next n) (a_match n)) [] [] a).

Definition ainit (a : AState) : Prop :=
  (forall i, is_Some (a_nodes a !! i) -> i ∈ members) /\
  map_Forall (fun _ n => n = mkANode 0 Follower [sentinel 0 0] 0 ∅ ∅) (a_nodes a) /\ a_net a = [] /\ a_granted a = [].

Definition areachable (a : AState) : Prop := exists a0, ainit a0 /\ rtc astep a0 a.

(** ** The invariant

    The history of a run: the log each leader had, while it led, and the log
    each candidate stood with. *)
Record Hist := mkHist {
  h_lead : gmap Z (string * Log);
  h_cand : gmap (string * Z) Log;
}.

(** Every entry of the log is in the log of the leader of its term, behind the
    same entries. *)
Definition traced (H : Hist) (l : Log) : Prop :=
  l !! 0 = Some (sentinel 0 0) /\
  forall k e, l !! S k = Some e -> exists d M, h_lead H !! le_term e = Some (d, M) /\ take (S (S k)) l ⊑ M.

(** Entry [k] of term [t] exists; [P] is the log that ends with it. *)
Definition entry (H : Hist) (k : nat) (t : Z) (P : Log) : Prop :=
  exists d M e, h_lead H !! t = Some (d, M) /\ M !! k = Some e /\ le_term e = t /\ P = take (S k) M.

(** Node [v] acknowledged the log of the leader of [t] up to [k], or is that leader. *)
Definition acked (H : Hist) (a : AState) (v : string) (k : nat) (t : Z) : Prop :=
  (exists to q, AAck v to q ∈ a_net a /\ q_term q = t /\ k <= last_new q) \/ (exists M, h_lead H !! t = Some (v, M)).

Definition above (a : AState) (t : Z) (v : string) : Prop :=
  exists n, a_nodes a !! v = Some n /\ (t < a_term n)%Z.

(** A majority has acknowledged the entry; a majority never will. *)
Definition chosen (H : Hist) (a : AState) (k : nat) (t : Z) : Prop :=
  exists q, quorum q /\ forall v, v ∈ q -> acked H a v k t.
Definition dead (H : Hist) (a : AState) (k : nat) (t : Z) : Prop :=
  exists q, quorum q /\ forall v, v ∈ q -> above a t v /\ ~ acked H a v k t.

(** [L] holds all entries of earlier terms that may still be chosen. *)
Definition safe (H : Hist) (a : AState) (t : Z) (L : Log) : Prop :=
  forall k t' P, (t' < t)%Z -> entry H k t' P -> P ⊑ L \/ dead H a k t'.

(** [X] is part of a log that ends with a chosen entry. *)
Definition committed (H : Hist) (a : AState) (t : Z) (X : Log) : Prop :=
  X = [sentinel 0 0] \/ exists k t' P, (t' <= t)%Z /\ entry H k t' P /\ chosen H a k t' /\ X ⊑ P.

Definition diverges (l M : Log) (x : nat) : Prop :=
  forall e e', take x l = take x M -> l !! x = Some e -> M !! x = Some e' -> le_term e <> le_term e'.

(** The log of [p], if [p] is in term [t], is part of the leader's log or
    satisfies [Q]. *)
Definition lags (H : Hist) (a : AState) (p : string) (t : Z) (Q : Log -> Log -> Prop) : Prop :=
  above a t p \/ exists n d M, a_nodes a !! p = Some n /\ a_term n = t /\ h_lead H !! t = Some (d, M) /\ (a_log n ⊑ M \/ Q (a_log n) M).

(** The leader of [t] may send to [p] from [x] on: it has nothing or an entry
    of its own term there, or [p] has another entry there, unless its log is
    part of the leader's. *)
Definition aimed (H : Hist) (a : AState) (p : string) (t : Z) (x : nat) : Prop :=
  (forall d M e, h_lead H !! t = Some (d, M) -> M !! x = Some e -> le_term e = t) \/
  lags H a p t (fun l M => diverges l M x).

Definition hint (prev index : nat) (term : Z) (l M : Log) : Prop :=
  (term = 0%Z /\ index = length l) \/
  ((0 < term)%Z /\ index <= prev /\ (forall k, index <= k <= prev -> exists e, l !! k = Some e /\ le_term e = term) /\
   exists e, M !! prev = Some e /\ le_term e <> term).

(** A request is a piece of the log [M0] that the leader of its term had. *)
Definition request (H : Hist) (a : AState) (from to : string) (q : AReq) : Prop :=
  exists M0 N, h_lead H !! q_term q = Some (from, M0 ++ N) /\ Forall (fun e => le_term e = q_term q) N /\
    prev_agrees M0 q /\ q_entries q = take 100 (drop (S (q_prev q)) M0) /\
    q_commit q < length M0 /\ committed H a (q_term q) (take (S (q_commit q)) M0) /\ aimed H a to (q_term q) (S (q_prev q)).

Definition amsg (H : Hist) (a : AState) (m : AMsg) : Prop :=
  match m with
  | AVote from t li lt => exists L, h_cand H !! (from, t) = Some L /\ li = last_index L /\ lt = last_term L
  | AAppend from to q => from <> to /\ request H a from to q
  | AAck p i q => p <> i /\ is_Some (a_nodes a !! p) /\
      exists M, h_lead H !! q_term q = Some (i, M) /\ last_new q < length M /\ aimed H a p (q_term q) (S (last_new q))
  | ARefuse p i q index term => 1 <= index <= q_prev q /\
      exists M, h_lead H !! q_term q = Some (i, M) /\ q_prev q < length M /\ lags H a p (q_term q) (hint (q_prev q) index term)
  end.

(** What a leader knows of its peers. *)
Definition leads (H : Hist) (a : AState) (i : string) (n : ANode) : Prop :=
  h_lead H !! a_term n = Some (i, a_log n) /\
  map_Forall (fun p x => 1 <= x <= length (a_log n) /\ aimed H a p (a_term n) x) (a_next n) /\
  map_Forall (fun p m => m = 0 \/ exists q, AAck p i q ∈ a_net a /\ q_term q = a_term n /\ m = last_new q) (a_match n).

Definition stands (H : Hist) (i : string) (n : ANode) : Prop :=
  (1 <= a_term n)%Z /\ exists L, h_cand H !! (i, a_term n) = Some L /\
    (a_log n = L \/ exists d M, h_lead H !! a_term n = Some (d, M) /\ d <> i).

Record anode (H : Hist) (a : AState) (i : string) (n : ANode) : Prop := {
  an_member : i ∈ members;
  an_term : (0 <= a_term n)%Z;
  an_traced : traced H (a_log n);
  an_terms k e : a_log n !! k = Some e -> (le_term e <= a_term n)%Z;
  an_commit : a_commit n < length (a_log n);
  an_committed : committed H a (a_term n) (take (S (a_commit n)) (a_log n));
  an_leads : a_role n = Leader -> leads H a i n;
  an_stands : a_role n = Candidate -> stands H i n;
}.

Record alead (H : Hist) (a : AState) (t : Z) (d : string) (M : Log) : Prop := {
  al_term : (1 <= t)%Z;
  al_traced : traced H M;
  al_sorted j k e e' : j <= k -> M !! j = Some e -> M !! k = Some e' -> (le_term e <= le_term e' <= t)%Z;
  al_votes : exists q, quorum q /\ forall v, v ∈ q -> (v, t, d) ∈ a_granted a;
  al_node : exists n, a_nodes a !! d = Some n /\
    ((t < a_term n)%Z \/ (a_term n = t /\ a_role n = Leader /\ a_log n = M));
  al_safe : safe H a t M;
}.

(** A vote: the candidate's log holds what the voter acknowledged. *)
Record avote (H : Hist) (a : AState) (v : string) (t : Z) (c : string) : Prop := {
  av_node : exists n, a_nodes a !! v = Some n /\ (t <= a_term n)%Z;
  av_once c' : (v, t, c') ∈ a_granted a -> c' = c;
  av_log : exists L, h_cand H !! (c, t) = Some L /\
    forall k t' P, (t' < t)%Z -> entry H k t' P -> acked H a v k t' -> P ⊑ L \/ dead H a k t';
}.

Record acand (H : Hist) (a : AState) (c : string) (t : Z) (L : Log) : Prop := {
  ac_traced : traced H L;
  ac_node : exists n, a_nodes a !! c = Some n /\ (t <= a_term n)%Z;
}.

Record ainv (H : Hist) (a : AState) : Prop := {
  ai_node i n : a_nodes a !! i = Some n -> anode H a i n;
  ai_msg m : m ∈ a_net a -> amsg H a m;
  ai_lead t d M : h_lead H !! t = Some (d, M) -> alead H a t d M;
  ai_vote v t c : (v, t, c) ∈ a_granted a -> avote H a v t c;
  ai_cand c t L : h_cand H !! (c, t) = Some L -> acand H a c t L;
  ai_ack v n k t P : a_nodes a !! v = Some n -> entry H k t P -> acked H a v k t -> P ⊑ a_log n \/ dead H a k t;
}.

(** ** Logs *)

Lemma prefix_take_eq (l M : Log) k : l ⊑ M -> k <= length l -> take k l = take k M.
Proof. intros [N ->] Hk. by rewrite take_app_le. Qed.

Lemma prefix_of_take (l M : Log) k : l ⊑ M -> length l <= k -> l ⊑ take k M.
Proof. intros [N ->] Hk. exists (take (k - length l) N). by rewrite take_app, firstn_all2. Qed.

Lemma prefix_both (l l' M : Log) : l ⊑ M -> l' ⊑ M -> length l <= length l' -> l ⊑ l'.
Proof. intros Hl [N ->] Hlen. apply (prefix_of_take _ _ (length l')) in Hl; [|done]. by rewrite take_app_length in Hl. Qed.

Lemma prefix_full (l M : Log) : take (length M) M ⊑ l -> M ⊑ l.
Proof. by rewrite firstn_all. Qed.

Lemma take_take_prefix (l : Log) j k : j <= k -> take j l ⊑ take k l.
Proof. intros Hj. apply prefix_of_take; [apply prefix_take|]. rewrite length_take. lia. Qed.

Lemma traced_prefix H l M : traced H M -> l ⊑ M -> l <> [] -> traced H l.
Proof.
  intros [H0 Hk] [N ->] Hne. split; [by destruct l|]. intros k e He. pose proof (lookup_lt_Some _ _ _ He).
  destruct (Hk k e) as (d & M & Hd & Hp); [by apply lookup_app_l_Some|]. exists d, M. by rewrite take_app_le in Hp by lia.
Qed.

Lemma traced_nonempty H l : traced H l -> 0 < length l.
Proof. intros [H0 _]. by apply lookup_lt_Some in H0. Qed.

Lemma traced_agree H l l' k e e' : traced H l -> traced H l' -> l !! k = Some e -> l' !! k = Some e' ->
  le_term e = le_term e' -> take (S k) l = take (S k) l'.
Proof.
  intros [H0 Hk] [H0' Hk'] He He' Ht. pose proof (lookup_lt_Some _ _ _ He). pose proof (lookup_lt_Some _ _ _ He').
  destruct k as [|k].
  - destruct l, l'; try done. simpl in *. rewrite !firstn_O. congruence.
  - destruct (Hk k e He) as (d & M & Hd & Hp). destruct (Hk' k e' He') as (d' & M' & Hd' & Hp').
    rewrite Ht, Hd' in Hd. injection Hd as <- <-. apply (anti_symm prefix); eapply prefix_both; try done; rewrite !length_take; lia.
Qed.

(** Merging a traced log that agrees up to [prev]: the old log if it extends
    the new one, and otherwise one of the two. *)
Lemma merged_prefix l prev new : take (S prev) l ++ new ⊑ l -> merged l prev new = l.
Proof.
  intros Hp. unfold merged. rewrite <- (take_drop (S prev) l) in Hp at 2. apply prefix_app_inv in Hp.
  enough (merge_suffix (drop (S prev) l) new = drop (S prev) l) as -> by apply take_drop.
  destruct Hp as [N ->]. clear. induction new as [|e new IH]; cbn [app merge_suffix]; [by destruct N|]. by rewrite Z.eqb_refl, IH.
Qed.

Lemma merge_suffix_traced H new : forall pre suf, pre <> [] -> traced H (pre ++ suf) -> traced H (pre ++ new) ->
  (merge_suffix suf new = suf /\ new ⊑ suf) \/ merge_suffix suf new = new.
Proof.
  induction new as [|e new IH]; intros pre suf Hne H1 H2; [left; destruct suf; by split; [|apply prefix_nil]|].
  destruct suf as [|o suf]; [by right|]. cbn [merge_suffix]. destruct (Z.eqb_spec (le_term o) (le_term e)) as [E|]; [|by right].
  assert (o = e) as ->.
  { pose proof (traced_agree H _ _ (length pre) o e H1 H2) as Ha. rewrite !lookup_app_r, Nat.sub_diag in Ha by lia.
    specialize (Ha eq_refl eq_refl E). rewrite !take_app, !firstn_all2 in Ha by lia.
    replace (S (length pre) - length pre) with 1 in Ha by lia. simpl in Ha. by apply app_inv_head in Ha as [= ->]. }
  destruct (IH (pre ++ [e]) suf) as [[-> Hp] | ->]; rewrite <- ?app_assoc; try done; [by destruct pre|left|by right].
  split; [done|]. by apply prefix_cons.
Qed.

Lemma merged_cases H l prev new : traced H l -> traced H (take (S prev) l ++ new) ->
  (merged l prev new = l /\ take (S prev) l ++ new ⊑ l) \/ merged l prev new = take (S prev) l ++ new.
Proof.
  intros Hl Hm. assert (take (S prev) l <> []) as Hne by (destruct l; [by destruct Hl|done]).
  rewrite <- (take_drop (S prev) l) in Hl. unfold merged.
  destruct (merge_suffix_traced H new _ _ Hne Hl Hm) as [[-> Hp] | ->]; [left|by right]. rewrite take_drop. split; [done|].
  rewrite <- (take_drop (S prev) l) at 2. by apply prefix_app.
Qed.

Lemma last_entry (l : Log) : 0 < length l -> exists e, l !! last_index l = Some e /\ le_term e = last_term l.
Proof.
  intros Hl. unfold last_term, term_at. destruct (l !! last_index l) as [e|] eqn:E; [by exists e|].
  apply lookup_ge_None in E. unfold last_index in E. lia.
Qed.

(** A log is part of the log of the leader of its last entry. *)
Lemma traced_last H l : traced H l -> 1 < length l -> exists d M, h_lead H !! last_term l = Some (d, M) /\ l ⊑ M.
Proof.
  intros [_ Hk] Hlen. destruct (last_entry l) as (e & He & <-); [lia|].
  destruct (last_index l) as [|k] eqn:E; [unfold last_index in E; lia|]. destruct (Hk k e He) as (d & M & Hd & Hp).
  exists d, M. split; [done|]. by rewrite firstn_all2 in Hp by (unfold last_index in E; lia).
Qed.

Lemma traced_sorted H a l j k e e' : ainv H a -> traced H l -> j <= k -> l !! j = Some e -> l !! k = Some e' ->
  (le_term e <= le_term e')%Z.
Proof.
  intros I Hl Hjk He He'. pose proof (lookup_lt_Some _ _ _ He'). destruct k as [|k].
  - assert (j = 0) as -> by lia. rewrite He in He'. by injection He' as ->.
  - destruct (proj2 Hl k e' He') as (d & M & Hd & Hp).
    assert (forall x y, x <= S k -> l !! x = Some y -> M !! x = Some y) as Hin.
    { intros x y Hx Hy. eapply prefix_lookup_Some; [|exact Hp]. by rewrite lookup_take_lt by lia. }
    by apply (al_sorted _ _ _ _ _ (ai_lead _ _ I _ _ _ Hd) j (S k) e e' Hjk (Hin _ _ Hjk He)), Hin.
Qed.

(** A log with an entry of term [t] and none of a later one is part of the log
    of the leader of [t]. *)
Lemma traced_up_to H a l k e t : ainv H a -> traced H l -> l !! k = Some e -> le_term e = t -> (1 <= t)%Z ->
  (forall j e', l !! j = Some e' -> (le_term e' <= t)%Z) -> exists d M, h_lead H !! t = Some (d, M) /\ l ⊑ M.
Proof.
  intros I Hl He <- H1 Hmax. pose proof (lookup_lt_Some _ _ _ He) as Hlt. destruct (last_entry l) as (e' & He' & Ht'); [lia|].
  assert (last_term l = le_term e) as <-.
  { apply Z.le_antisymm; [rewrite <- Ht'; by apply (Hmax _ _ He')|]. rewrite <- Ht'.
    apply (traced_sorted H a l k (last_index l)); try done. unfold last_index. lia. }
  apply traced_last; [done|]. destruct k as [|k]; [|lia]. destruct Hl as [H0 _]. rewrite H0 in He. injection He as <-. simpl in *. lia.
Qed.

Lemma entry_take H k t P : entry H k t P -> length P = S k /\ exists d M, h_lead H !! t = Some (d, M) /\ P ⊑ M.
Proof.
  intros (d & M & e & Hd & He & _ & ->). pose proof (lookup_lt_Some _ _ _ He). split; [rewrite length_take; lia|].
  exists d, M. split; [done|apply prefix_take].
Qed.

Lemma quorums_meet q q' : quorum q -> quorum q' -> exists v, v ∈ q /\ v ∈ q'.
Proof.
  intros [N1 H1 L1] [N2 H2 L2]. destruct (decide (Exists (.∈ q') q)) as [Hx|Hx]; [by apply Exists_exists in Hx|].
  exfalso. assert (NoDup (q ++ q')) as N.
  { apply NoDup_app. split_and!; [done| |done]. intros v Hv Hv'. apply Hx, Exists_exists. by exists v. }
  assert (q ++ q' ⊆+ members) as Hs.
  { apply NoDup_submseteq; [done|]. intros v [Hv|Hv]%elem_of_app; [by apply H1|by apply H2]. }
  apply submseteq_length in Hs. rewrite length_app in Hs. lia.
Qed.

(** What is chosen is not dead. *)
Lemma chosen_not_dead H a k t : chosen H a k t -> ~ dead H a k t.
Proof. intros (q & Hq & Ha) (q' & Hq' & Hd). destruct (quorums_meet q q' Hq Hq') as (v & Hv & Hv'). by apply (Hd v Hv'), Ha. Qed.

(** A leader of a later term has it. *)
Lemma chosen_kept H a k t P t' d M : ainv H a -> entry H k t P -> chosen H a k t -> (t <= t')%Z ->
  h_lead H !! t' = Some (d, M) -> P ⊑ M.
Proof.
  intros I He Hc Ht Hd. destruct (decide (t = t')) as [->|Hne].
  - destruct (entry_take H k t' P He) as (_ & d' & M' & Hd' & Hp). rewrite Hd in Hd'. by injection Hd' as <- <-.
  - destruct (al_safe _ _ _ _ _ (ai_lead _ _ I t' d M Hd) k t P) as [?|Hx]; [lia|done|done|]. by apply chosen_not_dead in Hx.
Qed.

Lemma committed_in_lead H a t X d M : ainv H a -> committed H a t X -> h_lead H !! t = Some (d, M) -> X ⊑ M.
Proof.
  intros I [->|(k & t' & P & Ht & He & Hc & Hp)] Hd.
  - destruct (al_traced _ _ _ _ _ (ai_lead _ _ I t d M Hd)) as [H0 _]. destruct M as [|x M]; [done|]. injection H0 as ->. by exists M.
  - etrans; [exact Hp|]. by apply (chosen_kept H a k t' P t d).
Qed.

(** ** One node moves

    What a step of node [i] may do to the history; everything that the
    invariant says of the others survives it. *)
Record moves (H H' : Hist) (a : AState) (i : string) (n n' : ANode) (ms : list AMsg) (gs : list (string * Z * string)) : Prop := {
  mv_here : a_nodes a !! i = Some n;
  mv_term : (a_term n <= a_term n')%Z;
  mv_log : a_term n' = a_term n -> a_log n' = a_log n \/ exists d M, h_lead H' !! a_term n = Some (d, M) /\ a_log n' ⊑ M;
  mv_lead t d M : h_lead H !! t = Some (d, M) ->
    exists N, h_lead H' !! t = Some (d, M ++ N) /\ Forall (fun e => le_term e = t) N;
  mv_new t d M : h_lead H' !! t = Some (d, M) -> h_lead H !! t = Some (d, M) \/ (d = i /\ t = a_term n);
  mv_cand : h_cand H ⊆ h_cand H';
  mv_acks v k t : acked H' (set_a i n' ms gs a) v k t -> acked H a v k t \/ (v = i /\ (a_term n <= t)%Z);
  mv_entry k t P : entry H' k t P -> entry H k t P \/
    ((a_term n <= t)%Z /\ forall v, v <> i -> ~ acked H' (set_a i n' ms gs a) v k t);
}.

Section Moves.
Context (H H' : Hist) (a : AState) (i : string) (n n' : ANode) (ms : list AMsg) (gs : list (string * Z * string)).
Hypothesis I : ainv H a.
Hypothesis mv : moves H H' a i n n' ms gs.
#[local] Abbreviation a' := (set_a i n' ms gs a).

Lemma node_other v x : v <> i -> a_nodes a' !! v = Some x <-> a_nodes a !! v = Some x.
Proof using. intros Hv. simpl. by rewrite lookup_insert_ne. Qed.

Lemma node_self : a_nodes a' !! i = Some n'.
Proof using. apply lookup_insert_eq. Qed.

Lemma node_mono v x t : a_nodes a !! v = Some x -> (t <= a_term x)%Z -> exists y, a_nodes a' !! v = Some y /\ (t <= a_term y)%Z.
Proof using mv.
  intros Hv Ht. destruct (decide (v = i)) as [->|Hne]; [|exists x; by rewrite node_other].
  exists n'. split; [apply node_self|]. pose proof (mv_here _ _ _ _ _ _ _ _ mv) as Hi. rewrite Hv in Hi. injection Hi as ->.
  pose proof (mv_term _ _ _ _ _ _ _ _ mv). lia.
Qed.

Lemma above_mono t v : above a t v -> above a' t v.
Proof using mv. intros (x & Hx & Ht). destruct (node_mono v x (t + 1) Hx) as (y & ? & ?); [lia|]. exists y. split; [done|lia]. Qed.

Lemma above_self t : above a t i -> (t < a_term n)%Z.
Proof using mv. intros (x & Hx & Ht). rewrite (mv_here _ _ _ _ _ _ _ _ mv) in Hx. by injection Hx as <-. Qed.

Lemma acked_mono v k t : acked H a v k t -> acked H' a' v k t.
Proof using mv.
  intros [(to & q & Hq & ? & ?)|(M & HM)]; [left|right].
  - exists to, q. split_and!; try done. apply elem_of_app. by left.
  - destruct (mv_lead _ _ _ _ _ _ _ _ mv _ _ _ HM) as (N & ? & _). by exists (M ++ N).
Qed.

Lemma entry_mono k t P : entry H k t P -> entry H' k t P.
Proof using mv.
  intros (d & M & e & Hd & He & Ht & ->). destruct (mv_lead _ _ _ _ _ _ _ _ mv _ _ _ Hd) as (N & ? & _).
  pose proof (lookup_lt_Some _ _ _ He). exists d, (M ++ N), e. split_and!; try done; [by apply lookup_app_l_Some|]. by rewrite take_app_le by lia.
Qed.

Lemma traced_mono l : traced H l -> traced H' l.
Proof using mv.
  intros [H0 Hk]. split; [done|]. intros k e He. destruct (Hk k e He) as (d & M & Hd & Hp).
  destruct (mv_lead _ _ _ _ _ _ _ _ mv _ _ _ Hd) as (N & ? & _). exists d, (M ++ N). split; [done|]. by apply prefix_app_r.
Qed.

Lemma dead_mono k t : dead H a k t -> dead H' a' k t.
Proof using mv.
  intros (q & Hq & Hd). exists q. split; [done|]. intros v Hv. destruct (Hd v Hv) as [Ha Hn]. split; [by apply above_mono|].
  intros [?| [-> Ht]]%(mv_acks _ _ _ _ _ _ _ _ mv); [done|]. apply above_self in Ha. lia.
Qed.

Lemma chosen_mono k t : chosen H a k t -> chosen H' a' k t.
Proof using mv. intros (q & Hq & Hc). exists q. split; [done|]. intros v Hv. by apply acked_mono, Hc. Qed.

Lemma committed_mono t t' X : (t <= t')%Z -> committed H a t X -> committed H' a' t' X.
Proof using mv.
  intros Ht [->|(k & u & P & Hu & He & Hc & Hp)]; [by left|]. right. exists k, u, P.
  split_and!; [lia|by apply entry_mono|by apply chosen_mono|done].
Qed.

Lemma lags_mono p t (Q : Log -> Log -> Prop) :
  (forall l M N d, traced H l -> h_lead H !! t = Some (d, M) -> Forall (fun e => le_term e = t) N -> Q l M -> Q l (M ++ N)) ->
  lags H a p t Q -> lags H' a' p t Q.
Proof using I mv.
  intros HQ [Ha|(x & d & M & Hx & Ht & Hd & Hl)]; [left; by apply above_mono|].
  destruct (mv_lead _ _ _ _ _ _ _ _ mv _ _ _ Hd) as (N & Hd' & HN). pose proof (an_traced _ _ _ _ (ai_node _ _ I p x Hx)) as Htr.
  assert (a_log x ⊑ M ++ N \/ Q (a_log x) (M ++ N)) as Hl'.
  { destruct Hl as [Hl|Hl]; [left; by apply prefix_app_r|right; by apply (HQ _ _ _ d)]. }
  destruct (decide (p = i)) as [->|Hne]; [|right; exists x, d, (M ++ N); by rewrite node_other].
  pose proof (mv_here _ _ _ _ _ _ _ _ mv) as Hi. rewrite Hx in Hi. injection Hi as ->.
  destruct (decide (a_term n' = t)) as [E|E].
  - right. exists n', d, (M ++ N). split_and!; [apply node_self|done|done|].
    destruct (mv_log _ _ _ _ _ _ _ _ mv) as [->|(d' & M' & Hd2 & Hp)]; [congruence|done|]. rewrite Ht, Hd' in Hd2. injection Hd2 as <- <-. by left.
  - left. exists n'. split; [apply node_self|]. pose proof (mv_term _ _ _ _ _ _ _ _ mv). lia.
Qed.

Lemma diverges_mono x l M N t d : traced H l -> h_lead H !! t = Some (d, M) -> Forall (fun e => le_term e = t) N ->
  1 <= x -> diverges l M x -> diverges l (M ++ N) x.
Proof using.
  intros Hl Hd HN Hx Hdv e e' Ht He He' E. destruct (decide (x < length M)) as [Hlt|Hge].
  - rewrite lookup_app_l in He' by done. rewrite take_app_le in Ht by lia. by apply (Hdv e e').
  - rewrite lookup_app_r in He' by lia. pose proof (Forall_lookup_1 _ _ _ _ HN He') as E'. simpl in E'.
    destruct x as [|x]; [lia|]. destruct (proj2 Hl x e He) as (d' & M' & Hd' & Hp). rewrite E, E', Hd in Hd'. injection Hd' as <- <-.
    apply prefix_length in Hp. rewrite length_take in Hp. apply lookup_lt_Some in He. lia.
Qed.

Lemma aimed_mono p t x : is_Some (h_lead H !! t) -> 1 <= x -> aimed H a p t x -> aimed H' a' p t x.
Proof using I mv.
  intros [[d M] Hd] Hx [Ha|Ha]; [left|right].
  - intros d' M' e Hd' He. destruct (mv_lead _ _ _ _ _ _ _ _ mv _ _ _ Hd) as (N & Hd2 & HN). rewrite Hd2 in Hd'. injection Hd' as <- <-.
    apply lookup_app_Some in He as [He|[_ He]]; [by apply (Ha d M)|]. by apply (Forall_lookup_1 _ _ _ _ HN He).
  - revert Ha. apply lags_mono. intros l M' N d' Hl Hd' HN Hdv. by apply (diverges_mono x l M' N t d').
Qed.

Lemma hint_mono prev index term l M N : hint prev index term l M -> hint prev index term l (M ++ N).
Proof using.
  intros [?|(? & ? & ? & e & He & ?)]; [by left|right]. split_and!; try done. exists e. split; [by apply lookup_app_l_Some|done].
Qed.

Lemma amsg_mono m : amsg H a m -> amsg H' a' m.
Proof using I mv.
  destruct m as [from t li lt|from to q|p k q|p k q index term]; simpl.
  - intros (L & HL & ?). exists L. split; [|done]. by apply (lookup_weaken _ _ _ _ HL), (mv_cand _ _ _ _ _ _ _ _ mv).
  - intros (Hne & M0 & N & Hd & HN & Hp & He & Hc & Hcm & Ha). split; [done|].
    destruct (mv_lead _ _ _ _ _ _ _ _ mv _ _ _ Hd) as (N' & Hd' & HN'). exists M0, (N ++ N'). rewrite app_assoc.
    split_and!; try done; [by apply Forall_app|by apply (committed_mono (q_term q))|]. apply aimed_mono; [by eexists|lia|done].
  - intros (Hne & [x Hx] & M & Hd & Hlt & Ha). destruct (mv_lead _ _ _ _ _ _ _ _ mv _ _ _ Hd) as (N & Hd' & _).
    split_and!; [done| |exists (M ++ N)]; [destruct (node_mono p x (a_term x) Hx) as (y & Hy & _); [lia|by exists y]|].
    rewrite length_app. split_and!; [done|lia|]. apply aimed_mono; [by eexists|lia|done].
  - intros (Hb & M & Hd & Hlt & Ha). destruct (mv_lead _ _ _ _ _ _ _ _ mv _ _ _ Hd) as (N & Hd' & _). split; [done|].
    exists (M ++ N). rewrite length_app. split_and!; [done|lia|]. revert Ha. apply lags_mono. intros. by apply hint_mono.
Qed.

(** The log a leader other than [i] has stays. *)
Lemma lead_other t d M : d <> i \/ t <> a_term n -> h_lead H !! t = Some (d, M) -> h_lead H' !! t = Some (d, M).
Proof using mv.
  intros Hne Hd. destruct (mv_lead _ _ _ _ _ _ _ _ mv _ _ _ Hd) as (N & Hd' & _).
  destruct (mv_new _ _ _ _ _ _ _ _ mv _ _ _ Hd') as [E|[-> ->]]; [congruence|]. by destruct Hne.
Qed.

Lemma next_mono (t : Z) (b : nat) (nx : gmap string nat) : is_Some (h_lead H !! t) ->
  map_Forall (fun p x => 1 <= x <= b /\ aimed H a p t x) nx -> map_Forall (fun p x => 1 <= x <= b /\ aimed H' a' p t x) nx.
Proof using I mv. intros Hd Hx p x Hp. destruct (Hx p x Hp) as [? ?]. split; [done|]. apply aimed_mono; [done|lia|done]. Qed.

Lemma match_mono k (t : Z) (mt : gmap string nat) :
  map_Forall (fun p m => m = 0 \/ exists q, AAck p k q ∈ a_net a /\ q_term q = t /\ m = last_new q) mt ->
  map_Forall (fun p m => m = 0 \/ exists q, AAck p k q ∈ a_net a' /\ q_term q = t /\ m = last_new q) mt.
Proof using.
  intros Hm p m Hp. destruct (Hm p m Hp) as [?|(q & ? & ?)]; [by left|right]. exists q. split; [|done]. apply elem_of_app. by left.
Qed.

Lemma stands_mono k x : stands H k x -> stands H' k x.
Proof using mv.
  intros (Ht & L & HL & Hs). split; [done|]. exists L. split; [by apply (lookup_weaken _ _ _ _ HL), (mv_cand _ _ _ _ _ _ _ _ mv)|].
  destruct Hs as [?|(d & M & Hd & Hne)]; [by left|right]. destruct (mv_lead _ _ _ _ _ _ _ _ mv _ _ _ Hd) as (N & ? & _). by exists d, (M ++ N).
Qed.

Lemma anode_mono k x : k <> i -> anode H a k x -> anode H' a' k x.
Proof using I mv.
  intros Hk [? ? ? ? ? Hc Hl Hs]. split; try done.
  - by apply traced_mono.
  - by apply (committed_mono (a_term x)).
  - intros Hr. destruct (Hl Hr) as (Hd & Hx & Hm). split_and!; [apply lead_other; auto| |exact (match_mono k _ _ Hm)].
    apply next_mono; [by eexists|done].
  - intros Hr. by apply stands_mono, Hs.
Qed.

(** Whoever voted in [t] has not acknowledged a new entry of an earlier term. *)
Lemma fresh_dead k t' t d P : (t' < t)%Z -> (exists q, quorum q /\ forall v, v ∈ q -> (v, t, d) ∈ a_granted a) ->
  entry H' k t' P -> entry H k t' P \/ dead H' a' k t'.
Proof using I mv.
  intros Ht (q & Hq & Hv) He. destruct (mv_entry _ _ _ _ _ _ _ _ mv _ _ _ He) as [?|[Hn Hf]]; [by left|right].
  exists q. split; [done|]. intros v Hin. destruct (av_node _ _ _ _ _ (ai_vote _ _ I v t d (Hv v Hin))) as (x & Hx & Htx).
  assert (above a t' v) as Hab by (exists x; split; [done|lia]). split; [by apply above_mono|]. apply Hf. intros ->.
  apply above_self in Hab. lia.
Qed.

Lemma safe_mono t d L : (exists q, quorum q /\ forall v, v ∈ q -> (v, t, d) ∈ a_granted a) -> safe H a t L -> safe H' a' t L.
Proof using I mv.
  intros Hq Hs k t' P Ht He. destruct (fresh_dead k t' t d P Ht Hq He) as [Ho|?]; [|by right].
  destruct (Hs k t' P Ht Ho) as [?|?]; [by left|right; by apply dead_mono].
Qed.

Lemma alead_mono t d M : alead H a t d M ->
  (d = i -> (t < a_term n')%Z \/ (a_term n' = t /\ a_role n' = Leader /\ a_log n' = M)) -> alead H' a' t d M.
Proof using I mv.
  intros [? Htr ? Hq (x & Hx & Hn) Hs] Hi. split; try done.
  - by apply traced_mono.
  - destruct Hq as (q & ? & Hv). exists q. split; [done|]. intros v Hin. apply elem_of_app. left. by apply Hv.
  - destruct (decide (d = i)) as [->|Hne]; [exists n'; split; [apply node_self|by apply Hi]|]. exists x. by rewrite node_other.
  - by apply (safe_mono t d).
Qed.

Lemma avote_mono v t c : avote H a v t c -> (forall c', (v, t, c') ∈ gs -> c' = c) -> avote H' a' v t c.
Proof using I mv.
  intros [(x & Hx & Ht) Ho (L & HL & Hk)] Hg. split.
  - by apply (node_mono v x).
  - intros c' [?|?]%elem_of_app; auto.
  - exists L. split; [by apply (lookup_weaken _ _ _ _ HL), (mv_cand _ _ _ _ _ _ _ _ mv)|]. intros k t' P Ht' He Ha.
    assert (v = i -> (a_term n <= t')%Z -> False) as Hno.
    { intros -> Hle. rewrite (mv_here _ _ _ _ _ _ _ _ mv) in Hx. injection Hx as <-. lia. }
    destruct (mv_acks _ _ _ _ _ _ _ _ mv _ _ _ Ha) as [Ha'|[-> ?]]; [|by destruct Hno].
    destruct (mv_entry _ _ _ _ _ _ _ _ mv _ _ _ He) as [He'|[Hle Hf]].
    + destruct (Hk k t' P Ht' He' Ha') as [?|?]; [by left|right; by apply dead_mono].
    + destruct (decide (v = i)) as [->|Hne]; [by destruct Hno|]. by destruct (Hf v Hne).
Qed.

Lemma ack_mono v x k t P : v <> i -> a_nodes a !! v = Some x -> entry H' k t P -> acked H' a' v k t -> P ⊑ a_log x \/ dead H' a' k t.
Proof using I mv.
  intros Hne Hx He Ha. destruct (mv_entry _ _ _ _ _ _ _ _ mv _ _ _ He) as [He'|[_ Hf]]; [|by destruct (Hf v Hne)].
  destruct (mv_acks _ _ _ _ _ _ _ _ mv _ _ _ Ha) as [Ha'|[-> _]]; [|done].
  destruct (ai_ack _ _ I v x k t P Hx He' Ha') as [?|?]; [by left|right; by apply dead_mono].
Qed.

(** It remains to look at the node that moved, at its vote and at its messages. *)
Lemma ainv_moves : anode H' a' i n' -> Forall (amsg H' a') ms ->
  (forall v t c, (v, t, c) ∈ gs -> avote H' a' v t c) ->
  (forall M, h_lead H' !! a_term n = Some (i, M) -> alead H' a' (a_term n) i M) ->
  (forall c t L, h_cand H' !! (c, t) = Some L -> h_cand H !! (c, t) = Some L \/ acand H' a' c t L) ->
  (forall k t P, entry H' k t P -> acked H' a' i k t -> P ⊑ a_log n' \/ dead H' a' k t) -> ainv H' a'.
Proof using I mv.
  intros Hn Hms Hgs Hlead Hcand Hack. split.
  - intros k x Hk. destruct (decide (k = i)) as [->|Hne]; [rewrite node_self in Hk; by injection Hk as <-|].
    apply anode_mono; [done|]. apply (ai_node _ _ I). by apply node_other in Hk.
  - intros m [Hm|Hm]%elem_of_app; [by apply amsg_mono, (ai_msg _ _ I)|]. rewrite Forall_forall in Hms. auto.
  - intros t d M Hd. destruct (decide (d = i /\ t = a_term n)) as [[-> ->]|Hno]; [auto|].
    destruct (mv_new _ _ _ _ _ _ _ _ mv _ _ _ Hd) as [Ho|?]; [|done]. pose proof (ai_lead _ _ I _ _ _ Ho) as Hl. apply alead_mono; [done|].
    intros ->. destruct (al_node _ _ _ _ _ Hl) as (x & Hx & Hc). rewrite (mv_here _ _ _ _ _ _ _ _ mv) in Hx. injection Hx as <-.
    pose proof (mv_term _ _ _ _ _ _ _ _ mv). left. destruct Hc as [?|(? & _)]; [lia|]. destruct Hno. by split.
  - intros v t c [Hg|Hg]%elem_of_app; [|by apply Hgs]. apply avote_mono; [by apply (ai_vote _ _ I)|]. intros c' Hc'.
    symmetry. apply (av_once _ _ _ _ _ (Hgs v t c' Hc')). apply elem_of_app. by left.
  - intros c t L HL. destruct (Hcand c t L HL) as [Ho|?]; [|done]. destruct (ai_cand _ _ I _ _ _ Ho) as [? (x & ? & ?)].
    split; [by apply traced_mono|]. by apply (node_mono c x).
  - intros v x k t P Hv. destruct (decide (v = i)) as [->|Hne]; [rewrite node_self in Hv; injection Hv as <-; by apply Hack|].
    apply node_other in Hv; [|done]. by apply ack_mono.
Qed.
End Moves.

(** *** Moves that leave the leaders' logs alone *)

Lemma moves_same H H' a i n n' ms gs : h_lead H' = h_lead H -> h_cand H ⊆ h_cand H' -> a_nodes a !! i = Some n ->
  (a_term n <= a_term n')%Z ->
  (a_term n' = a_term n -> a_log n' = a_log n \/ exists d M, h_lead H !! a_term n = Some (d, M) /\ a_log n' ⊑ M) ->
  (forall v to q, AAck v to q ∈ ms -> v = i /\ (a_term n <= q_term q)%Z) -> moves H H' a i n n' ms gs.
Proof.
  intros El Hc Hi Ht Hl Ha. split; try done.
  - by rewrite El.
  - intros t d M Hd. exists []. rewrite app_nil_r, El. by split.
  - intros t d M. rewrite El. by left.
  - intros v k t [(to & q & Hq & Eq & Hk)|(M & HM)]; [|rewrite El in HM; left; right; by exists M].
    apply elem_of_app in Hq as [Hq|Hq]; [left; left; by exists to, q|]. right. destruct (Ha v to q Hq) as [-> ?]. split; [done|lia].
  - intros k t P He. left. unfold entry in *. by rewrite El in He.
Qed.

(** The log stays as well, and nothing is acknowledged. *)
Lemma ainv_quiet H H' a i n n' ms gs : ainv H a -> h_lead H' = h_lead H -> h_cand H ⊆ h_cand H' -> a_nodes a !! i = Some n ->
  (a_term n <= a_term n')%Z -> a_log n' = a_log n -> (forall v to q, AAck v to q ∉ ms) ->
  (a_term n' = a_term n -> a_role n = Leader -> a_role n' = Leader) ->
  (forall c t L, h_cand H' !! (c, t) = Some L -> h_cand H !! (c, t) = Some L \/ acand H' (set_a i n' ms gs a) c t L) ->
  (moves H H' a i n n' ms gs -> anode H' (set_a i n' ms gs a) i n' /\ Forall (amsg H' (set_a i n' ms gs a)) ms /\
    forall v t c, (v, t, c) ∈ gs -> avote H' (set_a i n' ms gs a) v t c) ->
  ainv H' (set_a i n' ms gs a).
Proof.
  intros I El Hc Hi Ht Hl Hms Hr Hcand Hnew.
  assert (moves H H' a i n n' ms gs) as mv.
  { apply moves_same; try done; [by left|]. intros v to q Hq. by destruct (Hms v to q). }
  destruct (Hnew mv) as (Hn & Hm & Hg). apply (ainv_moves H H' a i n n' ms gs); try done.
  - intros M HM. rewrite El in HM. pose proof (ai_lead _ _ I _ _ _ HM) as Ho. apply (alead_mono H H' a i n); try done. intros _.
    destruct (al_node _ _ _ _ _ Ho) as (x & Hx & Hx'). rewrite Hi in Hx. injection Hx as <-. rewrite Hl.
    destruct (decide (a_term n' = a_term n)) as [E|E]; [|left; lia]. destruct Hx' as [?|(_ & ? & ?)]; [lia|]. right. auto.
  - intros k t P He Ha. unfold entry in He. rewrite El in He. change (entry H k t P) in He.
    assert (acked H a i k t) as Ha'.
    { destruct Ha as [(to & q & Hq & ?)|(M & HM)]; [|right; rewrite El in HM; by exists M]. left. exists to, q. split; [|done].
      apply elem_of_app in Hq as [?|Hq]; [done|]. by destruct (Hms i to q). }
    rewrite Hl. destruct (ai_ack _ _ I i n k t P Hi He Ha') as [?|?]; [by left|right]. by apply (dead_mono H H' a i n n' ms gs mv).
Qed.

(** The node as before, in the new state. *)
Lemma anode_again H H' a i n n' ms gs : ainv H a -> moves H H' a i n n' ms gs ->
  a_log n' = a_log n -> a_commit n' = a_commit n -> (a_role n' = Leader -> leads H' (set_a i n' ms gs a) i n') ->
  (a_role n' = Candidate -> stands H' i n') -> anode H' (set_a i n' ms gs a) i n'.
Proof.
  intros I mv Hl Hc Hr Hs. pose proof (mv_term _ _ _ _ _ _ _ _ mv) as Ht.
  destruct (ai_node _ _ I i n (mv_here _ _ _ _ _ _ _ _ mv)) as [Hm H0 Htr Hte Hci Hco _ _]. split; try done; rewrite ?Hl, ?Hc; try done.
  - lia.
  - by apply (traced_mono H H' a i n n' ms gs mv).
  - intros k e He. specialize (Hte k e He). lia.
  - by apply (committed_mono H H' a i n n' ms gs mv (a_term n)).
Qed.

Lemma leads_again H H' a i n n' ms gs : ainv H a -> moves H H' a i n n' ms gs -> h_lead H' = h_lead H ->
  leads H a i n -> a_term n' = a_term n -> a_log n' = a_log n -> a_next n' = a_next n -> a_match n' = a_match n ->
  leads H' (set_a i n' ms gs a) i n'.
Proof.
  intros I mv El (Hd & Hx & Hm) Et Eg En Em. unfold leads. rewrite Et, Eg, En, Em, El. split_and!; [done| |exact (match_mono a i n' ms gs i _ _ Hm)].
  apply (next_mono H H' a i n n' ms gs I mv); [by eexists|done].
Qed.

Lemma stands_again H H' a i n n' ms gs : moves H H' a i n n' ms gs -> a_term n' = a_term n -> a_log n' = a_log n ->
  stands H i n -> stands H' i n'.
Proof. intros mv Et El Hs. apply (stands_mono H H' a i n n' ms gs mv) in Hs. unfold stands in *. by rewrite Et, El. Qed.

(** A node that is as before. *)
Lemma anode_stays H a i n ms gs : ainv H a -> moves H H a i n n ms gs -> anode H (set_a i n ms gs a) i n.
Proof.
  intros I mv. destruct (ai_node _ _ I i n (mv_here _ _ _ _ _ _ _ _ mv)) as [_ _ _ _ _ _ Hl Hs].
  apply (anode_again H H a i n n); try done. intros Hr. apply (leads_again H H a i n n); auto.
Qed.

(** ** The rules *)

(** Acknowledgements without new messages. *)
Lemma acked_silent H a i n' ms gs v k t : (forall v to q, AAck v to q ∉ ms) -> acked H (set_a i n' ms gs a) v k t -> acked H a v k t.
Proof.
  intros Hms [(to & q & Hq & ?)|?]; [|by right]. left. exists to, q. split; [|done].
  apply elem_of_app in Hq as [?|Hq]; [done|]. by destruct (Hms v to q).
Qed.

Lemma rule_timeout H a i n k : ainv H a -> a_nodes a !! i = Some n -> a_role n <> Leader ->
  exists H', ainv H' (set_a i (mkANode (a_term n + 1) Candidate (a_log n) (a_commit n) (a_next n) (a_match n))
      (replicate k (AVote i (a_term n + 1) (last_index (a_log n)) (last_term (a_log n)))) [(i, (a_term n + 1)%Z, i)] a).
Proof.
  intros I Hi Hr. set (H' := mkHist (h_lead H) (<[(i, (a_term n + 1)%Z) := a_log n]> (h_cand H))). exists H'.
  pose proof (ai_node _ _ I i n Hi) as [_ H0 Htr _ _ _ _ _].
  assert (h_cand H !! (i, (a_term n + 1)%Z) = None) as Hfresh.
  { destruct (h_cand H !! _) as [L|] eqn:E; [|done]. destruct (ac_node _ _ _ _ _ (ai_cand _ _ I _ _ _ E)) as (x & Hx & ?).
    rewrite Hi in Hx. injection Hx as <-. lia. }
  assert (h_cand H' !! (i, (a_term n + 1)%Z) = Some (a_log n)) as Hnew by apply lookup_insert_eq.
  assert (forall v to q, AAck v to q ∉ replicate k (AVote i (a_term n + 1) (last_index (a_log n)) (last_term (a_log n)))) as Hms.
  { by intros v to q [? _]%elem_of_replicate. }
  apply (ainv_quiet H H' a i n); simpl; try done; [by apply insert_subseteq|lia| |].
  - intros c t L. rewrite lookup_insert_Some. intros [[[= <- <-] <-]|[_ ?]]; [right|by left]. split; [done|].
    eexists. split; [apply lookup_insert_eq|done].
  - intros mv. split_and!.
    + apply (anode_again H H' a i n); simpl; try done. intros _. split; [simpl; lia|]. exists (a_log n). split; [done|by left].
    + apply Forall_replicate. by exists (a_log n).
    + intros v t c Hg. apply list_elem_of_singleton in Hg as [= -> -> ->]. split.
      * eexists. split; [apply lookup_insert_eq|done].
      * intros c' [Hg|Hg]%elem_of_app; [|by apply list_elem_of_singleton in Hg as [= ->]].
        destruct (av_node _ _ _ _ _ (ai_vote _ _ I _ _ _ Hg)) as (x & Hx & ?). rewrite Hi in Hx. injection Hx as <-. lia.
      * exists (a_log n). split; [done|]. intros j t' P _ He Ha. apply acked_silent in Ha; [|done].
        destruct (ai_ack _ _ I i n j t' P Hi He Ha) as [?|?]; [by left|right]. by apply (dead_mono H H' a i n _ _ _ mv).
Qed.

Lemma rule_follow H a i n t : ainv H a -> a_nodes a !! i = Some n -> (a_term n < t)%Z ->
  ainv H (set_a i (mkANode t Follower (a_log n) (a_commit n) (a_next n) (a_match n)) [] [] a).
Proof.
  intros I Hi Ht. apply (ainv_quiet H H a i n); simpl; try done; [lia|by intros ? ? ? ?%not_elem_of_nil|intros ?; lia|by left|].
  intros mv. split_and!; [|constructor|by intros ? ? ? ?%not_elem_of_nil]. by apply (anode_again H H a i n).
Qed.

(** The entries of an at least as recent log. *)
Lemma up_to_date_keeps H a l L k t P : ainv H a -> traced H l -> traced H L -> up_to_date l (last_index L) (last_term L) ->
  entry H k t P -> P ⊑ l -> P ⊑ L \/ dead H a k t.
Proof.
  intros I Hl HL Hu He Hp. pose proof (entry_take H k t P He) as [Hlen _]. destruct He as (d & M & e & Hd & He & Ht & EP).
  pose proof (ai_lead _ _ I _ _ _ Hd) as Hlead. pose proof (al_term _ _ _ _ _ Hlead) as H1.
  assert (l !! k = Some e) as Hke.
  { eapply prefix_lookup_Some; [|exact Hp]. rewrite EP. by rewrite lookup_take_lt by lia. }
  pose proof (lookup_lt_Some _ _ _ Hke) as Hlt. destruct (last_entry l) as (el & Hel & Etl); [lia|].
  assert (t <= last_term l)%Z as Htl.
  { rewrite <- Etl, <- Ht. apply (traced_sorted H a l k (last_index l)); try done. unfold last_index. lia. }
  destruct (last_entry L) as (eL & HeL & EtL); [by apply (traced_nonempty H)|]. pose proof (lookup_lt_Some _ _ _ HeL) as HltL.
  assert (forall l', traced H l' -> (1 <= last_term l')%Z -> 1 < length l') as Hlong.
  { intros l' [H0' _] Hge. destruct (decide (1 < length l')) as [|Hs]; [done|]. exfalso. unfold last_term, term_at in Hge.
    assert (last_index l' = 0) as E by (unfold last_index; lia). rewrite E, H0' in Hge. simpl in Hge. lia. }
  destruct Hu as [Hs|[Hs Hi]].
  - destruct (traced_last H L HL) as (d' & M' & Hd' & HpL); [apply Hlong; [done|lia]|].
    destruct (al_safe _ _ _ _ _ (ai_lead _ _ I _ _ _ Hd') k t P) as [HP|?]; [lia|by exists d, M, e| |by right]. left.
    destruct (decide (length P <= length L)) as [?|Hgt]; [by apply (prefix_both _ _ M')|]. exfalso.
    assert (l !! last_index L = Some eL) as Hx.
    { eapply prefix_lookup_Some; [|exact Hp]. apply (prefix_lookup_Some L P); [done|]. apply (prefix_both _ _ M'); [done|done|lia]. }
    assert (le_term eL <= le_term e)%Z; [|lia]. apply (traced_sorted H a l (last_index L) k); try done. lia.
  - destruct (traced_last H l Hl) as (d1 & M1 & Hd1 & Hp1); [apply Hlong; [done|lia]|].
    destruct (traced_last H L HL) as (d2 & M2 & Hd2 & Hp2); [apply Hlong; [done|lia]|].
    rewrite <- Hs, Hd1 in Hd2. injection Hd2 as <- <-. left. etrans; [exact Hp|]. apply (prefix_both _ _ M1); [done|done|].
    unfold last_index in Hi. lia.
Qed.

Lemma rule_vote H a i n from li lt : ainv H a -> a_nodes a !! i = Some n -> AVote from (a_term n) li lt ∈ a_net a ->
  (forall d, (i, a_term n, d) ∈ a_granted a -> d = from) -> up_to_date (a_log n) li lt ->
  ainv H (set_a i n [] [(i, a_term n, from)] a).
Proof.
  intros I Hi Hm Ho Hu. destruct (ai_msg _ _ I _ Hm) as (L & HL & -> & ->).
  apply (ainv_quiet H H a i n); try done; [by intros ? ? ? ?%not_elem_of_nil|by left|]. intros mv.
  split_and!; [by apply anode_stays|constructor|]. intros v t c Hg. apply list_elem_of_singleton in Hg as [= -> -> ->]. split.
  - exists n. split; [apply lookup_insert_eq|done].
  - intros c' [Hg|Hg]%elem_of_app; [by apply Ho|]. by apply list_elem_of_singleton in Hg as [= ->].
  - exists L. split; [done|]. intros k t' P _ He Ha. apply acked_silent in Ha; [|by intros ? ? ? ?%not_elem_of_nil].
    destruct (ai_ack _ _ I i n k t' P Hi He Ha) as [Hp|?]; [|right; by apply (dead_mono H H a i n _ _ _ mv)].
    destruct (up_to_date_keeps H a (a_log n) L k t' P) as [?|?]; try done;
      [exact (an_traced _ _ _ _ (ai_node _ _ I i n Hi))|exact (ac_traced _ _ _ _ _ (ai_cand _ _ I _ _ _ HL))|by left|].
    right. by apply (dead_mono H H a i n _ _ _ mv).
Qed.

(** What the leader's node says of the history. *)
Lemma leader_log H a i n d M : ainv H a -> a_nodes a !! i = Some n -> a_role n = Leader -> h_lead H !! a_term n = Some (d, M) ->
  d = i /\ M = a_log n.
Proof. intros I Hi Hr Hd. destruct (an_leads _ _ _ _ (ai_node _ _ I i n Hi) Hr) as (Hl & _). rewrite Hd in Hl. by injection Hl as -> ->. Qed.

Lemma rule_send H a i n p : ainv H a -> a_nodes a !! i = Some n -> a_role n = Leader -> p <> i ->
  let x := default (length (a_log n)) (a_next n !! p) in
  ainv H (set_a i n [AAppend i p (mkAReq (a_term n) (x - 1) (term_at (a_log n) (x - 1))
      (take 100 (drop x (a_log n))) (a_commit n))] [] a).
Proof.
  intros I Hi Hr Hp x. pose proof (ai_node _ _ I i n Hi) as [_ _ Htr _ Hc Hcm Hl _]. destruct (Hl Hr) as (Hd & Hx & _).
  assert (1 <= x <= length (a_log n) /\ aimed H a p (a_term n) x) as [Hb Ha].
  { unfold x. destruct (a_next n !! p) as [y|] eqn:E; [by apply (Hx p)|]. simpl. pose proof (traced_nonempty H _ Htr).
    split; [lia|]. left. intros d M e Hd'. rewrite Hd in Hd'. injection Hd' as <- <-. intros He%lookup_lt_Some. lia. }
  clearbody x. apply (ainv_quiet H H a i n); try done; [by intros v to q ?%list_elem_of_singleton|by left|]. intros mv.
  split_and!; [by apply anode_stays| |by intros ? ? ? ?%not_elem_of_nil]. apply Forall_singleton. split; [done|].
  exists (a_log n), []. simpl. rewrite app_nil_r. replace (S (x - 1)) with x by lia. split_and!; try done.
  - destruct (a_log n !! (x - 1)) as [e|] eqn:E; [|apply lookup_ge_None in E; lia]. exists e. simpl. split; [done|]. unfold term_at. by rewrite E.
  - by apply (committed_mono H H a i n _ _ _ mv (a_term n)).
  - apply (aimed_mono H H a i n _ _ _ I mv); [by eexists|lia|done].
Qed.

Lemma rule_refuse H a i n from q index term : ainv H a -> a_nodes a !! i = Some n -> AAppend from i q ∈ a_net a ->
  q_term q = a_term n -> refuses (a_log n) q index term -> ainv H (set_a i n [ARefuse i from q index term] [] a).
Proof.
  intros I Hi Hm Ht Hr. destruct (ai_msg _ _ I _ Hm) as (_ & M0 & N & Hd & _ & (pe & Hpe & Hpt) & _).
  pose proof (lookup_lt_Some _ _ _ Hpe) as Hlt. pose proof (traced_nonempty H _ (an_traced _ _ _ _ (ai_node _ _ I i n Hi))).
  apply (ainv_quiet H H a i n); try done; [by intros v to x ?%list_elem_of_singleton|by left|]. intros mv.
  split_and!; [by apply anode_stays| |by intros ? ? ? ?%not_elem_of_nil]. apply Forall_singleton. split; [destruct Hr as [?|(_ & _ & ? & _)]; lia|].
  exists (M0 ++ N). rewrite length_app. split_and!; [done|lia|]. right. exists n, from, (M0 ++ N).
  split_and!; [apply lookup_insert_eq|done|done|]. right. destruct Hr as [(_ & ? & ?)|(Hne & ? & ? & Hk)]; [by left|right].
  split_and!; [done|lia|done|]. exists pe. split; [by apply lookup_app_l_Some|congruence].
Qed.

Lemma ack_facts H a p i n q : ainv H a -> a_nodes a !! i = Some n -> a_role n = Leader -> AAck p i q ∈ a_net a -> q_term q = a_term n ->
  p <> i /\ last_new q < length (a_log n) /\ aimed H a p (a_term n) (S (last_new q)).
Proof.
  intros I Hi Hr Hq Ht. destruct (ai_msg _ _ I _ Hq) as (Hne & _ & M & Hd & Hlt & Ha). rewrite Ht in *.
  destruct (leader_log H a i n i M I Hi Hr Hd) as [_ ->]. done.
Qed.

Lemma rule_acked H a i n p q : ainv H a -> a_nodes a !! i = Some n -> AAck p i q ∈ a_net a -> a_role n = Leader -> q_term q = a_term n ->
  let m := Nat.max (default 0 (a_match n !! p)) (last_new q) in
  ainv H (set_a i (mkANode (a_term n) Leader (a_log n) (a_commit n) (<[p := S m]> (a_next n)) (<[p := m]> (a_match n))) [] [] a).
Proof.
  intros I Hi Hq Hr Ht m. pose proof (ai_node _ _ I i n Hi) as [_ _ _ _ _ _ Hl _]. destruct (Hl Hr) as (Hd & Hx & Hm).
  assert (exists q', AAck p i q' ∈ a_net a /\ q_term q' = a_term n /\ m = last_new q') as (q' & Hq' & Ht' & Em).
  { destruct (decide (default 0 (a_match n !! p) <= last_new q)) as [Hle|Hgt]; [exists q; split_and!; try done; lia|].
    destruct (a_match n !! p) as [m0|] eqn:E; simpl in *; [|lia]. destruct (Hm p m0 E) as [?|(q' & ? & ? & ?)]; [lia|].
    exists q'. split_and!; try done. lia. }
  clearbody m. destruct (ack_facts H a p i n q' I Hi Hr Hq' Ht') as (Hne & Hlt & Ha). rewrite <- Em in *.
  apply (ainv_quiet H H a i n); try done; [by intros ? ? ? ?%not_elem_of_nil|by left|]. intros mv.
  split_and!; [|constructor|by intros ? ? ? ?%not_elem_of_nil]. apply (anode_again H H a i n); try done. intros _. split_and!; [done| |].
  - apply map_Forall_insert_2; [split; [simpl; lia|apply (aimed_mono H H a i n _ _ _ I mv); [by eexists|lia|done]]|].
    apply (next_mono H H a i n _ _ _ I mv); [by eexists|done].
  - apply map_Forall_insert_2; [right; exists q'; split_and!; try done; apply elem_of_app; by left|].
    exact (match_mono a i _ [] [] i _ _ Hm).
Qed.

(** Where a leader backs up to, a stale follower disagrees. *)
Lemma backs_up_diverges H a l M prev index term x : ainv H a -> traced H l -> traced H M -> hint prev index term l M ->
  backs_up M index term x -> diverges l M x.
Proof.
  intros I Hl HM Hh Hb e e' Htk He He' Et. destruct Hh as [[-> ->]|(Hpos & Hip & Hrun & pe & Hpe & Hpt)].
  - destruct Hb as [[_ ->]|[(? & _)|(? & _)]]; [|lia|lia]. apply lookup_lt_Some in He. lia.
  - destruct Hb as [[? _]|[(_ & r & er & Her & Etr & -> & Hlast)|(_ & -> & Hno)]]; [lia| |].
    + pose proof (Hlast (S r) e' ltac:(lia) He') as Hne. pose proof (traced_sorted H a M r (S r) er e' I HM ltac:(lia) Her He').
      destruct (Hrun prev) as (ep & Hep & Etp); [lia|]. destruct (decide (S r <= prev)) as [Hle|Hgt].
      * pose proof (traced_sorted H a l (S r) prev e ep I Hl Hle He Hep). lia.
      * rewrite <- (lookup_take_lt l (S r)), Htk, lookup_take_lt in Hep by lia. rewrite Hpe in Hep. by injection Hep as ->.
    + destruct (Hrun index) as (ei & Hei & Eti); [lia|]. rewrite He in Hei. injection Hei as ->. apply (Hno index e' He'). congruence.
Qed.

Lemma rule_refused H a i n p q index term x : ainv H a -> a_nodes a !! i = Some n -> ARefuse p i q index term ∈ a_net a ->
  a_role n = Leader -> q_term q = a_term n -> backs_up (a_log n) index term x ->
  ainv H (set_a i (mkANode (a_term n) Leader (a_log n) (a_commit n) (<[p := x]> (a_next n)) (a_match n)) [] [] a).
Proof.
  intros I Hi Hq Hr Ht Hb. pose proof (ai_node _ _ I i n Hi) as [_ _ Htr _ _ _ Hl _]. destruct (Hl Hr) as (Hd & Hx & Hm).
  destruct (ai_msg _ _ I _ Hq) as (Hi1 & M & Hd' & Hlt & Hlag). rewrite Ht in *. rewrite Hd in Hd'. injection Hd' as <-.
  assert (1 <= x <= length (a_log n)) as Hbx.
  { destruct Hb as [[_ ->]|[(_ & r & er & Her & _ & -> & _)|(_ & -> & _)]]; [lia|apply lookup_lt_Some in Her; lia|lia]. }
  assert (aimed H a p (a_term n) x) as Ha.
  { right. destruct Hlag as [?|(y & d & M & Hy & Ety & Hd' & Hlag)]; [by left|right]. rewrite Hd in Hd'. injection Hd' as <- <-.
    exists y, i, (a_log n). split_and!; try done. destruct Hlag as [?|Hh]; [by left|right].
    apply (backs_up_diverges H a _ _ (q_prev q) index term); try done. exact (an_traced _ _ _ _ (ai_node _ _ I p y Hy)). }
  apply (ainv_quiet H H a i n); try done; [by intros ? ? ? ?%not_elem_of_nil|by left|]. intros mv.
  split_and!; [|constructor|by intros ? ? ? ?%not_elem_of_nil]. apply (anode_again H H a i n); try done. intros _.
  split_and!; [done| |exact (match_mono a i _ [] [] i _ _ Hm)].
  apply map_Forall_insert_2; [split; [done|apply (aimed_mono H H a i n _ _ _ I mv); [by eexists|lia|done]]|].
  apply (next_mono H H a i n _ _ _ I mv); [by eexists|done].
Qed.

Lemma rule_commit H a i n k q : ainv H a -> a_nodes a !! i = Some n -> a_role n = Leader -> 0 < k ->
  (exists e, a_log n !! k = Some e /\ le_term e = a_term n) -> quorum (i :: q) ->
  (forall p, p ∈ q -> exists m, a_match n !! p = Some m /\ k <= m) ->
  ainv H (set_a i (mkANode (a_term n) Leader (a_log n) k (a_next n) (a_match n)) [] [] a).
Proof.
  intros I Hi Hr Hk (e & He & Et) Hq Hmt. pose proof (ai_node _ _ I i n Hi) as [? ? Htr ? _ _ Hl _]. destruct (Hl Hr) as (Hd & Hx & Hm).
  apply (ainv_quiet H H a i n); try done; [by intros ? ? ? ?%not_elem_of_nil|by left|]. intros mv.
  split_and!; [|constructor|by intros ? ? ? ?%not_elem_of_nil]. split; try done; simpl.
  - by apply lookup_lt_Some in He.
  - apply (committed_mono H H a i n _ _ _ mv (a_term n)); [done|]. right. exists k, (a_term n), (take (S k) (a_log n)).
    split_and!; [done|by exists i, (a_log n), e| |done]. exists (i :: q). split; [done|]. intros v [->|Hv]%elem_of_cons.
    + right. by exists (a_log n).
    + left. destruct (Hmt v Hv) as (m & Hvm & Hkm). destruct (Hm v m Hvm) as [?|(q' & ? & ? & ?)]; [lia|].
      exists i, q'. split_and!; try done. lia.
  - intros _. by apply (leads_again H H a i n).
Qed.

(** *** Receiving *)

(** A log that received [new] from the leader of [t], whose log is [M]. *)
Record received (H : Hist) (t : Z) (l l' M m : Log) : Prop := {
  rc_or : l' = l \/ l' ⊑ M;
  rc_keeps P : P ⊑ l -> P ⊑ M -> P ⊑ l';
  rc_new : m ⊑ l';
  rc_part : m ⊑ M;
  rc_traced : traced H l';
  rc_terms k e : l' !! k = Some e -> (le_term e <= t)%Z;
}.

Lemma receive H a i n from q j : ainv H a -> a_nodes a !! i = Some n -> AAppend from i q ∈ a_net a -> q_term q = a_term n ->
  prev_agrees (a_log n) q ->
  exists M0 N, h_lead H !! a_term n = Some (from, M0 ++ N) /\ Forall (fun e => le_term e = a_term n) N /\ from <> i /\
    take (S (q_prev q)) (a_log n) = take (S (q_prev q)) M0 /\ S (q_prev q) <= length M0 /\
    q_entries q = take 100 (drop (S (q_prev q)) M0) /\
    (q_commit q < length M0 /\ committed H a (a_term n) (take (S (q_commit q)) M0) /\ aimed H a i (a_term n) (S (q_prev q))) /\
    received H (a_term n) (a_log n) (merged (a_log n) (q_prev q) (take j (q_entries q))) (M0 ++ N)
      (take (S (q_prev q)) M0 ++ take j (q_entries q)).
Proof.
  intros I Hi Hm Ht (e & He & Ee). destruct (ai_msg _ _ I _ Hm) as (Hne & M0 & N & Hd & HN & (pe & Hpe & Ept) & Hq & Hc1 & Hc2 & Hc3). rewrite Ht in *.
  pose proof (ai_lead _ _ I _ _ _ Hd) as [_ HtrM Hsort _ _ _]. pose proof (ai_node _ _ I i n Hi) as [_ _ Htr Hterms _ _ _ _].
  pose proof (lookup_lt_Some _ _ _ Hpe) as Hlt. assert (traced H M0) as Htr0 by (apply (traced_prefix H M0 _ HtrM); [by apply prefix_app_r|by destruct M0]).
  pose proof (traced_agree H _ _ _ e pe Htr Htr0 He Hpe ltac:(congruence)) as Epre. exists M0, N. split_and!; try done.
  set (m := take (S (q_prev q)) M0 ++ take j (q_entries q)).
  assert (m ⊑ M0) as HmM.
  { unfold m. rewrite Hq, firstn_firstn. rewrite <- (take_drop (S (q_prev q)) M0) at 3. apply prefix_app, prefix_take. }
  assert (m <> []) as Hm0 by (unfold m; by destruct M0). assert (m ⊑ M0 ++ N) as HmM' by (by apply prefix_app_r).
  pose proof (traced_prefix H m M0 Htr0 HmM Hm0) as Htrm.
  pose proof (merged_cases H (a_log n) (q_prev q) (take j (q_entries q)) Htr) as Hmc. rewrite Epre in Hmc. fold m in Hmc.
  destruct (Hmc Htrm) as [[E Hp]|E].
  - rewrite E. split; try done; [by left].
  - rewrite E. split; try done; [by right| |].
    + intros P HP HP'. destruct (decide (length P <= length m)); [by apply (prefix_both _ _ (M0 ++ N))|].
      assert (m ⊑ P) as HmP by (apply (prefix_both _ _ (M0 ++ N)); [done|done|lia]).
      rewrite <- E, merged_prefix; [done|]. rewrite Epre. fold m. by etrans.
    + intros k x Hx. assert ((M0 ++ N) !! k = Some x) as Hx' by (by eapply prefix_lookup_Some).
      by destruct (Hsort k k x x ltac:(lia) Hx' Hx').
Qed.

Lemma committed_part H a t X Y : committed H a t Y -> X ⊑ Y -> X <> [] -> committed H a t X.
Proof.
  intros [->|(k & u & P & ? & ? & ? & ?)] Hp Hne.
  - left. destruct Hp as [Z Hz]. destruct X as [|x X]; [done|]. simpl in Hz. injection Hz as <- Hz. by destruct X.
  - right. exists k, u, P. split_and!; try done. by etrans.
Qed.

(** The node after receiving, whatever the new commit index. *)
Lemma anode_received H a i n from l' M m c ms gs : ainv H a -> a_nodes a !! i = Some n ->
  h_lead H !! a_term n = Some (from, M) -> from <> i -> received H (a_term n) (a_log n) l' M m ->
  (forall v to q, AAck v to q ∈ ms -> v = i /\ (a_term n <= q_term q)%Z) ->
  let n' := mkANode (a_term n) (a_role n) l' c (a_next n) (a_match n) in
  moves H H a i n n' ms gs /\
  (c < length l' -> committed H a (a_term n) (take (S c) l') -> anode H (set_a i n' ms gs a) i n').
Proof.
  intros I Hi Hd Hne [Hor Hk Hm Hp Htr Hte] Hms n'.
  assert (moves H H a i n n' ms gs) as mv.
  { apply moves_same; try done. intros _. destruct Hor as [?|?]; [by left|right]. by exists from, M. }
  split; [done|]. intros Hc Hcm. destruct (ai_node _ _ I i n Hi) as [? ? _ _ _ _ Hl Hs]. split; try done; simpl.
  - by apply (committed_mono H H a i n _ _ _ mv (a_term n)).
  - intros Hr. destruct (leader_log H a i n from M I Hi Hr Hd) as [? _]. done.
  - intros Hr. destruct (Hs Hr) as (? & L & HL & _). split; [done|]. exists L. split; [done|]. right. by exists from, M.
Qed.

Lemma committed_kept H a i n from l' M m : ainv H a -> a_nodes a !! i = Some n -> h_lead H !! a_term n = Some (from, M) ->
  received H (a_term n) (a_log n) l' M m -> a_commit n < length l' /\ committed H a (a_term n) (take (S (a_commit n)) l').
Proof.
  intros I Hi Hd R. destruct (ai_node _ _ I i n Hi) as [_ _ _ _ Hc Hcm _ _]. pose proof (committed_in_lead H a _ _ from M I Hcm Hd) as Hx.
  pose proof (rc_keeps _ _ _ _ _ _ R _ (prefix_take (a_log n) (S (a_commit n))) Hx) as Hp.
  pose proof (prefix_length _ _ Hp) as Hlen. rewrite length_take in Hlen. split; [lia|].
  apply prefix_take_eq with (k := S (a_commit n)) in Hp; [|rewrite length_take; lia]. rewrite firstn_firstn, Nat.min_id in Hp. by rewrite <- Hp.
Qed.

(** What node [i] had acknowledged is still there after receiving. *)
Lemma ack_kept H a i n from l' M m k t P : ainv H a -> a_nodes a !! i = Some n -> h_lead H !! a_term n = Some (from, M) ->
  received H (a_term n) (a_log n) l' M m -> entry H k t P -> acked H a i k t -> P ⊑ l' \/ dead H a k t.
Proof.
  intros I Hi Hd R He Ha. destruct (ai_ack _ _ I i n k t P Hi He Ha) as [Hp|?]; [|by right].
  enough (P ⊑ M \/ dead H a k t) as [?|?] by (try (by right); left; by apply (rc_keeps _ _ _ _ _ _ R)).
  destruct (Z.lt_trichotomy t (a_term n)) as [Hlt|[->|Hgt]].
  - by apply (al_safe _ _ _ _ _ (ai_lead _ _ I _ _ _ Hd) k t P).
  - left. destruct (entry_take H k _ P He) as (_ & d' & M' & Hd' & HP). rewrite Hd in Hd'. by injection Hd' as <- <-.
  - exfalso. pose proof (entry_take H k t P He) as [Hlen _]. destruct He as (d & M' & e & _ & He & Et & ->).
    assert (a_log n !! k = Some e) as Hke by (eapply prefix_lookup_Some; [|exact Hp]; by rewrite lookup_take_lt by lia).
    pose proof (an_terms _ _ _ _ (ai_node _ _ I i n Hi) k e Hke). lia.
Qed.

Lemma rule_partial H a i n from q j : ainv H a -> a_nodes a !! i = Some n -> AAppend from i q ∈ a_net a -> q_term q = a_term n ->
  prev_agrees (a_log n) q ->
  ainv H (set_a i (mkANode (a_term n) (a_role n) (merged (a_log n) (q_prev q) (take j (q_entries q)))
      (a_commit n) (a_next n) (a_match n)) [] [] a).
Proof.
  intros I Hi Hm Ht Hp. destruct (receive H a i n from q j I Hi Hm Ht Hp) as (M0 & N & Hd & _ & Hne & _ & _ & _ & _ & R).
  destruct (anode_received H a i n from _ _ _ (a_commit n) [] [] I Hi Hd Hne R) as [mv Hn]; [by intros ? ? ? ?%not_elem_of_nil|].
  destruct (committed_kept H a i n from _ _ _ I Hi Hd R) as [Hc Hcm]. apply (ainv_moves H H a i n _ [] [] I mv); try done.
  - by apply Hn.
  - by intros ? ? ? ?%not_elem_of_nil.
  - intros M. rewrite Hd. by intros [= -> _].
  - by left.
  - intros k t P He Ha. apply acked_silent in Ha; [|by intros ? ? ? ?%not_elem_of_nil].
    destruct (ack_kept H a i n from _ _ _ k t P I Hi Hd R He Ha) as [?|?]; [by left|right]. by apply (dead_mono H H a i n _ _ _ mv).
Qed.

(** A request that is accepted in full: the log is then part of the leader's,
    or the request had nothing to add behind the leader's last entry. *)
Lemma received_all H a i n from q M0 N : ainv H a -> a_nodes a !! i = Some n -> q_term q = a_term n ->
  h_lead H !! a_term n = Some (from, M0 ++ N) -> aimed H a i (a_term n) (S (q_prev q)) ->
  take (S (q_prev q)) (a_log n) = take (S (q_prev q)) M0 -> S (q_prev q) <= length M0 ->
  q_entries q = take 100 (drop (S (q_prev q)) M0) ->
  let l' := merged (a_log n) (q_prev q) (q_entries q) in
  received H (a_term n) (a_log n) l' (M0 ++ N) (take (S (q_prev q)) M0 ++ q_entries q) ->
  l' ⊑ M0 ++ N \/ (l' = a_log n /\ q_entries q = [] /\ length M0 = S (q_prev q)).
Proof.
  intros I Hi Ht Hd Ha Epre Hlen Hq l' [[E|?] _ Hnew _ Htr Hte]; [|by left]. pose proof (ai_lead _ _ I _ _ _ Hd) as Hl.
  destruct (drop (S (q_prev q)) M0) as [|b rest] eqn:Ed.
  { right. split_and!; [done|by rewrite Hq|]. assert (length (drop (S (q_prev q)) M0) = 0) as H0 by (by rewrite Ed). rewrite length_drop in H0. lia. }
  left. assert ((M0 ++ N) !! S (q_prev q) = Some b) as HMb.
  { apply lookup_app_l_Some. rewrite <- (Nat.add_0_r (S (q_prev q))), <- lookup_drop, Ed. done. }
  assert (l' !! S (q_prev q) = Some b) as Hb.
  { eapply prefix_lookup_Some; [|exact Hnew]. rewrite lookup_app_r by (rewrite length_take; lia).
    rewrite length_take, Nat.min_l, Nat.sub_diag, Hq by lia. done. }
  destruct Ha as [Hown|[(x & Hx & ?)|(x & d' & M' & Hx & _ & Hd' & Hdiv)]].
  - destruct (traced_up_to H a l' _ b (a_term n) I Htr Hb) as (d' & M' & Hd' & ?); [by apply (Hown from (M0 ++ N))| |done|].
    + apply (al_term _ _ _ _ _ Hl).
    + rewrite Hd in Hd'. by injection Hd' as <- <-.
  - rewrite Hi in Hx. injection Hx as <-. lia.
  - rewrite Hi in Hx. injection Hx as <-. rewrite Hd in Hd'. injection Hd' as <- <-. rewrite <- E in Hdiv.
    destruct Hdiv as [?|Hdiv]; [done|]. exfalso. apply (Hdiv b b); try done. rewrite E, Epre. by rewrite take_app_le by lia.
Qed.

Lemma rule_accept H a i n from q : ainv H a -> a_nodes a !! i = Some n -> AAppend from i q ∈ a_net a -> q_term q = a_term n ->
  prev_agrees (a_log n) q ->
  let l := merged (a_log n) (q_prev q) (q_entries q) in
  ainv H (set_a i (mkANode (a_term n) (a_role n) l
        (if decide (a_commit n < q_commit q) then Nat.min (q_commit q) (last_index l) else a_commit n) (a_next n) (a_match n))
      [AAck i from q] [] a).
Proof.
  intros I Hi Hm Ht Hp l. set (c := if decide _ then _ else _).
  destruct (receive H a i n from q (length (q_entries q)) I Hi Hm Ht Hp) as (M0 & N & Hd & HN & Hne & Epre & Hlen & Hq & (Hqc & Hqcm & Haim) & R).
  rewrite firstn_all in R. fold l in R.
  pose proof (received_all H a i n from q M0 N I Hi Ht Hd Haim Epre Hlen Hq R) as Hall. fold l in Hall.
  clearbody l. destruct (committed_kept H a i n from _ _ _ I Hi Hd R) as [Hc Hcm].
  assert (c < length l /\ committed H a (a_term n) (take (S c) l)) as [Hc' Hcm'].
  { unfold c. case_decide as Hdec; [|done]. unfold last_index. split; [lia|]. apply (committed_part H a _ _ _ Hqcm); [|intros E%(f_equal length); rewrite length_take in E; cbn [length] in E; lia].
    apply (prefix_both _ _ (take (S (q_commit q)) M0)); [|done|rewrite !length_take; lia].
    apply prefix_of_take; [|rewrite length_take; lia]. destruct Hall as [Hall|(-> & E0 & El)].
    - apply (prefix_both _ _ (M0 ++ N)); [by etrans; [apply prefix_take|]|by apply prefix_app_r|rewrite length_take; lia].
    - etrans; [apply (take_take_prefix _ _ (S (q_prev q))); lia|]. rewrite Epre. apply prefix_take. }
  clearbody c. destruct (anode_received H a i n from _ _ _ c [AAck i from q] [] I Hi Hd Hne R) as [mv Hn].
  { intros v to x [= -> -> ->]%list_elem_of_singleton. split; [done|lia]. }
  assert (S (last_new q) <= length M0) as Hnew.
  { unfold last_new. rewrite Hq, length_take, length_drop. lia. }
  apply (ainv_moves H H a i n _ _ [] I mv); try done.
  - by apply Hn.
  - apply Forall_singleton. split_and!; [done|eexists; apply lookup_insert_eq|]. rewrite Ht. exists (M0 ++ N).
    rewrite length_app. split_and!; [done|lia|]. destruct Hall as [Hall|(_ & E0 & El)].
    + right. right. eexists _, from, (M0 ++ N). split_and!; [apply lookup_insert_eq|done|done|by left].
    + left. intros d M e Hd'. rewrite Hd in Hd'. injection Hd' as <- <-. unfold last_new. rewrite E0. simpl. rewrite Nat.add_0_r.
      rewrite lookup_app_r by lia. intros He. exact (Forall_lookup_1 _ _ _ _ HN He).
  - by intros ? ? ? ?%not_elem_of_nil.
  - intros M. rewrite Hd. by intros [= -> _].
  - by left.
  - intros k t P He [(to & x & Hx & Etx & Hk)|?]; [apply elem_of_app in Hx as [Hx|Hx]|].
    + destruct (ack_kept H a i n from _ _ _ k t P I Hi Hd R He) as [?|?]; [left; by exists to, x|by left|right].
      by apply (dead_mono H H a i n _ _ _ mv).
    + apply list_elem_of_singleton in Hx as [= -> ->]. left. destruct (entry_take H k t P He) as (HlP & d' & M' & Hd' & HP).
      rewrite <- Etx, Ht, Hd in Hd'. injection Hd' as <- <-. etrans; [|exact (rc_new _ _ _ _ _ _ R)].
      apply (prefix_both _ _ (M0 ++ N)); [done|exact (rc_part _ _ _ _ _ _ R)|]. rewrite length_app, length_take. unfold last_new in *. lia.
    + destruct (ack_kept H a i n from _ _ _ k t P I Hi Hd R He) as [?|?]; [by right|by left|right]. by apply (dead_mono H H a i n _ _ _ mv).
Qed.

(** *** Leading *)

#[local] Instance acked_dec H a v k t : Decision (acked H a v k t).
Proof.
  destruct (decide (Exists (fun m => match m with AAck w _ q => bool_decide (w = v /\ q_term q = t /\ k <= last_new q) | _ => false end = true)
    (a_net a))) as [Hx|Hx]; [left; left|].
  { apply Exists_exists in Hx as (m & Hm & Hx). destruct m as [| |w to q|]; try done. apply bool_decide_eq_true in Hx as (-> & ? & ?). by exists to, q. }
  destruct (decide (fst <$> h_lead H !! t = Some v)) as [E|E]; [left; right|right].
  - destruct (h_lead H !! t) as [[d M]|]; [|done]. injection E as ->. by exists M.
  - intros [(to & q & Hq & ?)|(M & HM)]; [|by rewrite HM in E]. apply Hx, Exists_exists. eexists. split; [exact Hq|]. by apply bool_decide_eq_true.
Defined.

(** A candidate with the votes of a majority is the first leader of its term. *)
Lemma lead_fresh H a i n q : ainv H a -> a_nodes a !! i = Some n -> a_role n = Candidate -> quorum q ->
  (forall v, v ∈ q -> (v, a_term n, i) ∈ a_granted a) ->
  h_lead H !! a_term n = None /\ h_cand H !! (i, a_term n) = Some (a_log n) /\ (1 <= a_term n)%Z /\
  forall k e, a_log n !! k = Some e -> le_term e <> a_term n.
Proof.
  intros I Hi Hr Hq Hv. pose proof (ai_node _ _ I i n Hi) as [_ _ Htr _ _ _ _ Hs]. destruct (Hs Hr) as (H1 & L & HL & Hlog).
  assert (h_lead H !! a_term n = None) as Hfresh.
  { destruct (h_lead H !! a_term n) as [[d M]|] eqn:E; [|done]. exfalso. destruct (ai_lead _ _ I _ _ _ E) as [_ _ _ (q' & Hq' & Hv') (x & Hd & Hx') _].
    destruct (quorums_meet q q' Hq Hq') as (v & Hv1 & Hv2). pose proof (av_once _ _ _ _ _ (ai_vote _ _ I _ _ _ (Hv v Hv1)) d (Hv' v Hv2)) as ->.
    rewrite Hi in Hd. injection Hd as <-. destruct Hx' as [?|(_ & ? & _)]; [lia|congruence]. }
  split_and!; [done| |done|].
  - destruct Hlog as [->|(d & M & E & _)]; [done|by rewrite Hfresh in E].
  - intros [|k] e He Et.
    + destruct Htr as [Hz _]. rewrite Hz in He. injection He as <-. simpl in Et. lia.
    + destruct (proj2 Htr k e He) as (d & M & Hd & _). by rewrite Et, Hfresh in Hd.
Qed.

(** Its log is safe: a voter acknowledged the entry and has it from the
    candidate's log, or none of the voters ever will. *)
Lemma lead_safe H a i t q L : ainv H a -> quorum q -> (forall v, v ∈ q -> (v, t, i) ∈ a_granted a) ->
  h_cand H !! (i, t) = Some L -> safe H a t L.
Proof.
  intros I Hq Hv HL k t' P Ht He. destruct (decide (Exists (fun v => acked H a v k t') q)) as [Hx|Hno].
  - apply Exists_exists in Hx as (v & Hvq & Ha). destruct (av_log _ _ _ _ _ (ai_vote _ _ I _ _ _ (Hv v Hvq))) as (L' & HL' & Hk).
    rewrite HL in HL'. injection HL' as <-. by apply Hk.
  - right. exists q. split; [done|]. intros v Hvq. split.
    + destruct (av_node _ _ _ _ _ (ai_vote _ _ I _ _ _ (Hv v Hvq))) as (x & Hxv & ?). exists x. split; [done|lia].
    + intros Ha. apply Hno, Exists_exists. by exists v.
Qed.

Definition lead_hist (H : Hist) (t : Z) (i : string) (l : Log) : Hist := mkHist (<[t := (i, l)]> (h_lead H)) (h_cand H).

Lemma lead_acked H a i n n' l v k t : acked (lead_hist H (a_term n) i l) (set_a i n' [] [] a) v k t ->
  acked H a v k t \/ (v = i /\ t = a_term n).
Proof.
  intros [(to & x & Hx' & ?)|(M & HM)]; [left; left; exists to, x; split; [|done]; simpl in Hx'; by rewrite app_nil_r in Hx'|].
  simpl in HM. rewrite lookup_insert_Some in HM. destruct HM as [[<- [= <- <-]]|[_ HM]]; [by right|left; right; by exists M].
Qed.

Lemma lead_entry H i t l k u P : entry (lead_hist H t i l) k u P ->
  (u <> t /\ entry H k u P) \/ (u = t /\ exists e, l !! k = Some e /\ le_term e = t /\ P = take (S k) l).
Proof.
  intros (d & M & e & Hd & He & Et & ->). simpl in Hd. rewrite lookup_insert_Some in Hd.
  destruct Hd as [[<- [= <- <-]]|[? Hd]]; [right; split; [done|by exists e]|left]. split; [done|]. by exists d, M, e.
Qed.

Lemma lead_moves H a i n next' match' : a_nodes a !! i = Some n -> h_lead H !! a_term n = None ->
  (forall k e, a_log n !! k = Some e -> le_term e <> a_term n) ->
  moves H (lead_hist H (a_term n) i (a_log n)) a i n (mkANode (a_term n) Leader (a_log n) (a_commit n) next' match') [] [].
Proof.
  intros Hi Hfresh Hno. split; try done; [by left| | | |].
  - intros t d M Hd. exists []. rewrite app_nil_r. split; [|done]. simpl. rewrite lookup_insert_ne; [done|]. intros <-. by rewrite Hfresh in Hd.
  - intros t d M. simpl. rewrite lookup_insert_Some. intros [[<- [= <- <-]]|[_ ?]]; [by right|by left].
  - intros v k t [?|[-> ->]]%lead_acked; [by left|by right].
  - intros k t P [[_ ?]|(_ & e & He & Et & _)]%lead_entry; [by left|]. by destruct (Hno k e He).
Qed.

Lemma rule_lead H a i n q next' match' : ainv H a -> a_nodes a !! i = Some n -> a_role n = Candidate ->
  quorum q -> (forall v, v ∈ q -> (v, a_term n, i) ∈ a_granted a) ->
  map_Forall (fun _ x => x = length (a_log n)) next' -> map_Forall (fun _ m => m = 0) match' ->
  exists H', ainv H' (set_a i (mkANode (a_term n) Leader (a_log n) (a_commit n) next' match') [] [] a).
Proof.
  intros I Hi Hr Hq Hv Hx Hm. destruct (lead_fresh H a i n q I Hi Hr Hq Hv) as (Hfresh & HL & H1 & Hno).
  pose proof (lead_moves H a i n next' match' Hi Hfresh Hno) as mv. pose proof (ai_node _ _ I i n Hi) as [_ _ Htr Hte _ _ _ _].
  set (n' := mkANode _ _ _ _ _ _) in *. set (H' := lead_hist _ _ _ _) in *. exists H'.
  assert (h_lead H' !! a_term n = Some (i, a_log n)) as Hd' by apply lookup_insert_eq.
  apply (ainv_moves H H' a i n n' [] [] I mv); try done.
  - apply (anode_again H H' a i n n'); try done. intros _. split_and!; [done| |intros p m Hp; left; by apply (Hm p)].
    intros p x Hp. rewrite (Hx p x Hp). split; [pose proof (traced_nonempty H _ Htr); simpl; lia|]. left. intros d M e Hd.
    change (h_lead H' !! a_term n = Some (d, M)) in Hd. rewrite Hd' in Hd. injection Hd as <- <-. intros He%lookup_lt_Some. lia.
  - by intros ? ? ? ?%not_elem_of_nil.
  - intros M. rewrite Hd'. intros [= <-]. split; try done.
    + by apply (traced_mono H H' a i n n' [] [] mv).
    + intros j k e e' Hjk He He'. split; [|by apply (Hte k)]. by apply (traced_sorted H a (a_log n) j k).
    + exists q. split; [done|]. intros v Hin. apply elem_of_app. left. by apply Hv.
    + exists n'. split; [apply lookup_insert_eq|by right].
    + apply (safe_mono H H' a i n n' [] [] I mv (a_term n) i); [by exists q|]. by apply (lead_safe H a i _ q).
  - by left.
  - intros k t P [[Hne He]|(_ & e & He & Et & _)]%lead_entry Ha; [|by destruct (Hno k e He)]. destruct (lead_acked _ _ _ _ _ _ _ _ _ Ha) as [Ha'|[_ ->]]; [|done].
    destruct (ai_ack _ _ I i n k t P Hi He Ha') as [?|?]; [by left|right]. by apply (dead_mono H H' a i n _ _ _ mv).
Qed.

Lemma propose_moves H a i n e : ainv H a -> a_nodes a !! i = Some n -> a_role n = Leader -> le_term e = a_term n ->
  moves H (lead_hist H (a_term n) i (a_log n ++ [e])) a i n
    (mkANode (a_term n) Leader (a_log n ++ [e]) (a_commit n) (a_next n) (a_match n)) [] [].
Proof.
  intros I Hi Hr Et. destruct (an_leads _ _ _ _ (ai_node _ _ I i n Hi) Hr) as (Hd & _). split; try done.
  - right. exists i, (a_log n ++ [e]). split; [apply lookup_insert_eq|done].
  - intros t d M Hd'. simpl. destruct (decide (a_term n = t)) as [<-|Hne].
    + rewrite Hd in Hd'. injection Hd' as <- <-. exists [e]. rewrite lookup_insert_eq. split; [done|]. by apply Forall_singleton.
    + exists []. by rewrite lookup_insert_ne, app_nil_r.
  - intros t d M. simpl. rewrite lookup_insert_Some. intros [[<- [= <- <-]]|[_ ?]]; [by right|by left].
  - intros v k t [?|[-> ->]]%lead_acked; [by left|by right].
  - intros k t P [[_ ?]|(-> & e' & He & Et' & ->)]%lead_entry; [by left|]. destruct (decide (k < length (a_log n))) as [Hlt|Hge].
    + left. rewrite lookup_app_l in He by done. rewrite take_app_le by lia. by exists i, (a_log n), e'.
    + right. split; [done|]. intros v Hv [[(to & q & Hq & Etq & Hk)|(M & HM)]|[? _]]%lead_acked; [| |done].
      * destruct (ai_msg _ _ I _ Hq) as (_ & _ & M & Hd' & Hlt & _). rewrite Etq, Hd in Hd'. injection Hd' as <- <-. lia.
      * rewrite Hd in HM. by injection HM as <-.
Qed.

Lemma rule_propose H a i n e : ainv H a -> a_nodes a !! i = Some n -> a_role n = Leader -> le_term e = a_term n ->
  exists H', ainv H' (set_a i (mkANode (a_term n) Leader (a_log n ++ [e]) (a_commit n) (a_next n) (a_match n)) [] [] a).
Proof.
  intros I Hi Hr Et. pose proof (propose_moves H a i n e I Hi Hr Et) as mv. set (n' := mkANode _ _ _ _ _ _) in *. set (H' := lead_hist _ _ _ _) in *.
  exists H'. pose proof (ai_node _ _ I i n Hi) as [? ? Htr Hte Hc Hcm Hl _]. destruct (Hl Hr) as (Hd & Hx & Hm).
  assert (h_lead H' !! a_term n = Some (i, a_log n ++ [e])) as Hd' by apply lookup_insert_eq.
  assert (traced H' (a_log n ++ [e])) as Htr'.
  { destruct (traced_mono H H' a i n n' [] [] mv _ Htr) as [Hz Hk]. split; [by apply lookup_app_l_Some|]. intros k x Hkx.
    apply lookup_app_Some in Hkx as [Hkx|[Hge Hkx]].
    - pose proof (lookup_lt_Some _ _ _ Hkx). destruct (Hk k x Hkx) as (d & M & ? & ?). exists d, M. by rewrite take_app_le by lia.
    - apply list_lookup_singleton_Some in Hkx as [? <-]. rewrite Et. exists i, (a_log n ++ [e]). split; [done|apply prefix_take]. }
  assert (forall k x, (a_log n ++ [e]) !! k = Some x -> (le_term x <= a_term n)%Z) as Hte'.
  { intros k x [?|[_ [_ <-]%list_lookup_singleton_Some]]%lookup_app_Some; [by apply (Hte k)|lia]. }
  apply (ainv_moves H H' a i n n' [] [] I mv); try done.
  - split; try done; simpl.
    + rewrite length_app. lia.
    + rewrite take_app_le by lia. by apply (committed_mono H H' a i n n' [] [] mv (a_term n)).
    + intros _. split_and!; [done| |exact (match_mono a i n' [] [] i _ _ Hm)]. apply (map_Forall_impl _ _ _ (next_mono H H' a i n n' [] [] I mv _ _ _ (ex_intro _ _ Hd) Hx)).
      intros p x [? ?]. simpl. rewrite length_app. split; [lia|done].
  - by intros ? ? ? ?%not_elem_of_nil.
  - intros M. rewrite Hd'. intros [= <-]. destruct (ai_lead _ _ I _ _ _ Hd) as [? _ Hsort Hq _ Hs]. split; try done.
    + intros j k x y Hjk Hj Hk. split; [|by apply (Hte' k)]. apply lookup_app_Some in Hk as [Hk|[Hge [_ <-]%list_lookup_singleton_Some]].
      * rewrite lookup_app_l in Hj by (apply lookup_lt_Some in Hk; lia). by apply (Hsort j k).
      * rewrite Et. by apply (Hte' j).
    + destruct Hq as (q & ? & Hv). exists q. split; [done|]. intros v Hin. apply elem_of_app. left. by apply Hv.
    + exists n'. split; [apply lookup_insert_eq|by right].
    + intros k t P Ht He. destruct (safe_mono H H' a i n n' [] [] I mv (a_term n) i _ Hq Hs k t P Ht He) as [?|?]; [left; by apply prefix_app_r|by right].
  - by left.
  - intros k t P [[Hne He]|(_ & x & _ & _ & ->)]%lead_entry Ha; [|left; apply prefix_take].
    destruct (lead_acked _ _ _ _ _ _ _ _ _ Ha) as [Ha'|[_ ->]]; [|done].
    destruct (ai_ack _ _ I i n k t P Hi He Ha') as [?|?]; [left; by apply prefix_app_r|right]. by apply (dead_mono H H' a i n _ _ _ mv).
Qed.

(** ** Runs *)

Lemma astep_inv H a a' : ainv H a -> astep a a' -> exists H', ainv H' a'.
Proof.
  intros I Hs. destruct Hs; eauto using rule_timeout, rule_follow, rule_vote, rule_lead, rule_propose, rule_send, rule_accept, rule_partial,
    rule_refuse, rule_acked, rule_refused, rule_commit.
Qed.

Lemma ainit_inv a : ainit a -> ainv (mkHist ∅ ∅) a.
Proof.
  intros (Hm & Hn & Hnet & Hg). split.
  - intros i n Hi. rewrite (Hn i n Hi). split; simpl; try done; [apply Hm; by eexists| |lia|by left].
    intros k e [? <-]%list_lookup_singleton_Some. done.
  - intros m. rewrite Hnet. by intros ?%not_elem_of_nil.
  - intros t d M. simpl. by rewrite lookup_empty.
  - intros v t c. rewrite Hg. by intros ?%not_elem_of_nil.
  - intros c t L. simpl. by rewrite lookup_empty.
  - intros v n k t P _ (d & M & e & Hd & _). simpl in Hd. by rewrite lookup_empty in Hd.
Qed.

Lemma areachable_inv a : areachable a -> exists H, ainv H a.
Proof.
  intros (a0 & H0 & Hr). apply (rtc_ind_r (R := astep) (fun a => exists H, ainv H a) a0); [exists (mkHist ∅ ∅); by apply ainit_inv| |done].
  intros a1 a2 _ Hs [H I]. by apply (astep_inv H a1).
Qed.

Lemma prefix_total (l l' M : Log) : l ⊑ M -> l' ⊑ M -> l ⊑ l' \/ l' ⊑ l.
Proof. intros Hl Hl'. destruct (decide (length l <= length l')); [left|right]; apply (prefix_both _ _ M); try done. lia. Qed.

Lemma committed_head H a t X : ainv H a -> committed H a t X -> X <> [] -> [sentinel 0 0] ⊑ X.
Proof.
  intros I [->|(k & u & P & _ & (d & M & e & Hd & _ & _ & ->) & _ & Hp)] Hx; [done|].
  destruct (al_traced _ _ _ _ _ (ai_lead _ _ I _ _ _ Hd)) as [Hz _]. destruct X as [|x X]; [done|].
  destruct M as [|z M]; [done|]. injection Hz as ->. cbn [firstn] in Hp. apply prefix_cons_inv_1 in Hp as ->. by exists X.
Qed.

(** The committed parts of two logs are parts of one another. *)
Lemma committed_total H a t t' X Y : ainv H a -> committed H a t X -> committed H a t' Y -> X <> [] -> Y <> [] -> X ⊑ Y \/ Y ⊑ X.
Proof.
  intros I HX HY Hx Hy. pose proof (committed_head H a _ _ I HX Hx) as H1. pose proof (committed_head H a _ _ I HY Hy) as H2.
  destruct HX as [->|(k & u & P & Hu & He & Hc & Hp)]; [by left|].
  destruct HY as [->|(k' & u' & P' & Hu' & He' & Hc' & Hp')]; [by right|].
  destruct (entry_take H k u P He) as (_ & d & M & Hd & HP). destruct (entry_take H k' u' P' He') as (_ & d' & M' & Hd' & HP').
  destruct (decide (u <= u')%Z) as [Hle|Hgt].
  - apply (prefix_total _ _ M'); [|by etrans]. etrans; [exact Hp|]. by apply (chosen_kept H a k u P u' d').
  - apply (prefix_total _ _ M); [by etrans|]. etrans; [exact Hp'|]. apply (chosen_kept H a k' u' P' u d); try done. lia.
Qed.

(** State machine safety: two nodes have the same entries up to the smaller of
    their commit indices. *)
Lemma commits_agree a i j ni nj k : areachable a -> a_nodes a !! i = Some ni -> a_nodes a !! j = Some nj ->
  k <= a_commit ni -> k <= a_commit nj -> a_log ni !! k = a_log nj !! k /\ is_Some (a_log ni !! k).
Proof.
  intros Hr Hi Hj Hki Hkj. destruct (areachable_inv a Hr) as [H I].
  destruct (ai_node _ _ I i ni Hi) as [_ _ _ _ Li Ci _ _]. destruct (ai_node _ _ I j nj Hj) as [_ _ _ _ Lj Cj _ _].
  split; [|apply lookup_lt_is_Some; lia].
  rewrite <- (lookup_take_lt (a_log ni) (S (a_commit ni))), <- (lookup_take_lt (a_log nj) (S (a_commit nj))) by lia.
  destruct (committed_total H a _ _ _ _ I Ci Cj) as [Hp|Hp].
  - intros E%(f_equal length). rewrite length_take in E. cbn [length] in E. lia.
  - intros E%(f_equal length). rewrite length_take in E. cbn [length] in E. lia.
  - symmetry. destruct (lookup_lt_is_Some_2 (take (S (a_commit ni)) (a_log ni)) k) as [x Hx]; [rewrite length_take; lia|].
    rewrite Hx. by eapply prefix_lookup_Some.
  - destruct (lookup_lt_is_Some_2 (take (S (a_commit nj)) (a_log nj)) k) as [x Hx]; [rewrite length_take; lia|].
    rewrite Hx. by eapply prefix_lookup_Some.
Qed.

(** Leader completeness: the leader of the same or a later term has what any
    node has committed. *)
Lemma leader_complete a i j ni nj k : areachable a -> a_nodes a !! i = Some ni -> a_nodes a !! j = Some nj ->
  a_role nj = Leader -> (a_term ni <= a_term nj)%Z -> k <= a_commit ni -> a_log nj !! k = a_log ni !! k.
Proof.
  intros Hr Hi Hj Hl Ht Hk. destruct (areachable_inv a Hr) as [H I].
  destruct (ai_node _ _ I i ni Hi) as [_ _ _ _ Li Ci _ _]. destruct (an_leads _ _ _ _ (ai_node _ _ I j nj Hj) Hl) as (Hd & _).
  assert (committed H a (a_term nj) (take (S (a_commit ni)) (a_log ni))) as Cj.
  { destruct Ci as [?|(k' & u & P & ? & ?)]; [by left|right]. exists k', u, P. split; [lia|done]. }
  pose proof (committed_in_lead H a _ _ _ _ I Cj Hd) as Hp. destruct (lookup_lt_is_Some_2 (a_log ni) k) as [x Hx]; [lia|]. rewrite Hx.
  eapply prefix_lookup_Some; [|exact Hp]. by rewrite lookup_take_lt by lia.
Qed.

(** What a node has committed stays in its log. *)
Lemma commits_stay a a' i n : areachable a -> astep a a' -> a_nodes a !! i = Some n ->
  exists n', a_nodes a' !! i = Some n' /\ a_commit n <= a_commit n' /\ take (S (a_commit n)) (a_log n) ⊑ a_log n'.
Proof.
  intros Hr Hs Hi. destruct (areachable_inv a Hr) as [H I].
  assert (forall v x x' ms gs, a_nodes a !! v = Some x -> a_commit x <= a_commit x' -> take (S (a_commit x)) (a_log x) ⊑ a_log x' ->
    exists n', a_nodes (set_a v x' ms gs a) !! i = Some n' /\ a_commit n <= a_commit n' /\ take (S (a_commit n)) (a_log n) ⊑ a_log n') as Hset.
  { intros v x x' ms gs Hx Hc Hp. simpl. rewrite lookup_insert. case_decide; [|exists n; split_and!; [done|done|apply prefix_take]].
    subst v. rewrite Hi in Hx. injection Hx as <-. by exists x'. }
  assert (forall v x from q j, a_nodes a !! v = Some x -> AAppend from v q ∈ a_net a -> q_term q = a_term x -> prev_agrees (a_log x) q ->
    take (S (a_commit x)) (a_log x) ⊑ merged (a_log x) (q_prev q) (take j (q_entries q)) /\
    a_commit x < length (merged (a_log x) (q_prev q) (take j (q_entries q)))) as Hrc.
  { intros v x from q j Hv Hm Ht Hp. destruct (receive H a v x from q j I Hv Hm Ht Hp) as (M0 & N & Hd & _ & _ & _ & _ & _ & _ & R).
    split; [|by apply (committed_kept H a v x from _ _ _ I Hv Hd R)]. apply (rc_keeps _ _ _ _ _ _ R); [apply prefix_take|].
    apply (committed_in_lead H a (a_term x) _ from); try done. exact (an_committed _ _ _ _ (ai_node _ _ I v x Hv)). }
  destruct Hs as [v x k Hv|v x t Hv|v x f li lt Hv|v x q nx mt Hv|v x e Hv|v x p Hv|v x f q Hv Hm Ht Hp|v x f q k Hv Hm Ht Hp|v x f q ix t Hv|v x p q Hv
    |v x p q ix t y Hv|v x k q Hv Hl Hk]; apply (Hset v x); cbn [a_commit a_log]; try done; try apply prefix_take.
  - apply prefix_app_r, prefix_take.
  - destruct (Hrc v x f q (length (q_entries q)) Hv Hm Ht Hp) as [_ Hlt]. rewrite firstn_all in Hlt. fold l in Hlt. unfold last_index. case_decide; lia.
  - destruct (Hrc v x f q (length (q_entries q)) Hv Hm Ht Hp) as [Hx _]. by rewrite firstn_all in Hx.
  - by apply (Hrc v x f).
  - lia.
Qed.

Lemma commits_stay_run a a' i n : areachable a -> rtc astep a a' -> a_nodes a !! i = Some n ->
  exists n', a_nodes a' !! i = Some n' /\ a_commit n <= a_commit n' /\ take (S (a_commit n)) (a_log n) ⊑ a_log n'.
Proof.
  intros Hr Hs. revert n Hr. induction Hs as [a|a a1 a2 Hs _ IH]; intros n Hr Hi; [exists n; split_and!; [done|done|apply prefix_take]|].
  destruct (commits_stay a a1 i n Hr Hs Hi) as (n1 & Hn1 & Hc1 & Hp1).
  assert (areachable a1) as Hr1 by (destruct Hr as (a0 & ? & ?); exists a0; split; [done|by eapply rtc_r]).
  destruct (IH n1 Hr1 Hn1) as (n2 & Hn2 & Hc2 & Hp2). destruct (areachable_inv a Hr) as [H I].
  pose proof (an_commit _ _ _ _ (ai_node _ _ I i n Hi)) as Hlt. exists n2. split_and!; [done|lia|]. etrans; [|exact Hp2].
  apply prefix_of_take; [done|]. rewrite length_take. lia.
Qed.

(** A leader stays one, with its log growing at the end, until it leaves its term. *)
Definition still_leads (n n' : ANode) : Prop :=
  (a_term n < a_term n')%Z \/ (a_term n' = a_term n /\ a_role n' = Leader /\ a_log n ⊑ a_log n').

Lemma term_stays a a' i n : astep a a' -> a_nodes a !! i = Some n -> exists n', a_nodes a' !! i = Some n' /\ (a_term n <= a_term n')%Z.
Proof.
  intros Hs Hi. destruct Hs as [v x|v x|v x|v x|v x|v x|v x|v x|v x|v x|v x|v x]; simpl;
    (rewrite lookup_insert; case_decide; [subst; eexists; split; [done|]; simplify_eq; simpl; lia|by exists n]).
Qed.

Lemma term_stays_run a a' i n : rtc astep a a' -> a_nodes a !! i = Some n -> exists n', a_nodes a' !! i = Some n' /\ (a_term n <= a_term n')%Z.
Proof.
  intros Hs. revert n. induction Hs as [a|a a1 a2 Hs _ IH]; intros n Hi; [by exists n|].
  destruct (term_stays a a1 i n Hs Hi) as (n1 & Hn1 & H1). destruct (IH n1 Hn1) as (n2 & Hn2 & H2). exists n2. split; [done|lia].
Qed.

Lemma leads_stay a a' i n : areachable a -> astep a a' -> a_nodes a !! i = Some n -> a_role n = Leader ->
  exists n', a_nodes a' !! i = Some n' /\ still_leads n n'.
Proof.
  intros Hr Hs Hi Hl. destruct (areachable_inv a Hr) as [H I].
  assert (forall v x x' ms gs, a_nodes a !! v = Some x -> (a_role x = Leader -> still_leads x x') ->
    exists n', a_nodes (set_a v x' ms gs a) !! i = Some n' /\ still_leads n n') as Hset.
  { intros v x x' ms gs Hx Hst. simpl. rewrite lookup_insert. case_decide; [|exists n; split; [done|by right]].
    subst v. rewrite Hi in Hx. injection Hx as <-. exists x'. split; [done|by apply Hst]. }
  assert (forall v x from q, a_nodes a !! v = Some x -> AAppend from v q ∈ a_net a -> q_term q = a_term x -> a_role x <> Leader) as Hrc.
  { intros v x from q Hv Hm Ht Hx. destruct (ai_msg _ _ I _ Hm) as (Hne & M0 & N & Hd & _). rewrite Ht in Hd.
    destruct (an_leads _ _ _ _ (ai_node _ _ I v x Hv) Hx) as [Hd' _]. rewrite Hd in Hd'. by injection Hd'. }
  destruct Hs as [v x k Hv|v x t Hv Ht|v x f li lt Hv|v x q nx mt Hv|v x e Hv|v x p Hv|v x f q Hv Hm Ht|v x f q k Hv Hm Ht|v x f q ix t Hv|v x p q Hv
    |v x p q ix t y Hv|v x k q Hv]; apply (Hset v x); try done; intros Hx; try (by right); try (left; simpl; lia).
  - right. split_and!; [done|done|]. by apply prefix_app_r.
  - by destruct (Hrc v x f q Hv Hm Ht).
  - by destruct (Hrc v x f q Hv Hm Ht).
Qed.

Lemma leads_stay_run a a' i n : areachable a -> rtc astep a a' -> a_nodes a !! i = Some n -> a_role n = Leader ->
  exists n', a_nodes a' !! i = Some n' /\ still_leads n n'.
Proof.
  intros Hr Hs Hi Hl. revert Hr Hi Hl. revert n. induction Hs as [a|a a1 a2 Hs Hs2 IH]; intros n Hr Hi Hl; [exists n; split; [done|by right]|].
  destruct (leads_stay a a1 i n Hr Hs Hi Hl) as (n1 & Hn1 & H1).
  assert (areachable a1) as Hr1 by (destruct Hr as (a0 & ? & ?); exists a0; split; [done|by eapply rtc_r]).
  destruct H1 as [H1|(Et & Hl1 & Hp1)].
  - destruct (term_stays_run a1 a2 i n1 Hs2 Hn1) as (n2 & Hn2 & Hle). exists n2. split; [done|]. left. lia.
  - destruct (IH n1 Hr1 Hn1 Hl1) as (n2 & Hn2 & [?|(Et2 & Hl2 & Hp2)]); exists n2; (split; [done|]); [left; lia|right].
    split_and!; [congruence|done|by etrans].
Qed.
End Spec.
