(* ===== verification/RaftRefinement.v ===== *)
(** * The nodes refine abstract Raft

    The steps of a cluster in which no node restarts or takes a snapshot, and
    in which a leader handles a response only in the term of its request, are
    steps of the system of [RaftSpec]: [abs] forgets the journal, the store,
    the timers and the word widths.  What is proved there holds of the nodes:
    no two nodes apply different entries at one index, a leader has what any
    node has committed, and a commit index never covers another entry later.

    The assumption on responses is needed.  [ReplicateToPeer] compares the term
    of a response with [currentTerm_] but not with the term of its request; the
    last section runs the nodes into a state in which two of them apply
    different entries, by the refusal of a request from an earlier leadership
    that was still waiting for its answer. *)
From S2P Require Import Prelude CxxString CxxMap Json KVStore RaftRPC WriteAheadLog RaftLog RaftNode RaftCluster RaftReplication.
From S2P Require Import RaftLogMatching RaftRun RaftSpec.
From Stdlib Require Import ZArith Lia Ascii String.
From stdpp Require Import prelude gmap strings sorting relations.
#[local] Open Scope Z_scope.
#[local] Infix "⊑" := prefix (at level 70).

(** ** The abstraction *)

Definition abs_node (n : RaftNode) : ANode :=
  mkANode (currentTerm_ n) (role_ n) (entries_ (log_ n)) (Z.to_nat (commitIndex_ n))
    (Z.to_nat <$> nextIndex_ n) (Z.to_nat <$> matchIndex_ n).

Definition abs_req (req : AppendEntriesRequest) : AReq :=
  mkAReq (aq_term req) (Z.to_nat (aq_prevLogIndex req)) (aq_prevLogTerm req) (aq_entries req) (Z.to_nat (aq_leaderCommit req)).

(** A response of a node in a later term only makes the leader step down. *)
Definition abs_msg (m : Msg) : option AMsg :=
  match m with
  | MVoteReq from _ req => Some (AVote from (vq_term req) (Z.to_nat (vq_lastLogIndex req)) (vq_lastLogTerm req))
  | MVoteResp _ _ _ _ => None
  | MAppendReq from to req => Some (AAppend from to (abs_req req))
  | MAppendResp from to req resp =>
      if aq_term req <? ar_term resp then None
      else if ar_success resp then Some (AAck from to (abs_req req))
      else Some (ARefuse from to (abs_req req) (Z.to_nat (ar_conflictIndex resp)) (ar_conflictTerm resp))
  end.

Definition abs (c : Cluster) : AState :=
  mkAState (abs_node <$> nodes c) (omap abs_msg (net c)) (granted c).

Lemma abs_moved c c' i n' ms gs : nodes c' = <[i := n']> (nodes c) -> net c' = net c ++ ms -> granted c' = granted c ++ gs ->
  abs c' = set_a i (abs_node n') (omap abs_msg ms) gs (abs c).
Proof. intros En Em Eg. unfold abs, set_a. rewrite En, Em, Eg, fmap_insert, omap_app. done. Qed.

Lemma abs_kept c c' i n n' : nodes c !! i = Some n -> nodes c' = <[i := n']> (nodes c) -> omap abs_msg (net c') = omap abs_msg (net c) ->
  granted c' = granted c -> abs_node n' = abs_node n -> abs c' = abs c.
Proof.
  intros Hn En Em Eg Ea. unfold abs. rewrite En, Em, Eg, fmap_insert, Ea, insert_id; [done|]. by rewrite lookup_fmap, Hn.
Qed.

Lemma abs_lookup c i n : nodes c !! i = Some n -> a_nodes (abs c) !! i = Some (abs_node n).
Proof. intros Hn. simpl. by rewrite lookup_fmap, Hn. Qed.

Lemma abs_in c m m' : m ∈ net c -> abs_msg m = Some m' -> m' ∈ a_net (abs c).
Proof. intros Hm Ha. apply list_elem_of_omap. by exists m. Qed.

Lemma set_a_twice i n1 n2 ms1 ms2 gs1 gs2 a : set_a i n2 ms2 gs2 (set_a i n1 ms1 gs1 a) = set_a i n2 (ms1 ++ ms2) (gs1 ++ gs2) a.
Proof. unfold set_a. simpl. by rewrite insert_insert_eq, !app_assoc. Qed.

Lemma omap_broadcast (f : string -> Msg) m ps : (forall p, abs_msg (f p) = Some m) -> omap abs_msg (f <$> ps) = replicate (length ps) m.
Proof. intros Hf. induction ps as [|p ps IH]; [done|]. cbn [fmap list_fmap omap list_omap length replicate]. by rewrite Hf, IH. Qed.

(** ** Reading a log *)

Section Reads.
Context (l : RaftLog) (W : log_wf l) (S0 : snapshotIndex_ l = 0).

Lemma LastIndex_len : LastIndex l = len (entries_ l) - 1 /\ 0 < len (entries_ l) /\ len (entries_ l) < 2 ^ 64.
Proof using W S0.
  pose proof (wf_bound _ W). pose proof (log_size_pos _ W). rewrite LastIndex_wf, S0 by done. lia.
Qed.

Lemma LastIndex_nat : Z.to_nat (LastIndex l) = last_index (entries_ l).
Proof using W S0. destruct LastIndex_len as [-> ?]. unfold last_index, len. lia. Qed.

Lemma GetTerm_nat k : 0 <= k < 2 ^ 64 -> GetTerm l k = term_at (entries_ l) (Z.to_nat k).
Proof using W S0.
  intros Hk. rewrite GetTerm_lookup by (done || (unfold is_u64; lia)). unfold log_lookup, term_at. rewrite S0, Z.sub_0_r. case_if; [|lia].
  by destruct (entries_ l !! Z.to_nat k).
Qed.

Lemma LastTerm_nat : LastTerm l = last_term (entries_ l).
Proof using W S0.
  pose proof (LastIndex_lookup l W) as Hl. unfold log_lookup in Hl. rewrite S0, Z.sub_0_r, LastIndex_nat in Hl. case_if_in Hl; [|done].
  unfold last_term, term_at. by rewrite Hl.
Qed.
End Reads.

(** The receiver's check and its merge, on the lists. *)
Lemma check_prev_abs l t req : log_wf l -> snapshotIndex_ l = 0 -> is_u64 (aq_prevLogIndex req) ->
  (forall k e, entries_ l !! S k = Some e -> 1 <= le_term e) -> entries_ l !! 0%nat = Some (sentinel 0 0) ->
  (aq_prevLogIndex req = 0 -> aq_prevLogTerm req = 0) ->
  match check_prev l t req with
  | None => prev_agrees (entries_ l) (abs_req req)
  | Some resp => ar_term resp = t /\ ar_success resp = false /\
      refuses (entries_ l) (abs_req req) (Z.to_nat (ar_conflictIndex resp)) (ar_conflictTerm resp)
  end.
Proof.
  intros W S0 [Hp0 Hp64] Hte Hse Hz. destruct (LastIndex_len l W S0) as (HL & Hpos & Hlen).
  pose proof (check_prev_spec l t req W Hp0 ltac:(lia)) as Hc. set (p := aq_prevLogIndex req) in *.
  assert (forall k, 0 <= k <= LastIndex l -> exists e, entries_ l !! Z.to_nat k = Some e /\ GetTerm l k = le_term e) as Hat.
  { intros k Hk. destruct (lookup_lt_is_Some_2 (entries_ l) (Z.to_nat k)) as [e He]; [unfold len in *; lia|]. exists e. split; [done|].
    rewrite (GetTerm_nat l W S0) by lia. unfold term_at. by rewrite He. }
  destruct (check_prev l t req) as [resp|].
  - destruct Hc as (Hno & Ht & Hs & Hh). split_and!; try done. unfold refuses, prev_matches in *. cbn [abs_req q_prev q_prevTerm]. fold p.
    destruct Hh as [(Hlt & -> & ->)|(Hle & -> & Hi & Hk & Hfirst)]; [left; unfold len in *; split_and!; [lia|lia|done]|right].
    fold p in Hle, Hi, Hk, Hno. rewrite S0 in *. assert (0 < p) as Hpp by (destruct (decide (p = 0)); [by destruct Hno; left|lia]).
    assert (0 < GetTerm l p) as Hpos'.
    { destruct (Hat p) as (e & He & ->); [lia|]. destruct (Z.to_nat p) as [|q] eqn:E; [lia|]. pose proof (Hte q e He). lia. }
    split_and!; [intros E; apply Hno; by right|done| |lia|].
    + destruct (decide (ar_conflictIndex resp = 0)) as [E|E]; [|lia]. exfalso. pose proof (Hk 0 ltac:(lia)) as Hk0.
      rewrite (GetTerm_nat l W S0) in Hk0 by lia. unfold term_at in Hk0. change (Z.to_nat 0) with 0%nat in Hk0. rewrite Hse in Hk0. simpl in Hk0. lia.
    + intros k Hkk. destruct (Hat (Z.of_nat k)) as (e & He & Et); [lia|]. rewrite Nat2Z.id in He. exists e. split; [done|]. rewrite <- Et. apply Hk. lia.
  - unfold prev_agrees. cbn [abs_req q_prev q_prevTerm]. fold p. destruct Hc as [E|[Hle Ht]]; fold p in E || fold p in Hle, Ht.
    + rewrite E. exists (sentinel 0 0). split; [done|]. by rewrite Hz.
    + destruct (Hat p) as (e & He & Et); [lia|]. exists e. split; [done|congruence].
Qed.

Lemma AppendAll_merged `{JsonLib} F l t req : log_ok F l -> roomy l -> append_ok F req -> check_prev l t req = None ->
  prev_agrees (entries_ l) (abs_req req) -> 0 <= aq_prevLogIndex req ->
  exists k, entries_ (AppendAll (aq_entries req) l).1 = merged (entries_ l) (Z.to_nat (aq_prevLogIndex req)) (take k (aq_entries req)) /\
    ((AppendAll (aq_entries req) l).2 = Ok tt -> take k (aq_entries req) = aq_entries req).
Proof.
  intros Ho Hr Ha Hc (e & He & _) Hp. destruct Ho as [W S0 C]. destruct (LastIndex_len l W S0) as (HL & Hpos & Hlen). unfold roomy in Hr.
  cbn [abs_req q_prev] in He. set (p := Z.to_nat (aq_prevLogIndex req)) in *. pose proof (lookup_lt_Some _ _ _ He) as Hlt.
  assert (contiguous (Z.of_nat p + 1) (aq_entries req) /\ len (aq_entries req) <= 100) as [Hct H100].
  { destruct Ha as [->|[E|(m & pe & q & _ & Hm & Ep & _ & _ & -> & ?)]]; [by split|unfold len in *; lia|]. split; [|done].
    replace q with p by (unfold p; lia). intros k x. rewrite lookup_drop. intros Hx. rewrite (Hm _ _ Hx). lia. }
  assert (take (S p) (entries_ l) <> []) as Hne by (by destruct (entries_ l)).
  assert (len (take (S p) (entries_ l)) = Z.of_nat p + 1) as Elen by (unfold len; rewrite length_take; lia).
  destruct (AppendAll_log (aq_entries req) l (take (S p) (entries_ l)) (drop (S p) (entries_ l)) W) as (k & (E & _) & Hall).
  - symmetry. apply take_drop.
  - done.
  - by rewrite S0, Elen.
  - rewrite S0, Elen. unfold len in *. rewrite length_drop. lia.
  - exists k. split; [exact E|done].
Qed.

(** ** What the sections leave alone *)

Definition same_repl (n n' : RaftNode) : Prop :=
  entries_ (log_ n') = entries_ (log_ n) /\ commitIndex_ n' = commitIndex_ n /\ nextIndex_ n' = nextIndex_ n /\
  matchIndex_ n' = matchIndex_ n /\ lastApplied_ n' = lastApplied_ n.

#[export] Instance same_repl_preorder : PreOrder same_repl.
Proof. split; [done|]. unfold same_repl. intros a b c ? ?. intuition congruence. Qed.

Lemma same_repl_abs n n' : same_repl n n' -> abs_node n' =
  mkANode (currentTerm_ n') (role_ n') (a_log (abs_node n)) (a_commit (abs_node n)) (a_next (abs_node n)) (a_match (abs_node n)).
Proof. intros (E1 & E2 & E3 & E4 & _). unfold abs_node. rewrite E1, E2, E3, E4. done. Qed.

Section Sections.
Context `{JsonLib}.

Lemma PersistHardState_repl : keeps same_repl PersistHardState.
Proof.
  unfold PersistHardState. keeps_tac. intros n. unfold withLog. match goal with |- context [journal_write ?r] => pose proof (journal_write_log r (log_ n)) as (E & _);
    destruct (journal_write r (log_ n)) as [l x] end. by split_and!.
Qed.

Lemma BecomeFollower_repl now t i : keeps same_repl (BecomeFollower now t i).
Proof. unfold BecomeFollower, ResetElectionTimer. keeps_tac; try done; apply PersistHardState_repl. Qed.

Lemma StartElection_begin_repl now : keeps same_repl (StartElection_begin now).
Proof. unfold StartElection_begin. keeps_tac; try done; apply PersistHardState_repl. Qed.

Lemma StartElection_turn_repl now t o : keeps same_repl (StartElection_turn now t o).
Proof.
  intros n. unfold StartElection_turn. destruct o as [resp|]; [|done].
  assert (keeps same_repl (StartElection_response now t resp)) as Hr.
  { unfold StartElection_response. keeps_tac. apply BecomeFollower_repl. }
  specialize (Hr n). by destruct (StartElection_response now t resp n).
Qed.

Lemma HandleRequestVote_repl now req : keeps same_repl (HandleRequestVote now req).
Proof. unfold HandleRequestVote, ResetElectionTimer. keeps_tac; try done; [apply BecomeFollower_repl|apply PersistHardState_repl]. Qed.

Lemma persisted_repl n : same_repl n (persisted n).
Proof. unfold persisted. by destruct (wal_ (log_ n)). Qed.

Lemma as_follower_repl now t i n : same_repl n (as_follower now t i n).
Proof.
  unfold as_follower. set (n1 := if String.eqb i "" then _ else _). etrans; [|exact (persisted_repl n1)]. unfold n1. by destruct (String.eqb i "").
Qed.

Lemma heard_repl now req n : same_repl n (heard now req n).
Proof. unfold heard. case_if; [|done]. exact (as_follower_repl now (aq_term req) (aq_leaderId req) n). Qed.
End Sections.

(** ** The refinement *)

Section Refinement.
Context {J : JsonLib} {L : JsonLaws J}.
Variable members : list string.
Variable cfg : string -> RaftConfig.
Hypothesis config_ok : cluster_config members cfg.

#[local] Abbreviation inv := (cluster_inv members cfg).
#[local] Abbreviation astep := (astep members).
#[local] Abbreviation areachable := (areachable members).

(** What the abstraction does not show: the indices are not negative, and only
    peers have indices. *)
Record sim_node (i : string) (n : RaftNode) : Prop := {
  sn_commit : 0 <= commitIndex_ n;
  sn_next : map_Forall (fun p x => (p ∈ members /\ p <> i) /\ 0 <= x) (nextIndex_ n);
  sn_match : map_Forall (fun p x => (p ∈ members /\ p <> i) /\ 0 <= x) (matchIndex_ n);
  sn_applied : 0 <= lastApplied_ n;
}.

Definition sim_msg (m : Msg) : Prop :=
  match m with
  | MVoteReq _ _ req => 0 <= vq_lastLogIndex req
  | MVoteResp _ _ _ _ => True
  | MAppendReq from to req => (to ∈ members /\ to <> from) /\ is_u64 (aq_prevLogIndex req) /\ 0 <= aq_leaderCommit req
  | MAppendResp from to req resp => (from ∈ members /\ from <> to) /\ is_u64 (aq_prevLogIndex req) /\ 0 <= ar_conflictTerm resp
  end.

Record sim (c : Cluster) : Prop := {
  sm_node i n : nodes c !! i = Some n -> sim_node i n;
  sm_msg m : m ∈ net c -> sim_msg m;
}.

Lemma sim_moved c c' i n' ms : sim c -> nodes c' = <[i := n']> (nodes c) -> net c' = net c ++ ms ->
  sim_node i n' -> Forall sim_msg ms -> sim c'.
Proof.
  intros [Hn Hm] En Em Hn' Hms. split.
  - intros k x. rewrite En, lookup_insert. case_decide; [|by apply Hn]. subst k. by intros [= <-].
  - intros m. rewrite Em, elem_of_app. intros [?|?]; [by apply Hm|]. rewrite Forall_forall in Hms. auto.
Qed.

Lemma sim_node_repl i n n' : same_repl n n' -> sim_node i n -> sim_node i n'.
Proof. intros (_ & E2 & E3 & E4 & E5) [? ? ? ?]. split; by rewrite ?E2, ?E3, ?E4, ?E5. Qed.

Lemma peers_others c i n p : inv c -> nodes c !! i = Some n -> p ∈ peer_ids n <-> p ∈ members /\ p <> i.
Proof.
  intros I Hn. destruct (inv_peers members cfg config_ok c i n I Hn) as [Hp _]. pose proof (proj1 config_ok) as Hnd.
  rewrite <- Hp in Hnd. apply NoDup_cons in Hnd as [Hi _]. rewrite <- Hp, elem_of_cons. split; [|by intros [[?|?] ?]].
  intros Hin. split; [by right|]. by intros ->.
Qed.

(** The entry that a node is applying is a committed one of its log. *)
Definition applies (c : Cluster) : Prop := forall i a, applying c !! i = Some a ->
  exists n, nodes c !! i = Some n /\ 0 <= ap_next a <= commitIndex_ n /\ entries_ (log_ n) !! Z.to_nat (ap_next a) = Some (ap_entry a).

(** The state of a run in which the next step is taken. *)
Record poised (F : gmap (nat * Z) (list LogEntry)) (c : Cluster) : Prop := {
  rd_inv : inv c;
  rd_lm : lm_inv members F c;
  rd_small : small c;
  rd_sim : sim c;
  rd_reach : areachable (abs c);
  rd_apply : applies c;
}.

Section Step.
Context (F : gmap (nat * Z) (list LogEntry)) (c : Cluster).
Hypothesis R : poised F c.

#[local] Abbreviation refined c' := (sim c' /\ rtc astep (abs c) (abs c')).

Lemma log_facts i n : nodes c !! i = Some n ->
  log_wf (log_ n) /\ snapshotIndex_ (log_ n) = 0 /\ len (entries_ (log_ n)) + 200 < 2 ^ 64.
Proof.
  intros Hn. destruct R as [I Il Hs _ _ _]. destruct (lm_nodes _ _ _ Il i n Hn) as [[W S _] _].
  by pose proof (small_roomy members F c i n Il Hs Hn).
Qed.

Lemma ainv_here : exists H, ainv members H (abs c).
Proof. destruct R. by apply areachable_inv. Qed.

(** A node that at most steps down. *)
Lemma refine_effect i n n' c' : nodes c !! i = Some n -> vote_effect n n' -> same_repl n n' ->
  nodes c' = <[i := n']> (nodes c) -> omap abs_msg (net c') = omap abs_msg (net c) -> granted c' = granted c ->
  rtc astep (abs c) (abs c').
Proof.
  intros Hn He Hr En Em Eg. pose proof (same_repl_abs n n' Hr) as Ea.
  destruct He as [(_ & Et & _ & Er & _)|t _ Hlt _ Et _ Er _].
  - rewrite (abs_kept c c' i n n'); try done. rewrite Ea, Et, Er. done.
  - apply rtc_once. assert (abs c' = set_a i (abs_node n') [] [] (abs c)) as ->.
    { unfold abs, set_a. simpl. by rewrite En, Em, Eg, fmap_insert, !app_nil_r. }
    rewrite Ea, Et, Er. apply (as_follow members (abs c) i (abs_node n)); [by apply abs_lookup|done].
Qed.

Lemma refine_once i n' ms gs c' : nodes c' = <[i := n']> (nodes c) -> net c' = net c ++ ms -> granted c' = granted c ++ gs ->
  astep (abs c) (set_a i (abs_node n') (omap abs_msg ms) gs (abs c)) -> rtc astep (abs c) (abs c').
Proof. intros En Em Eg Hs. apply rtc_once. by rewrite (abs_moved c c' i n' ms gs). Qed.

Lemma refine_election i n n' req now : nodes c !! i = Some n -> role_ n <> Leader -> currentTerm_ n + 1 < 2 ^ 64 ->
  StartElection_begin now n = (n', Ok req) ->
  refined (record_vote i (vq_term req) i (send ((fun p => MVoteReq i p req) <$> peer_ids n)
      (set_election i (Some (mkElection (vq_term req) (peer_ids n) 1 [i])) (set_node i n' c)))).
Proof.
  intros Hn Hr Hb Hrun. pose proof (StartElection_begin_repl now n) as Hs. rewrite Hrun in Hs. cbn [fst] in Hs.
  destruct (inv_node _ _ c (rd_inv _ _ R) i n Hn) as (_ & _ & Hok & (j & Hj & _)). destruct (log_facts i n Hn) as (W & S0 & _).
  rewrite (StartElection_begin_run now n Hok) in Hrun. injection Hrun as <- <-. cbn [vq_term].
  destruct (as_candidate_fields now n j Hj) as (_ & Et & _ & Er & _). destruct (ok_term n Hok). rewrite u64_small in * by (unfold is_u64; lia).
  destruct (LastIndex_len _ W S0) as (HL & ? & _). split.
  - eapply (sim_moved c _ i _ _ (rd_sim _ _ R)); [done|done|by apply (sim_node_repl i n); [|apply (sm_node c (rd_sim _ _ R))]|].
    apply Forall_fmap, Forall_forall. intros p _. simpl. lia.
  - eapply (refine_once i _ _ [(i, currentTerm_ n + 1, i)]); [done|done|done|].
    rewrite (same_repl_abs _ _ Hs), Et, Er. cbn [a_log a_commit a_next a_match abs_node].
    pose proof (as_timeout members (abs c) i (abs_node n) (length (peer_ids n)) (abs_lookup c i n Hn) Hr) as Hstep.
    cbn [abs_node a_term a_log a_commit a_next a_match] in Hstep. rewrite <- (LastIndex_nat _ W S0), <- (LastTerm_nat _ W S0) in Hstep.
    by rewrite (omap_broadcast _ (AVote i (currentTerm_ n + 1) (Z.to_nat (LastIndex (log_ n))) (LastTerm (log_ n)))).
Qed.

Lemma IsLogUpToDate_abs i n li lt : nodes c !! i = Some n -> 0 <= li -> IsLogUpToDate n li lt = true -> up_to_date (entries_ (log_ n)) (Z.to_nat li) lt.
Proof.
  intros Hn Hli. destruct (log_facts i n Hn) as (W & S0 & _). unfold IsLogUpToDate, up_to_date. cbv zeta.
  rewrite (LastTerm_nat _ W S0), <- (LastIndex_nat _ W S0). destruct (LastIndex_len _ W S0) as (HL & ? & _).
  destruct (lt =? last_term (entries_ (log_ n))) eqn:E; bool_prop; cbn [negb]; intros Hx; bool_prop; [right|left; done]. split; [done|lia].
Qed.

Lemma refine_vote i n n' from req resp now : nodes c !! i = Some n -> MVoteReq from i req ∈ net c ->
  HandleRequestVote now req n = (n', Ok resp) ->
  let c' := send [MVoteResp i from req resp] (set_node i n' c) in
  refined (if vr_voteGranted resp then record_vote i (vq_term req) (vq_candidateId req) c' else c').
Proof.
  intros Hn Hm Hrun c'. pose proof (rd_inv _ _ R) as I. destruct (inv_node _ _ c I i n Hn) as (Hi & _ & Hok & Hd).
  destruct (inv_msg _ _ c I _ Hm) as (Hfrom & Hcand & Hu). destruct (proj2 config_ok from Hfrom) as (_ & Hutf & _).
  pose proof (HandleRequestVote_repl now req n) as Hs. rewrite Hrun in Hs. cbn [fst] in Hs.
  assert (sim c') as Hsim.
  { eapply (sim_moved c _ i n' _ (rd_sim _ _ R)); [done|done|by apply (sim_node_repl i n); [|apply (sm_node c (rd_sim _ _ R))]|].
    by apply Forall_singleton. }
  split; [destruct (vr_voteGranted resp); [split; apply Hsim|done]|].
  assert (omap abs_msg (net c') = omap abs_msg (net c)) as Enet by (simpl; by rewrite omap_app, app_nil_r).
  rewrite HandleRequestVote_run in Hrun; [|done|apply Hok|by subst from].
  destruct (vq_term req <? currentTerm_ n) eqn:E.
  { injection Hrun as <- <-. cbn [vr_voteGranted]. by apply (refine_effect i n n); [|apply ve_same|..]. }
  bool_prop. cbv zeta in Hrun. set (n1 := vote_pre now req n) in *.
  assert (vote_effect n n1 /\ currentTerm_ n1 = vq_term req /\ same_repl n n1) as (He & Ht & Hs1).
  { unfold n1, vote_pre. destruct (currentTerm_ n <? vq_term req) eqn:E1; bool_prop.
    - split_and!; [by apply as_follower_effect|apply as_follower_fields|exact (as_follower_repl now (vq_term req) "" n)].
    - split_and!; [by apply ve_same|lia|done]. }
  destruct (vote_grants req n1) eqn:Eg; injection Hrun as <- <-; cbn [vr_voteGranted].
  - eapply rtc_r; [by apply (refine_effect i n n1 (set_node i n1 c))|].
    assert (a_nodes (abs (set_node i n1 c)) !! i = Some (abs_node n1)) as Hn1 by (apply abs_lookup, lookup_insert_eq).
    assert (abs_node (vote_cast now (vq_candidateId req) n1) = abs_node n1) as Ec.
    { unfold vote_cast. set (n2 := set_heartbeat now _). rewrite (same_repl_abs _ _ (persisted_repl n2)).
      destruct (persisted_fields n2) as (_ & -> & _ & ->). done. }
    unfold vote_grants in Eg. apply andb_true_iff in Eg as [Ev Eu]. pose proof (sm_msg c (rd_sim _ _ R) _ Hm) as Hli.
    pose proof (as_vote members (abs (set_node i n1 c)) i (abs_node n1) from (Z.to_nat (vq_lastLogIndex req)) (vq_lastLogTerm req) Hn1) as Hstep.
    cbn [abs_node a_term] in Hstep. rewrite Ht in Hstep. rewrite Hcand.
    match goal with |- context [abs ?x] => match x with record_vote _ _ _ _ =>
      rewrite (abs_moved (set_node i n1 c) x i (vote_cast now from n1) [MVoteResp i from req (mkRequestVoteResponse (currentTerm_ n) true)] [(i, vq_term req, from)]) end end;
      [|unfold c'; cbn [nodes set_node send record_vote]; by rewrite insert_insert_eq, Hcand|done|done]. rewrite Hcand in Ec. rewrite Ec. apply Hstep.
    + by apply (abs_in c (MVoteReq from i req)).
    + intros d Hg. destruct (inv_vote _ _ c I i (vq_term req) d Hg) as (Hne & x & Hx & Hle & Hvf). rewrite Hn in Hx. injection Hx as <-.
      assert (n1 = n) as E1 by (unfold n1, vote_pre; case_if; [lia|done]). rewrite E1 in Ev. rewrite Hvf in Ev by lia.
      rewrite <- Hcand. apply orb_true_iff in Ev as [Ev|Ev]; apply String.eqb_eq in Ev; [done|]. done.
    + destruct Hs1 as (E1 & _). cbn [a_log abs_node]. rewrite E1. apply (IsLogUpToDate_abs i n); [done|done|].
      unfold IsLogUpToDate, LastTerm, LastIndex, back in *. by rewrite E1 in Eu.
  - by apply (refine_effect i n n1).
Qed.

Lemma sim_repl i n n' c' ms : nodes c !! i = Some n -> same_repl n n' -> nodes c' = <[i := n']> (nodes c) -> net c' = net c ++ ms ->
  Forall sim_msg ms -> sim c'.
Proof.
  intros Hn Hs En Em Hms. apply (sim_moved c c' i n' ms (rd_sim _ _ R)); try done.
  apply (sim_node_repl i n); [done|]. by apply (sm_node c (rd_sim _ _ R)).
Qed.

Lemma refine_vote_response i n n' e p rest o stop v now : nodes c !! i = Some n -> elections c !! i = Some e ->
  el_pending e = p :: rest ->
  (forall resp, o = Some resp -> exists req, vq_term req = el_term e /\ MVoteResp p i req resp ∈ net c) ->
  StartElection_turn now (el_term e) o n = (n', Ok (stop, v)) ->
  refined (set_election i (if stop : bool then None else
        Some (mkElection (el_term e) rest (el_votes e + v) (if v =? 1 then p :: el_voters e else el_voters e))) (set_node i n' c)).
Proof.
  intros Hn He Hp Ho Hrun. pose proof (rd_inv _ _ R) as I. destruct (inv_node _ _ c I i n Hn) as (_ & _ & _ & Hd).
  pose proof (StartElection_turn_repl now (el_term e) o n) as Hs. rewrite Hrun in Hs. cbn [fst] in Hs.
  destruct (StartElection_turn_effect now (el_term e) o n) as (n1 & s1 & v1 & E1 & Heff & _); [|done|].
  { intros resp E. destruct (Ho resp E) as (req & _ & Hm). apply (inv_msg _ _ c I _ Hm). }
  rewrite Hrun in E1. injection E1 as <- _ _. split; [|by apply (refine_effect i n n')].
  apply (sim_repl i n n' _ []); try done. symmetry. apply app_nil_r.
Qed.

(** *** Leaders *)

Lemma init_peers_next li ps : forall n p, nextIndex_ (init_peers li ps n) !! p =
  (if bool_decide (p ∈ ps) then Some (u64 (li + 1)) else nextIndex_ n !! p) /\
  matchIndex_ (init_peers li ps n) !! p = (if bool_decide (p ∈ ps) then Some 0 else matchIndex_ n !! p) /\
  commitIndex_ (init_peers li ps n) = commitIndex_ n /\ lastApplied_ (init_peers li ps n) = lastApplied_ n.
Proof.
  induction ps as [|q ps IH]; intros n p; [done|]. cbn [init_peers].
  destruct (IH (set_match q 0 (set_next q (u64 (li + 1)) n)) p) as (-> & -> & -> & ->). cbn [nextIndex_ matchIndex_ set_match set_next commitIndex_].
  split_and!; [| |done|done]; rewrite lookup_insert; repeat (case_decide || case_bool_decide); subst; try done; exfalso; rewrite ?elem_of_cons in *; intuition congruence.
Qed.

(** A new leader: as abstract Raft has it, with its first entry or without. *)
Lemma BecomeLeader_abs i n : nodes c !! i = Some n -> exists nx mt,
  map_Forall (fun _ x => x = length (entries_ (log_ n))) nx /\ map_Forall (fun _ m => m = 0%nat) mt /\ sim_node i (BecomeLeader n).1 /\
  let a := mkANode (currentTerm_ n) Leader (entries_ (log_ n)) (Z.to_nat (commitIndex_ n)) nx mt in
  abs_node (BecomeLeader n).1 = a \/
  exists e, le_term e = currentTerm_ n /\ abs_node (BecomeLeader n).1 = mkANode (a_term a) Leader (a_log a ++ [e]) (a_commit a) nx mt.
Proof.
  intros Hn. destruct (log_facts i n Hn) as (W & S0 & Hroom). destruct (LastIndex_len _ W S0) as (HL & Hpos & _).
  pose proof (sm_node c (rd_sim _ _ R) i n Hn) as [Hc Hnx Hmt Hla]. pose proof (rd_inv _ _ R) as I.
  unfold BecomeLeader. rewrite bind_modify, bind_getS, !bind_modify. cbn [log_ set_role currentTerm_].
  set (n1 := init_peers _ _ _).
  pose proof (init_peers_next (LastIndex (log_ n)) (peer_ids (set_role Leader n)) (set_leaderId (nodeId (set_role Leader n)) (set_role Leader n))) as Hp.
  destruct (init_peers_effect (LastIndex (log_ n)) (peer_ids (set_role Leader n)) ltac:(lia) (set_leaderId (nodeId (set_role Leader n)) (set_role Leader n)))
    as (El & Et & Er & _). fold n1 in Hp, El, Et, Er. clearbody n1. cbn in El, Et, Er.
  assert (commitIndex_ n1 = commitIndex_ n) as Ec by (destruct (Hp i) as (_ & _ & -> & _); done).
  assert (lastApplied_ n1 = lastApplied_ n) as Ela by (destruct (Hp i) as (_ & _ & _ & ->); done).
  assert (forall p x, nextIndex_ n1 !! p = Some x -> (p ∈ members /\ p <> i) /\ x = len (entries_ (log_ n))) as Hx.
  { intros p x. destruct (Hp p) as (-> & _). case_bool_decide as Hin; [|intros Hy; destruct Hin; apply (peers_others c i n p I Hn); by apply (Hnx p x)].
    intros [= <-]. rewrite u64_small by (unfold is_u64; lia). split; [by apply (peers_others c i n p I Hn)|lia]. }
  assert (forall p x, matchIndex_ n1 !! p = Some x -> (p ∈ members /\ p <> i) /\ x = 0) as Hm.
  { intros p x. destruct (Hp p) as (_ & -> & _). case_bool_decide as Hin; [|intros Hy; destruct Hin; apply (peers_others c i n p I Hn); by apply (Hmt p x)].
    intros [= <-]. split; [by apply (peers_others c i n p I Hn)|done]. }
  assert (forall l, sim_node i (set_log l n1)) as Hsn.
  { intros l. split; cbn; [by rewrite Ec|intros p x Hy; destruct (Hx p x Hy) as [? ->]; split; [done|lia]|
      intros p x Hy; destruct (Hm p x Hy) as [? ->]; done|by rewrite Ela]. }
  exists (Z.to_nat <$> nextIndex_ n1), (Z.to_nat <$> matchIndex_ n1). split_and!.
  - intros p x. rewrite lookup_fmap. intros (y & Hy & ->)%fmap_Some. destruct (Hx p y Hy) as [_ ->]. unfold len. lia.
  - intros p x. rewrite lookup_fmap. intros (y & Hy & ->)%fmap_Some. by destruct (Hm p y Hy) as [_ ->].
  - destruct (LogEntry_NoOp _ _); [|specialize (Hsn (log_ n1)); by destruct n1]. rewrite bind_lift_Ok. unfold withLog. destruct (Append _ _). apply Hsn.
  - destruct (LogEntry_NoOp (currentTerm_ n) (u64 (LastIndex (log_ n) + 1))) as [e|ex] eqn:Ee.
    + rewrite bind_lift_Ok. unfold withLog. pose proof (Append_log e (log_ n1)) as (Ha & _). destruct (Append e (log_ n1)) as [l r].
      cbn [fst] in Ha. rewrite El in Ha. right. exists e. unfold LogEntry_NoOp in Ee. destruct (dump _); [|done]. injection Ee as <-. split; [done|].
      unfold abs_node. cbn. rewrite Et, Er, Ec. f_equal. exact Ha.
    + left. unfold mbind, M_bind, lift, abs_node. cbn [fst]. by rewrite El, Et, Er, Ec.
Qed.

Lemma refine_election_end i n e : nodes c !! i = Some n -> elections c !! i = Some e -> el_pending e = [] ->
  refined (set_election i None (set_node i (StartElection_finish (el_term e) (el_votes e) n).1 c)).
Proof.
  intros Hn He Hp. pose proof (rd_inv _ _ R) as I. unfold StartElection_finish. rewrite bind_getS.
  assert (refined (set_election i None (set_node i n c))) as Hid.
  { split; [apply (sim_repl i n n _ []); try done; symmetry; apply app_nil_r|]. by apply (refine_effect i n n); [|apply ve_same|..]. }
  destruct (bool_decide_reflect (role_ n <> Candidate)) as [|Hr0]; [done|]. destruct (currentTerm_ n =? el_term e) eqn:Et; [|done].
  cbn [orb negb]. destruct (QuorumSize n <=? el_votes e) eqn:Eq; [|done]. bool_prop.
  assert (role_ n = Candidate) as Hr by (by destruct (decide (role_ n = Candidate))).
  destruct (BecomeLeader_abs i n Hn) as (nx & mt & Hnx & Hmt & Hsn & Ha).
  split; [eapply (sim_moved c _ i _ [] (rd_sim _ _ R)); [done|symmetry; apply app_nil_r|done|constructor]|].
  destruct (inv_election _ _ c I i e He) as [Hcnt Hnd Hmem Hgr]. rewrite Hp, app_nil_r in *.
  pose proof (quorum_majority members cfg config_ok c i n I Hn) as Hmaj.
  assert (astep (abs c) (set_a i (mkANode (currentTerm_ n) Leader (entries_ (log_ n)) (Z.to_nat (commitIndex_ n)) nx mt) [] [] (abs c))) as Hlead.
  { apply (as_lead members (abs c) i (abs_node n) (el_voters e)); try done; [by apply abs_lookup| |].
    - split; [done|done|]. unfold len in *. lia.
    - intros v Hv. cbn [abs_node a_term abs a_granted]. rewrite Et. by apply Hgr. }
  match goal with |- rtc _ _ (abs ?x) => rewrite (abs_moved c x i (BecomeLeader n).1 [] []) by (done || (symmetry; apply app_nil_r)) end.
  cbn [omap list_omap].
  destruct Ha as [->|(x & Ex & ->)]; [by apply rtc_once|]. eapply rtc_l; [exact Hlead|]. apply rtc_once.
  match goal with |- astep (set_a i ?m [] [] ?a) _ => pose proof (as_propose members (set_a i m [] [] a) i m x (lookup_insert_eq _ _ _) eq_refl Ex) as Hs end.
  by rewrite set_a_twice in Hs.
Qed.

Lemma refine_propose i n k v op ttl : nodes c !! i = Some n -> refined (set_node i (Propose_begin k v op ttl n).1 c).
Proof.
  intros Hn. pose proof (keeps_Propose_begin k v op ttl n) as (_ & Et & _ & Er & _).
  assert (commitIndex_ (Propose_begin k v op ttl n).1 = commitIndex_ n /\ matchIndex_ (Propose_begin k v op ttl n).1 = matchIndex_ n /\
    lastApplied_ (Propose_begin k v op ttl n).1 = lastApplied_ n) as (Ec & Em & Ela).
  { unfold Propose_begin. rewrite bind_getS. case_if; [done|]. cbv zeta. destruct (LogEntry_Serialize _); [|done]. rewrite bind_lift_Ok.
    unfold mbind, M_bind, withLog. by destruct (Append _ (log_ n)) as [? [[]|]]. }
  destruct (Propose_begin_log k v op ttl n) as [E|(Hl & (e & Ee & _ & Hs & _) & Hx)].
  { rewrite E. split; [apply (sim_repl i n n _ []); try done; symmetry; apply app_nil_r|]. by apply (refine_effect i n n); [|apply ve_same|..]. }
  set (n' := (Propose_begin k v op ttl n).1) in *. pose proof (sm_node c (rd_sim _ _ R) i n Hn) as [? ? ? ?]. split.
  - eapply (sim_moved c _ i n' [] (rd_sim _ _ R)); [done|symmetry; apply app_nil_r| |constructor]. split; by rewrite ?Ec, ?Em, ?Hx, ?Ela.
  - apply (refine_once i n' [] []); [done|symmetry; apply app_nil_r|symmetry; apply app_nil_r|].
    assert (abs_node n' = mkANode (currentTerm_ n) Leader (entries_ (log_ n) ++ [e]) (Z.to_nat (commitIndex_ n)) (Z.to_nat <$> nextIndex_ n) (Z.to_nat <$> matchIndex_ n)) as ->.
    { unfold abs_node. rewrite Et, Er, Hl, Ec, Em, Hx. f_equal. exact Hs. }
    by apply (as_propose members (abs c) i (abs_node n) e); [apply abs_lookup|..].
Qed.

(** *** Replication *)

(** The request a leader prepares. *)
Lemma prepare_abs i n p : nodes c !! i = Some n -> role_ n = Leader ->
  let x := default (length (entries_ (log_ n))) (a_next (abs_node n) !! p) in
  (1 <= x <= length (entries_ (log_ n)))%nat /\
  exists req, ReplicateToPeer_prepare p n = Some req /\ is_u64 (aq_prevLogIndex req) /\ aq_leaderCommit req = commitIndex_ n /\ aq_term req = currentTerm_ n /\
    abs_req req = mkAReq (currentTerm_ n) (x - 1) (term_at (entries_ (log_ n)) (x - 1)) (take 100 (drop x (entries_ (log_ n)))) (Z.to_nat (commitIndex_ n)).
Proof.
  intros Hn Hr x. destruct (log_facts i n Hn) as (W & S0 & Hroom). destruct (LastIndex_len _ W S0) as (HL & Hpos & _).
  pose proof (sm_node c (rd_sim _ _ R) i n Hn) as [Hc Hnx _ _]. destruct ainv_here as [H I].
  unfold ReplicateToPeer_prepare. rewrite bool_decide_false by (intros Hx; by apply Hx). cbv zeta.
  set (next := match nextIndex_ n !! p with Some i => i | None => _ end).
  assert (next = Z.of_nat x /\ (1 <= x <= length (entries_ (log_ n)))%nat) as [En Hb].
  { unfold next, x. cbn [abs_node a_next]. rewrite lookup_fmap. destruct (nextIndex_ n !! p) as [y|] eqn:E; simpl.
    - destruct (an_leads _ _ _ _ _ (ai_node _ _ _ I i _ (abs_lookup c i n Hn)) Hr) as (_ & Hx & _).
      destruct (Hx p (Z.to_nat y)) as [? _]; [cbn [abs_node a_next]; by rewrite lookup_fmap, E|].
      destruct (Hnx p y E) as [_ ?]. split; [lia|done].
    - rewrite u64_small by (unfold is_u64; lia). unfold len in *. split; [lia|]. lia. }
  clearbody next. subst next. split; [done|]. eexists. split; [done|]. unfold len in *. unfold abs_req. cbn [aq_term aq_prevLogIndex aq_prevLogTerm aq_entries aq_leaderCommit].
  rewrite u64_small by (unfold is_u64; lia). split; [unfold is_u64; lia|]. split; [done|]. split; [done|].
  rewrite (GetTerm_nat _ W S0) by lia. rewrite (collect_entries_spec (log_ n) (Z.of_nat x) W) by lia. rewrite S0, Z.sub_0_r, Nat2Z.id.
  by replace (Z.to_nat (Z.of_nat x - 1)) with (x - 1)%nat by lia.
Qed.

Lemma refine_replicate i n p req : nodes c !! i = Some n -> p ∈ peer_ids n -> ReplicateToPeer_prepare p n = Some req ->
  refined (send [MAppendReq i p req] c).
Proof.
  intros Hn Hp Hreq. apply (peers_others c i n p (rd_inv _ _ R) Hn) in Hp as [Hpm Hpi]. pose proof (sm_node c (rd_sim _ _ R) i n Hn) as [Hc _ _ _].
  destruct (ReplicateToPeer_prepare_term p n req Hreq) as [_ Hr]. destruct (prepare_abs i n p Hn Hr) as (Hb & req' & E & Hu & Ec & _ & Ea).
  rewrite Hreq in E. injection E as <-. assert (nodes (send [MAppendReq i p req] c) = <[i := n]> (nodes c)) as Enode by (simpl; by rewrite insert_id).
  split; [apply (sim_repl i n n _ _ Hn ltac:(done) Enode eq_refl); apply Forall_singleton; simpl; split_and!; try done; by rewrite Ec|].
  eapply (refine_once i n _ []); [exact Enode|done|simpl; by rewrite app_nil_r|].
  pose proof (as_send members (abs c) i (abs_node n) p (abs_lookup c i n Hn) Hr Hpi) as Hs. cbv zeta in Hs.
  cbn [omap list_omap abs_msg]. rewrite Ea. exact Hs.
Qed.

Lemma heard_effect now req n : is_u64 (aq_term req) -> hs_durable n -> vote_effect n (heard now req n).
Proof.
  intros Hu Hd. unfold heard. destruct (currentTerm_ n <? aq_term req) eqn:E; bool_prop; [|by apply ve_same].
  eapply vote_effect_same; [by apply (as_follower_effect now (aq_term req) (aq_leaderId req) n)|done].
Qed.

(** The state in which the receiver's check runs. *)
Lemma append_heard i n from req now : nodes c !! i = Some n -> MAppendReq from i req ∈ net c -> currentTerm_ n <= aq_term req ->
  let n1 := heard now req n in let c1 := set_node i n1 c in
  rtc astep (abs c) (abs c1) /\ a_nodes (abs c1) !! i = Some (abs_node n1) /\ AAppend from i (abs_req req) ∈ a_net (abs c1) /\
  a_term (abs_node n1) = aq_term req /\
  log_ok F (log_ n1) /\ roomy (log_ n1) /\ append_ok F req /\ is_u64 (aq_prevLogIndex req) /\
  (forall k e, entries_ (log_ n1) !! S k = Some e -> 1 <= le_term e) /\ entries_ (log_ n1) !! 0%nat = Some (sentinel 0 0) /\
  (aq_prevLogIndex req = 0 -> aq_prevLogTerm req = 0).
Proof.
  intros Hn Hm Ht n1 c1. pose proof (rd_inv _ _ R) as I. destruct (inv_node _ _ c I i n Hn) as (_ & _ & _ & Hd).
  pose proof (inv_msg _ _ c I _ Hm) as Hu. simpl in Hu. destruct (heard_log now req n) as (E1 & E2 & E3 & _). fold n1 in E1, E2, E3.
  destruct (lm_nodes _ _ _ (rd_lm _ _ R) i n Hn) as [Ho _]. destruct (lm_msgs _ _ _ (rd_lm _ _ R) _ Hm) as (_ & _ & Ha).
  pose proof (small_roomy members F c i n (rd_lm _ _ R) (rd_small _ _ R) Hn) as Hroom.
  assert (rtc astep (abs c) (abs c1)) as Hs by (by apply (refine_effect i n n1); [|apply heard_effect|apply heard_repl|..]).
  assert (a_nodes (abs c1) !! i = Some (abs_node n1)) as Hn1 by (apply abs_lookup, lookup_insert_eq).
  assert (AAppend from i (abs_req req) ∈ a_net (abs c1)) as Hm1 by (by apply (abs_in c (MAppendReq from i req))).
  destruct (areachable_inv members (abs c1)) as [H I1]. { destruct (rd_reach _ _ R) as (a0 & ? & ?). exists a0. split; [done|]. by etrans. }
  pose proof (an_traced _ _ _ _ _ (ai_node _ _ _ I1 i _ Hn1)) as [Hz Htr]. cbn [abs_node a_log] in Hz, Htr.
  destruct (ai_msg _ _ _ I1 _ Hm1) as (_ & M0 & N & HM & _ & (pe & Hpe & Ept) & _). cbn [abs_req q_prev q_prevTerm q_term] in *.
  pose proof (sm_msg c (rd_sim _ _ R) _ Hm) as (_ & Hp0 & _).
  split_and!; try done.
  - apply heard_fields. done.
  - by apply (log_ok_same F (log_ n)).
  - unfold roomy. by rewrite E1.
  - intros k e He. destruct (Htr k e He) as (d & M & Hd' & _). apply (al_term _ _ _ _ _ _ (ai_lead _ _ _ I1 _ _ _ Hd')).
  - intros E. rewrite E in Hpe. change (Z.to_nat 0) with 0%nat in Hpe. rewrite <- Ept.
    destruct (al_traced _ _ _ _ _ _ (ai_lead _ _ _ I1 _ _ _ HM)) as [Hz' _]. rewrite lookup_app_l in Hz' by (by apply lookup_lt_Some in Hpe).
    rewrite Hpe in Hz'. by injection Hz' as ->.
Qed.

(** The answer to a request that passed the check. *)
Lemma refine_accepted i n from req now l' r : nodes c !! i = Some n -> MAppendReq from i req ∈ net c -> currentTerm_ n <= aq_term req ->
  let n1 := heard now req n in check_prev (log_ n1) (currentTerm_ n) req = None -> AppendAll (aq_entries req) (log_ n1) = (l', r) ->
  let n' := match r with
            | Ok _ => if commitIndex_ n1 <? aq_leaderCommit req then set_commit (Z.min (aq_leaderCommit req) (LastIndex l')) (set_log l' n1) else set_log l' n1
            | Throw _ => set_log l' n1
            end in
  refined (send (match r with Ok _ => [MAppendResp i from req (mkAppendEntriesResponse (currentTerm_ n) true 0 0)] | Throw _ => [] end) (set_node i n' c)).
Proof.
  intros Hn Hm Ht n1 Hc Hall n'. destruct (append_heard i n from req now Hn Hm Ht) as (Hs & Hn1 & Hm1 & Et & Ho & Hroom & Ha & Hp & Hte & Hz & Hz0). fold n1 in Hs, Hn1, Hm1, Et, Ho, Hroom, Hte, Hz.
  pose proof (check_prev_abs (log_ n1) (currentTerm_ n) req (lo_wf _ _ Ho) (lo_snap _ _ Ho) Hp Hte Hz Hz0) as Hag. rewrite Hc in Hag.
  destruct (AppendAll_merged F (log_ n1) _ req Ho Hroom Ha Hc Hag (proj1 Hp)) as (k & Ek & Hk).
  pose proof (AppendAll_ok F (log_ n1) _ req Ho Hroom Ha Hc) as Ho'. rewrite Hall in Ek, Hk, Ho'. cbn [fst snd] in Ek, Hk, Ho'.
  pose proof (sim_node_repl i n n1 (heard_repl now req n) (sm_node c (rd_sim _ _ R) i n Hn)) as Hsn.
  destruct (sm_msg c (rd_sim _ _ R) _ Hm) as ([Hmem Hne] & _ & Hlc). destruct (LastIndex_len l' (lo_wf _ _ Ho') (lo_snap _ _ Ho')) as (HL & Hpos & _).
  assert (sim_node i n') as Hsn'.
  { unfold n'. destruct r as [[]|]; [case_if|]; destruct Hsn as [? ? ? ?]; split; try done. cbn. lia. }
  split; [eapply (sim_moved c _ i n' _ (rd_sim _ _ R)); [done|done|done|destruct r; [apply Forall_singleton; done|constructor]]|].
  set (c1 := set_node i n1 c) in *. eapply rtc_r; [exact Hs|]. destruct r as [[]|ex].
  - rewrite (Hk eq_refl) in Ek. set (m := MAppendResp i from req _).
    assert (abs_msg m = Some (AAck i from (abs_req req))) as Em by (unfold m; cbn [abs_msg ar_term]; destruct (aq_term req <? currentTerm_ n) eqn:E; bool_prop; [lia|done]).
    match goal with |- astep _ (abs ?x) => rewrite (abs_moved c1 x i n' [m] []) by (simpl; rewrite ?insert_insert_eq, ?app_nil_r; done) end.
    cbn [omap list_omap]. rewrite Em. pose proof (as_accept members (abs c1) i (abs_node n1) from (abs_req req) Hn1 Hm1 (eq_sym Et) Hag) as Hstep.
    cbv zeta in Hstep. replace (abs_node n') with (mkANode (a_term (abs_node n1)) (a_role (abs_node n1))
      (merged (a_log (abs_node n1)) (q_prev (abs_req req)) (q_entries (abs_req req)))
      (if decide (a_commit (abs_node n1) < q_commit (abs_req req))%nat
       then Nat.min (q_commit (abs_req req)) (last_index (merged (a_log (abs_node n1)) (q_prev (abs_req req)) (q_entries (abs_req req)))) else a_commit (abs_node n1))
      (a_next (abs_node n1)) (a_match (abs_node n1))); [exact Hstep|].
    cbn [abs_node abs_req a_log q_prev q_entries a_commit q_commit a_term a_role a_next a_match]. rewrite <- Ek. destruct Hsn as [Hc0 _ _ _].
    rewrite <- (LastIndex_nat l' (lo_wf _ _ Ho') (lo_snap _ _ Ho')). unfold n'. destruct (commitIndex_ n1 <? aq_leaderCommit req) eqn:E; bool_prop.
    + rewrite decide_True by lia. unfold abs_node. cbn [log_ set_commit set_log commitIndex_ nextIndex_ matchIndex_ currentTerm_ role_]. f_equal. lia.
    + by rewrite decide_False by lia.
  - match goal with |- astep _ (abs ?x) => rewrite (abs_moved c1 x i n' [] []) by (simpl; rewrite ?insert_insert_eq, ?app_nil_r; done) end.
    pose proof (as_partial members (abs c1) i (abs_node n1) from (abs_req req) k Hn1 Hm1 (eq_sym Et) Hag) as Hstep.
    cbn [abs_node abs_req a_log q_prev q_entries a_commit a_term a_role a_next a_match] in Hstep. rewrite <- Ek in Hstep. exact Hstep.
Qed.

Lemma refine_append i n n' from req r now : nodes c !! i = Some n -> MAppendReq from i req ∈ net c ->
  HandleAppendEntries now req n = (n', r) ->
  refined (send (match r with Ok resp => [MAppendResp i from req resp] | Throw _ => [] end) (set_node i n' c)).
Proof.
  intros Hn Hm Hrun. pose proof (inv_msg _ _ c (rd_inv _ _ R) _ Hm) as Hu. simpl in Hu.
  destruct (sm_msg c (rd_sim _ _ R) _ Hm) as ([Hmem Hne] & Hp & _).
  destruct (decide (aq_term req < currentTerm_ n)) as [Hlt|Hge].
  { unfold HandleAppendEntries in Hrun. rewrite bind_getS in Hrun. cbv zeta in Hrun. case_if_in Hrun; [|lia]. injection Hrun as <- <-.
    split; [eapply (sim_repl i n n); [done|done|done|done|by apply Forall_singleton]|].
    apply (refine_effect i n n); try done; [by apply ve_same|]. simpl. rewrite omap_app. cbn [omap list_omap abs_msg ar_term].
    case_if; [by rewrite app_nil_r|lia]. }
  rewrite HandleAppendEntries_run in Hrun by (try done; lia). cbv zeta in Hrun.
  destruct (check_prev (log_ (heard now req n)) (currentTerm_ n) req) as [resp|] eqn:Ec.
  - injection Hrun as <- <-.
    destruct (append_heard i n from req now Hn Hm ltac:(lia)) as (Hs & Hn1 & Hm1 & Et & Ho & _ & _ & _ & Hte & Hz & Hz0). set (n1 := heard now req n) in *.
    pose proof (check_prev_abs (log_ n1) (currentTerm_ n) req (lo_wf _ _ Ho) (lo_snap _ _ Ho) Hp Hte Hz Hz0) as Hag. rewrite Ec in Hag. destruct Hag as (Er & Esuc & Href).
    split; [eapply (sim_repl i n n1); [done|apply heard_repl|done|done|apply Forall_singleton]|].
    { split_and!; try done. destruct Href as [(_ & _ & ->)|(_ & ? & _)]; lia. }
    eapply rtc_r; [exact Hs|]. set (c1 := set_node i n1 c) in *.
    match goal with |- astep _ (abs ?x) => rewrite (abs_moved c1 x i n1 [MAppendResp i from req resp] []) by (simpl; rewrite ?insert_insert_eq, ?app_nil_r; done) end.
    cbn [omap list_omap abs_msg]. rewrite Er, Esuc. destruct (aq_term req <? currentTerm_ n) eqn:E; bool_prop; [lia|].
    by apply (as_refuse members (abs c1) i (abs_node n1) from (abs_req req)).
  - destruct (AppendAll (aq_entries req) (log_ (heard now req n))) as [l' r'] eqn:Eall.
    pose proof (refine_accepted i n from req now l' r' Hn Hm ltac:(lia) Ec Eall) as Hr.
    destruct r' as [[]|ex]; injection Hrun as <- <-; exact Hr.
Qed.

(** *** Responses *)

(** The entries of [matchIndex_] that count for index [k]. *)
Lemma replicated_quorum i n k : i ∈ members -> map_Forall (fun p x => (p ∈ members /\ p <> i) /\ 0 <= x) (matchIndex_ n) ->
  len members < 2 * replicated n k ->
  exists q, quorum members (i :: q) /\ forall p, p ∈ q -> exists m, matchIndex_ n !! p = Some m /\ k <= m.
Proof.
  intros Hi Hm Hlen. set (kvs := filter (fun kv : string * Z => k <= kv.2) (map_to_list (matchIndex_ n))).
  assert (forall p x, (p, x) ∈ kvs -> matchIndex_ n !! p = Some x /\ k <= x) as Hin.
  { intros p x. unfold kvs. rewrite list_elem_of_filter. intros [? ?%elem_of_map_to_list]. done. }
  assert (forall p, p ∈ kvs.*1 -> exists x, matchIndex_ n !! p = Some x /\ k <= x) as Hq.
  { intros p Hp. apply list_elem_of_fmap in Hp as ([p' x] & -> & Hp). exists x. by apply Hin. }
  exists kvs.*1. split; [|done]. split.
  - apply NoDup_cons. split.
    + intros Hp. destruct (Hq i Hp) as (x & Hx & _). destruct (Hm i x Hx) as [[_ ?] _]. done.
    + apply NoDup_fmap_fst; [intros p x y Hx Hy; destruct (Hin p x Hx) as [Ex _]; destruct (Hin p y Hy) as [Ey _]; congruence|].
      apply NoDup_filter, NoDup_map_to_list.
  - intros v [->|Hv]%elem_of_cons; [done|]. destruct (Hq v Hv) as (x & Hx & _). by destruct (Hm v x Hx) as [[? _] _].
  - unfold replicated in Hlen. fold kvs in Hlen. unfold len in Hlen. cbn [length]. rewrite length_fmap. lia.
Qed.

(** The leader's commit index moves as abstract Raft allows. *)
Lemma refine_commit c2 i n : nodes c2 !! i = Some n -> role_ n = Leader -> i ∈ members -> sim_node i n ->
  log_wf (log_ n) -> snapshotIndex_ (log_ n) = 0 -> len members < 2 * QuorumSize n ->
  sim_node i (AdvanceCommitIndex n) /\ rtc astep (abs c2) (abs (set_node i (AdvanceCommitIndex n) c2)).
Proof.
  intros Hn Hr Hi Hsn W S0 Hmaj. destruct (LastIndex_len _ W S0) as (HL & Hpos & Hlen). destruct Hsn as [Hc Hnx Hmt Hla]. unfold AdvanceCommitIndex.
  pose proof (commit_loop_spec n (Z.to_nat (LastIndex (log_ n) - commitIndex_ n)) (LastIndex (log_ n)) ltac:(lia)) as Hl.
  destruct (commit_loop _ _ _) as [k|]; [|split; [done|]; match goal with |- rtc _ _ (abs ?x) => by rewrite (abs_kept c2 x i n n) end].
  destruct Hl as (Hk & [Ht Hq] & _). split; [split; try done; cbn; lia|]. apply rtc_once.
  destruct (replicated_quorum i n k Hi Hmt ltac:(lia)) as (q & Hquo & Hqm).
  match goal with |- astep _ (abs ?x) => rewrite (abs_moved c2 x i (set_commit k n) [] []) by (simpl; rewrite ?app_nil_r; done) end.
  cbn [omap list_omap]. pose proof (as_commit members (abs c2) i (abs_node n) (Z.to_nat k) q (abs_lookup c2 i n Hn) Hr) as Hstep.
  unfold abs_node in Hstep |- *. cbn in Hstep |- *. rewrite Hr. apply Hstep; try lia; try done.
  - rewrite (GetTerm_nat _ W S0) in Ht by lia. unfold term_at in Ht.
    destruct (lookup_lt_is_Some_2 (entries_ (log_ n)) (Z.to_nat k)) as [e He]; [unfold len in *; lia|]. rewrite He in Ht. by exists e.
  - intros p Hp. destruct (Hqm p Hp) as (m & Hm & Hkm). exists (Z.to_nat m). rewrite lookup_fmap, Hm. split; [done|lia].
Qed.

Lemma refine_acked i n p req resp : nodes c !! i = Some n -> MAppendResp p i req resp ∈ net c -> role_ n = Leader ->
  aq_term req = currentTerm_ n -> ar_term resp = currentTerm_ n -> ar_success resp = true ->
  let m := Z.max (default 0 (matchIndex_ n !! p)) (u64 (aq_prevLogIndex req + len (aq_entries req))) in
  refined (set_node i (AdvanceCommitIndex (set_next p (u64 (m + 1)) (set_match p m n))) c).
Proof.
  intros Hn Hm Hr Eq Er Es. cbv zeta. destruct (log_facts i n Hn) as (W & S0 & Hroom). destruct ainv_here as [H I].
  destruct (sm_msg c (rd_sim _ _ R) _ Hm) as (Hpm & [Hp0 _] & _). pose proof (sm_node c (rd_sim _ _ R) i n Hn) as [Hc Hnx Hmt Hla].
  assert (AAck p i (abs_req req) ∈ a_net (abs c)) as Hack.
  { apply (abs_in c _ _ Hm). cbn [abs_msg]. rewrite Eq, Er, Z.ltb_irrefl, Es. done. }
  pose proof (ack_facts members H (abs c) p i (abs_node n) (abs_req req) I (abs_lookup c i n Hn) Hr Hack Eq) as (_ & Hlt & _).
  unfold last_new in Hlt. cbn [abs_req q_prev q_entries abs_node a_log] in Hlt. unfold len in *.
  rewrite (u64_small (aq_prevLogIndex req + _)) by (unfold is_u64; lia). set (m := Z.max _ _).
  assert (0 <= default 0 (matchIndex_ n !! p) < Z.of_nat (length (entries_ (log_ n)))) as Hold.
  { destruct (matchIndex_ n !! p) as [x|] eqn:E; simpl; [|lia]. destruct (Hmt p x E) as [_ ?]. split; [done|].
    destruct (an_leads _ _ _ _ _ (ai_node _ _ _ I i _ (abs_lookup c i n Hn)) Hr) as (_ & _ & Hma).
    destruct (Hma p (Z.to_nat x)) as [?|(q' & Hq' & Eq' & Ex)]; [cbn [abs_node a_match]; by rewrite lookup_fmap, E|lia|].
    destruct (ack_facts members H (abs c) p i (abs_node n) q' I (abs_lookup c i n Hn) Hr Hq' Eq') as (_ & Hlt' & _). cbn [abs_node a_log] in Hlt'. lia. }
  rewrite u64_small by (unfold is_u64; lia). set (n2 := set_next p (m + 1) (set_match p m n)). set (c2 := set_node i n2 c).
  assert (sim_node i n2) as Hsn.
  { split; [done|apply map_Forall_insert_2; [split; [done|lia]|done]|apply map_Forall_insert_2; [split; [done|lia]|done]|done]. }
  assert (astep (abs c) (abs c2)) as Hstep.
  { rewrite (abs_moved c c2 i n2 [] []) by (simpl; rewrite ?app_nil_r; done). cbn [omap list_omap].
    pose proof (as_acked members (abs c) i (abs_node n) p (abs_req req) (abs_lookup c i n Hn) Hack Hr Eq) as Hs. cbv zeta in Hs.
    replace (Nat.max (default 0%nat (a_match (abs_node n) !! p)) (last_new (abs_req req))) with (Z.to_nat m) in Hs.
    - unfold abs_node in Hs |- *. cbn in Hs |- *. rewrite !fmap_insert, Hr. replace (Z.to_nat (m + 1)) with (S (Z.to_nat m)) by lia. exact Hs.
    - unfold m, last_new. cbn [abs_req abs_node q_prev q_entries a_match]. rewrite lookup_fmap. destruct (matchIndex_ n !! p); simpl in *; lia. }
  destruct (refine_commit c2 i n2) as [Hsn' Hc2]; try done; [apply lookup_insert_eq|apply (inv_node _ _ c (rd_inv _ _ R) i n Hn)| |].
  { exact (quorum_majority members cfg config_ok c i n (rd_inv _ _ R) Hn). }
  split; [eapply (sim_moved c _ i _ [] (rd_sim _ _ R)); [done|simpl; by rewrite app_nil_r|done|constructor]|].
  eapply rtc_l; [exact Hstep|]. unfold c2, set_node in Hc2. cbn [nodes elections applying net granted] in Hc2. by rewrite insert_insert_eq in Hc2.
Qed.

(** Where the leader's search for the hinted term ends. *)
Lemma last_in_term_abs i n t index : nodes c !! i = Some n -> 0 <= index ->
  let last := LastIndex (log_ n) in
  let r := last_in_term (log_ n) t (Z.to_nat (last - SnapshotIndex (log_ n))) last in
  0 < t -> entries_ (log_ n) !! 0%nat = Some (sentinel 0 0) ->
  exists x, (if 0 <? r then u64 (r + 1) else index) = Z.of_nat x /\ backs_up (entries_ (log_ n)) (Z.to_nat index) t x.
Proof.
  intros Hn Hi last r Ht Hz. destruct (log_facts i n Hn) as (W & S0 & Hroom). destruct (LastIndex_len _ W S0) as (HL & Hpos & _). fold last in HL.
  unfold r, SnapshotIndex. rewrite S0.
  destruct (last_in_term_spec (log_ n) t (Z.to_nat (last - 0)) last ltac:(lia)) as [Hr Hmax]. rewrite S0 in *. specialize (Hmax ltac:(lia)).
  fold r. replace (last_in_term (log_ n) t (Z.to_nat (last - 0)) last) with r in * by (unfold r, SnapshotIndex; by rewrite S0).
  assert (forall k e, entries_ (log_ n) !! k = Some e -> Z.max r 0 < Z.of_nat k -> le_term e <> t) as Hno.
  { intros k e He Hk. pose proof (lookup_lt_Some _ _ _ He). specialize (Hmax (Z.of_nat k)). rewrite (GetTerm_nat _ W S0), Nat2Z.id in Hmax by (unfold len in *; lia).
    unfold term_at in Hmax. rewrite He in Hmax. apply Hmax. unfold len in *. lia. }
  destruct (0 <? r) eqn:E; bool_prop.
  - destruct Hr as [?|[Hb Hg]]; [lia|]. rewrite u64_small by (unfold is_u64, len in *; lia). exists (S (Z.to_nat r)). split; [lia|]. right. left. split; [done|].
    rewrite (GetTerm_nat _ W S0) in Hg by (unfold len in *; lia). unfold term_at in Hg.
    destruct (lookup_lt_is_Some_2 (entries_ (log_ n)) (Z.to_nat r)) as [e He]; [unfold len in *; lia|]. rewrite He in Hg.
    exists (Z.to_nat r), e. split_and!; try done. intros k e' Hk He'. apply (Hno k e' He'). lia.
  - exists (Z.to_nat index). split; [lia|]. right. right. split_and!; try done. intros [|k] e He.
    + rewrite Hz in He. injection He as <-. simpl. lia.
    + apply (Hno _ _ He). lia.
Qed.

Lemma refine_refused i n p req resp y : nodes c !! i = Some n -> MAppendResp p i req resp ∈ net c -> role_ n = Leader ->
  aq_term req = currentTerm_ n -> ar_term resp = currentTerm_ n -> ar_success resp = false ->
  (exists x, y = Z.of_nat x /\ backs_up (entries_ (log_ n)) (Z.to_nat (ar_conflictIndex resp)) (ar_conflictTerm resp) x) ->
  refined (set_node i (set_next p y n) c).
Proof.
  intros Hn Hm Hr Eq Er Es (x & -> & Hb). destruct (sm_msg c (rd_sim _ _ R) _ Hm) as (Hpm & _). pose proof (sm_node c (rd_sim _ _ R) i n Hn) as [Hc Hnx Hmt Hla].
  split.
  - eapply (sim_moved c _ i _ [] (rd_sim _ _ R)); [done|simpl; by rewrite app_nil_r| |constructor].
    split; try done. apply map_Forall_insert_2; [split; [done|lia]|done].
  - apply (refine_once i (set_next p (Z.of_nat x) n) [] []); [done|simpl; by rewrite app_nil_r|simpl; by rewrite app_nil_r|].
    pose proof (as_refused members (abs c) i (abs_node n) p (abs_req req) (Z.to_nat (ar_conflictIndex resp)) (ar_conflictTerm resp) x (abs_lookup c i n Hn)) as Hs.
    unfold abs_node in Hs |- *. cbn in Hs |- *. rewrite fmap_insert, Nat2Z.id, Hr. apply Hs; try done.
    apply (abs_in c _ _ Hm). cbn [abs_msg]. by rewrite Eq, Er, Z.ltb_irrefl, Es.
Qed.

Lemma refine_append_response i n p req resp now : nodes c !! i = Some n -> MAppendResp p i req resp ∈ net c ->
  aq_term req = currentTerm_ n \/ currentTerm_ n < ar_term resp ->
  refined (set_node i (ReplicateToPeer_response now p req resp n).1 c).
Proof.
  intros Hn Hm Hprompt. pose proof (rd_inv _ _ R) as I. destruct (inv_node _ _ c I i n Hn) as (_ & _ & _ & Hd).
  pose proof (ReplicateToPeer_response_effect now p req resp n (inv_msg _ _ c I _ Hm) Hd) as He.
  assert (same_repl n (ReplicateToPeer_response now p req resp n).1 -> refined (set_node i (ReplicateToPeer_response now p req resp n).1 c)) as Hsame.
  { intros Hs. split; [eapply (sim_repl i n); [done|done|done|simpl; by rewrite app_nil_r|constructor]|]. by apply (refine_effect i n (ReplicateToPeer_response now p req resp n).1). }
  clear He. unfold ReplicateToPeer_response, catch_all in *. cbn [fst] in *. rewrite bind_getS in *.
  destruct (currentTerm_ n <? ar_term resp) eqn:E; bool_prop; [apply Hsame, BecomeFollower_repl|].
  destruct (bool_decide_reflect (role_ n <> Leader)) as [|Hr0]; [by apply Hsame|]. assert (role_ n = Leader) as Hr by (by destruct (decide (role_ n = Leader))).
  destruct (ar_term resp =? currentTerm_ n) eqn:Er; [|by apply Hsame]. cbn [orb negb] in *. bool_prop. clear Hsame.
  assert (aq_term req = currentTerm_ n) as Eq by (destruct Hprompt; [done|lia]).
  destruct (ar_success resp) eqn:Es; [rewrite !bind_modify; by apply (refine_acked i n p req resp)|].
  pose proof (lm_msgs _ _ _ (rd_lm _ _ R) _ Hm) as Hci. simpl in Hci. destruct ainv_here as [H Ia].
  destruct (an_traced _ _ _ _ _ (ai_node _ _ _ Ia i _ (abs_lookup c i n Hn))) as [Hz _].
  destruct (0 <? ar_conflictTerm resp) eqn:Et; bool_prop.
  - apply (refine_refused i n p req resp); try done. by apply (last_in_term_abs i n).
  - apply (refine_refused i n p req resp); try done.
    assert (ARefuse p i (abs_req req) (Z.to_nat (ar_conflictIndex resp)) (ar_conflictTerm resp) ∈ a_net (abs c)) as Hra.
    { apply (abs_in c _ _ Hm). cbn [abs_msg]. by rewrite Eq, Er, Z.ltb_irrefl, Es. }
    destruct (ai_msg _ _ _ Ia _ Hra) as (Hge & M & _ & _ & Hlag). exists (Z.to_nat (ar_conflictIndex resp)).
    destruct (0 <? ar_conflictIndex resp) eqn:E0; bool_prop; [|lia]. split; [lia|]. left. split; [|done].
    destruct (sm_msg c (rd_sim _ _ R) _ Hm) as (_ & _ & ?). lia.
Qed.

(** *** Applying *)

Lemma applies_kept c' : refined c' ->
  (forall i a, applying c' !! i = Some a -> exists b, applying c !! i = Some b /\ ap_next a = ap_next b /\ ap_entry a = ap_entry b) -> applies c'.
Proof.
  intros [Hsim Hs] Hap i a Ha. destruct (Hap i a Ha) as (b & Hb & -> & ->). destruct (rd_apply _ _ R i b Hb) as (n & Hn & Hr & He).
  destruct (commits_stay_run members (abs c) (abs c') i (abs_node n) (rd_reach _ _ R) Hs (abs_lookup c i n Hn)) as (x & Hx & Hc & Hp).
  cbn [abs a_nodes] in Hx. rewrite lookup_fmap in Hx. apply fmap_Some in Hx as (n' & Hn' & ->). cbn [abs_node a_commit a_log] in Hc, Hp.
  pose proof (sn_commit _ _ (sm_node c' Hsim i n' Hn')). exists n'. split_and!; [done|lia|lia|].
  eapply prefix_lookup_Some; [|exact Hp]. by rewrite lookup_take_lt by lia.
Qed.

Lemma refine_apply_fetch i n next e : nodes c !! i = Some n -> ApplyLoop_fetch n = Some (next, e) ->
  let c' := set_applying i (Some (mkApplying next e false)) c in refined c' /\ applies c'.
Proof.
  intros Hn Hf c'. split; [split; [split; apply (rd_sim _ _ R)|apply rtc_refl]|]. intros k a. simpl. rewrite lookup_insert. case_decide; [|apply (rd_apply _ _ R)].
  subst k. intros [= <-]. exists n. split; [done|]. cbn [ap_next ap_entry]. destruct (log_facts i n Hn) as (W & S0 & Hroom).
  pose proof (sn_applied _ _ (sm_node c (rd_sim _ _ R) i n Hn)) as Hla. destruct ainv_here as [H I].
  pose proof (an_commit _ _ _ _ _ (ai_node _ _ _ I i _ (abs_lookup c i n Hn))) as Hc. cbn [abs_node a_commit a_log] in Hc.
  unfold ApplyLoop_fetch in Hf. destruct (lastApplied_ n <? commitIndex_ n) eqn:E; bool_prop; [|done]. cbv zeta in Hf.
  pose proof (sn_commit _ _ (sm_node c (rd_sim _ _ R) i n Hn)). unfold len in *. rewrite u64_small in Hf by (unfold is_u64; lia).
  unfold GetEntry, Offset, entry_at in Hf. rewrite S0, Z.sub_0_r, u64_small in Hf by (unfold is_u64; lia). case_if_in Hf; [done|].
  destruct (entries_ (log_ n) !! Z.to_nat (lastApplied_ n + 1)) as [x|] eqn:Ex; [|done]. simpl in Hf. injection Hf as <- <-. split; [lia|done].
Qed.

(** The step refines, and no node starts or stops applying. *)
#[local] Ltac kept_by H := let Hf := fresh in pose proof H as Hf; split; [exact Hf|]; apply (applies_kept _ Hf); simpl; eauto.

Lemma refined_call i q c' : refined c' -> refined (set_call i q c').
Proof. intros [[Hn Hm] Hs]. split; [by split|exact Hs]. Qed.

(** A change of the store is not seen by the abstraction. *)
Lemma refine_store i n s : nodes c !! i = Some n -> refined (set_node i (set_store s n) c).
Proof.
  intros Hn. split; [eapply (sim_repl i n (set_store s n)); [done|done|done|simpl; by rewrite app_nil_r|constructor]|].
  by apply (refine_effect i n (set_store s n)); [|apply ve_same|..].
Qed.

Lemma refine_step c' : step cfg (mkFaults false false true) c c' -> refined c' /\ applies c'.
Proof.
  intros Hstep.
  destruct Hstep as [i n n' req now Hn _ Hl Hb Hr|i n n' from req resp now Hn Hm Hr|i n n' e p rest o stop v now Hn He Hp Ho Hr
    |i n e Hn He Hp|i n p req Hn _ Hin Hr|i n n' from req r now Hn Hm Hr|i n p req resp now Hn _ Hm Hf|i n q Hn _|i n k v op ttl Hn _ _|i n now key expected value _ Hn _
    |i n next e Hn Ha Hf|i n a now Hn Ha Hf|i n a Hn Ha Hf|i n now Hn Ha|i n n' j clock now Hfalse _ _ _]; [..|done].
  - kept_by (refine_election i n n' req now Hn Hl Hb Hr).
  - pose proof (refine_vote i n n' from req resp now Hn Hm Hr) as Hf. cbv zeta in Hf. split; [done|]. apply (applies_kept _ Hf).
    destruct (vr_voteGranted resp); simpl; eauto.
  - kept_by (refine_vote_response i n n' e p rest o stop v now Hn He Hp Ho Hr).
  - kept_by (refine_election_end i n e Hn He Hp).
  - kept_by (refined_call i (Some (p, req)) _ (refine_replicate i n p req Hn Hin Hr)).
  - kept_by (refine_append i n n' from req r now Hn Hm Hr).
  - assert (aq_term req = currentTerm_ n \/ currentTerm_ n < ar_term resp) as Hp by (destruct Hf as [?|?]; [done|done]).
    kept_by (refined_call i None _ (refine_append_response i n p req resp now Hn Hm Hp)).
  - kept_by (refined_call i None c (conj (rd_sim _ _ R) (rtc_refl _ _))).
  - kept_by (refine_propose i n k v op ttl Hn).
  - kept_by (refine_store i n (CAS now key expected value 0 (store_ n)).1.2 Hn).
  - by apply (refine_apply_fetch i n).
  - pose proof (refine_store i n (ApplyEntry now (ap_entry a) (store_ n)).1.1 Hn) as Hf'.
    set (c2 := set_applying _ _ _). assert (refined c2) as Hf2 by (split; [split; apply Hf'|apply Hf']).
    split; [done|]. apply (applies_kept _ Hf2). intros k b. simpl.
    rewrite lookup_insert. case_decide; [|eauto]. subst k. intros [= <-]. by exists a.
  - set (n' := ApplyLoop_finish _ n). assert (refined (set_applying i None (set_node i n' c))) as Hf'.
    { destruct (rd_apply _ _ R i a Ha) as (x & Hx & Hr & _). rewrite Hn in Hx. injection Hx as <-.
      split; [|by match goal with |- rtc _ _ (abs ?x) => rewrite (abs_kept c x i n n') end].
      destruct (sm_node c (rd_sim _ _ R) i n Hn) as [? ? ? ?]. eapply (sim_moved c _ i n' [] (rd_sim _ _ R)); [done|simpl; by rewrite app_nil_r| |constructor].
      split; try done. apply Hr. }
    split; [done|]. apply (applies_kept _ Hf'). intros k b. simpl. rewrite lookup_delete_Some. intros [_ ?]. by exists b.
  - rewrite MaybeSnapshot_small by (by apply (rd_small _ _ R i n)). assert (refined (set_node i n c)) as Hf.
    { split; [eapply (sim_repl i n n); [done|done|done|simpl; by rewrite app_nil_r|constructor]|]. by apply (refine_effect i n n); [|apply ve_same|..]. }
    kept_by Hf.
Qed.
End Step.

(** ** Runs *)

(** A step without restart or snapshot in which no response is handled in a
    later term than that of its request; compare-and-swap may happen. *)
Definition prompt_step (c c' : Cluster) : Prop := small c /\ step cfg (mkFaults false false true) c c'.

Definition promptly_reachable (c : Cluster) : Prop := exists c0, cluster_init members cfg c0 /\ rtc prompt_step c0 c.

Lemma step_late b k c c' : step cfg (mkFaults b false k) c c' -> step cfg (mkFaults b true k) c c'.
Proof.
  intros Hs. destruct Hs; [by eapply st_election|by eapply st_vote|by eapply st_vote_response|by eapply st_election_end|by eapply st_replicate
    |by eapply st_append|eapply st_append_response; [done|done|done|by left]|by eapply st_call_lost|by eapply st_propose|by eapply st_swap|by eapply st_apply_fetch|by eapply st_apply_store
    |by eapply st_apply_finish|by eapply st_snapshot|by eapply st_restart].
Qed.

Lemma init_abs c : cluster_init members cfg c -> ainit members (abs c) /\ sim c /\ applies c.
Proof.
  intros (Hdom & Hnew & _ & Hap & _ & Hnet & Hg). split_and!.
  - split_and!.
    + intros i. cbn [abs a_nodes]. rewrite lookup_fmap, fmap_is_Some. apply Hdom.
    + intros i x. cbn [abs a_nodes]. rewrite lookup_fmap. intros (n & Hn & ->)%fmap_Some. by destruct (Hnew i n Hn) as (clock & now & ->).
    + simpl. by rewrite Hnet.
    + done.
  - split; [|intros m; rewrite Hnet; by intros ?%not_elem_of_nil]. intros i n Hn. destruct (Hnew i n Hn) as (clock & now & ->).
    split; try done; apply map_Forall_empty.
  - intros i a. by rewrite Hap, lookup_empty.
Qed.

Lemma prompt_run c0 c : cluster_init members cfg c0 -> rtc prompt_step c0 c ->
  (inv c /\ exists F, lm_inv members F c) /\ (sim c /\ rtc astep (abs c0) (abs c)) /\ applies c.
Proof.
  intros H0 Hr. pose proof (init_abs c0 H0) as (Ha0 & Hs0 & Hap0).
  apply (rtc_ind_r (R := prompt_step) (fun c => (inv c /\ exists F, lm_inv members F c) /\ (sim c /\ rtc astep (abs c0) (abs c)) /\ applies c) c0); [| |done].
  { split_and!; [by apply (init_inv members cfg config_ok)|exists ∅; by apply (init_matching members cfg)|done|apply rtc_refl|done]. }
  intros c1 c2 _ [Hsm Hstep] ((I & F & Il) & (Hs & Hrtc) & Hap).
  assert (poised F c1) as R by (split; try done; by exists (abs c0)).
  destruct (refine_step F c1 R c2 Hstep) as ([Hs' Hrtc'] & Hap'). pose proof (step_late false true c1 c2 Hstep) as Hl.
  split_and!; [by apply (step_inv members cfg config_ok (mkFaults false true true) c1)|by apply (step_matching members cfg config_ok F c1)|done|by etrans|done].
Qed.

Lemma prompt_reach c : promptly_reachable c -> areachable (abs c) /\ sim c /\ applies c /\ exists F, lm_inv members F c.
Proof.
  intros (c0 & H0 & Hr). destruct (prompt_run c0 c H0 Hr) as ((_ & ?) & (? & ?) & ?). split_and!; try done.
  exists (abs c0). split; [apply (init_abs c0 H0)|done].
Qed.

Lemma prompt_steps c c' : promptly_reachable c -> rtc prompt_step c c' -> promptly_reachable c' /\ rtc astep (abs c) (abs c').
Proof.
  intros Hr Hs. revert Hr. induction Hs as [c|c c1 c2 [Hsm Hstep] _ IH]; intros Hr; [by split; [|apply rtc_refl]|].
  destruct Hr as (c0 & H0 & Hr). destruct (prompt_run c0 c H0 Hr) as ((I & F & Il) & (Hsim & Hrtc) & Hap).
  assert (poised F c) as R by (split; try done; exists (abs c0); split; [apply (init_abs c0 H0)|done]).
  destruct (refine_step F c R c1 Hstep) as ([_ Hs1] & _).
  destruct (IH ltac:(exists c0; split; [done|]; by eapply rtc_r)) as [? ?]. split; [done|by etrans].
Qed.

Lemma lookup_abs F c i n k : lm_inv members F c -> nodes c !! i = Some n -> 0 <= k -> log_lookup (log_ n) k = a_log (abs_node n) !! Z.to_nat k.
Proof.
  intros Il Hn Hk. destruct (lm_nodes _ _ _ Il i n Hn) as [[_ S0 _] _]. unfold log_lookup. rewrite S0, Z.sub_0_r. case_if; [done|lia].
Qed.
End Refinement.

(** ** Theorems *)

(** C5: refinement.  Every run of a cluster without restarts and snapshots in
    which a leader handles responses in the term of their requests is, through
    [abs], a run of abstract Raft: a locked section of the code, whatever the
    interleaving, is zero or more steps of the protocol. *)
Theorem cluster_refines_raft {J : JsonLib} {L : JsonLaws J} members cfg c0 c :
  cluster_config members cfg -> cluster_init members cfg c0 -> rtc (prompt_step cfg) c0 c ->
  ainit members (abs c0) /\ rtc (astep members) (abs c0) (abs c).
Proof.
  intros Hcfg H0 Hr. split; [apply (init_abs members cfg c0 H0)|].
  by destruct (prompt_run members cfg Hcfg c0 c H0 Hr) as (_ & (_ & ?) & _).
Qed.

(** C1: state machine safety, in runs without restarts and snapshots in which a
    leader handles responses in the term of their requests.  If a node applies
    an entry at an index, no node applies a different entry at that index, then
    or later in the run. *)
Theorem state_machine_safety {J : JsonLib} {L : JsonLaws J} members cfg c1 c2 i j a1 a2 :
  cluster_config members cfg -> promptly_reachable members cfg c1 -> rtc (prompt_step cfg) c1 c2 ->
  applying c1 !! i = Some a1 -> applying c2 !! j = Some a2 -> ap_next a1 = ap_next a2 -> ap_entry a1 = ap_entry a2.
Proof.
  intros Hcfg Hr Hs Ha1 Ha2 En. destruct (prompt_steps members cfg Hcfg c1 c2 Hr Hs) as [Hr2 Hs2].
  destruct (prompt_reach members cfg Hcfg c1 Hr) as (Hreach & Hsim & Hap & _). destruct (prompt_reach members cfg Hcfg c2 Hr2) as (Hreach2 & Hsim2 & Hap2 & _).
  destruct (Hap i a1 Ha1) as (n1 & Hn1 & Hb1 & He1). destruct (Hap2 j a2 Ha2) as (n2 & Hn2 & Hb2 & He2).
  destruct (commits_stay_run members (abs c1) (abs c2) i (abs_node n1) Hreach Hs2 (abs_lookup c1 i n1 Hn1)) as (x & Hx & Hc & Hp).
  cbn [abs_node a_commit a_log] in Hc, Hp.
  destruct (commits_agree members (abs c2) i j x (abs_node n2) (Z.to_nat (ap_next a1)) Hreach2 Hx (abs_lookup c2 j n2 Hn2)) as [Hag _];
    [lia|cbn [abs_node a_commit]; lia|]. cbn [abs_node a_log] in Hag. rewrite En in Hag at 2. rewrite He2 in Hag.
  assert (a_log x !! Z.to_nat (ap_next a1) = Some (ap_entry a1)) as Hx1.
  { eapply prefix_lookup_Some; [|exact Hp]. by rewrite lookup_take_lt by lia. }
  rewrite Hx1 in Hag. by injection Hag.
Qed.

(** C3: leader completeness, in runs without restarts and snapshots in which a
    leader handles responses in the term of their requests.  A leader of the
    same or a later term holds every entry up to the commit index of any node. *)
Theorem leader_completeness {J : JsonLib} {L : JsonLaws J} members cfg c i j ni nj k :
  cluster_config members cfg -> promptly_reachable members cfg c -> nodes c !! i = Some ni -> nodes c !! j = Some nj ->
  role_ nj = Leader -> currentTerm_ ni <= currentTerm_ nj -> 0 <= k <= commitIndex_ ni ->
  log_lookup (log_ nj) k = log_lookup (log_ ni) k /\ is_Some (log_lookup (log_ ni) k).
Proof.
  intros Hcfg Hr Hi Hj Hl Ht Hk. destruct (prompt_reach members cfg Hcfg c Hr) as (Hreach & _ & _ & F & Il).
  rewrite (lookup_abs members F c i ni k Il Hi), (lookup_abs members F c j nj k Il Hj) by lia.
  assert ((Z.to_nat k <= a_commit (abs_node ni))%nat) as Hk' by (cbn [abs_node a_commit]; lia). split.
  - by apply (leader_complete members (abs c) i j); try apply abs_lookup.
  - by apply (commits_agree members (abs c) i i (abs_node ni) (abs_node ni)); try apply abs_lookup.
Qed.

(** C15: commits are permanent, in runs without restarts and snapshots in which
    a leader handles responses in the term of their requests.  The commit index
    of a node never decreases, and the entries up to it are never replaced or
    removed.  A restart is excluded: it sets [commitIndex_] back to 0. *)
Theorem commits_permanent {J : JsonLib} {L : JsonLaws J} members cfg c c' i n :
  cluster_config members cfg -> promptly_reachable members cfg c -> rtc (prompt_step cfg) c c' -> nodes c !! i = Some n ->
  exists n', nodes c' !! i = Some n' /\ commitIndex_ n <= commitIndex_ n' /\
    forall k, 0 <= k <= commitIndex_ n -> log_lookup (log_ n') k = log_lookup (log_ n) k.
Proof.
  intros Hcfg Hr Hs Hn. destruct (prompt_steps members cfg Hcfg c c' Hr Hs) as [Hr' Hs'].
  destruct (prompt_reach members cfg Hcfg c Hr) as (Hreach & Hsim & _ & F & Il). destruct (prompt_reach members cfg Hcfg c' Hr') as (_ & Hsim' & _ & F' & Il').
  destruct (commits_stay_run members (abs c) (abs c') i (abs_node n) Hreach Hs' (abs_lookup c i n Hn)) as (x & Hx & Hc & Hp).
  cbn [abs a_nodes] in Hx. rewrite lookup_fmap in Hx. apply fmap_Some in Hx as (n' & Hn' & ->). cbn [abs_node a_commit a_log] in Hc, Hp.
  pose proof (sn_commit _ _ _ (sm_node _ c Hsim i n Hn)). pose proof (sn_commit _ _ _ (sm_node _ c' Hsim' i n' Hn')).
  exists n'. split_and!; [done|lia|]. intros k Hk. rewrite (lookup_abs members F c i n k Il Hn), (lookup_abs members F' c' i n' k Il' Hn') by lia.
  destruct (commits_agree members (abs c) i i (abs_node n) (abs_node n) (Z.to_nat k) Hreach (abs_lookup c i n Hn) (abs_lookup c i n Hn)) as [_ [e He]];
    [cbn [abs_node a_commit]; lia..|]. rewrite He. eapply prefix_lookup_Some; [|exact Hp]. by rewrite lookup_take_lt by lia.
Qed.

(** ** Witnesses *)

Section RefinementExamples.
#[local] Existing Instance RefJson.
#[local] Open Scope string_scope.
#[local] Open Scope Z_scope.

(** [n1] is elected with the vote of [n2], takes a proposal, replicates to [n2]
    twice and applies; then [n2] applies. *)
Definition ex_applied (i : string) : list Action := [DoFetch i; DoStore i 800; DoFinish i; DoFetch i].
Definition ex_elected : list Action :=
  [DoElection "n1" 200; DoVote 0 201; DoVoteResponse "n1" (Some 2%nat) 202; DoVoteResponse "n1" None 203; DoElectionEnd "n1"].
Definition ex_schedule : list Action :=
  (ex_elected ++ [DoPropose "n1" "k" "v"; DoReplicate "n1" "n2"; DoAppend 3 300; DoAppendResponse 4 301;
    DoReplicate "n1" "n2"; DoAppend 5 302] ++ ex_applied "n1")%list.

Definition ex_prompt1 : Cluster := default ex_c0 (run (mkFaults false false true) ex_schedule ex_c0).
Definition ex_prompt2 : Cluster := default ex_c0 (run (mkFaults false false true) (ex_applied "n2") ex_prompt1).

Lemma ex_prompt1_run : rtc (prompt_step ex_cfg) ex_c0 ex_prompt1.
Proof. apply (run_sound ex_cfg (mkFaults false false true) ex_schedule). by vm_compute. Qed.

Lemma ex_prompt2_run : rtc (prompt_step ex_cfg) ex_prompt1 ex_prompt2.
Proof. apply (run_sound ex_cfg (mkFaults false false true) (ex_applied "n2")). by vm_compute. Qed.

Lemma ex_prompt1_reachable : promptly_reachable ex_members ex_cfg ex_prompt1.
Proof. exists ex_c0. split; [apply ex_init|apply ex_prompt1_run]. Qed.

Lemma ex_applies1 : exists a, applying ex_prompt1 !! "n1" = Some a /\ ap_next a = 2 /\ le_value (ap_entry a) = "v".
Proof. eexists. by vm_compute. Qed.

Lemma ex_applies2 : exists a, applying ex_prompt2 !! "n2" = Some a /\ ap_next a = 2.
Proof. eexists. by vm_compute. Qed.

Lemma ex_prompt_n1 : exists n, nodes ex_prompt1 !! "n1" = Some n /\ role_ n = Leader /\ currentTerm_ n = 1 /\ commitIndex_ n = 2.
Proof. eexists. by vm_compute. Qed.

Lemma ex_prompt_n2 : exists n, nodes ex_prompt1 !! "n2" = Some n /\ commitIndex_ n = 2 /\ currentTerm_ n = 1.
Proof. eexists. by vm_compute. Qed.

Lemma cluster_refines_raft_witness :
  ainit ex_members (abs ex_c0) /\ rtc (astep ex_members) (abs ex_c0) (abs ex_prompt1) /\
  a_commit <$> a_nodes (abs ex_prompt1) !! "n2" = Some 2%nat.
Proof.
  destruct (cluster_refines_raft (L := RefJson_laws) ex_members ex_cfg ex_c0 ex_prompt1 ex_config_ok ex_init ex_prompt1_run) as [H1 H2].
  split; [exact H1|]. split; [exact H2|by vm_compute].
Defined.

Lemma state_machine_safety_witness : exists a1 a2,
  applying ex_prompt1 !! "n1" = Some a1 /\ applying ex_prompt2 !! "n2" = Some a2 /\ ap_next a1 = 2 /\ le_value (ap_entry a1) = "v" /\
  ap_entry a1 = ap_entry a2.
Proof.
  destruct ex_applies1 as (a1 & H1 & N1 & V1). destruct ex_applies2 as (a2 & H2 & N2).
  exists a1, a2. split; [exact H1|]. split; [exact H2|]. split; [exact N1|]. split; [exact V1|].
  apply (state_machine_safety (L := RefJson_laws) ex_members ex_cfg ex_prompt1 ex_prompt2 "n1" "n2" a1 a2 ex_config_ok ex_prompt1_reachable ex_prompt2_run H1 H2).
  congruence.
Defined.

Lemma leader_completeness_witness : exists n1 n2,
  nodes ex_prompt1 !! "n1" = Some n1 /\ nodes ex_prompt1 !! "n2" = Some n2 /\ commitIndex_ n2 = 2 /\
  log_lookup (log_ n1) 2 = log_lookup (log_ n2) 2 /\ is_Some (log_lookup (log_ n2) 2).
Proof.
  destruct ex_prompt_n1 as (n1 & H1 & R1 & T1 & _). destruct ex_prompt_n2 as (n2 & H2 & C2 & T2).
  exists n1, n2. split; [exact H1|]. split; [exact H2|]. split; [exact C2|]. apply (leader_completeness (L := RefJson_laws) ex_members ex_cfg ex_prompt1 "n2" "n1" n2 n1 2 ex_config_ok ex_prompt1_reachable H2 H1 R1); lia.
Defined.

Lemma commits_permanent_witness : exists n n',
  nodes ex_prompt1 !! "n1" = Some n /\ nodes ex_prompt2 !! "n1" = Some n' /\ commitIndex_ n = 2 /\ 2 <= commitIndex_ n' /\
  log_lookup (log_ n') 2 = log_lookup (log_ n) 2.
Proof.
  destruct ex_prompt_n1 as (n & H1 & _ & _ & C1).
  destruct (commits_permanent (L := RefJson_laws) ex_members ex_cfg ex_prompt1 ex_prompt2 "n1" n ex_config_ok ex_prompt1_reachable ex_prompt2_run H1)
    as (n' & H2 & Hc & Hk). exists n, n'. split; [exact H1|]. split; [exact H2|]. split; [exact C1|]. split; [lia|]. apply Hk. lia.
Defined.

(** ** Late responses *)

(** A cluster whose AppendEntries calls may wait for two seconds, with elections
    after 150 to 300 milliseconds. *)
Definition ex_slow_cfg (i : string) : RaftConfig :=
  mkRaftConfig i (cfg_peers (ex_cfg i)) 2380 150 300 50 2000 10000.
Definition ex_slow_new (i : string) : RaftNode := (RaftNode_new (ex_slow_cfg i) KVStore_new (Some []) (fun _ => 0) 0).1.
Definition ex_slow_c0 : Cluster :=
  mkCluster (<["n1" := ex_slow_new "n1"]> (<["n2" := ex_slow_new "n2"]> (<["n3" := ex_slow_new "n3"]> ∅))) ∅ ∅ ∅ [] [].

Lemma ex_slow_init : cluster_init ex_members ex_slow_cfg ex_slow_c0.
Proof.
  split_and!; try done.
  - intros i. unfold ex_slow_c0, ex_members. cbn [nodes]. rewrite !elem_of_cons, !lookup_insert_is_Some', lookup_empty.
    split; [intros [<-|[<-|[<-|[? ?]]]]; auto; done|]. intros [->|[->|[->|Hi%not_elem_of_nil]]]; auto. done.
  - intros i n. unfold ex_slow_c0. cbn [nodes]. rewrite !lookup_insert, lookup_empty.
    repeat case_decide; intros Hn; inv Hn; by eexists _, _.
Qed.

(** Term 1: [n1] leads, takes 99 proposals and brings [n2] and [n3] up to index
    100, one call at a time.  Then it calls [n2] again (message 8), which is slow
    to arrive; the replication thread of [n1] waits for the answer and sends
    nothing. *)
Definition ex_late_term1 : list Action :=
  ([DoElection "n1" (ms 200); DoVote 0 (ms 201); DoVote 1 (ms 201); DoVoteResponse "n1" (Some 2%nat) (ms 202); DoVoteResponse "n1" (Some 3%nat) (ms 202);
    DoElectionEnd "n1"] ++ replicate 99 (DoPropose "n1" "k" "v") ++
   [DoReplicate "n1" "n2"; DoAppend 4 (ms 300); DoAppendResponse 5 (ms 301); DoReplicate "n1" "n3"; DoAppend 6 (ms 302); DoAppendResponse 7 (ms 303);
    DoReplicate "n1" "n2"])%list.

(** Term 2: without heartbeats [n2] starts an election, wins it, takes a proposal
    and calls [n1], which is slow too.  Term 3: [n1] starts an election; [n3]
    votes for it, and [n2] learns of the term from the refusal of its call. *)
Definition ex_late_terms : list Action :=
  [DoElection "n2" (ms 580); DoVote 9 (ms 581); DoVote 10 (ms 581); DoVoteResponse "n2" (Some 11%nat) (ms 582); DoVoteResponse "n2" (Some 12%nat) (ms 582);
   DoElectionEnd "n2"; DoPropose "n2" "k" "stale"; DoReplicate "n2" "n1";
   DoElection "n1" (ms 860); DoVote 15 (ms 861); DoAppend 13 (ms 862); DoAppendResponse 17 (ms 863)].

(** Message 8 now reaches [n2], which refuses it because of its term and gives no
    hint, and then the vote request behind it on the same connection.  [n1] has
    both answers; its election thread is the first to take the lock and [n1] is
    leader, its replication thread the second.  It takes the refusal for an
    answer of its present leadership and will start again from index 1.  It
    replicates to [n3] and commits; the 100 entries it then sends to [n2] are
    those [n2] has, [leaderCommit] is 102, and [n2] commits its own entries 101
    and 102. *)
Definition ex_late_answer : list Action :=
  ([DoAppend 8 (ms 870); DoVote 14 (ms 871); DoVoteResponse "n1" (Some 19%nat) (ms 872); DoVoteResponse "n1" (Some 16%nat) (ms 872); DoElectionEnd "n1";
    DoAppendResponse 18 (ms 872); DoPropose "n1" "k" "good"; DoReplicate "n1" "n3"; DoAppend 20 (ms 873); DoAppendResponse 21 (ms 874);
    DoReplicate "n1" "n2"; DoAppend 22 (ms 925)] ++
   concat (replicate 101 [DoFetch "n1"; DoStore "n1" (ms 1100); DoFinish "n1"]) ++ [DoFetch "n1"] ++
   concat (replicate 101 [DoFetch "n2"; DoStore "n2" (ms 1100); DoFinish "n2"]) ++ [DoFetch "n2"])%list.

Definition ex_late_schedule : list Action := (ex_late_term1 ++ ex_late_terms ++ ex_late_answer)%list.
Definition ex_late : Cluster := default ex_slow_c0 (run (mkFaults false true true) ex_late_schedule ex_slow_c0).

Lemma ex_late_n1 : exists a, applying ex_late !! "n1" = Some a /\ ap_next a = 102 /\ le_value (ap_entry a) = "good".
Proof. eexists. by vm_compute. Qed.

Lemma ex_late_n2 : exists a, applying ex_late !! "n2" = Some a /\ ap_next a = 102 /\ le_value (ap_entry a) = "stale".
Proof. eexists. by vm_compute. Qed.

(** C23: without a check that a response belongs to the present term, state
    machine safety fails.  There is a run of three nodes without restarts and
    snapshots, in which a node has at most one AppendEntries call waiting, that
    ends with two nodes applying different entries at one index.  The call that
    is answered late waits for about half a second, across two elections: it
    takes a [rpc_timeout_ms] longer than that (here 2000; the default is 50), and
    nothing relates it to the election timeouts. *)
Theorem late_response_breaks_safety :
  exists c a1 a2, quietly_reachable ex_members ex_slow_cfg c /\
    applying c !! "n1" = Some a1 /\ applying c !! "n2" = Some a2 /\ ap_next a1 = 102 /\ ap_next a2 = 102 /\
    le_value (ap_entry a1) = "good" /\ le_value (ap_entry a2) = "stale".
Proof.
  destruct ex_late_n1 as (a1 & H1 & N1 & V1). destruct ex_late_n2 as (a2 & H2 & N2 & V2). exists ex_late, a1, a2.
  split; [|exact (conj H1 (conj H2 (conj N1 (conj N2 (conj V1 V2)))))]. exists ex_slow_c0. split; [apply ex_slow_init|].
  apply (run_sound ex_slow_cfg (mkFaults false true true) ex_late_schedule). by vm_compute.
Qed.
End RefinementExamples.
