(* ===== verification/RaftStore.v ===== *)
(** * The replicated store

    [RaftNode] and [KVStore] together: what the apply loops of a cluster make of
    the stores.  [rep_apply] is the state machine that is replicated, a function
    of the log alone; what a store holds besides are readings of the local clock.
    In the runs of [RaftRefinement] without compare-and-swap, which writes to one
    store and not to the log, the store of every node is at every moment the
    state of this machine after the entries the node has applied, so that
    replicas at the same index answer alike.

    On top of it, what the answer of [Propose] is worth: if the leader has not
    changed its term since it took the proposal, an acknowledged write is in the
    log of every node that has come so far, and can be read there.  [Propose]
    does not compare the terms, and the last section shows a run in which it
    acknowledges a write that is lost. *)
From S2P Require Import Prelude CxxString CxxMap Json KVStore RaftRPC WriteAheadLog RaftLog RaftNode RaftCluster RaftReplication.
From S2P Require Import RaftLogMatching RaftRun RaftSpec RaftRefinement.
From Stdlib Require Import ZArith Lia Ascii String.
From stdpp Require Import prelude gmap strings relations.
#[local] Open Scope Z_scope.

(** ** The state machine *)

(** An entry without the clock readings: of the deadline only whether there is
    one. *)
Record RepEntry := mkRepEntry {
  rp_value : string;
  rp_version : Z;
  rp_index : Z;
  rp_expires : bool;
}.

Definition rep (e : KVEntry) : RepEntry :=
  mkRepEntry (kv_value e) (kv_version e) (kv_raftIndex e) (match kv_expiresAt e with Some _ => true | None => false end).

Definition rep_view (s : KVStore) : gmap string RepEntry := rep <$> view s.

Definition rep_apply (m : gmap string RepEntry) (e : LogEntry) : gmap string RepEntry :=
  match le_opType e with
  | OpPut =>
      let version := match m !! le_key e with Some old => u64 (rp_version old + 1) | None => 1 end in
      <[le_key e := mkRepEntry (le_value e) version (le_index e) (0 <? le_ttl_ms e)]> m
  | OpDelete => delete (le_key e) m
  | OpNoOp | OpOther _ => m
  end.

Definition rep_state (l : list LogEntry) : gmap string RepEntry := foldl rep_apply ∅ l.

(** The entries of a log that [n] applications have consumed; the first element
    of [entries_] is the sentinel. *)
Definition applied_part (n : nat) (l : list LogEntry) : list LogEntry := take n (drop 1 l).

Lemma ApplyEntry_rep now e s : store_wf s ->
  store_wf (ApplyEntry now e s).1.1 /\ rep_view (ApplyEntry now e s).1.1 = rep_apply (rep_view s) e.
Proof.
  intros W. unfold ApplyEntry, rep_apply, rep_view. destruct (le_opType e); [|..|done]; try done.
  - set (ttl := if 0 <? le_ttl_ms e then Some (le_ttl_ms e) else None).
    destruct (kv_step_refines s (op_put now (le_key e) (le_value e) (le_index e) ttl) W) as [W' E]. cbn [kv_impl kv_spec] in W', E.
    destruct (Put now _ _ _ ttl s) as [[r s'] ns]. cbn [fst snd] in *. split; [done|]. injection E as E _. rewrite <- E, fmap_insert, lookup_fmap. f_equal.
    unfold ttl. destruct (view s !! le_key e), (0 <? le_ttl_ms e); done.
  - destruct (kv_step_refines s (op_delete (le_key e) (le_index e)) W) as [W' E]. cbn [kv_impl kv_spec] in W', E.
    destruct (KVStore.Delete _ _ s) as [[r s'] ns]. cbn [fst snd] in *. split; [done|]. injection E as E _. by rewrite <- E, fmap_delete.
Qed.

Lemma rep_state_snoc l e : rep_state (l ++ [e]) = rep_apply (rep_state l) e.
Proof. unfold rep_state. by rewrite foldl_app. Qed.

(** What a read sees of it. *)
Lemma Get_rep now k s : rep <$> Get now k s =
  match view s !! k with Some e => if expired now e then None else rep_view s !! k | None => None end.
Proof. rewrite Get_view. unfold rep_view. rewrite lookup_fmap. destruct (view s !! k) as [e|]; [|done]. by destruct (expired now e). Qed.

Lemma Get_permanent now k s r : rep_view s !! k = Some r -> rp_expires r = false -> rep <$> Get now k s = Some r.
Proof.
  intros Hr Hx. rewrite Get_rep, Hr. unfold rep_view in Hr. rewrite lookup_fmap in Hr. destruct (view s !! k) as [e|]; [|done].
  injection Hr as <-. unfold rep, expired in *. simpl in *. by destruct (kv_expiresAt e).
Qed.

(** An entry decides its key until another one does. *)
Definition writes (k : string) (e : LogEntry) : bool :=
  match le_opType e with OpPut | OpDelete => String.eqb (le_key e) k | _ => false end.

Lemma rep_apply_other k m e : writes k e = false -> rep_apply m e !! k = m !! k.
Proof.
  unfold writes, rep_apply. destruct (le_opType e); try done; intros Hk%String.eqb_neq; [by rewrite lookup_insert_ne|by rewrite lookup_delete_ne].
Qed.

Lemma rep_state_kept k l1 l2 : Forall (fun e => writes k e = false) l2 -> rep_state (l1 ++ l2) !! k = rep_state l1 !! k.
Proof.
  intros Hl. induction l2 as [|e l2 IH] using rev_ind; [by rewrite app_nil_r|]. apply Forall_app in Hl as [H1 H2].
  rewrite app_assoc, rep_state_snoc, rep_apply_other by (by inversion H2). auto.
Qed.

(** ** What the sections leave alone *)

Definition same_store (n n' : RaftNode) : Prop := store_ n' = store_ n /\ lastApplied_ n' = lastApplied_ n.

#[export] Instance same_store_preorder : PreOrder same_store.
Proof. split; [done|]. intros a b c [? ?] [? ?]. split; congruence. Qed.

Lemma withLog_store {A} (m : M RaftLog A) : keeps same_store (withLog m).
Proof. intros n. unfold withLog. by destruct (m (log_ n)). Qed.

Lemma init_peers_store li ps n : same_store n (init_peers li ps n).
Proof. revert n. induction ps as [|p ps IH]; intros n; [done|]. simpl. etrans; [|apply IH]. done. Qed.

Lemma AdvanceCommitIndex_store n : same_store n (AdvanceCommitIndex n).
Proof. unfold AdvanceCommitIndex. by destruct (commit_loop _ _ _). Qed.

#[local] Hint Resolve withLog_store init_peers_store AdvanceCommitIndex_store : orc.
#[local] Hint Extern 1 (same_store _ _) => done : orc.

Section Sections.
Context `{JsonLib}.

Lemma PersistHardState_store : keeps same_store PersistHardState.
Proof. unfold PersistHardState. keeps_tac; auto with orc. Qed.

Lemma BecomeFollower_store now t i : keeps same_store (BecomeFollower now t i).
Proof. unfold BecomeFollower, ResetElectionTimer. keeps_tac; auto using PersistHardState_store with orc. Qed.

Lemma StartElection_begin_store now : keeps same_store (StartElection_begin now).
Proof. unfold StartElection_begin. keeps_tac; auto using PersistHardState_store with orc. Qed.

Lemma StartElection_turn_store now t o : keeps same_store (StartElection_turn now t o).
Proof.
  intros n. unfold StartElection_turn. destruct o as [resp|]; [|done].
  assert (keeps same_store (StartElection_response now t resp)) as Hr.
  { unfold StartElection_response. keeps_tac. apply BecomeFollower_store. }
  specialize (Hr n). by destruct (StartElection_response now t resp n).
Qed.

Lemma StartElection_finish_store t v : keeps same_store (StartElection_finish t v).
Proof. unfold StartElection_finish, BecomeLeader. keeps_tac; auto with orc. Qed.

Lemma HandleRequestVote_store now req : keeps same_store (HandleRequestVote now req).
Proof. unfold HandleRequestVote, ResetElectionTimer. keeps_tac; auto using BecomeFollower_store, PersistHardState_store with orc. Qed.

Lemma HandleAppendEntries_store now req : keeps same_store (HandleAppendEntries now req).
Proof.
  unfold HandleAppendEntries, ResetElectionTimer. keeps_tac; auto using BecomeFollower_store with orc.
  destruct (check_prev _ _ _); keeps_tac; auto with orc. by case_if.
Qed.

Lemma ReplicateToPeer_response_store now p req resp : keeps same_store (ReplicateToPeer_response now p req resp).
Proof.
  intros n. unfold ReplicateToPeer_response, catch_all. cbn [fst]. revert n. match goal with |- forall n, same_store n (?m n).1 => change (keeps same_store m) end.
  keeps_tac; auto using BecomeFollower_store with orc.
Qed.

Lemma Propose_begin_store k v op ttl : keeps same_store (Propose_begin k v op ttl).
Proof. unfold Propose_begin. keeps_tac; auto with orc. Qed.
End Sections.

(** ** The store of every node is the state of the machine *)

Lemma applied_part_prefix l l' c k : (c < length l)%nat -> take (S c) l `prefix_of` l' -> (k <= c)%nat -> applied_part k l' = applied_part k l.
Proof.
  intros Hc Hp Hk. unfold applied_part. rewrite !take_drop_commute. f_equal.
  rewrite <- (prefix_take_eq _ l' (1 + k) Hp) by (rewrite length_take; lia). rewrite take_take. f_equal. lia.
Qed.

Lemma applied_part_S l k e : l !! S k = Some e -> applied_part (S k) l = applied_part k l ++ [e].
Proof. intros He. unfold applied_part. apply take_S_r. by rewrite lookup_drop. Qed.

(** How many entries the store of node [i] has taken: [lastApplied_], and one
    more when the apply loop is between [ApplyEntry] and its store to
    [lastApplied_]. *)
Definition taken (c : Cluster) (i : string) (n : RaftNode) : Z :=
  lastApplied_ n + match applying c !! i with Some a => Z.b2z (ap_stored a) | None => 0 end.

Record rep_node (c : Cluster) (i : string) (n : RaftNode) : Prop := {
  rn_wf : store_wf (store_ n);
  rn_applied : 0 <= lastApplied_ n <= commitIndex_ n;
  rn_next a : applying c !! i = Some a -> ap_next a = lastApplied_ n + 1;
  rn_store : rep_view (store_ n) = rep_state (applied_part (Z.to_nat (taken c i n)) (entries_ (log_ n)));
}.

Definition rep_inv (c : Cluster) : Prop := map_Forall (rep_node c) (nodes c).

Section Replicas.
Context {J : JsonLib} {L : JsonLaws J}.
Variable members : list string.
Variable cfg : string -> RaftConfig.
Hypothesis config_ok : cluster_config members cfg.

(** The runs in which the stores are written by the apply loops only: those of
    [RaftRefinement] without compare-and-swap. *)
Definition logged_step (c c' : Cluster) : Prop := small c /\ step cfg (mkFaults false false false) c c'.

Definition logged_reachable (c : Cluster) : Prop := exists c0, cluster_init members cfg c0 /\ rtc logged_step c0 c.

Lemma step_swaps b l c c' : step cfg (mkFaults b l false) c c' -> step cfg (mkFaults b l true) c c'.
Proof.
  intros Hs. destruct Hs; [by eapply st_election|by eapply st_vote|by eapply st_vote_response|by eapply st_election_end|by eapply st_replicate
    |by eapply st_append|by eapply st_append_response|by eapply st_call_lost|by eapply st_propose|done|by eapply st_apply_fetch|by eapply st_apply_store
    |by eapply st_apply_finish|by eapply st_snapshot|by eapply st_restart].
Qed.

Lemma logged_prompt c c' : rtc logged_step c c' -> rtc (prompt_step cfg) c c'.
Proof. apply rtc_subrel. intros x y [? ?]. split; [done|by apply step_swaps]. Qed.

Lemma logged_reach c : logged_reachable c -> promptly_reachable members cfg c.
Proof. intros (c0 & H0 & Hr). exists c0. split; [done|by apply logged_prompt]. Qed.

Lemma logged_steps c c' : logged_reachable c -> rtc logged_step c c' -> logged_reachable c'.
Proof. intros (c0 & H0 & Hr) Hs. exists c0. split; [done|by etrans]. Qed.

Section Step.
Context (F : gmap (nat * Z) (list LogEntry)) (c : Cluster).
Hypothesis R : poised members cfg F c.
Hypothesis V : rep_inv c.

Lemma commit_lt i n : nodes c !! i = Some n -> (Z.to_nat (commitIndex_ n) < length (entries_ (log_ n)))%nat.
Proof.
  intros Hn. destruct (ainv_here members cfg F c R) as [H I]. exact (an_commit _ _ _ _ _ (ai_node _ _ _ I i _ (abs_lookup c i n Hn))).
Qed.

Lemma taken_bound i n : nodes c !! i = Some n -> 0 <= taken c i n <= commitIndex_ n.
Proof.
  intros Hn. destruct (V i n Hn) as [_ Ha Hx _]. unfold taken. destruct (applying c !! i) as [a|] eqn:E; [|lia].
  destruct (rd_apply _ _ _ _ R i a E) as (n1 & Hn1 & Hb & _). rewrite Hn in Hn1. injection Hn1 as <-. specialize (Hx a eq_refl).
  destruct (ap_stored a); simpl; lia.
Qed.

(** A node whose store and apply loop do not move. *)
Lemma rep_kept c' i n n' : rtc (astep members) (abs c) (abs c') -> sim members c' -> nodes c !! i = Some n -> nodes c' !! i = Some n' ->
  same_store n n' -> applying c' !! i = applying c !! i -> rep_node c' i n'.
Proof.
  intros Hs Hsim Hn Hn' [Es El] Ea. pose proof (taken_bound i n Hn) as Hb. destruct (V i n Hn) as [W Ha Hx Hst].
  destruct (commits_stay_run members (abs c) (abs c') i (abs_node n) (rd_reach _ _ _ _ R) Hs (abs_lookup c i n Hn)) as (x & Hx' & Hc & Hp).
  rewrite (abs_lookup c' i n' Hn') in Hx'. injection Hx' as <-. cbn [abs_node a_commit a_log] in Hc, Hp.
  pose proof (sn_commit _ _ _ (sm_node _ c' Hsim i n' Hn')). split.
  - by rewrite Es.
  - rewrite El. lia.
  - intros a. rewrite Ea, El. apply Hx.
  - unfold taken in *. rewrite Es, El, Ea, Hst. f_equal. symmetry. eapply applied_part_prefix; [by apply (commit_lt i)|exact Hp|lia].
Qed.

Lemma rep_moved c' i n n' : rtc (astep members) (abs c) (abs c') -> sim members c' -> nodes c !! i = Some n -> nodes c' = <[i := n']> (nodes c) ->
  same_store n n' -> applying c' = applying c -> rep_inv c'.
Proof.
  intros Hs Hsim Hn En Hst Ea k x Hk. pose proof Hk as Hk'. rewrite En, lookup_insert in Hk'. case_decide as Ek.
  - subst k. injection Hk' as <-. apply (rep_kept c' i n); try done. by rewrite Ea.
  - apply (rep_kept c' k x); try done. by rewrite Ea.
Qed.

Lemma rep_fetch c' i n next e : rtc (astep members) (abs c) (abs c') -> sim members c' -> nodes c !! i = Some n -> applying c !! i = None ->
  ApplyLoop_fetch n = Some (next, e) -> c' = set_applying i (Some (mkApplying next e false)) c -> rep_inv c'.
Proof.
  intros Hs Hsim Hn Ha Hf -> k x Hk. destruct (decide (k = i)) as [->|Hne]; [|apply (rep_kept _ k x); simpl; try done; by rewrite lookup_insert_ne].
  cbn [set_applying nodes] in Hk. rewrite Hn in Hk. injection Hk as <-. destruct (V i n Hn) as [W Hb _ Hst]. split; [done|done| |].
  - intros a. simpl. rewrite lookup_insert_eq. intros [= <-]. cbn [ap_next]. unfold ApplyLoop_fetch in Hf. case_if_in Hf; [|done]. bool_prop.
    destruct (GetEntry (log_ n) _); [|done]. injection Hf as <- _. destruct (log_facts members cfg F c R i n Hn) as (_ & _ & Hroom).
    pose proof (commit_lt i n Hn). unfold len in Hroom. apply u64_small. unfold is_u64. lia.
  - unfold taken in *. rewrite Ha in Hst. simpl. rewrite lookup_insert_eq. exact Hst.
Qed.

Lemma rep_stored c' i n a now : rtc (astep members) (abs c) (abs c') -> sim members c' -> nodes c !! i = Some n -> applying c !! i = Some a ->
  ap_stored a = false -> c' = set_applying i (Some (mkApplying (ap_next a) (ap_entry a) true))
      (set_node i (set_store (ApplyEntry now (ap_entry a) (store_ n)).1.1 n) c) -> rep_inv c'.
Proof.
  intros Hs Hsim Hn Ha Hf -> k x Hk. destruct (decide (k = i)) as [->|Hne].
  2: { cbn [set_applying set_node nodes] in Hk. rewrite lookup_insert_ne in Hk by done. apply (rep_kept _ k x); simpl; rewrite ?lookup_insert_ne by done; done. }
  cbn [set_applying set_node nodes] in Hk. rewrite lookup_insert_eq in Hk. injection Hk as <-. destruct (V i n Hn) as [W Hb Hx Hst].
  destruct (ApplyEntry_rep now (ap_entry a) (store_ n) W) as [W' E]. destruct (rd_apply _ _ _ _ R i a Ha) as (n1 & Hn1 & _ & He).
  rewrite Hn in Hn1. injection Hn1 as <-. rewrite (Hx a Ha) in He. split; [done|done| |].
  - intros b. simpl. rewrite lookup_insert_eq. intros [= <-]. exact (Hx a Ha).
  - replace (Z.to_nat (lastApplied_ n + 1)) with (S (Z.to_nat (lastApplied_ n))) in He by lia.
    unfold taken in *. rewrite Ha, Hf in Hst. simpl in Hst |- *. rewrite lookup_insert_eq, E, Hst, Z.add_0_r, <- rep_state_snoc, <- (applied_part_S _ _ _ He).
    do 2 f_equal. simpl. lia.
Qed.

Lemma rep_finished c' i n a : rtc (astep members) (abs c) (abs c') -> sim members c' -> nodes c !! i = Some n -> applying c !! i = Some a ->
  ap_stored a = true -> c' = set_applying i None (set_node i (ApplyLoop_finish (ap_next a) n) c) -> rep_inv c'.
Proof.
  intros Hs Hsim Hn Ha Hf -> k x Hk. destruct (decide (k = i)) as [->|Hne].
  2: { cbn [set_applying set_node nodes] in Hk. rewrite lookup_insert_ne in Hk by done. apply (rep_kept _ k x); simpl; rewrite ?lookup_insert_ne, ?lookup_delete_ne by done; done. }
  cbn [set_applying set_node nodes] in Hk. rewrite lookup_insert_eq in Hk. injection Hk as <-. destruct (V i n Hn) as [W Hb Hx Hst].
  destruct (rd_apply _ _ _ _ R i a Ha) as (n1 & Hn1 & Hbn & _). rewrite Hn in Hn1. injection Hn1 as <-. split; [done|done| |].
  - intros b. simpl. by rewrite lookup_delete_eq.
  - unfold taken in *. rewrite Ha, Hf in Hst. simpl in Hst |- *. rewrite lookup_delete_eq, Hst, (Hx a Ha), Z.add_0_r. done.
Qed.

(** The refinement of a step and the stores. *)
#[local] Ltac moved_by i n n' Hn := apply (rep_moved _ i n n'); [done|done|exact Hn|simpl; by try case_if| |simpl; by try case_if].

Lemma rep_step c' : step cfg (mkFaults false false false) c c' -> rep_inv c'.
Proof.
  intros Hstep. destruct (refine_step members cfg config_ok F c R c' (step_swaps _ _ _ _ Hstep)) as [[Hsim Hs] _].
  destruct Hstep as [i n n' req now Hn _ Hl Hb Hr|i n n' from req resp now Hn Hm Hr|i n n' e p rest o stop v now Hn He Hp Ho Hr
    |i n e Hn He Hp|i n p req Hn _ Hin Hr|i n n' from req r now Hn Hm Hr|i n p req resp now Hn _ Hm Hf|i n q Hn _|i n k v op ttl Hn _ _|i n now key expected value Hfalse _ _
    |i n next e Hn Ha Hf|i n a now Hn Ha Hf|i n a Hn Ha Hf|i n now Hn Ha|i n n' j clock now Hfalse _ _ _]; try done.
  - moved_by i n n' Hn. pose proof (StartElection_begin_store now n) as E. by rewrite Hr in E.
  - moved_by i n n' Hn. pose proof (HandleRequestVote_store now req n) as E. by rewrite Hr in E.
  - moved_by i n n' Hn. pose proof (StartElection_turn_store now (el_term e) o n) as E. by rewrite Hr in E.
  - moved_by i n (StartElection_finish (el_term e) (el_votes e) n).1 Hn. apply StartElection_finish_store.
  - apply (rep_moved _ i n n); try done. simpl. by rewrite insert_id.
  - moved_by i n n' Hn. pose proof (HandleAppendEntries_store now req n) as E. by rewrite Hr in E.
  - moved_by i n (ReplicateToPeer_response now p req resp n).1 Hn. apply ReplicateToPeer_response_store.
  - apply (rep_moved _ i n n); try done. simpl. by rewrite insert_id.
  - moved_by i n (Propose_begin k v op ttl n).1 Hn. apply Propose_begin_store.
  - by apply (rep_fetch _ i n next e).
  - by apply (rep_stored _ i n a now).
  - by apply (rep_finished _ i n a).
  - moved_by i n (MaybeSnapshot now n).1 Hn. by rewrite MaybeSnapshot_small by (by apply (rd_small _ _ _ _ R i n)).
Qed.
End Step.

Lemma rep_init c : cluster_init members cfg c -> rep_inv c.
Proof.
  intros (_ & Hnew & _ & Hap & _) i n Hn. destruct (Hnew i n Hn) as (clock & now & ->). split; [constructor|done|intros a; by rewrite Hap, lookup_empty|].
  unfold taken. rewrite Hap, lookup_empty. exact (fmap_empty rep).
Qed.

Lemma rep_reach c : logged_reachable c -> rep_inv c.
Proof.
  intros (c0 & H0 & Hrun). revert c Hrun. apply (rtc_ind_r rep_inv c0); [by apply rep_init|]. intros c1 c2 Hr [Hsm Hstep] IH.
  destruct (prompt_run members cfg config_ok c0 c1 H0 (logged_prompt c0 c1 Hr)) as ((I & F & Il) & (Hsim & Hrtc) & Hap).
  apply (rep_step F c1); [|done|done]. split; try done. exists (abs c0). split; [apply (init_abs members cfg c0 H0)|done].
Qed.

Lemma applied_part_ext k l l' : (forall m, (1 <= m <= k)%nat -> l !! m = l' !! m) -> applied_part k l = applied_part k l'.
Proof.
  intros He. apply list_eq. intros m. unfold applied_part. rewrite !lookup_take. case_decide; [|done]. rewrite !lookup_drop. apply He. lia.
Qed.

(** What a node has committed at some time another one has then or later, if it
    has come so far. *)
Lemma committed_later c1 c2 i j n1 n2 k : promptly_reachable members cfg c1 -> rtc (prompt_step cfg) c1 c2 ->
  nodes c1 !! i = Some n1 -> nodes c2 !! j = Some n2 -> (k <= Z.to_nat (commitIndex_ n1))%nat -> (k <= Z.to_nat (commitIndex_ n2))%nat ->
  entries_ (log_ n2) !! k = entries_ (log_ n1) !! k /\ is_Some (entries_ (log_ n1) !! k).
Proof.
  intros Hr Hs H1 H2 Hk1 Hk2. destruct (prompt_steps members cfg config_ok c1 c2 Hr Hs) as [Hr2 Hs2].
  destruct (prompt_reach members cfg config_ok c1 Hr) as (Hreach & _). destruct (prompt_reach members cfg config_ok c2 Hr2) as (Hreach2 & _).
  destruct (commits_stay_run members (abs c1) (abs c2) i (abs_node n1) Hreach Hs2 (abs_lookup c1 i n1 H1)) as (x & Hx & Hc & Hp).
  cbn [abs_node a_commit a_log] in Hc, Hp.
  destruct (commits_agree members (abs c1) i i (abs_node n1) (abs_node n1) k Hreach) as [_ [e He]]; try (by apply abs_lookup); try done.
  destruct (commits_agree members (abs c2) i j x (abs_node n2) k Hreach2 Hx (abs_lookup c2 j n2 H2)) as [Hag _]; [lia|done|].
  cbn [abs_node a_log] in He, Hag. rewrite <- Hag, He. split; [|done]. eapply prefix_lookup_Some; [|exact Hp]. by rewrite lookup_take_lt by lia.
Qed.

Lemma log_at c i n : promptly_reachable members cfg c -> nodes c !! i = Some n ->
  forall k, 0 <= k -> log_lookup (log_ n) k = entries_ (log_ n) !! Z.to_nat k.
Proof.
  intros Hr Hn k Hk. destruct (prompt_reach members cfg config_ok c Hr) as (_ & _ & _ & F & Il). by apply (lookup_abs members F c i n k).
Qed.

Lemma replicas_at c i n : logged_reachable c -> nodes c !! i = Some n -> rep_node c i n /\ 0 <= taken c i n <= commitIndex_ n.
Proof.
  intros Hr Hn. pose proof (rep_reach c Hr) as V. destruct (prompt_reach members cfg config_ok c (logged_reach c Hr)) as (_ & _ & Hap & _).
  split; [by apply V|]. destruct (V i n Hn) as [_ Hb Hx _]. unfold taken. destruct (applying c !! i) as [a|] eqn:E; [|lia].
  destruct (Hap i a E) as (n1 & Hn1 & Hbn & _). rewrite Hn in Hn1. injection Hn1 as <-. specialize (Hx a eq_refl). destruct (ap_stored a); simpl; lia.
Qed.
End Replicas.

(** A proposal that was taken. *)
Lemma Propose_begin_taken `{JsonLib} k v op ttl n n' index : Propose_begin k v op ttl n = (n', Ok (inr index)) ->
  role_ n = Leader /\ role_ n' = Leader /\ currentTerm_ n' = currentTerm_ n /\ index = u64 (LastIndex (log_ n) + 1) /\
  exists command, entries_ (log_ n') = entries_ (log_ n) ++ [mkLogEntry (currentTerm_ n) index op k v ttl command].
Proof.
  intros Hp. pose proof (keeps_Propose_begin k v op ttl n) as (_ & Et & _ & Er & _). rewrite Hp in Et, Er. cbn [fst] in Et, Er.
  unfold Propose_begin in Hp. rewrite bind_getS in Hp. destruct (bool_decide_reflect (role_ n <> Leader)) as [|Hr]; [done|]. cbv zeta in Hp.
  assert (role_ n = Leader) as Hl by (by destruct (decide (role_ n = Leader))).
  destruct (LogEntry_Serialize _) as [command|]; [|done]. rewrite bind_lift_Ok in Hp. unfold mbind, M_bind, withLog in Hp.
  match type of Hp with context [Append ?e (log_ n)] => pose proof (Append_log e (log_ n)) as Ha; destruct (Append e (log_ n)) as [l [[]|]] end; [|done].
  injection Hp as <- <-. split_and!; [done|congruence|done|done|]. exists command. apply Ha.
Qed.

(** A write that [Propose] acknowledges in the term in which it took it is the
    entry of its index, and committed. *)
Lemma acknowledged_committed {J : JsonLib} {L : JsonLaws J} members cfg c1 i n1 n1' k v op ttl index c2 n2 :
  cluster_config members cfg -> promptly_reachable members cfg c1 -> small c1 -> nodes c1 !! i = Some n1 -> op_ok op -> is_i64 ttl ->
  Propose_begin k v op ttl n1 = (n1', Ok (inr index)) -> rtc (prompt_step cfg) (set_node i n1' c1) c2 -> nodes c2 !! i = Some n2 ->
  currentTerm_ n2 = currentTerm_ n1 -> pr_ok (Propose_finish index n2) = true ->
  promptly_reachable members cfg c2 /\ 1 <= index <= lastApplied_ n2 /\
  exists command, entries_ (log_ n2) !! Z.to_nat index = Some (mkLogEntry (currentTerm_ n1) index op k v ttl command).
Proof.
  intros Hcfg Hr Hsm Hn1 Hop Httl Hp Hs Hn2 Et Hok. destruct (Propose_begin_taken k v op ttl n1 n1' index Hp) as (Hl & Hl' & Et' & Ei & command & Ee).
  assert (prompt_step cfg c1 (set_node i n1' c1)) as Hstep.
  { split; [done|]. pose proof (st_propose cfg (mkFaults false false true) c1 i n1 k v op ttl Hn1 Hop Httl) as Hst. by rewrite Hp in Hst. }
  destruct (prompt_steps members cfg Hcfg c1 _ Hr (rtc_once _ _ Hstep)) as [Hr1 _].
  destruct (prompt_steps members cfg Hcfg _ c2 Hr1 Hs) as [Hr2 Hs2]. destruct (prompt_reach members cfg Hcfg _ Hr1) as (Hreach1 & _).
  assert (nodes (set_node i n1' c1) !! i = Some n1') as Hn1' by apply lookup_insert_eq.
  destruct (leads_stay_run members _ (abs c2) i (abs_node n1') Hreach1 Hs2 (abs_lookup _ i n1' Hn1') Hl') as (x & Hx & Hst).
  rewrite (abs_lookup c2 i n2 Hn2) in Hx. injection Hx as <-. destruct Hst as [Hlt|(_ & _ & Hpre)]; [cbn in Hlt; lia|]. cbn [abs_node a_log] in Hpre.
  destruct (prompt_reach members cfg Hcfg c1 Hr) as (_ & _ & _ & F & Il). destruct (lm_nodes _ _ _ Il i n1 Hn1) as [[W S0 _] _].
  destruct (LastIndex_len _ W S0) as (HL & Hpos & _). pose proof (small_roomy members F c1 i n1 Il Hsm Hn1) as Hroom. unfold roomy in Hroom.
  rewrite u64_small in Ei by (unfold is_u64, len in *; lia). split; [done|]. unfold Propose_finish in Hok.
  destruct (bool_decide (role_ n2 <> Leader)); [by destruct (index <=? _)|]. destruct (index <=? lastApplied_ n2) eqn:E; [|done]. bool_prop.
  split; [lia|]. exists command. eapply prefix_lookup_Some; [|exact Hpre]. rewrite Ee. apply list_lookup_middle. unfold len in *. lia.
Qed.

Lemma logged_propose {J : JsonLib} cfg c i n k v op ttl n' r : small c -> nodes c !! i = Some n -> op_ok op -> is_i64 ttl ->
  Propose_begin k v op ttl n = (n', r) -> rtc (logged_step cfg) c (set_node i n' c).
Proof.
  intros Hs Hn Hop Httl Hp. apply rtc_once. split; [done|].
  pose proof (st_propose cfg (mkFaults false false false) c i n k v op ttl Hn Hop Httl) as Hst. by rewrite Hp in Hst.
Qed.

(** The entry in the log and in the store of a node that has come so far. *)
Lemma acknowledged_rep {J : JsonLib} {L : JsonLaws J} members cfg c1 i n1 n1' k v ttl index c2 n2 c3 j n3 :
  cluster_config members cfg -> logged_reachable members cfg c1 -> small c1 -> nodes c1 !! i = Some n1 -> is_i64 ttl ->
  Propose_begin k v OpPut ttl n1 = (n1', Ok (inr index)) -> rtc (logged_step cfg) (set_node i n1' c1) c2 -> nodes c2 !! i = Some n2 ->
  currentTerm_ n2 = currentTerm_ n1 -> pr_ok (Propose_finish index n2) = true ->
  rtc (logged_step cfg) c2 c3 -> nodes c3 !! j = Some n3 -> index <= commitIndex_ n3 ->
  (exists command, log_lookup (log_ n3) index = Some (mkLogEntry (currentTerm_ n1) index OpPut k v ttl command)) /\
  (index <= taken c3 j n3 -> (forall m e, index < m <= taken c3 j n3 -> log_lookup (log_ n3) m = Some e -> writes k e = false) ->
   exists version, is_u64 version /\ rep_view (store_ n3) !! k = Some (mkRepEntry v version index (0 <? ttl))).
Proof.
  intros Hcfg Hr Hsm Hn1 Httl Hp Hs2 Hn2 Et Hok Hs3 Hn3 Hc3.
  destruct (acknowledged_committed members cfg c1 i n1 n1' k v OpPut ttl index c2 n2) as (Hp2 & Hi & command & He);
    try done; [by apply logged_reach|by apply logged_prompt|]. apply logged_reach in Hr as Hpr.
  assert (logged_reachable members cfg c2) as Hr2.
  { apply (logged_steps members cfg c1); [done|]. by etrans; [eapply logged_propose; by eauto|]. }
  pose proof (logged_steps members cfg c2 c3 Hr2 Hs3) as Hr3. pose proof (log_at members cfg Hcfg c3 j n3 (logged_reach _ _ _ Hr3) Hn3) as Hlk.
  destruct (replicas_at members cfg Hcfg c2 i n2 Hr2 Hn2) as ([_ B2 _ _] & _). destruct (replicas_at members cfg Hcfg c3 j n3 Hr3 Hn3) as ([_ _ _ E3] & B3).
  destruct (committed_later members cfg Hcfg c2 c3 i j n2 n3 (Z.to_nat index)) as [E23 _]; try done; [by apply logged_prompt|lia|lia|]. rewrite He in E23.
  split; [exists command; by rewrite Hlk by lia|]. intros Ht Hlast.
  set (l := entries_ (log_ n3)) in *. set (t := Z.to_nat (taken c3 j n3)) in *.
  assert (applied_part t l = applied_part (Z.to_nat index) l ++ drop (Z.to_nat index) (applied_part t l)) as El.
  { rewrite <- (take_drop (Z.to_nat index) (applied_part t l)) at 1. f_equal. unfold applied_part. rewrite take_take. f_equal. lia. }
  rewrite E3, El, rep_state_kept.
  - replace (Z.to_nat index) with (S (Z.to_nat (index - 1))) in E23 |- * by lia. rewrite (applied_part_S _ _ _ E23), rep_state_snoc.
    unfold rep_apply at 1. cbn [le_opType le_key le_value le_index le_ttl_ms]. rewrite lookup_insert_eq. eexists. split; [|done].
    case_match; [apply u64_range|by unfold is_u64].
  - apply Forall_lookup. intros x e Hx. rewrite lookup_drop in Hx. unfold applied_part in Hx.
    apply lookup_take_Some in Hx as [Hx Hlt]. rewrite lookup_drop in Hx. apply (Hlast (Z.of_nat (1 + (Z.to_nat index + x)))); [lia|].
    rewrite Hlk, Nat2Z.id by lia. exact Hx.
Qed.

(** ** Theorems *)

(** C6: the replicas agree, in runs without restarts, snapshots and
    compare-and-swap in which a leader handles responses in the term of their
    requests.  The store of a node is, clock readings aside, the state of the
    replicated machine after the entries it has taken from its own log; and any
    two nodes that have taken the same number of entries, at the same or at
    different times, hold the same keys with the same values, versions and
    indices. *)
Theorem replicas_agree {J : JsonLib} {L : JsonLaws J} members cfg c1 c2 i j n1 n2 :
  cluster_config members cfg -> logged_reachable members cfg c1 -> rtc (logged_step cfg) c1 c2 ->
  nodes c1 !! i = Some n1 -> nodes c2 !! j = Some n2 ->
  rep_view (store_ n1) = rep_state (applied_part (Z.to_nat (taken c1 i n1)) (entries_ (log_ n1))) /\
  (taken c1 i n1 = taken c2 j n2 -> rep_view (store_ n1) = rep_view (store_ n2)).
Proof.
  intros Hcfg Hr Hs H1 H2. pose proof (logged_steps members cfg c1 c2 Hr Hs) as Hr2.
  destruct (replicas_at members cfg Hcfg c1 i n1 Hr H1) as ([_ _ _ E1] & B1). destruct (replicas_at members cfg Hcfg c2 j n2 Hr2 H2) as ([_ _ _ E2] & B2).
  split; [done|]. intros Et. rewrite E1, E2, Et. f_equal. apply applied_part_ext. intros m Hm. symmetry.
  apply (committed_later members cfg Hcfg c1 c2 i j n1 n2 m); try done; [by apply logged_reach|by apply logged_prompt|lia|lia].
Qed.

(** C7: acknowledged writes, in runs without restarts, snapshots and
    compare-and-swap in which a leader handles responses in the term of their
    requests.  If [Propose] answers a PUT with success while the node is in the
    term in which it took the proposal, then the entry is at its index in the
    log of every node that has committed so far, then and ever after; and a node
    that has taken it into its store, and no later entry for the key, answers a
    read of the key with the value written, if it was written without a TTL. *)
Theorem acknowledged_write {J : JsonLib} {L : JsonLaws J} members cfg c1 i n1 n1' k v ttl index c2 n2 c3 j n3 :
  cluster_config members cfg -> logged_reachable members cfg c1 -> small c1 -> nodes c1 !! i = Some n1 -> is_i64 ttl ->
  Propose_begin k v OpPut ttl n1 = (n1', Ok (inr index)) -> rtc (logged_step cfg) (set_node i n1' c1) c2 -> nodes c2 !! i = Some n2 ->
  currentTerm_ n2 = currentTerm_ n1 -> pr_ok (Propose_finish index n2) = true ->
  rtc (logged_step cfg) c2 c3 -> nodes c3 !! j = Some n3 -> index <= commitIndex_ n3 ->
  (exists command, log_lookup (log_ n3) index = Some (mkLogEntry (currentTerm_ n1) index OpPut k v ttl command)) /\
  (index <= taken c3 j n3 -> ttl <= 0 ->
   (forall m e, index < m <= taken c3 j n3 -> log_lookup (log_ n3) m = Some e -> writes k e = false) ->
   forall now, kv_value <$> Get now k (store_ n3) = Some v).
Proof.
  intros Hcfg Hr Hsm Hn1 Httl Hp Hs2 Hn2 Et Hok Hs3 Hn3 Hc3.
  destruct (acknowledged_rep members cfg c1 i n1 n1' k v ttl index c2 n2 c3 j n3) as [Hlog Hrep]; try done. split; [done|].
  intros Ht Hpos Hlast now. destruct (Hrep Ht Hlast) as (version & _ & Ek).
  pose proof (Get_permanent now k (store_ n3) _ Ek) as Hg. cbn [rp_expires] in Hg. specialize (Hg ltac:(lia)).
  by destruct (Get now k (store_ n3)) as [e|]; [injection Hg as <-|].
Qed.

(** ** Witnesses *)

Section StoreExamples.
#[local] Existing Instance RefJson.
#[local] Open Scope string_scope.
#[local] Open Scope Z_scope.

#[local] Abbreviation go := (run (mkFaults false false false)).
Definition node_of (i : string) (c : Cluster) : RaftNode :=
  default (RaftNode_new (ex_cfg i) KVStore_new (Some []) (fun _ => 0) 0).1 (nodes c !! i).

Lemma go_sound schedule c c' : go schedule c = Some c' -> rtc (logged_step ex_cfg) c c'.
Proof. apply (run_sound ex_cfg (mkFaults false false false) schedule). Qed.

(** [n1] is elected and takes a proposal, replicates it to [n2] and applies it;
    [n2] applies it later, with another clock. *)
Definition ex_turn (i : string) (now : Z) : list Action := [DoFetch i; DoStore i now; DoFinish i].
Definition ex_led : Cluster := default ex_c0 (go ex_elected ex_c0).
Definition ex_taken : Cluster := set_node "n1" (Propose_begin "k" "v" OpPut (-1) (node_of "n1" ex_led)).1 ex_led.
Definition ex_commit_schedule : list Action :=
  ([DoReplicate "n1" "n2"; DoAppend 3 300; DoAppendResponse 4 301; DoReplicate "n1" "n2"; DoAppend 5 302] ++ ex_turn "n1" 800 ++ ex_turn "n1" 801)%list.
Definition ex_acked : Cluster := default ex_c0 (go ex_commit_schedule ex_taken).
Definition ex_spread_schedule : list Action := (ex_turn "n2" 900 ++ ex_turn "n2" 901)%list.
Definition ex_spread : Cluster := default ex_c0 (go ex_spread_schedule ex_acked).

Lemma ex_led_run : go ex_elected ex_c0 = Some ex_led.
Proof. by vm_compute. Qed.
Lemma ex_acked_run : go ex_commit_schedule ex_taken = Some ex_acked.
Proof. by vm_compute. Qed.
Lemma ex_spread_run : go ex_spread_schedule ex_acked = Some ex_spread.
Proof. by vm_compute. Qed.

Lemma ex_led_reachable : logged_reachable ex_members ex_cfg ex_led.
Proof. exists ex_c0. split; [apply ex_init|]. exact (go_sound _ _ _ ex_led_run). Qed.
Lemma ex_led_small : small ex_led.
Proof. apply small_check_ok. by vm_compute. Qed.
Lemma ex_led_n1 : nodes ex_led !! "n1" = Some (node_of "n1" ex_led).
Proof. by vm_compute. Qed.
Lemma ex_taken_n1 : Propose_begin "k" "v" OpPut (-1) (node_of "n1" ex_led) = ((Propose_begin "k" "v" OpPut (-1) (node_of "n1" ex_led)).1, Ok (inr 2)).
Proof. by vm_compute. Qed.
Lemma ex_taken_step : rtc (logged_step ex_cfg) ex_led ex_taken.
Proof.
  apply rtc_once. split; [exact ex_led_small|]. refine (st_propose ex_cfg (mkFaults false false false) ex_led "n1" _ "k" "v" OpPut (-1) ex_led_n1 _ _); [done|].
  unfold is_i64. lia.
Qed.
Lemma ex_acked_reachable : logged_reachable ex_members ex_cfg ex_acked.
Proof.
  destruct ex_led_reachable as (c0 & H0 & Hr). exists c0. split; [exact H0|].
  etrans; [exact Hr|]. etrans; [exact ex_taken_step|exact (go_sound _ _ _ ex_acked_run)].
Qed.
Lemma ex_acked_n1 : nodes ex_acked !! "n1" = Some (node_of "n1" ex_acked).
Proof. by vm_compute. Qed.
Lemma ex_spread_n2 : nodes ex_spread !! "n2" = Some (node_of "n2" ex_spread).
Proof. by vm_compute. Qed.

Lemma ex_same_taken : taken ex_acked "n1" (node_of "n1" ex_acked) = taken ex_spread "n2" (node_of "n2" ex_spread).
Proof. by vm_compute. Qed.

Lemma ex_rep_view : rep_view (store_ (node_of "n1" ex_acked)) = {["k" := mkRepEntry "v" 1 2 false]}.
Proof. by vm_compute. Qed.

(** The stores of [n1] and of [n2], which applied the entry later, with the same
    key; the times differ. *)
Lemma replicas_agree_witness :
  rep_view (store_ (node_of "n1" ex_acked)) = {["k" := mkRepEntry "v" 1 2 false]} /\
  rep_view (store_ (node_of "n1" ex_acked)) = rep_view (store_ (node_of "n2" ex_spread)) /\
  store_ (node_of "n1" ex_acked) <> store_ (node_of "n2" ex_spread).
Proof.
  split; [exact ex_rep_view|]. split; [|by vm_compute].
  apply (replicas_agree (L := RefJson_laws) ex_members ex_cfg ex_acked ex_spread "n1" "n2" (node_of "n1" ex_acked) (node_of "n2" ex_spread) ex_config_ok
    ex_acked_reachable (go_sound _ _ _ ex_spread_run) ex_acked_n1 ex_spread_n2). exact ex_same_taken.
Defined.

Lemma ex_ack_term : currentTerm_ (node_of "n1" ex_acked) = currentTerm_ (node_of "n1" ex_led).
Proof. by vm_compute. Qed.
Lemma ex_ack_ok : pr_ok (Propose_finish 2 (node_of "n1" ex_acked)) = true.
Proof. by vm_compute. Qed.
Lemma ex_spread_commit : 2 = commitIndex_ (node_of "n2" ex_spread).
Proof. by vm_compute. Qed.
Lemma ex_spread_taken : taken ex_spread "n2" (node_of "n2" ex_spread) = 2.
Proof. by vm_compute. Qed.

Lemma acknowledged_write_witness : kv_value <$> Get 1000 "k" (store_ (node_of "n2" ex_spread)) = Some "v".
Proof.
  apply (acknowledged_write (L := RefJson_laws) ex_members ex_cfg ex_led "n1" (node_of "n1" ex_led) _ "k" "v" (-1) 2 ex_acked (node_of "n1" ex_acked)
    ex_spread "n2" (node_of "n2" ex_spread) ex_config_ok ex_led_reachable ex_led_small ex_led_n1 ltac:(unfold is_i64; lia) ex_taken_n1
    (go_sound _ _ _ ex_acked_run) ex_acked_n1 ex_ack_term ex_ack_ok (go_sound _ _ _ ex_spread_run) ex_spread_n2).
  - rewrite <- ex_spread_commit. lia.
  - rewrite ex_spread_taken. lia.
  - lia.
  - intros m e Hm. rewrite ex_spread_taken in Hm. lia.
Defined.

(** ** A lost write is acknowledged *)

(** No log of the cluster has an entry with the value. *)
Definition value_gone (v : string) (c : Cluster) : bool :=
  forallb (fun kn => forallb (fun e => negb (String.eqb (le_value e) v)) (entries_ (log_ kn.2))) (map_to_list (nodes c)).

Lemma value_gone_ok v c : value_gone v c = true -> forall i n e, nodes c !! i = Some n -> e ∈ entries_ (log_ n) -> le_value e <> v.
Proof.
  unfold value_gone. rewrite forallb_forall. intros Hg i n e Hn He.
  specialize (Hg (i, n) ltac:(by apply list_elem_of_In, elem_of_map_to_list)). rewrite forallb_forall in Hg.
  specialize (Hg e ltac:(by apply list_elem_of_In)). by apply negb_true_iff, String.eqb_neq in Hg.
Qed.

(** Term 1: [n1] leads and takes the proposal, which it sends to nobody.  Term 2:
    [n2] leads and replicates another write at the same index, to [n1], whose answer
    does not arrive in time, and then to [n3], and commits it.  Term 3: [n1] leads again, commits and applies.  The
    caller of [Propose] sleeps from beginning to end: nothing notifies it when
    [n1] steps down.  When it wakes, [n1] is the leader and has applied the index. *)
Definition ex_lost : Cluster := set_node "n1" (Propose_begin "k" "lost" OpPut (-1) (node_of "n1" ex_led)).1 ex_led.
Definition ex_lost_schedule : list Action :=
  ([DoElection "n2" 500; DoVote 4 501; DoVoteResponse "n2" None 502; DoVoteResponse "n2" (Some 5%nat) 503; DoElectionEnd "n2"; DoPropose "n2" "k" "other"] ++
   [DoReplicate "n2" "n1"; DoAppend 6 504; DoCallLost "n2"; DoReplicate "n2" "n3"; DoAppend 8 505; DoAppendResponse 9 506] ++
   [DoElection "n1" 700; DoVote 11 701; DoVoteResponse "n1" None 702; DoVoteResponse "n1" (Some 12%nat) 703; DoElectionEnd "n1"] ++
   [DoReplicate "n1" "n3"; DoAppend 13 704; DoAppendResponse 14 705] ++ ex_turn "n1" 800 ++ ex_turn "n1" 801)%list.
Definition ex_lied : Cluster := default ex_c0 (go ex_lost_schedule ex_lost).

Lemma ex_lied_run : go ex_lost_schedule ex_lost = Some ex_lied.
Proof. by vm_compute. Qed.
Lemma ex_lied_n1 : nodes ex_lied !! "n1" = Some (node_of "n1" ex_lied).
Proof. by vm_compute. Qed.
Lemma ex_lied_ok : pr_ok (Propose_finish 2 (node_of "n1" ex_lied)) = true.
Proof. by vm_compute. Qed.
Lemma ex_lost_n1 : Propose_begin "k" "lost" OpPut (-1) (node_of "n1" ex_led) = ((Propose_begin "k" "lost" OpPut (-1) (node_of "n1" ex_led)).1, Ok (inr 2)).
Proof. by vm_compute. Qed.
Lemma ex_lost_step : rtc (logged_step ex_cfg) ex_led ex_lost.
Proof.
  apply rtc_once. split; [exact ex_led_small|]. refine (st_propose ex_cfg (mkFaults false false false) ex_led "n1" _ "k" "lost" OpPut (-1) ex_led_n1 _ _); [done|].
  unfold is_i64. lia.
Qed.
Lemma ex_lied_reachable : logged_reachable ex_members ex_cfg ex_lied.
Proof.
  destruct ex_led_reachable as (c0 & H0 & Hr). exists c0. split; [exact H0|].
  etrans; [exact Hr|]. etrans; [exact ex_lost_step|exact (go_sound _ _ _ ex_lied_run)].
Qed.
Lemma ex_lied_gone : value_gone "lost" ex_lied = true.
Proof. by vm_compute. Qed.
Lemma ex_lied_value : kv_value <$> Get 1000 "k" (store_ (node_of "n1" ex_lied)) = Some "other".
Proof. by vm_compute. Qed.
Lemma ex_lied_entry : le_value <$> entries_ (log_ (node_of "n1" ex_lied)) !! 2%nat = Some "other".
Proof. by vm_compute. Qed.
Lemma ex_lied_commit : commitIndex_ (node_of "n1" ex_lied) = 3.
Proof. by vm_compute. Qed.

(** C24: a write can be acknowledged and lost.  [Propose] looks at the role of the
    node and at [lastApplied_] when it wakes, not at the term or the entry: if its
    node lost the leadership and regained it meanwhile, it answers success for an
    index at which another leader's entry was applied.  There is a run of three
    nodes, without restarts, snapshots or late responses, in which the value of a
    successful PUT is in no log, and every node that ever commits its index has
    another value there. *)
Theorem lost_write_acknowledged :
  exists c1 n1 n1' c2 n2, promptly_reachable ex_members ex_cfg c1 /\ nodes c1 !! "n1" = Some n1 /\
    Propose_begin "k" "lost" OpPut (-1) n1 = (n1', Ok (inr 2)) /\ rtc (prompt_step ex_cfg) (set_node "n1" n1' c1) c2 /\
    nodes c2 !! "n1" = Some n2 /\ pr_ok (Propose_finish 2 n2) = true /\ kv_value <$> Get 1000 "k" (store_ n2) = Some "other" /\
    (forall i n e, nodes c2 !! i = Some n -> e ∈ entries_ (log_ n) -> le_value e <> "lost") /\
    (forall c3 j n3, rtc (prompt_step ex_cfg) c2 c3 -> nodes c3 !! j = Some n3 -> 2 <= commitIndex_ n3 ->
       le_value <$> log_lookup (log_ n3) 2 = Some "other").
Proof.
  exists ex_led, (node_of "n1" ex_led), (Propose_begin "k" "lost" OpPut (-1) (node_of "n1" ex_led)).1, ex_lied, (node_of "n1" ex_lied). split; [exact (logged_reach _ _ _ ex_led_reachable)|]. split; [exact ex_led_n1|].
  split; [exact ex_lost_n1|]. split; [exact (logged_prompt _ _ _ (go_sound _ _ _ ex_lied_run))|]. split; [exact ex_lied_n1|]. split; [exact ex_lied_ok|].
  split; [exact ex_lied_value|]. split.
  - exact (value_gone_ok "lost" ex_lied ex_lied_gone).
  - intros c3 j n3 Hs Hn Hc. pose proof (logged_reach _ _ _ ex_lied_reachable) as Hr.
    destruct (prompt_steps (L := RefJson_laws) ex_members ex_cfg ex_config_ok _ _ Hr Hs) as [Hr3 _].
    rewrite (log_at (L := RefJson_laws) ex_members ex_cfg ex_config_ok c3 j n3 Hr3 Hn) by lia.
    destruct (committed_later (L := RefJson_laws) ex_members ex_cfg ex_config_ok ex_lied c3 "n1" j _ n3 2 Hr Hs ex_lied_n1 Hn) as [E _];
      [rewrite ex_lied_commit; lia|lia|]. change (Z.to_nat 2) with 2%nat. rewrite E. exact ex_lied_entry.
Qed.
End StoreExamples.
