(* ===== verification/RaftCatchUp.v ===== *)
(** * Replication completes

    What replication achieves when it is left alone: a leader and followers of
    its term, in any state of the runs of [RaftRefinement] in which the leader's
    replication thread is between two calls, exchange AppendEntries calls
    ([ReplicateToPeer] against [HandleAppendEntries]) and nothing else happens to
    them.  After a number of calls that is linear in the length of the
    leader's log, the followers have this log as a prefix of theirs, whatever
    they had before, the leader knows it, and with a majority it has committed it
    ([replication_completes]).

    The argument: a refused call moves [nextIndex_] down, because the hints never
    point behind the refused index; an accepted one moves it up by what was sent.
    No call is refused after one was accepted, because the follower keeps what
    it acknowledged in the term ([ack_inv]). *)
From S2P Require Import Prelude CxxString CxxMap Json KVStore RaftRPC WriteAheadLog RaftLog RaftNode RaftCluster RaftReplication.
From S2P Require Import RaftTyping RaftLogMatching RaftRun RaftSpec RaftRefinement RaftStore.
From Stdlib Require Import ZArith Lia Ascii String.
From stdpp Require Import prelude gmap strings relations.

#[local] Abbreviation Log := (list LogEntry).
#[local] Infix "⊑" := prefix (at level 70).

(** ** Acknowledgements are kept *)

(** A node that acknowledged entries of the leader of its term has them. *)
Record ack_inv (a : AState) : Prop := {
  ki_term p i q : AAck p i q ∈ a_net a -> exists n, a_nodes a !! p = Some n /\ (q_term q <= a_term n)%Z;
  ki_prefix p i q n l : AAck p i q ∈ a_net a -> a_nodes a !! p = Some n -> a_nodes a !! i = Some l -> a_role l = Leader ->
    a_term n = q_term q -> a_term l = q_term q -> take (S (last_new q)) (a_log l) ⊑ a_log n;
}.

Section Acks.
Variable members : list string.
#[local] Abbreviation ainv := (ainv members).

(** A step of node [v]: it keeps what its log has of the leader's, and if it leads
    it did so before or nobody did. *)
Record ack_safe (H : Hist) (v : string) (x x' : ANode) (ms : list AMsg) : Prop := {
  ks_term : (a_term x <= a_term x')%Z;
  ks_keeps P d M : a_term x' = a_term x -> h_lead H !! a_term x = Some (d, M) -> d <> v -> P ⊑ M -> P ⊑ a_log x -> P ⊑ a_log x';
  ks_leads : a_role x' = Leader -> a_term x' = a_term x /\ ((a_role x = Leader /\ a_log x ⊑ a_log x') \/ h_lead H !! a_term x = None);
  ks_new p i q : AAck p i q ∈ ms -> p = v /\ i <> v /\ q_term q = a_term x' /\
    exists M, h_lead H !! q_term q = Some (i, M) /\ take (S (last_new q)) M ⊑ a_log x';
}.

Lemma ack_set H a v x x' ms gs : ainv H a -> ack_inv a -> a_nodes a !! v = Some x -> ack_safe H v x x' ms -> ack_inv (set_a v x' ms gs a).
Proof.
  intros I [Kt Kp] Hv [St Sk Sl Sn]. split.
  - intros p i q. simpl. rewrite elem_of_app. intros [Hq|Hq].
    + destruct (Kt p i q Hq) as (n & Hn & Hle). destruct (decide (p = v)) as [->|Hne].
      * exists x'. rewrite lookup_insert_eq. split; [done|]. rewrite Hv in Hn. injection Hn as <-. lia.
      * exists n. by rewrite lookup_insert_ne.
    + destruct (Sn p i q Hq) as (-> & _ & Et & _). exists x'. rewrite lookup_insert_eq. split; [done|lia].
  - intros p i q n l. simpl. rewrite elem_of_app. intros [Hq|Hq] Hn Hl Hr Etn Etl.
    + destruct (ai_msg _ _ _ I _ Hq) as (Hne & _ & M & HM & HlM & _). destruct (decide (i = v)) as [->|Hiv].
      * rewrite lookup_insert_eq in Hl. injection Hl as <-. rewrite lookup_insert_ne in Hn by done. destruct (Sl Hr) as [Et [[Hx Hp]|Hfr]].
        -- pose proof (Kp p v q n x Hq Hn Hv Hx Etn ltac:(congruence)) as Hk. destruct (leader_log members H a v x v M I Hv Hx) as [_ EM]; [congruence|].
           rewrite <- (prefix_take_eq (a_log x) (a_log x')) by (try done; rewrite <- EM; lia). exact Hk.
        -- rewrite <- Et, Etl, HM in Hfr. done.
      * rewrite lookup_insert_ne in Hl by done. destruct (decide (p = v)) as [->|Hpv]; [|rewrite lookup_insert_ne in Hn by done; by apply (Kp p i q n l)].
        rewrite lookup_insert_eq in Hn. injection Hn as <-. destruct (Kt v i q Hq) as (y & Hy & Hle). rewrite Hv in Hy. injection Hy as <-.
        assert (a_term x' = a_term x) as Ex by lia. destruct (leader_log members H a i l i M I Hl Hr) as [_ EM]; [congruence|]. subst M.
        apply (Sk _ i (a_log l)); [done|congruence|done|apply prefix_take|]. apply (Kp v i q x l Hq Hv Hl Hr); congruence.
    + destruct (Sn p i q Hq) as (-> & Hiv & _ & M & HM & Hp). rewrite lookup_insert_eq in Hn. injection Hn as <-. rewrite lookup_insert_ne in Hl by done.
      destruct (leader_log members H a i l i M I Hl Hr) as [_ EM]; [congruence|]. by subst M.
Qed.

Lemma ack_safe_still H v x x' ms : a_term x' = a_term x -> a_role x' = a_role x \/ a_role x' <> Leader -> a_log x' = a_log x ->
  (forall p i q, AAck p i q ∉ ms) -> ack_safe H v x x' ms.
Proof.
  intros Et Hr El Hn. split; [lia|by rewrite El| |intros p i q Hq; by apply Hn in Hq].
  intros Hl. split; [done|]. left. rewrite El. destruct Hr as [Hr|Hr]; [split; [congruence|done]|done].
Qed.

Lemma ack_safe_ahead H v x x' ms : (a_term x < a_term x')%Z -> a_role x' <> Leader -> (forall p i q, AAck p i q ∉ ms) -> ack_safe H v x x' ms.
Proof. intros Et Hr Hn. split; [lia|lia|done|intros p i q Hq; by apply Hn in Hq]. Qed.

Lemma ack_step H a a' : ainv H a -> ack_inv a -> astep members a a' -> ack_inv a'.
Proof.
  intros I K Hs.
  assert (forall v x from q k c ms, a_nodes a !! v = Some x -> AAppend from v q ∈ a_net a -> q_term q = a_term x -> prev_agrees (a_log x) q ->
    ms = [] \/ (ms = [AAck v from q] /\ length (q_entries q) <= k) ->
    ack_safe H v x (mkANode (a_term x) (a_role x) (merged (a_log x) (q_prev q) (take k (q_entries q))) c (a_next x) (a_match x)) ms) as Hrc.
  { intros v x from q k c ms Hv Hm Ht Hp Hms. destruct (receive members H a v x from q k I Hv Hm Ht Hp) as (M0 & N & Hd & _ & Hne & Epre & Hlen & Hq & _ & R).
    split; [done| |intros Hl; destruct (leader_log members H a v x from (M0 ++ N) I Hv Hl Hd); congruence|].
    - intros P d M _ Hd' _ HP HP'. rewrite Hd in Hd'. injection Hd' as <- <-. by apply (rc_keeps _ _ _ _ _ _ R).
    - destruct Hms as [->|[-> Hk]]; [by intros p i q' ?%not_elem_of_nil|]. intros p i q' [= -> -> ->]%list_elem_of_singleton.
      split_and!; [done|done|done|]. exists (M0 ++ N). rewrite Ht. split; [done|]. etrans; [|exact (rc_new _ _ _ _ _ _ R)].
      rewrite (take_ge (q_entries q) k) by done. pose proof (rc_part _ _ _ _ _ _ R) as Hpart. rewrite (take_ge (q_entries q) k) in Hpart by done.
      apply (prefix_both _ _ (M0 ++ N)); [apply prefix_take|done|]. rewrite ?length_app, ?length_take, ?length_app, ?length_take. unfold last_new. lia. }
  destruct Hs as [v x k Hv|v x t Hv Ht|v x f li lt Hv|v x q nx mt Hv Hc Hq Hvote|v x e Hv Hl He|v x p Hv|v x f q Hv Hm Ht Hp|v x f q k Hv Hm Ht Hp|v x f q ix t Hv
    |v x p q Hv|v x p q ix t y Hv|v x k q Hv]; apply (ack_set H a v x); try done;
    try (apply ack_safe_still; [done|by (left; cbn; congruence) || by right|done|by intros p' i' q' [=]%list_elem_of_singleton || by intros p' i' q' ?%not_elem_of_nil]).
  - apply ack_safe_ahead; [cbn; lia|done|by intros p' i' q' [? _]%elem_of_replicate].
  - apply ack_safe_ahead; [done|done|by intros p' i' q' ?%not_elem_of_nil].
  - destruct (lead_fresh members H a v x q I Hv Hc Hq Hvote) as [Hfr _].
    split; [cbn; lia|done|intros _; split; [done|by right]|by intros p' i' q' ?%not_elem_of_nil].
  - split; [cbn; lia|intros P d M _ _ _ _ HP; by apply prefix_app_r|intros _; split; [done|left; split; [done|by apply prefix_app_r]]|by intros p' i' q' ?%not_elem_of_nil].
  - pose proof (Hrc v x f q (length (q_entries q)) (if decide (a_commit x < q_commit q) then q_commit q `min` last_index l else a_commit x) [AAck v f q] Hv Hm Ht Hp) as Hk.
    rewrite firstn_all in Hk. apply Hk. right. by split.
  - apply (Hrc v x f q k); try done. by left.
Qed.

Lemma ack_reachable a : areachable members a -> ack_inv a.
Proof.
  intros (a0 & H0 & Hr). revert a Hr. apply (rtc_ind_r ack_inv a0).
  - destruct H0 as (_ & _ & Hnet & _). split; [intros p i q Hq|intros p i q n l Hq]; rewrite Hnet in Hq; by apply not_elem_of_nil in Hq.
  - intros a a' Hr Hs K. destruct (areachable_inv members a) as [H I]; [by exists a0|]. by apply (ack_step H a).
Qed.

(** *** Reading the acknowledgements *)

(** What a leader has in its [matchIndex_] is in the log of the follower. *)
Lemma matched_prefix a i p l n m : areachable members a -> a_nodes a !! i = Some l -> a_role l = Leader -> a_nodes a !! p = Some n ->
  a_term n = a_term l -> a_match l !! p = Some m -> m < length (a_log l) /\ take (S m) (a_log l) ⊑ a_log n.
Proof.
  intros Hr Hl Hlead Hn Et Hm. destruct (areachable_inv members a Hr) as [H I]. pose proof (ack_reachable a Hr) as [_ Kp].
  pose proof (an_traced _ _ _ _ _ (ai_node _ _ _ I i l Hl)) as [Hz _]. pose proof (an_traced _ _ _ _ _ (ai_node _ _ _ I p n Hn)) as [Hz' _].
  destruct (an_leads _ _ _ _ _ (ai_node _ _ _ I i l Hl) Hlead) as (_ & _ & Hma). destruct (Hma p m Hm) as [->|(q & Hq & Eq & ->)].
  - split; [by apply lookup_lt_Some in Hz|]. destruct (a_log l), (a_log n); try done. cbn in *. injection Hz as ->. injection Hz' as ->.
    rewrite firstn_O. by apply prefix_cons, prefix_nil.
  - destruct (ack_facts members H a p i l q I Hl Hlead Hq Eq) as (_ & Hlt & _). split; [done|]. apply (Kp p i q n l Hq Hn Hl Hlead); congruence.
Qed.

(** A refusal is met by a strictly smaller index. *)
Lemma refusal_progress H a i p l n q x index term y : ainv H a -> a_nodes a !! i = Some l -> a_nodes a !! p = Some n ->
  1 <= x <= length (a_log l) -> q_prev q = x - 1 -> q_prevTerm q = term_at (a_log l) (x - 1) ->
  refuses (a_log n) q index term -> backs_up (a_log l) index term y -> 1 <= y < x.
Proof.
  intros I Hl Hn Hx Ep Et Hr Hb. pose proof (an_traced _ _ _ _ _ (ai_node _ _ _ I i l Hl)) as [_ Hk].
  pose proof (an_traced _ _ _ _ _ (ai_node _ _ _ I p n Hn)) as [Hz' Hk']. apply lookup_lt_Some in Hz'.
  destruct Hr as [(Hlen & -> & ->)|(Hne & Hpos & Hi & Hrun)].
  - destruct Hb as [[_ ->]|[(? & _)|(? & _)]]; lia.
  - destruct Hb as [[? _]|[(_ & r & er & Her & Etr & -> & _)|(_ & -> & _)]]; [lia| |lia].
    destruct (decide (S r < x)) as [|Hge]; [lia|]. exfalso. destruct (Hrun (q_prev q)) as (e & He & Ee); [lia|].
    destruct (q_prev q) as [|k] eqn:Eq; [lia|]. destruct r as [|r]; [lia|].
    destruct (Hk r er Her) as (d & M & Hd & HM). destruct (Hk' k e He) as (d' & M' & Hd' & HM'). rewrite Ee, <- Etr, Hd in Hd'. injection Hd' as <- <-.
    assert (M !! S k = Some e) as He1 by (eapply prefix_lookup_Some; [|exact HM']; by rewrite lookup_take_lt by lia).
    destruct (lookup_lt_is_Some_2 (a_log l) (S k)) as [e' He']; [lia|].
    assert (M !! S k = Some e') as He2 by (eapply prefix_lookup_Some; [|exact HM]; by rewrite lookup_take_lt by lia).
    apply Hne. rewrite Et, <- Ep. unfold term_at. rewrite He'. simpl. congruence.
Qed.

(** A follower that has the entries before [nextIndex_] does not refuse. *)
Lemma agreeing_accepts (l n : Log) q x index term : 1 <= x <= length l -> q_prev q = x - 1 -> q_prevTerm q = term_at l (x - 1) ->
  refuses n q index term -> ~ take x l ⊑ n.
Proof.
  intros Hx Ep Et Hr Hp. destruct (lookup_lt_is_Some_2 l (x - 1)) as [e He]; [lia|].
  assert (n !! (x - 1) = Some e) as He' by (eapply prefix_lookup_Some; [|exact Hp]; by rewrite lookup_take_lt by lia).
  unfold term_at in Et. rewrite He in Et. simpl in Et. destruct Hr as [(Hlen & _)|(Hne & _ & Hi & Hrun)].
  - apply lookup_lt_Some in He'. lia.
  - destruct (Hrun (q_prev q)) as (e' & Hl & <-); [lia|]. rewrite Ep, He' in Hl. injection Hl as <-. congruence.
Qed.

Lemma merge_suffix_length new : forall suf, length (merge_suffix suf new) <= Nat.max (length suf) (length new).
Proof.
  induction new as [|e new IH]; intros suf; [destruct suf; simpl; lia|]. destruct suf as [|o suf]; cbn [merge_suffix]; [simpl; lia|].
  case_if; [|simpl; lia]. cbn [length]. specialize (IH suf). lia.
Qed.

Lemma merged_length l prev new : prev < length l -> length (merged l prev new) <= Nat.max (length l) (S prev + length new).
Proof.
  intros Hp. unfold merged. rewrite length_app, length_take. pose proof (merge_suffix_length new (drop (S prev) l)) as Hm.
  rewrite length_drop in Hm. lia.
Qed.
End Acks.

(** ** One call *)

Section CatchUp.
Context {J : JsonLib} {L : JsonLaws J}.
Variable members : list string.
Variable cfg : string -> RaftConfig.
Hypothesis config_ok : cluster_config members cfg.

Lemma poised_of c : promptly_reachable members cfg c -> small c -> exists F, poised members cfg F c.
Proof.
  intros (c0 & H0 & Hr) Hs. destruct (prompt_run members cfg config_ok c0 c H0 Hr) as ((I & F & Il) & (Hsim & Hrtc) & Hap).
  exists F. split; try done. exists (abs c0). split; [by apply (init_abs members cfg)|done].
Qed.

Lemma prompt_typed c : promptly_reachable members cfg c -> typed_cluster c.
Proof.
  intros (c0 & H0 & Hr). enough (cluster_inv members cfg c /\ typed_cluster c) as [_ ?] by done. revert c Hr.
  apply (rtc_ind_r (R := prompt_step cfg) (fun c => cluster_inv members cfg c /\ typed_cluster c) c0).
  - split; [by apply (init_inv members cfg config_ok)|by apply (init_typed members cfg config_ok)].
  - intros c1 c2 _ [_ Hs] [I T]. split; [by eapply (step_inv members cfg config_ok)|by eapply (step_typed members cfg config_ok)].
Qed.

Lemma small_checked c : small c -> small_check c = true.
Proof.
  intros Hs. apply forallb_forall. intros [i n] Hin%list_elem_of_In%elem_of_map_to_list. destruct (Hs i n Hin). simpl.
  apply andb_true_iff. split; [by apply Z.leb_le|by apply Z.ltb_lt].
Qed.

Lemma Log_Size_nat l : log_wf l -> Log_Size l = Z.of_nat (length (entries_ l) - 1).
Proof.
  intros W. pose proof (wf_snap l W). pose proof (wf_bound l W). pose proof (log_size_pos l W). unfold Log_Size.
  rewrite u64_small by (unfold is_u64; lia). unfold len in *. lia.
Qed.

Lemma AppendAll_entries_ok es : Forall LogEntry_ok es -> forall l, (AppendAll es l).2 = Ok tt.
Proof.
  induction 1 as [|e es He _ IH]; intros l; [done|]. cbn [AppendAll]. rewrite bind_modify. erewrite bind_run; [apply IH|]. by rewrite journal_entry_ok.
Qed.

(** What a follower answers to the leader of its term: it takes the entries,
    or its log stays and the answer has a hint. *)
Lemma follower_answers F c j n from req now : poised members cfg F c -> typed_cluster c -> nodes c !! j = Some n -> MAppendReq from j req ∈ net c ->
  aq_term req = currentTerm_ n ->
  exists n' resp, HandleAppendEntries now req n = (n', Ok resp) /\ ar_term resp = currentTerm_ n /\ currentTerm_ n' = currentTerm_ n /\
    config_ n' = config_ n /\ log_wf (log_ n') /\
    ((ar_success resp = true /\ prev_agrees (entries_ (log_ n)) (abs_req req) /\
      entries_ (log_ n') = merged (entries_ (log_ n)) (Z.to_nat (aq_prevLogIndex req)) (aq_entries req)) \/
     (ar_success resp = false /\ entries_ (log_ n') = entries_ (log_ n) /\
      refuses (entries_ (log_ n)) (abs_req req) (Z.to_nat (ar_conflictIndex resp)) (ar_conflictTerm resp))).
Proof.
  intros R T Hn Hm Et. destruct (msg_in c _ T Hm) as (Hu & _ & _ & _ & Hok & _).
  destruct (append_heard members cfg F c R j n from req now Hn Hm ltac:(lia)) as (_ & _ & _ & _ & Ho & Hroom & Ha & Hp & Hte & Hz & Hz0).
  pose proof (check_prev_abs _ (currentTerm_ n) req (lo_wf _ _ Ho) (lo_snap _ _ Ho) Hp Hte Hz Hz0) as Hag.
  rewrite HandleAppendEntries_run by (try done; lia). cbv zeta. destruct (heard_log now req n) as (E1 & E2 & _). rewrite E1 in Hag.
  assert (currentTerm_ (heard now req n) = currentTerm_ n /\ config_ (heard now req n) = config_ n) as [Et1 Ec1].
  { unfold heard. case_if; [lia|done]. }
  set (n1 := heard now req n) in *. clearbody n1. destruct (check_prev (log_ n1) (currentTerm_ n) req) as [resp|] eqn:Ec.
  - destruct Hag as (? & ? & ?). exists n1, resp. split_and!; try done; [by apply (lo_wf F)|]. by right.
  - destruct (AppendAll_merged F (log_ n1) _ req Ho Hroom Ha Ec ltac:(by rewrite E1) (proj1 Hp)) as (k & Ek & Hk).
    pose proof (AppendAll_ok F (log_ n1) _ req Ho Hroom Ha Ec) as Ho'.
    assert ((AppendAll (aq_entries req) (log_ n1)).2 = Ok tt) as Hal by (by apply AppendAll_entries_ok).
    destruct (AppendAll (aq_entries req) (log_ n1)) as [l' r]. cbn [fst snd] in *. subst r. rewrite (Hk eq_refl), E1 in Ek.
    eexists _, _. split; [done|]. repeat case_if; cbn; split_and!; try done; try (by apply (lo_wf F)); by left.
Qed.

(** Nothing more of the leader's log can be committed. *)
Definition advanced (n : RaftNode) : Prop := forall k, committable n k -> (k <= LastIndex (log_ n))%Z -> (k <= commitIndex_ n)%Z.

Lemma AdvanceCommitIndex_fields n : let n' := AdvanceCommitIndex n in
  role_ n' = role_ n /\ currentTerm_ n' = currentTerm_ n /\ log_ n' = log_ n /\ config_ n' = config_ n /\
  matchIndex_ n' = matchIndex_ n /\ nextIndex_ n' = nextIndex_ n /\ advanced n'.
Proof.
  unfold AdvanceCommitIndex, advanced. set (last := LastIndex (log_ n)).
  pose proof (commit_loop_spec n (Z.to_nat (last - commitIndex_ n)) last ltac:(lia)) as H.
  destruct (commit_loop n _ last) as [k|]; simpl; split_and!; try done; intros m Hm Hle.
  - destruct H as (_ & _ & Hno). destruct (decide (m <= k)%Z) as [|Hgt]; [done|]. destruct (Hno m); [unfold last; lia|exact Hm].
  - destruct (decide (m <= commitIndex_ n)%Z) as [|Hgt]; [done|]. destruct (H m); [unfold last; lia|done].
Qed.

(** What the leader does with the answer. *)
Lemma leader_accepted now p req resp n : role_ n = Leader -> ar_term resp = currentTerm_ n -> ar_success resp = true ->
  let m := Z.max (default 0%Z (matchIndex_ n !! p)) (u64 (aq_prevLogIndex req + len (aq_entries req))) in
  let n' := (ReplicateToPeer_response now p req resp n).1 in
  role_ n' = Leader /\ currentTerm_ n' = currentTerm_ n /\ log_ n' = log_ n /\ config_ n' = config_ n /\
  matchIndex_ n' = <[p := m]> (matchIndex_ n) /\ nextIndex_ n' !! p = Some (u64 (m + 1))%Z /\ advanced n'.
Proof.
  intros Hr Et Es m. unfold ReplicateToPeer_response, catch_all. cbn [fst]. rewrite bind_getS, Et, Z.ltb_irrefl, Z.eqb_refl, Es.
  rewrite bool_decide_false by (intros Hx; by apply Hx). cbn [orb negb]. cbv zeta. rewrite !bind_modify. fold m. set (n1 := set_next _ _ _). cbn [fst modify].
  destruct (AdvanceCommitIndex_fields n1) as (-> & -> & -> & -> & -> & -> & Ha). split_and!; try done. cbn. by rewrite lookup_insert_eq.
Qed.

Lemma leader_refused F c i n p req resp now : poised members cfg F c -> nodes c !! i = Some n -> role_ n = Leader ->
  ar_term resp = currentTerm_ n -> ar_success resp = false -> (0 <= ar_conflictTerm resp)%Z ->
  1 <= Z.to_nat (ar_conflictIndex resp) ->
  let n' := (ReplicateToPeer_response now p req resp n).1 in
  exists x, n' = set_next p (Z.of_nat x) n /\ backs_up (entries_ (log_ n)) (Z.to_nat (ar_conflictIndex resp)) (ar_conflictTerm resp) x.
Proof.
  intros R Hn Hr Et Es Hct Hci. unfold ReplicateToPeer_response, catch_all. cbn [fst]. rewrite bind_getS, Et, Z.ltb_irrefl, Z.eqb_refl, Es.
  rewrite bool_decide_false by (intros Hx; by apply Hx). cbn [orb negb]. cbv zeta. destruct (ainv_here members cfg F c R) as [H I].
  destruct (an_traced _ _ _ _ _ (ai_node _ _ _ I i _ (abs_lookup c i n Hn))) as [Hz _]. destruct (0 <? ar_conflictTerm resp)%Z eqn:E; bool_prop.
  - destruct (last_in_term_abs members cfg F c R i n (ar_conflictTerm resp) (ar_conflictIndex resp) Hn ltac:(lia) E Hz) as (x & Ex & Hb).
    exists x. split; [|done]. cbn. by rewrite <- Ex.
  - exists (Z.to_nat (ar_conflictIndex resp)). destruct (0 <? ar_conflictIndex resp)%Z eqn:E0; bool_prop; [|lia]. cbn.
    split; [by rewrite Z2Nat.id by lia|]. left. split; [lia|done].
Qed.

(** One call of the leader [i] to [j], from the request to the handling of
    the answer. *)
Definition exchange (i j : string) (now : Z) (c : Cluster) : option Cluster :=
  run (mkFaults false false true) [DoReplicate i j; DoAppend (length (net c)) now; DoAppendResponse (S (length (net c))) now] c.

(** Calls to the peers [ps], one after the other. *)
Fixpoint exchanges (i : string) (now : Z) (ps : list string) (c : Cluster) : option Cluster :=
  match ps with
  | [] => Some c
  | j :: rest => c' ← exchange i j now c; exchanges i now rest c'
  end.

Lemma exchanges_app i now ps qs c c1 : exchanges i now ps c = Some c1 -> exchanges i now (ps ++ qs) c = exchanges i now qs c1.
Proof.
  revert c. induction ps as [|j ps IH]; intros c; [by intros [= ->]|]. cbn [exchanges app]. intros (c2 & E & Hr)%bind_Some. rewrite E. by apply IH.
Qed.

(** The leader [i] of a term and the follower [j] of this term, with room for the
    leader's log. *)
Record pair (i j : string) (c : Cluster) (l n : RaftNode) : Prop := {
  pr_reach : promptly_reachable members cfg c;
  pr_small : small c;
  pr_other : i <> j;
  pr_leader : nodes c !! i = Some l;
  pr_follower : nodes c !! j = Some n;
  pr_role : role_ l = Leader;
  pr_term : currentTerm_ n = currentTerm_ l;
  pr_room : (Log_Size (log_ l) <= cfg_snapshotThreshold (config_ n))%Z;
}.

(** The index from which the leader sends. *)
Definition next_of (j : string) (l : RaftNode) : nat := default (length (entries_ (log_ l))) (a_next (abs_node l) !! j).

Lemma next_bounds i j c l n : pair i j c l n -> 1 <= next_of j l <= length (entries_ (log_ l)).
Proof.
  intros P. destruct (poised_of c (pr_reach _ _ _ _ _ P) (pr_small _ _ _ _ _ P)) as [F R].
  apply (prepare_abs members cfg F c R i l j); apply P.
Qed.

Lemma small_set c i n n' : small c -> nodes c !! i = Some n -> config_ n' = config_ n -> (Log_Size (log_ n') <= cfg_snapshotThreshold (config_ n))%Z ->
  small (set_node i n' c).
Proof.
  intros Hs Hn Ec Hsz k x. simpl. rewrite lookup_insert. case_decide; [|apply Hs]. subst k. intros [= <-]. rewrite Ec. split; [done|]. by apply (Hs i n).
Qed.

Lemma run_reach schedule c c' : promptly_reachable members cfg c -> run (mkFaults false false true) schedule c = Some c' -> promptly_reachable members cfg c'.
Proof. intros Hr Hs. apply (prompt_steps members cfg config_ok c c' Hr). exact (run_sound cfg _ schedule c c' Hs). Qed.

(** The first half of a call: the request is on its way. *)
Lemma call_sent i j c l n : pair i j c l n -> calls c !! i = None -> let x := next_of j l in let es := entries_ (log_ l) in
  exists req, let c1 := set_call i (Some (j, req)) (send [MAppendReq i j req] c) in
    (forall rest, run (mkFaults false false true) (DoReplicate i j :: rest) c = run (mkFaults false false true) rest c1) /\ pair i j c1 l n /\ is_u64 (aq_prevLogIndex req) /\
    aq_term req = currentTerm_ l /\
    abs_req req = mkAReq (currentTerm_ l) (x - 1) (term_at es (x - 1)) (take 100 (drop x es)) (Z.to_nat (commitIndex_ l)).
Proof.
  intros [Hr Hs Hne Hl Hn Hrole Ht Hsz] Hidle. destruct (poised_of c Hr Hs) as [F R]. destruct (prepare_abs members cfg F c R i l j Hl Hrole) as (_ & req & Ep & Hu & _ & Et & Ea).
  exists req. cbv zeta. assert (j ∈ peer_ids l) as Hj.
  { apply (peers_others members cfg config_ok c i l j (rd_inv _ _ _ _ R) Hl). split; [|done]. apply (inv_node _ _ c (rd_inv _ _ _ _ R) j n Hn). }
  assert (forall rest, run (mkFaults false false true) (DoReplicate i j :: rest) c = run (mkFaults false false true) rest (set_call i (Some (j, req)) (send [MAppendReq i j req] c))) as Erun.
  { intros rest. cbn [run act]. rewrite (small_checked c Hs). unfold act_replicate. rewrite Hl. cbn. rewrite Ep. cbn. by rewrite bool_decide_true by done. }
  split_and!; try done. split; try done. apply (run_reach [DoReplicate i j] c); [done|]. by rewrite Erun.
Qed.

(** The whole call. *)
Lemma exchange_run i j now c l n : pair i j c l n -> calls c !! i = None -> let x := next_of j l in let es := entries_ (log_ l) in
  exists req resp n' c2, let l' := (ReplicateToPeer_response now j req resp l).1 in
    exchange i j now c = Some (set_call i None (set_node i l' c2)) /\ pair i j c2 l n' /\ is_u64 (aq_prevLogIndex req) /\
    abs_req req = mkAReq (currentTerm_ l) (x - 1) (term_at es (x - 1)) (take 100 (drop x es)) (Z.to_nat (commitIndex_ l)) /\
    nodes c2 = <[j := n']> (nodes c) /\ ar_term resp = currentTerm_ l /\
    (ar_success resp = true \/ (ar_success resp = false /\ entries_ (log_ n') = entries_ (log_ n) /\
       refuses (entries_ (log_ n)) (abs_req req) (Z.to_nat (ar_conflictIndex resp)) (ar_conflictTerm resp))).
Proof.
  intros P Hidle x es. destruct (call_sent i j c l n P Hidle) as (req & Erun & P1 & Hu & Et & Ea). fold x es in Ea. pose proof (next_bounds i j c l n P) as Hx. fold x es in Hx.
  set (c1 := set_call i (Some (j, req)) (send [MAppendReq i j req] c)) in *. destruct (poised_of c1 (pr_reach _ _ _ _ _ P1) (pr_small _ _ _ _ _ P1)) as [F R].
  pose proof (prompt_typed c1 (pr_reach _ _ _ _ _ P1)) as T. destruct P1 as [Hr1 Hs1 Hne Hl Hn Hrole Ht Hsz].
  assert (MAppendReq i j req ∈ net c1) as Hm by (apply elem_of_app; right; by left).
  destruct (follower_answers F c1 j n i req now R T Hn Hm ltac:(congruence)) as (n' & resp & Eh & Er & Et' & Ec & W & Hout).
  set (c2 := send [MAppendResp j i req resp] (set_node j n' c1)).
  destruct (log_facts members cfg F c1 R i l Hl) as (Wl & _). destruct (log_facts members cfg F c1 R j n Hn) as (Wn & _).
  assert (small c2) as Hs2.
  { apply (small_set c1 j n n' Hs1 Hn Ec). pose proof (Hs1 j n Hn) as [Hold _]. rewrite !Log_Size_nat in * by done.
    destruct Hout as [(_ & (e & He & _) & ->)|(_ & -> & _)]; [|done]. injection Ea as _ Ep _ Ee _. rewrite Ep, Ee.
    cbn [abs_req q_prev] in He. apply lookup_lt_Some in He. pose proof (merged_length (entries_ (log_ n)) (x - 1) (take 100 (drop x es)) ltac:(lia)) as Hml.
    rewrite length_take, length_drop in Hml. fold es in Hsz. lia. }
  assert (forall rest, run (mkFaults false false true) (DoAppend (length (net c)) now :: rest) c1 = run (mkFaults false false true) rest c2) as Erun2.
  { intros rest. cbn [run act]. rewrite (small_checked c1 Hs1). unfold act_append, c1 at 1. cbn [net send set_call]. rewrite lookup_app_r, Nat.sub_diag by lia. cbn.
    cbn [c1 nodes send set_call] in Hn. rewrite Hn. cbn. by rewrite Eh. }
  assert (pair i j c2 l n') as P2.
  { split; try done; [apply (run_reach [DoAppend (length (net c)) now] c1); [done|by rewrite Erun2]| | | |].
    - simpl. by rewrite lookup_insert_ne.
    - simpl. by rewrite lookup_insert_eq.
    - congruence.
    - by rewrite Ec. }
  exists req, resp, n', c2. cbv zeta. split_and!; try done.
  - unfold exchange. rewrite Erun, Erun2. cbn [run act]. rewrite (small_checked c2 Hs2). unfold act_append_response, c2 at 1. cbn [net send set_node].
    unfold c1 at 1. cbn [net send set_call]. rewrite <- app_assoc, lookup_app_r by lia. replace (S (length (net c)) - length (net c)) with 1 by lia. cbn [app lookup list_lookup].
    assert (calls c2 !! i = Some (j, req)) as Hc2 by (simpl; by rewrite lookup_insert_eq).
    rewrite (pr_leader _ _ _ _ _ P2). cbn [mbind option_bind]. rewrite bool_decide_true by exact Hc2. cbn. by rewrite Et, Z.eqb_refl.
  - congruence.
  - destruct Hout as [(? & _)|?]; [by left|by right].
Qed.

(** What the leader knows of the follower is true. *)
Lemma pair_matched i j c l n m : pair i j c l n -> matchIndex_ l !! j = Some m ->
  Z.to_nat m < length (entries_ (log_ l)) /\ take (S (Z.to_nat m)) (entries_ (log_ l)) ⊑ entries_ (log_ n).
Proof.
  intros P Hm. destruct (prompt_reach members cfg config_ok c (pr_reach _ _ _ _ _ P)) as (Ha & _).
  apply (matched_prefix members (abs c) i j (abs_node l) (abs_node n)); [done|apply abs_lookup, P|apply P|apply abs_lookup, P|apply P|].
  cbn [abs_node a_match]. by rewrite lookup_fmap, Hm.
Qed.

Lemma pair_answered i j now c l n c2 l' : pair i j c2 l n -> exchange i j now c = Some (set_call i None (set_node i l' c2)) -> promptly_reachable members cfg c ->
  role_ l' = Leader -> currentTerm_ l' = currentTerm_ l -> log_ l' = log_ l -> config_ l' = config_ l -> pair i j (set_call i None (set_node i l' c2)) l' n.
Proof.
  intros [Hr Hs Hne Hl Hn Hrole Ht Hsz] E Hc Hr' Et El Ec. split; try done.
  - by apply (run_reach _ c _ Hc E).
  - apply (small_set c2 i l l' Hs Hl Ec). rewrite El. by apply (Hs i l).
  - simpl. by rewrite lookup_insert_eq.
  - simpl. by rewrite lookup_insert_ne.
  - congruence.
  - by rewrite El.
Qed.

(** What calls to the peers [ps] leave alone. *)
Record called (i : string) (ps : list string) (c : Cluster) (l : RaftNode) (c' : Cluster) (l' : RaftNode) : Prop := {
  cl_log : log_ l' = log_ l;
  cl_term : currentTerm_ l' = currentTerm_ l;
  cl_config : config_ l' = config_ l;
  cl_nodes p : p ∉ i :: ps -> nodes c' !! p = nodes c !! p;
  cl_match p : p ∉ ps -> matchIndex_ l' !! p = matchIndex_ l !! p;
  cl_idle : calls c' !! i = None;
}.

Lemma called_trans i ps qs c l c1 l1 c2 l2 : called i ps c l c1 l1 -> called i qs c1 l1 c2 l2 -> called i (ps ++ qs) c l c2 l2.
Proof.
  intros [A1 A2 A3 A4 A5 _] [B1 B2 B3 B4 B5 B6]. split; [congruence..| | |done].
  - intros p Hp. rewrite B4, A4; [done|set_solver..].
  - intros p Hp. rewrite B5, A5; [done|set_solver..].
Qed.

Lemma called_mono i ps qs c l c' l' : called i ps c l c' l' -> (forall p, p ∈ ps -> p ∈ qs) -> called i qs c l c' l'.
Proof. intros [A1 A2 A3 A4 A5 A6] Hs. split; try done; [intros p Hp; apply A4|intros p Hp; apply A5]; set_solver. Qed.

(** A call makes progress: accepted, the leader knows more of the follower;
    refused, the leader backs up. *)
Lemma exchange_progress i j now c l n : pair i j c l n -> calls c !! i = None -> let x := next_of j l in let es := entries_ (log_ l) in
  exists c' l' n', exchange i j now c = Some c' /\ pair i j c' l' n' /\ called i [j] c l c' l' /\
    ((exists m, matchIndex_ l' !! j = Some (Z.of_nat m) /\ next_of j l' = S m /\ advanced l' /\ x - 1 + Nat.min 100 (length es - x) <= m) \/
     (~ take x es ⊑ entries_ (log_ n) /\ entries_ (log_ n') = entries_ (log_ n) /\ 1 <= next_of j l' < x)).
Proof.
  intros P Hidle x es. pose proof (next_bounds i j c l n P) as Hx. fold x es in Hx.
  destruct (exchange_run i j now c l n P Hidle) as (req & resp & n' & c2 & E & P2 & Hu & Ea & Enodes & Er & Hout). fold x es in Ea.
  destruct (poised_of c2 (pr_reach _ _ _ _ _ P2) (pr_small _ _ _ _ _ P2)) as [F R]. pose proof (pr_role _ _ _ _ _ P2) as Hrole.
  pose proof (pr_leader _ _ _ _ _ P2) as Hl. destruct (log_facts members cfg F c2 R i l Hl) as (W & S0 & Hroom). fold es in Hroom. unfold len in Hroom.
  destruct Hout as [Es|(Es & En & Href)].
  - destruct (leader_accepted now j req resp l Hrole Er Es) as (Hr' & Et' & El' & Ec' & Hall & Hnx & Hadv).
    set (l' := (ReplicateToPeer_response now j req resp l).1) in *. clearbody l'.
    pose proof (pair_answered i j now c l n' c2 l' P2 E (pr_reach _ _ _ _ _ P) Hr' Et' El' Ec') as P'.
    exists (set_call i None (set_node i l' c2)), l', n'. split_and!; try done.
    { split; try done; [|intros p Hp; by rewrite Hall, lookup_insert_ne by set_solver|simpl; by rewrite lookup_delete_eq]. intros p Hp. simpl. by rewrite lookup_insert_ne, Enodes, lookup_insert_ne by set_solver. }
    left. injection Ea as _ Ep _ Ee _.
    pose proof (lookup_insert_eq (matchIndex_ l) j (Z.max (default 0%Z (matchIndex_ l !! j)) (u64 (aq_prevLogIndex req + len (aq_entries req))))) as Hma. rewrite <- Hall in Hma. clear Hall.
    destruct (pair_matched i j _ l' n' _ P' Hma) as [Hlt _]. rewrite El' in Hlt. fold es in Hlt. pose proof (sm_node _ _ (rd_sim _ _ _ _ R) i l Hl) as [_ _ Hmt _].
    assert (aq_prevLogIndex req + len (aq_entries req) = Z.of_nat (x - 1 + Nat.min 100 (length es - x)))%Z as Esent.
    { unfold len. rewrite Ee, length_take, length_drop. destruct Hu as [? _]. lia. }
    rewrite Esent, (u64_small (Z.of_nat _)) in Hlt, Hma, Hnx by (unfold is_u64; lia). set (m := Z.max _ _) in *. assert (0 <= m)%Z by lia.
    exists (Z.to_nat m). split_and!; [by rewrite Hma, Z2Nat.id by done| |done|lia].
    unfold next_of. cbn [abs_node a_next]. rewrite lookup_fmap, Hnx, u64_small by (unfold is_u64; lia). simpl. lia.
  - assert (1 <= Z.to_nat (ar_conflictIndex resp) /\ (0 <= ar_conflictTerm resp)%Z) as [Hci Hct].
    { destruct Href as [(_ & -> & ->)|(_ & ? & ? & _)]; [|lia]. destruct (log_facts members cfg F c2 R j n' (pr_follower _ _ _ _ _ P2)) as (Wn & S1 & _).
      destruct (LastIndex_len _ Wn S1) as (_ & ? & _). unfold len in *. rewrite En in *. lia. }
    destruct (leader_refused F c2 i l j req resp now R Hl Hrole Er Es Hct ltac:(lia)) as (y & El & Hb).
    destruct (ainv_here members cfg F c2 R) as [H I].
    assert (1 <= y < x) as Hy.
    { apply (refusal_progress members H (abs c2) i j (abs_node l) (abs_node n') (abs_req req) x (Z.to_nat (ar_conflictIndex resp)) (ar_conflictTerm resp));
        try done; [by apply abs_lookup|apply abs_lookup, P2|by rewrite Ea..|]. cbn [abs_node a_log]. by rewrite En. }
    rewrite El in E.
    pose proof (pair_answered i j now c l n' c2 _ P2 E (pr_reach _ _ _ _ _ P) Hrole eq_refl eq_refl eq_refl) as P'.
    eexists _, _, n'. split_and!; [exact E|exact P'| |].
    { split; try done; [|simpl; by rewrite lookup_delete_eq]. intros p Hp. simpl. by rewrite lookup_insert_ne, Enodes, lookup_insert_ne by set_solver. }
    right. split_and!; [|done|..].
    + apply (agreeing_accepts es (entries_ (log_ n)) (abs_req req) x (Z.to_nat (ar_conflictIndex resp)) (ar_conflictTerm resp) Hx); [by rewrite Ea..|done].
    + unfold next_of. cbn. rewrite lookup_fmap, lookup_insert_eq. simpl. lia.
    + unfold next_of. cbn. rewrite lookup_fmap, lookup_insert_eq. simpl. lia.
Qed.

(** ** Catching up *)

Lemma catch_up_loop i j now k : forall c l n, pair i j c l n -> calls c !! i = None -> let x := next_of j l in let es := entries_ (log_ l) in
  (take x es ⊑ entries_ (log_ n) /\ length es - x <= k) \/ length es + x <= k ->
  exists r c' l' n', r <= S k /\ exchanges i now (replicate r j) c = Some c' /\ pair i j c' l' n' /\ called i [j] c l c' l' /\
    matchIndex_ l' !! j = Some (LastIndex (log_ l)) /\ advanced l'.
Proof.
  induction (lt_wf k) as [k _ IH]; intros c l n P Hidle x es Hk; pose proof (next_bounds i j c l n P) as Hx; fold x es in Hx.
  destruct (exchange_progress i j now c l n P Hidle) as (c' & l' & n' & E & P' & Hc & Hout). fold x es in Hout. pose proof (cl_log _ _ _ _ _ _ Hc) as El.
  assert (forall k', k' < k -> (take (next_of j l') es ⊑ entries_ (log_ n') /\ length es - next_of j l' <= k') \/ length es + next_of j l' <= k' ->
    exists r c2 l2 n2, r <= S k /\ exchanges i now (replicate r j) c = Some c2 /\ pair i j c2 l2 n2 /\ called i [j] c l c2 l2 /\
      matchIndex_ l2 !! j = Some (LastIndex (log_ l)) /\ advanced l2) as Hgo.
  { intros k' Hlt Hk'. unfold es in Hk'. rewrite <- El in Hk'. destruct (IH k' Hlt c' l' n' P' (cl_idle _ _ _ _ _ _ Hc) Hk') as (r & c2 & l2 & n2 & Hr & Er & P2 & C2 & Hm2 & Ha2).
    exists (S r), c2, l2, n2. rewrite El in Hm2. split_and!; try done; [lia|cbn [replicate exchanges]; by rewrite E|].
    eapply called_mono; [by eapply called_trans|]. set_solver. }
  destruct Hout as [(m & Hm & Hn & Ha & Hge)|(Hno & En & Hy)].
  - destruct (pair_matched i j c' l' n' _ P' Hm) as [Hlt Hp]. rewrite El, Nat2Z.id in Hlt, Hp. fold es in Hlt, Hp.
    destruct (decide (x = length es)) as [Hlast|Hmore].
    + destruct (poised_of c (pr_reach _ _ _ _ _ P) (pr_small _ _ _ _ _ P)) as [F R].
      destruct (log_facts members cfg F c R i l (pr_leader _ _ _ _ _ P)) as (W & S0 & _). destruct (LastIndex_len _ W S0) as (HL & _ & _). unfold len in HL. fold es in HL.
      exists 1, c', l', n'. split_and!; try done; [lia|cbn [replicate exchanges]; by rewrite E|rewrite Hm; f_equal; lia].
    + apply (Hgo (k - 1)); [lia|]. left. rewrite Hn. split; [done|lia].
  - destruct Hk as [[? _]|Hk]; [done|]. apply (Hgo (k - 1)); [lia|]. right. lia.
Qed.

Lemma catch_up i j now c l n : pair i j c l n -> calls c !! i = None ->
  exists r c' l' n', r <= 2 * length (entries_ (log_ l)) + 1 /\ exchanges i now (replicate r j) c = Some c' /\ pair i j c' l' n' /\ called i [j] c l c' l' /\
    matchIndex_ l' !! j = Some (LastIndex (log_ l)) /\ advanced l'.
Proof.
  intros P Hidle. pose proof (next_bounds i j c l n P).
  destruct (catch_up_loop i j now (2 * length (entries_ (log_ l))) c l n P Hidle) as (r & c' & l' & n' & Hr & Hout); [right; lia|]. exists r, c', l', n'. split; [lia|done].
Qed.

Lemma pair_kept i j c l n ps q c' l' n' : pair i j c l n -> called i ps c l c' l' -> j ∉ ps -> pair i q c' l' n' -> pair i j c' l' n.
Proof.
  intros [Hr Hs Hne Hl Hn Hrole Ht Hsz] C Hj [Hr' Hs' _ Hl' _ Hrole' _ _]. split; try done.
  - rewrite (cl_nodes _ _ _ _ _ _ C); [done|]. set_solver.
  - by rewrite (cl_term _ _ _ _ _ _ C).
  - by rewrite (cl_log _ _ _ _ _ _ C).
Qed.

(** The leader brings the peers up one after the other. *)
Lemma all_catch_up i now ps : NoDup ps -> ps <> [] -> forall c l, calls c !! i = None -> (forall p, p ∈ ps -> exists n, pair i p c l n) ->
  exists qs c' l', length qs <= length ps * (2 * length (entries_ (log_ l)) + 1) /\ (forall p, p ∈ qs -> p ∈ ps) /\
    exchanges i now qs c = Some c' /\ called i ps c l c' l' /\ advanced l' /\
    forall p, p ∈ ps -> exists n', pair i p c' l' n' /\ matchIndex_ l' !! p = Some (LastIndex (log_ l)).
Proof.
  induction 1 as [|j ps Hj _ IH]; intros Hne c l Hidle Hps; [done|].
  assert (exists qs c1 l1, length qs <= length ps * (2 * length (entries_ (log_ l)) + 1) /\ (forall p, p ∈ qs -> p ∈ ps) /\
    exchanges i now qs c = Some c1 /\ called i ps c l c1 l1 /\ (exists n, pair i j c1 l1 n) /\
    forall p, p ∈ ps -> exists n1, pair i p c1 l1 n1 /\ matchIndex_ l1 !! p = Some (LastIndex (log_ l))) as (qs & c1 & l1 & Hlen & Hin & E1 & C1 & [n Pj] & H1).
  { destruct (Hps j) as [n Pj]; [by left|]. destruct (decide (ps = [])) as [->|Hps'].
    - exists [], c, l. split_and!; try done; [by eexists|by intros p ?%not_elem_of_nil].
    - destruct (IH Hps' c l Hidle) as (qs & c1 & l1 & ? & ? & ? & C1 & _ & H1); [intros p Hp; apply Hps; by right|]. exists qs, c1, l1. split_and!; try done.
      exists n. destruct ps as [|q ps]; [done|]. destruct (H1 q) as (n1 & P1 & _); [by left|]. by apply (pair_kept i j c l n (q :: ps) q c1 l1 n1). }
  destruct (catch_up i j now c1 l1 n Pj (cl_idle _ _ _ _ _ _ C1)) as (r & c2 & l2 & n2 & Hr & E2 & P2 & C2 & Hm & Ha). rewrite (cl_log _ _ _ _ _ _ C1) in Hr, Hm.
  exists (qs ++ replicate r j), c2, l2. split_and!.
  - rewrite length_app, length_replicate. cbn [length]. lia.
  - intros p. rewrite elem_of_app, elem_of_cons. intros [?|[? _]%elem_of_replicate]; [right; auto|by left].
  - by rewrite (exchanges_app i now qs _ c c1).
  - eapply called_mono; [by eapply called_trans|]. set_solver.
  - done.
  - intros p [->|Hp]%elem_of_cons; [by exists n2|]. destruct (H1 p Hp) as (n1 & P1 & Hm1). assert (p ∉ [j]) as Hpj by (intros ->%list_elem_of_singleton; done).
    exists n1. split; [by apply (pair_kept i p c1 l1 n1 [j] j c2 l2 n2)|]. by rewrite (cl_match _ _ _ _ _ _ C2).
Qed.
End CatchUp.

(** C8: replication completes.  Take a leader and some followers of its term in a
    state a cluster reaches without restarts, snapshots and late responses, all
    logs below the snapshot threshold and the leader's with room below that of
    the followers, the leader's replication thread waiting for no answer,
    whatever the followers' logs have.  After at most twice the length of the
    leader's log plus one calls for each of them, none of which fails, every one
    of them has the leader's log as a prefix of its own and the leader's
    [matchIndex_] says so; and if they are a majority with the leader and the
    last entry is of its term, the leader has committed its whole log. *)
Theorem replication_completes {J : JsonLib} {L : JsonLaws J} members cfg c i l ps now :
  cluster_config members cfg -> promptly_reachable members cfg c -> small c -> nodes c !! i = Some l -> role_ l = Leader -> calls c !! i = None ->
  NoDup ps -> ps <> [] ->
  (forall p, p ∈ ps -> p <> i /\ exists n, nodes c !! p = Some n /\ currentTerm_ n = currentTerm_ l /\
     (Log_Size (log_ l) <= cfg_snapshotThreshold (config_ n))%Z) ->
  exists qs c' l', length qs <= length ps * (2 * length (entries_ (log_ l)) + 1) /\ (forall p, p ∈ qs -> p ∈ ps) /\
    exchanges i now qs c = Some c' /\ nodes c' !! i = Some l' /\ role_ l' = Leader /\ currentTerm_ l' = currentTerm_ l /\ log_ l' = log_ l /\
    (forall p, p ∈ ps -> exists n', nodes c' !! p = Some n' /\ entries_ (log_ l) `prefix_of` entries_ (log_ n') /\
       matchIndex_ l' !! p = Some (LastIndex (log_ l))) /\
    (GetTerm (log_ l) (LastIndex (log_ l)) = currentTerm_ l -> (QuorumSize l <= 1 + len ps)%Z -> commitIndex_ l' = LastIndex (log_ l)).
Proof.
  intros Hcfg Hr Hs Hl Hrole Hidle Hnd Hne Hps.
  destruct (all_catch_up members cfg Hcfg i now ps Hnd Hne c l Hidle) as (qs & c' & l' & Hlen & Hin & E & C & Ha & Hall).
  { intros p Hp. destruct (Hps p Hp) as (Hpi & n & Hn & Ht & Hsz). by exists n. }
  destruct ps as [|q ps]; [done|]. destruct (Hall q) as (nq & Pq & _); [by left|]. destruct (prompt_reach members cfg Hcfg c' (pr_reach _ _ _ _ _ _ _ Pq)) as (Hreach & Hsim & _).
  destruct (poised_of members cfg Hcfg c' (pr_reach _ _ _ _ _ _ _ Pq) (pr_small _ _ _ _ _ _ _ Pq)) as [F R].
  pose proof (pr_leader _ _ _ _ _ _ _ Pq) as Hl'. destruct (log_facts members cfg F c' R i l' Hl') as (W & S0 & _). destruct (LastIndex_len _ W S0) as (HL & Hpos & _).
  pose proof (cl_log _ _ _ _ _ _ C) as El. pose proof (cl_term _ _ _ _ _ _ C) as Et.
  exists qs, c', l'. split_and!; try done; [apply Pq| |].
  - intros p Hp. destruct (Hall p Hp) as (n' & P' & Hm). exists n'. split_and!; [apply P'| |done].
    destruct (pair_matched members cfg Hcfg i p c' l' n' _ P' Hm) as [_ Hpre]. rewrite El in *. by rewrite firstn_all2 in Hpre by (unfold len in *; lia).
  - intros Hterm Hq. apply Z.le_antisymm.
    + destruct (areachable_inv members (abs c') Hreach) as [H I]. pose proof (an_commit _ _ _ _ _ (ai_node _ _ _ I i _ (abs_lookup c' i l' Hl'))) as Hc.
      cbn [abs_node a_commit a_log] in Hc. rewrite El in *. unfold len in *. lia.
    + rewrite <- El. apply Ha; [|lia]. split; [rewrite El, Et; exact Hterm|].
      etrans; [|apply (replicated_count l' (q :: ps)); [done|]]; [unfold QuorumSize; rewrite (cl_config _ _ _ _ _ _ C); exact Hq|].
      intros p Hp. destruct (Hall p Hp) as (_ & _ & Hm). rewrite Hm, El. by eexists.
Qed.

(** ** An example *)

Section CatchUpExamples.
#[local] Existing Instance RefJson.
#[local] Open Scope string_scope.

Lemma ex_taken_reachable : promptly_reachable ex_members ex_cfg ex_taken.
Proof. exact (logged_reach _ _ _ (logged_steps _ _ _ _ ex_led_reachable ex_taken_step)). Qed.
Lemma ex_taken_small : small ex_taken.
Proof. apply small_check_ok. by vm_compute. Qed.
Lemma ex_taken_idle : calls ex_taken !! "n1" = None.
Proof. by vm_compute. Qed.
Lemma ex_taken_leader : nodes ex_taken !! "n1" = Some (node_of "n1" ex_taken) /\ role_ (node_of "n1" ex_taken) = Leader.
Proof. split; by vm_compute. Qed.
Lemma ex_taken_follower : nodes ex_taken !! "n2" = Some (node_of "n2" ex_taken) /\ currentTerm_ (node_of "n2" ex_taken) = currentTerm_ (node_of "n1" ex_taken) /\
  (Log_Size (log_ (node_of "n1" ex_taken)) <= cfg_snapshotThreshold (config_ (node_of "n2" ex_taken)))%Z.
Proof. split_and!; by vm_compute. Qed.
Lemma ex_taken_majority : GetTerm (log_ (node_of "n1" ex_taken)) (LastIndex (log_ (node_of "n1" ex_taken))) = currentTerm_ (node_of "n1" ex_taken) /\
  (QuorumSize (node_of "n1" ex_taken) <= 1 + len ["n2"])%Z /\ LastIndex (log_ (node_of "n1" ex_taken)) = 2%Z /\
  entries_ (log_ (node_of "n2" ex_taken)) = [sentinel 0 0].
Proof. split_and!; by vm_compute. Qed.

(** [n1] leads with two entries that [n2] does not have; it commits both. *)
Lemma replication_completes_witness : exists qs c' l',
  exchanges "n1" 300 qs ex_taken = Some c' /\ nodes c' !! "n1" = Some l' /\ commitIndex_ l' = 2%Z.
Proof.
  destruct ex_taken_leader as [Hl Hr]. destruct ex_taken_majority as (Ht & Hq & HL & _).
  destruct (replication_completes (L := RefJson_laws) ex_members ex_cfg ex_taken "n1" (node_of "n1" ex_taken) ["n2"] 300 ex_config_ok ex_taken_reachable ex_taken_small Hl Hr
    ex_taken_idle (NoDup_singleton "n2") ltac:(done)) as (qs & c' & l' & _ & _ & E & Hl' & _ & _ & _ & _ & Hc).
  - intros p ->%list_elem_of_singleton. split; [done|]. eexists. exact ex_taken_follower.
  - exists qs, c', l'. split; [exact E|]. split; [exact Hl'|]. rewrite <- HL. exact (Hc Ht Hq).
Defined.
End CatchUpExamples.
