(* ===== verification/RpcStream.v ===== *)
(** * RPC over TCP (src/raft/RaftPeer.{hpp,cpp}, src/raft/RaftRpcServer.{hpp,cpp})

    The client side of a peer connection and the server side of one, as byte
    stream processors: bytes arrive in chunks of arbitrary sizes, frames are cut
    out of the accumulated buffer, requests are dispatched to the node and
    responses to the promise with their sequence number.  The threads of the
    server are in [RpcListener]; here, whether a connection attempt or a write
    succeeds is an argument, how much a [send] of the server takes is part of the
    connection's state, and a promise is a handle. *)
From S2P Require Import Prelude CxxString CxxMap Json KVStore RaftRPC WriteAheadLog RaftLog RaftNode.
From Stdlib Require Import ZArith Lia Ascii String Strings.Byte.
From stdpp Require Import prelude gmap strings sorting.
#[local] Open Scope Z_scope.

(** ** The loop both sides share *)

(** The inner [while (true)] over the buffer.  The handler says whether the loop
    goes on; [None] is a read past the end of the buffer.  A frame consumes at
    least nine bytes, so the size of the buffer is enough fuel. *)
Fixpoint frame_loop {S} (handle : RpcFrame -> M S bool) (fuel : nat) (buf : list byte) : M S (option (list byte)) :=
  match fuel with
  | O => mret (Some buf)
  | S fuel' =>
      match Decode buf with
      | DecodePartial => mret (Some buf)
      | DecodeOutOfBounds => mret None
      | DecodeFrame frame c =>
          go ← handle frame;
          let rest := drop (Z.to_nat c) buf in
          if go : bool then frame_loop handle fuel' rest else mret (Some rest)
      end
  end.

(** A [recv] of [chunk]: append to the buffer, run the loop, erase what it
    consumed. *)
Definition on_recv {S} (handle : RpcFrame -> M S bool) (chunk buf : list byte) : M S (option (list byte)) :=
  frame_loop handle (length (buf ++ chunk)) (buf ++ chunk).

(** A connection: the chunks as they arrive. *)
Fixpoint on_recvs {S} (handle : RpcFrame -> M S bool) (chunks : list (list byte)) (buf : list byte) : M S (option (list byte)) :=
  match chunks with
  | [] => mret (Some buf)
  | chunk :: chunks' =>
      r ← on_recv handle chunk buf;
      match r with Some buf' => on_recvs handle chunks' buf' | None => mret None end
  end.

(** ** The server *)

(** The node, the bytes sent on the connection, and how many bytes each of the
    next [send]s takes, none if it fails; those after them take all. *)
Record ServerConn := mkServerConn { sc_node : RaftNode; sc_sent : list byte; sc_takes : list nat }.

Definition onNode {A} (m : M RaftNode A) : M ServerConn A := fun c =>
  let '(n, r) := m (sc_node c) in (mkServerConn n (sc_sent c) (sc_takes c), r).

(** [::send(fd, encoded.data(), encoded.size(), MSG_NOSIGNAL)], whose result is
    ignored. *)
Definition sys_send (bs : list byte) : M ServerConn unit :=
  modify (fun c =>
    match sc_takes c with
    | [] => mkServerConn (sc_node c) (sc_sent c ++ bs) []
    | k :: takes => mkServerConn (sc_node c) (sc_sent c ++ take k bs) takes
    end).

Section Server.
Context `{JsonLib}.

(** One turn of the loop of [HandleConn]; another frame type leaves the loop. *)
Definition HandleFrame (now : Z) (req : RpcFrame) : M ServerConn bool :=
  match fr_type req with
  | AppendEntriesReq =>
      q ← lift (AppendEntriesRequest_Deserialize (fr_payload req));
      r ← onNode (HandleAppendEntries now q);
      payload ← lift (AppendEntriesResponse_Serialize r);
      sys_send (default [] (Encode (mkRpcFrame AppendEntriesResp (fr_seq req) payload)));;
      mret true
  | RequestVoteReq =>
      q ← lift (RequestVoteRequest_Deserialize (fr_payload req));
      r ← onNode (HandleRequestVote now q);
      payload ← lift (RequestVoteResponse_Serialize r);
      sys_send (default [] (Encode (mkRpcFrame RequestVoteResp (fr_seq req) payload)));;
      mret true
  | _ => mret false
  end.

Definition HandleConn (now : Z) (chunks : list (list byte)) : M ServerConn (option (list byte)) :=
  on_recvs (HandleFrame now) chunks [].
End Server.

(** ** The client *)

(** A promise of a pending request, and how it was resolved. *)
Definition Promise : Type := nat.

(** [sockfd_] is whether there is an open socket and [recvThread_] whether the
    thread object is joinable, which it stays until somebody joins it, also when
    its function has returned.  [wire] is everything written to the peer's
    sockets.  The operations run one at a time: the locks and the thread
    scheduling between them are not modelled. *)
Record RaftPeer := mkRaftPeer {
  peerId_ : string;
  sockfd_ : bool;
  connected_ : bool;
  recvRunning_ : bool;
  recvThread_ : bool;
  seqGen_ : Z;
  pending_ : gmap Z Promise;
  wire : list byte;
  resolved : list (Promise * Res string);
}.

(** A socket was opened or closed. *)
Definition set_socket (open running thread : bool) (p : RaftPeer) : RaftPeer :=
  mkRaftPeer (peerId_ p) open open running thread (seqGen_ p) (pending_ p) (wire p) (resolved p).

(** [recvRunning_] was assigned. *)
Definition set_running (running : bool) (p : RaftPeer) : RaftPeer :=
  mkRaftPeer (peerId_ p) (sockfd_ p) (connected_ p) running (recvThread_ p) (seqGen_ p) (pending_ p) (wire p) (resolved p).

Definition put_pending (g : gmap Z Promise -> gmap Z Promise) (out : list (Promise * Res string)) (p : RaftPeer) : RaftPeer :=
  mkRaftPeer (peerId_ p) (sockfd_ p) (connected_ p) (recvRunning_ p) (recvThread_ p) (seqGen_ p)
    (g (pending_ p)) (wire p) (resolved p ++ out).

(** [seqGen_.fetch_add(1)] *)
Definition NextSeq : M RaftPeer Z := fun p =>
  (mkRaftPeer (peerId_ p) (sockfd_ p) (connected_ p) (recvRunning_ p) (recvThread_ p) (u32 (seqGen_ p + 1))
     (pending_ p) (wire p) (resolved p), Ok (seqGen_ p)).

(** [connect_ok]: the address resolves and [::connect] succeeds.  Assigning a new
    thread to a joinable thread object ends the process. *)
Definition Connect (connect_ok : bool) : M RaftPeer unit :=
  if negb connect_ok then mret tt
  else
    p ← getS;
    modify (set_socket true true (recvThread_ p));;
    if recvThread_ p then throw terminate else modify (set_socket true true true).

Definition RaftPeer_new (peerId : string) (connect_ok : bool) : RaftPeer * Res unit :=
  Connect connect_ok (mkRaftPeer peerId false false false false 0 ∅ [] []).

(** All pending requests fail. *)
Definition Disconnect : M RaftPeer unit :=
  modify (fun p => set_socket false (recvRunning_ p) (recvThread_ p) p);;
  modify (fun p => put_pending (fun _ => ∅)
    ((fun kv => (kv.2, Throw (runtime_error "peer disconnected"))) <$> map_to_list (pending_ p)) p).

(** The destructor: the receive thread ends and is joined. *)
Definition RaftPeer_destroy : M RaftPeer unit :=
  modify (fun p => set_running false p);;
  Disconnect;;
  modify (fun p => set_socket false false false p).

(** Nobody waits for a peer that is gone. *)
Lemma RaftPeer_destroy_resolves p : let p' := (RaftPeer_destroy p).1 in
  pending_ p' = ∅ /\ recvThread_ p' = false /\ connected_ p' = false /\
  forall seq pr, pending_ p !! seq = Some pr -> (pr, Throw (runtime_error "peer disconnected")) ∈ resolved p'.
Proof.
  split_and!; try done. intros seq pr Hp. cbn. apply elem_of_app. right. apply list_elem_of_fmap. exists (seq, pr). split; [done|].
  by apply elem_of_map_to_list.
Qed.

(** What the socket does with a write: it fails at some point, or takes it. *)
Inductive Io : Type := IoError | IoOk.

Definition SendRaw (io : Io) (data : list byte) : M RaftPeer bool :=
  p ← getS;
  if negb (sockfd_ p) then mret false
  else match io with
  | IoError => Disconnect;; mret false
  | IoOk =>
      modify (fun p => mkRaftPeer (peerId_ p) (sockfd_ p) (connected_ p) (recvRunning_ p) (recvThread_ p) (seqGen_ p)
                         (pending_ p) (wire p ++ data) (resolved p));;
      mret true
  end.

Definition set_pending (g : gmap Z Promise -> gmap Z Promise) : M RaftPeer unit :=
  modify (put_pending g []).

(** [SendAppendEntries] and [SendRequestVote], which differ in the frame type and
    the serialisation [text]; the result is the error of a future that failed at
    once, or nothing when the promise [pr] waits for its response. *)
Definition SendRequest (connect_ok : bool) (io : Io) (type : RpcType) (text : Res string) (pr : Promise) : M RaftPeer (option exn) :=
  seq ← NextSeq;
  p ← getS;
  (if connected_ p then mret tt else Connect connect_ok);;
  p ← getS;
  if negb (connected_ p) then mret (Some (runtime_error "peer not connected"))
  else
    set_pending (<[seq := pr]>);;
    payload ← lift text;
    sent ← SendRaw io (default [] (Encode (mkRpcFrame type seq payload)));
    if negb (sent : bool) then
      set_pending (delete seq);;
      mret (Some (runtime_error "send failed"))
    else mret None.

Definition SendAppendEntries `{JsonLib} (connect_ok : bool) (io : Io) (req : AppendEntriesRequest) (pr : Promise) : M RaftPeer (option exn) :=
  SendRequest connect_ok io AppendEntriesReq (AppendEntriesRequest_Serialize req) pr.

Definition SendRequestVote `{JsonLib} (connect_ok : bool) (io : Io) (req : RequestVoteRequest) (pr : Promise) : M RaftPeer (option exn) :=
  SendRequest connect_ok io RequestVoteReq (RequestVoteRequest_Serialize req) pr.

(** The detached thread behind a call: the inner future's result if it is ready
    before the timeout, deserialised, or the exception of the timeout. *)
Definition outer_result {A} (deserialize : string -> Res A) (inner : option (Res string)) : Res A :=
  match inner with
  | Some r => payload ← r; deserialize payload
  | None => Throw (runtime_error "RPC timeout")
  end.

Definition SendAppendEntries_result `{JsonLib} : option (Res string) -> Res AppendEntriesResponse :=
  outer_result AppendEntriesResponse_Deserialize.
Definition SendRequestVote_result `{JsonLib} : option (Res string) -> Res RequestVoteResponse :=
  outer_result RequestVoteResponse_Deserialize.

(** One turn of the inner loop of [RecvLoop]. *)
Definition resolve (frame : RpcFrame) : M RaftPeer bool := fun p =>
  (match pending_ p !! fr_seq frame with
   | Some pr => put_pending (delete (fr_seq frame)) [(pr, Ok (fr_payload frame))] p
   | None => p
   end, Ok true).

(** What a [recv] returns: bytes, [EAGAIN], or the end of the connection ([n]
    zero, or another error). *)
Inductive RecvEvent : Type := RecvBytes (chunk : list byte) | RecvAgain | RecvClosed.

(** The outer loop; it waits in [recv] when the events run out. *)
Fixpoint recv_loop (evs : list RecvEvent) (buf : list byte) : M RaftPeer (option (list byte)) :=
  match evs with
  | [] => mret (Some buf)
  | ev :: evs' =>
      p ← getS;
      if negb (recvRunning_ p && connected_ p) then mret (Some buf)
      else match ev with
      | RecvAgain => recv_loop evs' buf
      | RecvClosed => Disconnect;; mret (Some buf)
      | RecvBytes chunk =>
          r ← on_recv resolve chunk buf;
          match r with Some buf' => recv_loop evs' buf' | None => mret None end
      end
  end.

Definition RecvLoop (evs : list RecvEvent) : M RaftPeer (option (list byte)) := recv_loop evs [].

(** ** Lemmas *)

Lemma onNode_run {A} (m : M RaftNode A) c n' r : m (sc_node c) = (n', r) -> onNode m c = (mkServerConn n' (sc_sent c) (sc_takes c), r).
Proof. intros E. unfold onNode. by rewrite E. Qed.

Definition stream (fs : list RpcFrame) : list byte := mjoin (frame_bytes <$> fs).

Section Stream.
Context {S : Type} (handle : RpcFrame -> M S bool) (g : RpcFrame -> S -> S).

(** The effect of handling a sequence of frames. *)
Definition handled (fs : list RpcFrame) (s : S) : S := fold_left (fun s f => g f s) fs s.

(** Along the sequence the handler goes on and has the effect [g]. *)
Fixpoint handles (fs : list RpcFrame) (s : S) : Prop :=
  match fs with
  | [] => True
  | f :: fs' => handle f s = (g f s, Ok true) /\ handles fs' (g f s)
  end.

(** Bytes that are the beginning of a stream: the complete frames are handled,
    and an incomplete one stays in the buffer. *)
Lemma frame_loop_stream fs : forall fuel data tail s, Forall RpcFrame_ok fs -> handles fs s ->
  data ++ tail = stream fs -> (length data <= fuel)%nat ->
  exists fs1 fs2 rest, fs = fs1 ++ fs2 /\ rest ++ tail = stream fs2 /\ Decode rest = DecodePartial /\
    frame_loop handle fuel data s = (handled fs1 s, Ok (Some rest)).
Proof.
  induction fs as [|f fs IH]; intros fuel data tail s Hok Hh Hd Hf.
  - apply app_eq_nil in Hd as [-> ->]. exists [], [], []. split_and!; [done|done|done|]. by destruct fuel.
  - apply Forall_cons in Hok as [Hf0 Hok]. destruct Hh as [Hrun Hh].
    change (stream (f :: fs)) with (frame_bytes f ++ stream fs) in Hd.
    assert ((exists k, data = frame_bytes f ++ k /\ stream fs = k ++ tail) \/
            (exists k, frame_bytes f = data ++ k /\ k <> [] /\ tail = k ++ stream fs)) as [(k & -> & Hk)|(k & Hk & Hne & ->)].
    { apply app_eq_inv in Hd as [?|(k & Hk1 & Hk2)]; [by left|]. destruct k as [|b k]; [left|right; by exists (b :: k)].
      exists []. rewrite app_nil_r in *. by subst. }
    + rewrite length_app, length_frame_bytes in Hf. destruct fuel as [|fuel]; [lia|]. cbn [frame_loop].
      rewrite Decode_frame by done. rewrite (bind_run _ _ _ _ _ Hrun). cbv zeta.
      assert (drop (Z.to_nat (len (frame_bytes f))) (frame_bytes f ++ k) = k) as ->
        by (unfold len; rewrite Nat2Z.id; apply drop_app_length).
      destruct (IH fuel k tail (g f s) Hok Hh (eq_sym Hk) ltac:(lia)) as (fs1 & fs2 & rest & -> & Hr & Hp & E).
      exists (f :: fs1), fs2, rest. split_and!; [done|done|done|exact E].
    + assert (Decode data = DecodePartial) as Hp.
      { replace data with (take (length data) (frame_bytes f)) by (rewrite Hk; by rewrite take_app_length).
        apply Decode_prefix; [done|]. rewrite Hk, length_app. destruct k; [done|]. simpl. lia. }
      exists [], (f :: fs), data. split_and!; [done| |done|].
      * change (stream (f :: fs)) with (frame_bytes f ++ stream fs). by rewrite Hk, app_assoc.
      * destruct fuel as [|fuel]; [done|]. cbn [frame_loop]. by rewrite Hp.
Qed.

Lemma handles_app fs1 fs2 s : handles (fs1 ++ fs2) s <-> handles fs1 s /\ handles fs2 (handled fs1 s).
Proof. revert s. induction fs1 as [|f fs1 IH]; intros s; simpl; [tauto|]. rewrite IH. tauto. Qed.

(** Whatever the chunks a stream of frames arrives in, the frames are handled
    one after the other and nothing is left over. *)
Lemma on_recvs_stream chunks : forall fs buf s, Forall RpcFrame_ok fs -> handles fs s ->
  buf ++ mjoin chunks = stream fs -> Decode buf = DecodePartial -> 
  on_recvs handle chunks buf s = (handled fs s, Ok (Some [])).
Proof.
  induction chunks as [|chunk chunks IH]; intros fs buf s Hok Hh Hd Hp; cbn [on_recvs].
  - destruct fs as [|f fs].
    + simpl in Hd. apply app_eq_nil in Hd as [-> _]. done.
    + exfalso. apply Forall_cons in Hok as [Hf _]. change (buf ++ [] = frame_bytes f ++ stream fs) in Hd.
      rewrite app_nil_r in Hd. rewrite Hd, Decode_frame in Hp by done. done.
  - rewrite mjoin_cons, app_assoc in Hd.
    destruct (frame_loop_stream fs (length (buf ++ chunk)) (buf ++ chunk) (mjoin chunks) s Hok Hh Hd ltac:(lia))
      as (fs1 & fs2 & rest & -> & Hr & Hp' & E).
    unfold on_recv. rewrite (bind_run _ _ _ _ _ E). apply Forall_app in Hok as [_ Hok]. apply handles_app in Hh as [_ Hh].
    rewrite (IH fs2 rest) by done. unfold handled. by rewrite fold_left_app.
Qed.
End Stream.

Lemma stream_one f : stream [f] = frame_bytes f.
Proof. exact (app_nil_r (frame_bytes f)). Qed.

(** A single frame in any chunks. *)
Lemma on_recvs_one {S} (handle : RpcFrame -> M S bool) chunks f s s' : RpcFrame_ok f ->
  mjoin chunks = frame_bytes f -> handle f s = (s', Ok true) ->
  on_recvs handle chunks [] s = (s', Ok (Some [])).
Proof.
  intros Hf Hc Hh. apply (on_recvs_stream handle (fun _ _ => s') chunks [f]); [by constructor|done| |done].
  by rewrite stream_one.
Qed.

(** ** Theorems *)

(** The receive thread of a live connection. *)
Definition live (p : RaftPeer) : Prop := recvRunning_ p = true /\ connected_ p = true.

(** The loop keeps what each turn of it keeps. *)
Lemma frame_loop_keeps (R : RaftPeer -> RaftPeer -> Prop) `{!PreOrder R} fuel data :
  (forall p g out, R p (put_pending g out p)) -> keeps R (frame_loop resolve fuel data).
Proof.
  intros HR. revert data. induction fuel as [|fuel IH]; intros data; cbn [frame_loop]; [keeps_tac|].
  destruct (Decode data) as [|frame c|]; keeps_tac; [|apply IH].
  intros p. unfold resolve. destruct (pending_ p !! fr_seq frame); [apply HR|reflexivity].
Qed.

Definition still_live (p p' : RaftPeer) : Prop := live p -> live p'.

#[local] Instance still_live_preorder : PreOrder still_live.
Proof. split; unfold still_live; [by intros p | intros p q r; tauto]. Qed.

Lemma on_recv_live chunk buf p : live p -> live (on_recv resolve chunk buf p).1.
Proof. apply (frame_loop_keeps still_live). intros q g out Hq. exact Hq. Qed.

(** While the connection is live the outer loop is the shared one, and whatever
    follows the chunks is handled with the buffer they leave. *)
Lemma recv_loop_bytes chunks evs : forall buf p, live p ->
  recv_loop ((RecvBytes <$> chunks) ++ evs) buf p =
  (r ← on_recvs resolve chunks buf; match r with Some buf' => recv_loop evs buf' | None => mret None end) p.
Proof.
  induction chunks as [|chunk chunks IH]; intros buf p Hl; [done|]. pose proof (on_recv_live chunk buf p Hl) as Hl'.
  cbn [on_recvs fmap list_fmap app recv_loop]. rewrite bind_getS. destruct Hl as [-> ->]. cbn [andb negb].
  destruct (on_recv resolve chunk buf p) as [p' [[buf'|]|e]] eqn:E.
  - rewrite (bind_run _ _ _ _ _ E), IH by done. unfold mbind, M_bind. by rewrite E.
  - unfold mbind, M_bind. by rewrite E.
  - unfold mbind, M_bind. by rewrite E.
Qed.

Lemma handles_resolve fs p : handles resolve (fun f p => (resolve f p).1) fs p.
Proof. revert p. induction fs as [|f fs IH]; intros p; [done|]. by split. Qed.

Lemma RecvLoop_stream chunks evs fs p : live p -> Forall RpcFrame_ok fs -> mjoin chunks = stream fs ->
  RecvLoop ((RecvBytes <$> chunks) ++ evs) p = recv_loop evs [] (handled (fun f p => (resolve f p).1) fs p).
Proof.
  intros Hl Hok Hc. unfold RecvLoop. rewrite recv_loop_bytes by done.
  by rewrite (bind_run _ _ _ _ _ (on_recvs_stream resolve _ chunks fs [] p Hok (handles_resolve fs p) Hc eq_refl)).
Qed.

(** Cutting a connection into chunks does not matter.  For every sequence of
    well-formed frames the handler accepts and every way the bytes of the stream
    arrive, the server handles exactly these frames, in order, and ends with an
    empty buffer; a connected peer does the same with the responses. *)
Lemma chunking_independent `{JsonLib} now chunks fs c p :
  Forall RpcFrame_ok fs -> mjoin chunks = stream fs -> live p ->
  (handles (HandleFrame now) (fun f c => (HandleFrame now f c).1) fs c ->
   HandleConn now chunks c = (handled (fun f c => (HandleFrame now f c).1) fs c, Ok (Some []))) /\
  RecvLoop (RecvBytes <$> chunks) p = (handled (fun f p => (resolve f p).1) fs p, Ok (Some [])).
Proof.
  intros Hok Hc Hl. split; [intros Hh; by apply on_recvs_stream|].
  pose proof (RecvLoop_stream chunks [] fs p Hl Hok Hc) as E. by rewrite app_nil_r in E.
Qed.

(** Resolving a sequence of responses. *)
Definition seq_in (fs : list RpcFrame) (seq : Z) : Prop := seq ∈ (fr_seq <$> fs).

Lemma handled_resolve fs : forall p seq pr,
  let p' := handled (fun f p => (resolve f p).1) fs p in
  pending_ p !! seq = Some pr ->
  (~ seq_in fs seq -> pending_ p' !! seq = Some pr) /\
  (forall f fs1 fs2, fs = fs1 ++ f :: fs2 -> fr_seq f = seq -> ~ seq_in fs1 seq ->
     (pr, Ok (fr_payload f)) ∈ resolved p').
Proof.
  assert (forall fs p x, x ∈ resolved p -> x ∈ resolved (handled (fun f p => (resolve f p).1) fs p)) as Hmono.
  { clear. induction fs as [|f fs IH]; intros p x Hx; [done|]. apply IH. unfold resolve.
    destruct (pending_ p !! fr_seq f); simpl; [|done]. apply elem_of_app. by left. }
  induction fs as [|f0 fs IH]; intros p seq pr p' Hp.
  { split; [done|]. intros f fs1 fs2 E. by destruct fs1. }
  unfold p'. change (handled (fun f p => (resolve f p).1) (f0 :: fs) p) with
    (handled (fun f p => (resolve f p).1) fs (resolve f0 p).1).
  destruct (decide (fr_seq f0 = seq)) as [E0|Hne].
  - split; [intros Hno; exfalso; apply Hno; unfold seq_in; rewrite fmap_cons, E0; left|].
    intros f fs1 fs2 E Hs Hno. destruct fs1 as [|x fs1]; simpl in E; inv E.
    + apply Hmono. unfold resolve. rewrite Hp. simpl. apply elem_of_app. right. by apply list_elem_of_singleton.
    + exfalso. apply Hno. unfold seq_in. rewrite fmap_cons. left.
  - assert (pending_ (resolve f0 p).1 !! seq = Some pr) as Hp1.
    { unfold resolve. destruct (pending_ p !! fr_seq f0); simpl; [|done]. by rewrite lookup_delete_ne. }
    destruct (IH (resolve f0 p).1 seq pr Hp1) as [H1 H2]. split.
    + intros Hno. apply H1. intros Hin. apply Hno. unfold seq_in in *. rewrite fmap_cons. by right.
    + intros f fs1 fs2 E Hs Hno. destruct fs1 as [|x fs1]; simpl in E; [by inv E|inv E].
      apply (H2 f fs1 fs2); try done. intros Hin. apply Hno. unfold seq_in in *. rewrite fmap_cons. by right.
Qed.

(** The end of a connection fails what is pending. *)
Lemma recv_loop_closed p : live p ->
  exists p', recv_loop [RecvClosed] [] p = (p', Ok (Some [])) /\ pending_ p' = ∅ /\ connected_ p' = false /\
    (forall seq pr, pending_ p !! seq = Some pr -> (pr, Throw (runtime_error "peer disconnected")) ∈ resolved p') /\
    (forall x, x ∈ resolved p -> x ∈ resolved p').
Proof.
  intros [Hr Hc]. eexists. cbn [recv_loop]. rewrite bind_getS, Hr, Hc. cbn [andb negb].
  split; [reflexivity|]. split; [done|]. split; [done|]. split.
  - intros seq pr Hp. apply elem_of_app. right. apply list_elem_of_fmap. exists (seq, pr). split; [done|].
    by apply elem_of_map_to_list.
  - intros x Hx. apply elem_of_app. by left.
Qed.

Lemma handled_live fs p : live p -> live (handled (fun f p => (resolve f p).1) fs p).
Proof.
  revert p. induction fs as [|f fs IH]; intros p Hl; [done|]. apply IH. unfold resolve.
  destruct (pending_ p !! fr_seq f); exact Hl.
Qed.

(** Responses go to the request with their sequence number, and no request is
    left hanging.  However the bytes of a sequence of response frames arrive, a
    pending promise gets the payload of the first frame with its number, and a
    promise whose number does not occur stays pending; when the connection then
    closes, it fails with an exception and nothing is pending any more. *)
Theorem RecvLoop_matches chunks fs p seq pr :
  live p -> Forall RpcFrame_ok fs -> mjoin chunks = stream fs -> pending_ p !! seq = Some pr ->
  exists p' p'', RecvLoop (RecvBytes <$> chunks) p = (p', Ok (Some [])) /\
    RecvLoop ((RecvBytes <$> chunks) ++ [RecvClosed]) p = (p'', Ok (Some [])) /\
    (~ seq_in fs seq -> pending_ p' !! seq = Some pr /\
       (pr, Throw (runtime_error "peer disconnected")) ∈ resolved p'') /\
    (forall f fs1 fs2, fs = fs1 ++ f :: fs2 -> fr_seq f = seq -> ~ seq_in fs1 seq ->
       (pr, Ok (fr_payload f)) ∈ resolved p' /\ (pr, Ok (fr_payload f)) ∈ resolved p'') /\
    pending_ p'' = ∅.
Proof.
  intros Hl Hok Hc Hp. pose proof (RecvLoop_stream chunks [] fs p Hl Hok Hc) as E1. rewrite app_nil_r in E1.
  pose proof (RecvLoop_stream chunks [RecvClosed] fs p Hl Hok Hc) as E2.
  destruct (recv_loop_closed _ (handled_live fs p Hl)) as (p'' & E3 & Hpend & _ & Hfail & Hmono).
  destruct (handled_resolve fs p seq pr Hp) as [H1 H2].
  eexists _, p''. split; [exact E1|]. split; [by rewrite E2|]. split; [|split; [|done]].
  - intros Hno. split; [by apply H1|]. by apply (Hfail seq), H1.
  - intros f fs1 fs2 E Hs Hno. split; [by apply (H2 f fs1 fs2)|]. by apply Hmono, (H2 f fs1 fs2).
Qed.

(** No operation of the receive loop joins the thread. *)
Definition same_thread (p p' : RaftPeer) : Prop := recvThread_ p' = recvThread_ p.

#[local] Instance same_thread_preorder : PreOrder same_thread.
Proof. split; unfold same_thread; [by intros p | by intros p q r -> ->]. Qed.

Lemma recv_loop_thread evs buf : keeps same_thread (recv_loop evs buf).
Proof.
  revert buf. induction evs as [|ev evs IH]; intros buf; cbn [recv_loop]; keeps_tac.
  destruct ev as [chunk| |]; [|apply IH|unfold Disconnect; by keeps_tac].
  apply keeps_bind; [apply _|apply (frame_loop_keeps same_thread); by unfold same_thread|]. intros [buf'|]; [apply IH|keeps_tac].
Qed.

(** A peer cannot be reconnected.  Once a connection has been established and
    lost, the next request that manages to connect again assigns a new thread to
    the thread object that nobody joined, which ends the process, whatever the
    request. *)
Theorem reconnect_terminates connect_ok io type text pr id evs p0 r p1 :
  RaftPeer_new id connect_ok = (p0, Ok tt) -> connected_ p0 = true ->
  RecvLoop (evs ++ [RecvClosed]) p0 = (p1, Ok r) -> connected_ p1 = false ->
  (SendRequest true io type text pr p1).2 = Throw terminate.
Proof.
  intros E0 Hc0 E1 Hc1.
  assert (recvThread_ p1 = true) as Ht.
  { destruct connect_ok; cbv in E0; injection E0 as <-; [|done].
    change p1 with (p1, Ok r).1. rewrite <- E1. apply (recv_loop_thread (evs ++ [RecvClosed]) []). }
  unfold SendRequest. rewrite (bind_run NextSeq _ _ _ _ eq_refl), bind_getS. cbn [connected_]. rewrite Hc1.
  unfold Connect. cbn [negb]. unfold mbind, M_bind, getS, modify. cbn [recvThread_]. by rewrite Ht.
Qed.

Section EndToEnd.
Context {J : JsonLib} {L : JsonLaws J}.

Lemma SendRequest_run b type s pr p : connected_ p = true -> sockfd_ p = true -> RpcFrame_ok (mkRpcFrame type (seqGen_ p) s) ->
  SendRequest b IoOk type (Ok s) pr p =
  (mkRaftPeer (peerId_ p) true true (recvRunning_ p) (recvThread_ p) (u32 (seqGen_ p + 1)) (<[seqGen_ p := pr]> (pending_ p))
     (wire p ++ frame_bytes (mkRpcFrame type (seqGen_ p) s)) (resolved p ++ []), Ok None).
Proof.
  intros Hc Hs Hf. unfold SendRequest. rewrite (bind_run NextSeq _ _ _ _ eq_refl), bind_getS. cbn [connected_]. rewrite Hc.
  rewrite bind_ret, bind_getS. cbn [connected_ negb]. unfold set_pending. rewrite bind_modify, bind_lift_Ok.
  rewrite Encode_ok by done. unfold SendRaw. unfold mbind, M_bind, getS, modify, mret, M_ret.
  cbn [sockfd_ put_pending negb]. by rewrite Hs.
Qed.

(** The response to the pending request with the number of the frame. *)
Lemma RecvLoop_one chunks f p pr : live p -> RpcFrame_ok f -> mjoin chunks = frame_bytes f -> pending_ p !! fr_seq f = Some pr ->
  exists p', RecvLoop (RecvBytes <$> chunks) p = (p', Ok (Some [])) /\ resolved p' = resolved p ++ [(pr, Ok (fr_payload f))].
Proof.
  intros Hl Hf Hc Hp. pose proof (RecvLoop_stream chunks [] [f] p Hl ltac:(by constructor)) as E.
  rewrite stream_one, app_nil_r in E. eexists. split; [by apply E|]. simpl. by rewrite Hp.
Qed.

(** The text of a message fits the 32-bit length of a frame. *)
Definition fits (text : Res string) : Prop := match text with Ok s => str_size s < 2 ^ 32 - 9 | Throw _ => False end.

Lemma frame_ok type seq s : fits (Ok s) -> is_u32 seq -> rpc_of_byte (rpc_to_byte type) = type -> RpcFrame_ok (mkRpcFrame type seq s).
Proof. intros Hf Hs Ht. by split_and!. Qed.

(** C34: a RequestVote call end to end.  The bytes a candidate's peer object
    writes for a request make the server of the other node, in whatever chunks
    they arrive, run [HandleRequestVote] on exactly that request; the bytes it
    sends back, if its [send] takes them all, resolve, in whatever chunks they arrive, exactly the promise of
    that call, and the caller, if it is in time, gets the handler's response. *)
Theorem vote_rpc_end_to_end now req resp n n' p pr :
  live p -> sockfd_ p = true -> is_u32 (seqGen_ p) -> RequestVoteRequest_ok req -> is_u64 (vr_term resp) ->
  fits (RequestVoteRequest_Serialize req) -> fits (RequestVoteResponse_Serialize resp) ->
  HandleRequestVote now req n = (n', Ok resp) ->
  exists p1 sent, SendRequestVote false IoOk req pr p = (p1, Ok None) /\ wire p1 = wire p ++ sent /\
    forall chunks, mjoin chunks = sent ->
    exists c, HandleConn now chunks (mkServerConn n [] []) = (c, Ok (Some [])) /\ sc_node c = n' /\
      forall chunks', mjoin chunks' = sc_sent c ->
      exists p2 s, RecvLoop (RecvBytes <$> chunks') p1 = (p2, Ok (Some [])) /\
        resolved p2 = resolved p ++ [(pr, Ok s)] /\ SendRequestVote_result (Some (Ok s)) = Ok resp.
Proof.
  intros [Hr Hc] Hsock Hseq Hreq Hresp F1 F2 Hh.
  destruct (RequestVoteRequest_rt req Hreq) as (s1 & E1 & D1). destruct (RequestVoteResponse_rt resp Hresp) as (s2 & E2 & D2).
  rewrite E1 in F1. rewrite E2 in F2.
  pose proof (frame_ok RequestVoteReq (seqGen_ p) s1 F1 Hseq eq_refl) as Ok1.
  pose proof (frame_ok RequestVoteResp (seqGen_ p) s2 F2 Hseq eq_refl) as Ok2.
  unfold SendRequestVote. rewrite E1, SendRequest_run by done. eexists _, _. split; [done|]. split; [done|].
  intros chunks Hchunks. eexists (mkServerConn n' (frame_bytes (mkRpcFrame RequestVoteResp (seqGen_ p) s2)) []).
  split; [apply (on_recvs_one _ chunks _ _ _ Ok1 Hchunks)|].
  { unfold HandleFrame. cbn [fr_type fr_payload fr_seq]. rewrite D1, bind_lift_Ok. rewrite (bind_run _ _ _ _ _ (onNode_run _ (mkServerConn n [] []) _ _ Hh)). rewrite E2, bind_lift_Ok. unfold sys_send. rewrite bind_modify. by rewrite Encode_ok. }
  split; [done|]. intros chunks' Hchunks'.
  match goal with |- context [RecvLoop _ ?q] =>
    destruct (RecvLoop_one chunks' _ q pr (conj Hr eq_refl) Ok2 Hchunks') as (p2 & E & R) end; [apply lookup_insert_eq|].
  exists p2, s2. split; [exact E|]. split; [|done]. rewrite R. cbn [resolved]. by rewrite app_nil_r.
Qed.
End EndToEnd.

(** ** Witnesses *)

Section StreamExamples.
#[local] Existing Instance RefJson.
#[local] Open Scope string_scope.
#[local] Open Scope Z_scope.

Definition ex_frame : RpcFrame := mkRpcFrame RequestVoteResp 7 "{}".
Definition ex_peer : RaftPeer := mkRaftPeer "n2" true true true true 8 {[7 := 0%nat]} [] [].

Lemma ex_frame_ok : Forall RpcFrame_ok [ex_frame].
Proof. repeat constructor; by vm_compute. Qed.

(** The frame cut into three chunks. *)
Definition ex_chunks : list (list byte) :=
  [take 4 (frame_bytes ex_frame); []; drop 4 (frame_bytes ex_frame)].

Lemma ex_chunks_stream : mjoin ex_chunks = stream [ex_frame].
Proof. by vm_compute. Qed.

Definition ex_server_node : RaftNode := RaftNode_init (mkRaftConfig "n2" [] 2380 150 300 50 50 10000) KVStore_new (Some []).

Lemma ex_peer_live : live ex_peer.
Proof. by split. Qed.

Example chunking_independent_example :
  (RecvLoop (RecvBytes <$> ex_chunks) ex_peer).2 = Ok (Some []) /\
  resolved (RecvLoop (RecvBytes <$> ex_chunks) ex_peer).1 = [(0%nat, Ok "{}")].
Proof.
  pose proof (proj2 (chunking_independent 0 ex_chunks [ex_frame] (mkServerConn ex_server_node [] []) ex_peer ex_frame_ok ex_chunks_stream ex_peer_live)) as H.
  rewrite H. by vm_compute.
Defined.

Lemma RecvLoop_matches_witness :
  exists p', RecvLoop (RecvBytes <$> ex_chunks) ex_peer = (p', Ok (Some [])) /\ (0%nat, Ok "{}") ∈ resolved p'.
Proof.
  destruct (RecvLoop_matches ex_chunks [ex_frame] ex_peer 7 0%nat ex_peer_live ex_frame_ok ex_chunks_stream)
    as (p' & p'' & E & _ & _ & H & _); [by vm_compute|].
  exists p'. split; [exact E|]. apply (H ex_frame [] []); [done|done|]. by intros ?%not_elem_of_nil.
Defined.

(** A peer that loses its connection while a request is pending. *)
Lemma reconnect_terminates_witness :
  (SendRequest true IoOk RequestVoteReq (Ok "{}") 1%nat
     (RecvLoop ([] ++ [RecvClosed]) (RaftPeer_new "n2" true).1).1).2 = Throw terminate.
Proof.
  apply (reconnect_terminates true IoOk RequestVoteReq (Ok "{}") 1%nat "n2" []
    (RaftPeer_new "n2" true).1 (Some [])); reflexivity.
Defined.

Definition ex_vote_req : RequestVoteRequest := mkRequestVoteRequest 1 "n1" 0 0.

Lemma vote_rpc_end_to_end_witness :
  exists p1, (SendRequestVote false IoOk ex_vote_req 5%nat ex_peer).1 = p1 /\ pending_ p1 !! 8 = Some 5%nat.
Proof.
  destruct (HandleRequestVote 1 ex_vote_req ex_server_node) as [n' r] eqn:Hh.
  assert (r = Ok (mkRequestVoteResponse 0 true)) as -> by (change r with (n', r).2; rewrite <- Hh; by vm_compute).
  destruct (vote_rpc_end_to_end (L := RefJson_laws) 1 ex_vote_req (mkRequestVoteResponse 0 true) ex_server_node n' ex_peer 5%nat)
    as (p1 & sent & E & _); try done; try by vm_compute.
  exists p1. rewrite E. split; [done|]. change p1 with (p1, @Ok (option exn) None).1. rewrite <- E. by vm_compute.
Defined.

(** A [send] of the server that takes only a part is not repeated: the client takes
    the beginning of the next response for the rest of this one, and the next
    call is never answered. *)
Definition ex_vote_frame (seq : Z) : RpcFrame :=
  mkRpcFrame RequestVoteReq seq (match RequestVoteRequest_Serialize ex_vote_req with Ok t => t | Throw _ => "" end).
Definition ex_answers (takes : list nat) : list byte :=
  sc_sent (HandleConn 1 [frame_bytes (ex_vote_frame 7); frame_bytes (ex_vote_frame 8)] (mkServerConn ex_server_node [] takes)).1.
Definition ex_waiting : RaftPeer := mkRaftPeer "n2" true true true true 9 {[7 := 0%nat; 8 := 1%nat]} [] [].

Example short_send_loses_next :
  dom (pending_ (RecvLoop [RecvBytes (ex_answers [])] ex_waiting).1) = ∅ /\
  dom (pending_ (RecvLoop [RecvBytes (ex_answers [12%nat])] ex_waiting).1) = {[8]} /\
  SendRequestVote_result (snd <$> head (resolved (RecvLoop [RecvBytes (ex_answers [12%nat])] ex_waiting).1)) <> Ok (mkRequestVoteResponse 0 true).
Proof. by vm_compute. Qed.
End StreamExamples.
