(* ===== verification/RpcListener.v ===== *)
(** * The life of the RPC server (src/raft/RaftRpcServer.{hpp,cpp}: Start, Stop, AcceptLoop)

    The listening socket and the accept thread of [RaftRpcServer], and the
    detached threads that run [HandleConn], whose work is in [RpcStream].  What
    the system calls return is an argument; a new descriptor is one that is not
    open.

    The theorems: an error of [accept], of whatever kind, ends the accept thread
    for good while the server counts as running; [Stop] returns, with the
    listening socket closed and every connection as it was. *)
From S2P Require Import Prelude CxxString.
From Stdlib Require Import ZArith Lia Ascii String.
From stdpp Require Import prelude gmap strings.
#[local] Open Scope Z_scope.

(** At [while (running_)], in [accept], returned. *)
Inductive RpcAcceptPc : Type := RaNone | RaLoop | RaAccept | RaDone.
Inductive RpcStopPc : Type := RsOutside | RsClose | RsJoin.

#[global] Instance RpcAcceptPc_eq_dec : EqDecision RpcAcceptPc.
Proof. solve_decision. Defined.
#[global] Instance RpcStopPc_eq_dec : EqDecision RpcStopPc.
Proof. solve_decision. Defined.

(** [handlers] are the connections with a thread in [HandleConn]; [descriptors]
    are the open descriptors of the server. *)
Record RaftRpcServer := mkRaftRpcServer {
  port_ : Z;
  listenFd_ : Z;
  running_ : bool;
  acceptThread_ : RpcAcceptPc;
  handlers : list Z;
  stopping : RpcStopPc;
  descriptors : gset Z;
}.

Definition RaftRpcServer_new (port : Z) : RaftRpcServer := mkRaftRpcServer port (-1) false RaNone [] RsOutside ∅.

Definition set_listenFd (fd : Z) (t : RaftRpcServer) : RaftRpcServer :=
  mkRaftRpcServer (port_ t) fd (running_ t) (acceptThread_ t) (handlers t) (stopping t) (descriptors t).
Definition set_running (b : bool) (t : RaftRpcServer) : RaftRpcServer :=
  mkRaftRpcServer (port_ t) (listenFd_ t) b (acceptThread_ t) (handlers t) (stopping t) (descriptors t).
Definition set_accept (p : RpcAcceptPc) (t : RaftRpcServer) : RaftRpcServer :=
  mkRaftRpcServer (port_ t) (listenFd_ t) (running_ t) p (handlers t) (stopping t) (descriptors t).
Definition set_handlers (l : list Z) (t : RaftRpcServer) : RaftRpcServer :=
  mkRaftRpcServer (port_ t) (listenFd_ t) (running_ t) (acceptThread_ t) l (stopping t) (descriptors t).
Definition set_stopping (p : RpcStopPc) (t : RaftRpcServer) : RaftRpcServer :=
  mkRaftRpcServer (port_ t) (listenFd_ t) (running_ t) (acceptThread_ t) (handlers t) p (descriptors t).
Definition sys_open (fd : Z) (t : RaftRpcServer) : RaftRpcServer :=
  mkRaftRpcServer (port_ t) (listenFd_ t) (running_ t) (acceptThread_ t) (handlers t) (stopping t)
    (if 0 <=? fd then {[fd]} ∪ descriptors t else descriptors t).
Definition sys_close (fd : Z) (t : RaftRpcServer) : RaftRpcServer :=
  mkRaftRpcServer (port_ t) (listenFd_ t) (running_ t) (acceptThread_ t) (handlers t) (stopping t) (descriptors t ∖ {[fd]}).

(** [socket], [bind_ok] and [listen_ok] are the outcomes of the calls. *)
Definition Start (socket : Z) (bind_ok listen_ok : bool) : M RaftRpcServer unit :=
  modify (fun t => sys_open socket (set_listenFd socket t));;
  if socket <? 0 then throw (runtime_error "RaftRpcServer: socket() failed")
  else if negb bind_ok then
    t ← getS;
    throw (runtime_error ("RaftRpcServer: bind() failed on port " +:+ to_string (port_ t))%string)
  else if negb listen_ok then throw (runtime_error "RaftRpcServer: listen() failed")
  else
    modify (set_running true);;
    t ← getS;
    if bool_decide (acceptThread_ t = RaNone) then modify (set_accept RaLoop) else throw terminate.

(** [accepted] is the connection [accept] returned, or [None] for an error. *)
Definition AcceptLoop_step (accepted : option Z) (t : RaftRpcServer) : option RaftRpcServer :=
  match acceptThread_ t with
  | RaLoop => Some (set_accept (if running_ t then RaAccept else RaDone) t)
  | RaAccept =>
      match accepted with
      | None => Some (set_accept RaDone t)
      | Some fd =>
          if (0 <=? listenFd_ t) && (0 <=? fd) && bool_decide (fd ∉ descriptors t)
          then Some (set_accept RaLoop (set_handlers (handlers t ++ [fd]) (sys_open fd t))) else None
      end
  | RaNone | RaDone => None
  end.

(** [HandleConn] returns: the peer is gone. *)
Definition HandleConn_end (fd : Z) (t : RaftRpcServer) : option RaftRpcServer :=
  if bool_decide (fd ∈ handlers t) then Some (sys_close fd (set_handlers (filter (fun x => x <> fd) (handlers t)) t)) else None.

Definition Stop (t : RaftRpcServer) : option RaftRpcServer :=
  match stopping t with
  | RsOutside => Some (if running_ t then set_stopping RsClose (set_running false t) else t)
  | _ => None
  end.

Definition Stop_step (t : RaftRpcServer) : option RaftRpcServer :=
  match stopping t with
  | RsOutside => None
  | RsClose => Some (set_stopping RsJoin (if 0 <=? listenFd_ t then set_listenFd (-1) (sys_close (listenFd_ t) t) else t))
  | RsJoin =>
      match acceptThread_ t with
      | RaNone | RaDone => Some (set_stopping RsOutside (set_accept RaNone t))
      | _ => None
      end
  end.

Inductive RpcAction : Type := RpcStop | RpcStopStep | RpcAccept (accepted : option Z) | RpcHandlerEnd (fd : Z).

Definition rpc_step (a : RpcAction) (t : RaftRpcServer) : option RaftRpcServer :=
  match a with
  | RpcStop => Stop t
  | RpcStopStep => Stop_step t
  | RpcAccept accepted => AcceptLoop_step accepted t
  | RpcHandlerEnd fd => HandleConn_end fd t
  end.

Fixpoint rpc_exec (acts : list RpcAction) (t : RaftRpcServer) : option RaftRpcServer :=
  match acts with
  | [] => Some t
  | a :: rest => t' ← rpc_step a t; rpc_exec rest t'
  end.

(** ** Lemmas *)

Lemma rpc_exec_invariant (P : RaftRpcServer -> Prop) (ok : RpcAction -> bool) acts :
  (forall a t t', P t -> ok a = true -> rpc_step a t = Some t' -> P t') ->
  forall t t', P t -> Forall (fun a => ok a = true) acts -> rpc_exec acts t = Some t' -> P t'.
Proof.
  intros Hs. induction acts as [|a acts IH]; intros t t' Ht Ha; cbn [rpc_exec]; [by intros [= <-]|]. apply Forall_cons in Ha as [Ha Hr].
  intros (t1 & E1 & E2)%bind_Some. eapply IH; [|done|done]. by eapply Hs.
Qed.

Definition is_stop (a : RpcAction) : bool := match a with RpcStop => true | _ => false end.

(** The listening socket and the connections, and nothing else, are open. *)
Record tidy (t : RaftRpcServer) : Prop := {
  td_fds : descriptors t = (if 0 <=? listenFd_ t then {[listenFd_ t]} else ∅) ∪ list_to_set (handlers t);
  td_apart : 0 <= listenFd_ t -> listenFd_ t ∉ handlers t;
  td_closed : running_ t = false -> stopping t <> RsClose -> listenFd_ t < 0;
  td_joined : running_ t = false -> stopping t = RsOutside -> acceptThread_ t = RaNone;
  td_stop : stopping t <> RsOutside -> running_ t = false;
}.

Lemma tidy_step a t t' : tidy t -> rpc_step a t = Some t' -> tidy t'.
Proof.
  intros [F P C J O]. destruct a as [| |accepted|fd]; cbn [rpc_step].
  - unfold Stop. destruct (stopping t) eqn:Es; try done. destruct (running_ t) eqn:Er; intros [= <-]; [by split|].
    split; rewrite ?Er, ?Es; auto.
  - unfold Stop_step. destruct (stopping t) eqn:Es; try done.
    + intros [= <-]. specialize (O ltac:(done)). destruct (0 <=? listenFd_ t) eqn:El.
      * split; cbn; auto; try done; try lia. rewrite F. specialize (P ltac:(lia)). set_solver.
      * split; cbn; rewrite ?El; auto; try done; lia.
    + specialize (O ltac:(done)). destruct (acceptThread_ t); try done; intros [= <-]; (split; cbn; auto; try done; intros; by apply C).
  - unfold AcceptLoop_step. destruct (acceptThread_ t) eqn:Ea; try done.
    + intros [= <-]. split; cbn; auto. intros R S. by specialize (J R S).
    + destruct accepted as [fd|].
      * destruct (0 <=? listenFd_ t) eqn:El; [|done]. destruct (0 <=? fd) eqn:E0; [|done]. cbn [andb]. case_bool_decide as Hf; [|done]. intros [= <-].
        rewrite F in Hf. split; unfold sys_open; cbn; rewrite ?El, ?E0; auto.
        -- rewrite F, list_to_set_app_L. cbn. set_solver.
        -- intros Hl. specialize (P Hl). set_solver.
        -- intros R S. by specialize (J R S).
      * intros [= <-]. split; cbn; auto. intros R S. by specialize (J R S).
  - unfold HandleConn_end. case_bool_decide as Hin; [|done]. intros [= <-]. split; cbn; auto.
    + rewrite F. apply set_eq. intros x. rewrite elem_of_difference, !elem_of_union, !elem_of_list_to_set, list_elem_of_filter, elem_of_singleton.
      destruct (0 <=? listenFd_ t) eqn:El; bool_prop; [specialize (P ltac:(lia)); rewrite elem_of_singleton|]; set_solver.
    + intros Hl Hx. apply list_elem_of_filter in Hx as [_ Hx]. by apply P.
Qed.

Lemma Start_tidy port socket bind_ok listen_ok t : Start socket bind_ok listen_ok (RaftRpcServer_new port) = (t, Ok tt) ->
  tidy t /\ running_ t = true /\ stopping t = RsOutside.
Proof.
  unfold Start. rewrite bind_modify. destruct (socket <? 0) eqn:E; [done|]. destruct bind_ok; cbn [negb]; [|by rewrite bind_getS].
  destruct listen_ok; cbn [negb]; [|done]. rewrite bind_modify, bind_getS. cbn [acceptThread_ set_running sys_open set_listenFd RaftRpcServer_new].
  rewrite bool_decide_true by done. intros [= <-]. split; [|done]. split; cbn; try done; [|set_solver].
  replace (0 <=? socket) with true by lia. done.
Qed.

Lemma tidy_exec acts t t' : tidy t -> rpc_exec acts t = Some t' -> tidy t'.
Proof.
  intros Ht Hx. eapply (rpc_exec_invariant tidy (fun _ => true)); [|done| |done]; [|by apply Forall_true].
  intros a s s' Hs _. by apply tidy_step.
Qed.

(** The work left in a [Stop]. *)
Definition rpc_rank (t : RaftRpcServer) : nat :=
  (match acceptThread_ t with RaNone => 0 | RaDone => 1 | RaLoop => 2 | RaAccept => 3 end) +
  (match stopping t with RsOutside => 0 | RsJoin => 1 | RsClose => 2 end).

Definition rpc_own (a : RpcAction) : bool := match a with RpcStopStep | RpcAccept _ => true | _ => false end.

Lemma rpc_rank_step a t t' : running_ t = false -> is_stop a = false -> rpc_step a t = Some t' ->
  running_ t' = false /\ (rpc_rank t' <= rpc_rank t)%nat /\ (rpc_own a = true -> (rpc_rank t' < rpc_rank t)%nat).
Proof.
  intros Hr Ha. unfold rpc_rank. destruct a as [| |accepted|fd]; try done; cbn [rpc_step rpc_own].
  - unfold Stop_step. destruct (stopping t); try done; [intros [= <-]; case_if|destruct (acceptThread_ t); try done; intros [= <-]]; cbn; split_and!; try done; lia.
  - unfold AcceptLoop_step. destruct (acceptThread_ t); try done; [rewrite Hr; intros [= <-]; cbn; split_and!; try done; lia|].
    destruct accepted; [destruct (_ && _); [|done]|]; intros [= <-]; cbn; split_and!; try done; lia.
  - unfold HandleConn_end. case_bool_decide; [|done]. by intros [= <-].
Qed.

Lemma rpc_rank_exec acts : forall t t', running_ t = false -> Forall (fun a => is_stop a = false) acts -> rpc_exec acts t = Some t' ->
  running_ t' = false /\ (length (filter (fun a => rpc_own a = true) acts) + rpc_rank t' <= rpc_rank t)%nat.
Proof.
  induction acts as [|a acts IH]; intros t t' Hr Ho; cbn [rpc_exec]; [intros [= <-]; by split|]. apply Forall_cons in Ho as [Ha Ho].
  intros (t1 & E1 & E2)%bind_Some. destruct (rpc_rank_step a t t1 Hr Ha E1) as (Hr1 & Hle & Hlt).
  destruct (IH t1 t' Hr1 Ho E2) as [Hr' Hn]. split; [done|]. rewrite filter_cons. case_decide as Hw; [specialize (Hlt Hw); cbn; lia|lia].
Qed.

Lemma handler_stays fd acts : forall t t', RpcHandlerEnd fd ∉ acts -> fd ∈ handlers t -> rpc_exec acts t = Some t' -> fd ∈ handlers t'.
Proof.
  induction acts as [|a acts IH]; intros t t' Hn Hin; cbn [rpc_exec]; [by intros [= <-]|]. apply not_elem_of_cons in Hn as [Hne Hn].
  intros (t1 & E1 & E2)%bind_Some. eapply IH; [done| |done]. destruct a as [| |accepted|x]; cbn [rpc_step] in E1.
  - unfold Stop in E1. destruct (stopping t); try done. destruct (running_ t); by injection E1 as <-.
  - unfold Stop_step in E1. destruct (stopping t); try done; [injection E1 as <-; by case_if|destruct (acceptThread_ t); try done; by injection E1 as <-].
  - unfold AcceptLoop_step in E1. destruct (acceptThread_ t); try done; [by injection E1 as <-|].
    destruct accepted; [destruct (_ && _); [|done]|]; injection E1 as <-; [|done]. apply elem_of_app. by left.
  - unfold HandleConn_end in E1. case_bool_decide; [|done]. injection E1 as <-. apply list_elem_of_filter. split; [congruence|done].
Qed.

(** ** Theorems *)

(** C33: an error of [accept] cuts the node off.  After one failed call (a client
    that hung up, too many open files, a signal) the accept thread has returned;
    the server counts as running and its socket listens, but whatever happens
    until [Stop], no connection is accepted any more. *)
Theorem accept_error_final t acts t' :
  acceptThread_ t = RaAccept -> running_ t = true -> stopping t = RsOutside ->
  Forall (fun a => negb (is_stop a) = true) acts -> rpc_exec (RpcAccept None :: acts) t = Some t' ->
  running_ t' = true /\ listenFd_ t' = listenFd_ t /\ forall fd, fd ∈ handlers t' -> fd ∈ handlers t.
Proof.
  intros Ha Hr Hs Ho. cbn [rpc_exec rpc_step]. unfold AcceptLoop_step. rewrite Ha. cbn [mbind option_bind]. intros Hx.
  set (P := fun u => acceptThread_ u = RaDone /\ stopping u = RsOutside /\ running_ u = true /\ listenFd_ u = listenFd_ t /\
    forall fd, fd ∈ handlers u -> fd ∈ handlers t).
  enough (P t') as (_ & _ & ? & ? & ?) by done. apply (rpc_exec_invariant P (fun a => negb (is_stop a)) acts) with (set_accept RaDone t); [|unfold P; cbn; by split_and!|exact Ho|exact Hx].
  intros a u u' (Ua & Us & Ur & Ul & Uh) Hn. destruct a as [| |accepted|fd]; try done; cbn [rpc_step].
  - unfold Stop_step. by rewrite Us.
  - unfold AcceptLoop_step. by rewrite Ua.
  - unfold HandleConn_end. case_bool_decide; [|done]. intros [= <-]. unfold P. cbn. split_and!; try done.
    intros x Hx'. apply list_elem_of_filter in Hx' as [_ Hx']. by apply Uh.
Qed.

(** [Stop] of the RPC server.  In every interleaving the call and the accept
    thread take at most five actions, and until the call has returned one of them
    can be taken; when it has returned, the listening socket is closed and the
    accept thread joined, but every connection that was open is open and served
    as before, unless its own peer ended it. *)
Theorem Stop_leaves_handlers port socket bind_ok listen_ok t0 before t acts t' :
  Start socket bind_ok listen_ok (RaftRpcServer_new port) = (t0, Ok tt) -> rpc_exec before t0 = Some t ->
  running_ t = true -> stopping t = RsOutside -> Forall (fun a => is_stop a = false) acts -> rpc_exec (RpcStop :: acts) t = Some t' ->
  (length (filter (fun a => rpc_own a = true) acts) <= 5)%nat /\
  (forall fd, fd ∈ handlers t -> RpcHandlerEnd fd ∉ acts -> fd ∈ handlers t') /\
  (if decide (stopping t' = RsOutside)
   then acceptThread_ t' = RaNone /\ descriptors t' = list_to_set (handlers t')
   else exists a t'', rpc_own a = true /\ rpc_step a t' = Some t'').
Proof.
  intros H0 Hb Hr Hs Ho Hx. pose proof (tidy_exec before t0 t (proj1 (Start_tidy _ _ _ _ _ H0)) Hb) as Ht. pose proof (tidy_exec _ _ _ Ht Hx) as [F P C Jd O].
  assert (forall fd, fd ∈ handlers t -> RpcHandlerEnd fd ∉ acts -> fd ∈ handlers t') as Hh.
  { intros fd Hin Hn. eapply handler_stays; [|done|exact Hx]. set_solver. }
  cbn [rpc_exec rpc_step] in Hx. unfold Stop in Hx. rewrite Hs, Hr in Hx. cbn [mbind option_bind] in Hx.
  destruct (rpc_rank_exec acts _ t' (eq_refl : running_ (set_stopping RsClose (set_running false t)) = false) Ho Hx) as [Hr' Hn].
  split_and!; [unfold rpc_rank in Hn at 2; cbn in Hn; destruct (acceptThread_ t); lia|done|]. case_decide as Es.
  - split; [by apply Jd|]. rewrite F. replace (0 <=? listenFd_ t') with false; [set_solver|]. specialize (C Hr' ltac:(by rewrite Es)). lia.
  - destruct (stopping t') eqn:Et; try done; [exists RpcStopStep; cbn; unfold Stop_step; rewrite Et; by eexists|].
    destruct (acceptThread_ t') eqn:Ea; [exists RpcStopStep|exists (RpcAccept None)|exists (RpcAccept None)|exists RpcStopStep]; cbn;
      unfold Stop_step, AcceptLoop_step; rewrite ?Et, ?Ea; by eexists.
Qed.

(** ** Witnesses *)

Definition ex_rpc : RaftRpcServer := (Start 3 true true (RaftRpcServer_new 2380)).1.
Definition ex_rpc_run (acts : list RpcAction) : RaftRpcServer := default ex_rpc (rpc_exec acts ex_rpc).

(** One peer is connected, the next [accept] fails; the first peer goes away. *)
Lemma accept_error_final_witness :
  let t := ex_rpc_run [RpcAccept None; RpcAccept (Some 4); RpcAccept None] in
  exists t', rpc_exec [RpcAccept None; RpcHandlerEnd 4] t = Some t' /\ running_ t' = true /\ handlers t' = [] /\ listenFd_ t' = 3.
Proof.
  intros t. destruct (rpc_exec [RpcAccept None; RpcHandlerEnd 4] t) as [t'|] eqn:E; [|by vm_compute in E]. exists t'. split; [done|].
  destruct (accept_error_final t [RpcHandlerEnd 4] t') as (Hr & Hl & _); [by vm_compute..| |exact E|].
  - repeat constructor.
  - split; [exact Hr|]. split; [vm_compute in E; by injection E as <-|]. rewrite Hl. by vm_compute.
Defined.

Lemma Stop_leaves_handlers_witness :
  let t := ex_rpc_run [RpcAccept None; RpcAccept (Some 4); RpcAccept None] in
  let acts := [RpcStopStep; RpcAccept None; RpcStopStep] in
  exists t', rpc_exec (RpcStop :: acts) t = Some t' /\ stopping t' = RsOutside /\ 4 ∈ handlers t'.
Proof.
  intros t acts. destruct (rpc_exec (RpcStop :: acts) t) as [t'|] eqn:E; [|by vm_compute in E]. exists t'. split; [done|].
  split; [vm_compute in E; by injection E as <-|].
  refine (proj1 (proj2 (Stop_leaves_handlers 2380 3 true true ex_rpc [RpcAccept None; RpcAccept (Some 4); RpcAccept None] t acts t' _ _ _ _ _ E)) 4 _ _).
  1-4: by vm_compute.
  - repeat constructor.
  - vm_compute. left.
  - unfold acts. rewrite !not_elem_of_cons. split_and!; try done. apply not_elem_of_nil.
Defined.
