(* ===== verification/Http.v ===== *)
(** * HTTP requests and responses (src/network/HttpParser.{hpp,cpp}, src/network/HttpResponse.{hpp,cpp})

    The request parser as a state machine over its buffer, the accessors of a
    request, and the responses with their wire format.  A
    [std::unordered_map] is a finite map together with the order in which the
    implementation iterates over it, which the standard leaves open: the class
    [HashOrder].

    The theorems: a request printed in the usual way is parsed back whatever
    follows it, and a request whose bytes arrive in two parts, the second of
    them being the body, is not. *)
From S2P Require Import Prelude CxxString CxxMap Json.
From Stdlib Require Import ZArith Lia Ascii String.
From stdpp Require Import prelude gmap strings.
#[local] Open Scope Z_scope.

(** ** [std::unordered_map<std::string, std::string>] *)

Class HashOrder := {
  hash_order : gmap string string -> list (string * string);
  hash_order_perm : forall m, hash_order m ≡ₚ map_to_list m;
}.

(** ** Strings *)

Definition CR : ascii := "013"%char.
Definition LF : ascii := "010"%char.
Definition CRLF : string := String CR (String LF EmptyString).

(** [s.find("\r\n")] *)
Fixpoint find_crlf (s : string) : option nat :=
  match s with
  | String a (String b _ as r) => if Ascii.eqb a CR && Ascii.eqb b LF then Some O else S <$> find_crlf r
  | _ => None
  end.

(** [std::transform(..., ::tolower)] *)
Definition tolower (a : ascii) : ascii :=
  if (65 <=? chr a) && (chr a <=? 90) then ascii_of_N (N_of_ascii a + 32) else a.
Fixpoint str_lower (s : string) : string :=
  match s with
  | EmptyString => EmptyString
  | String a r => String (tolower a) (str_lower r)
  end.

(** [ss >> word]: skips white space and takes the characters up to the next. *)
Fixpoint span_word (s : string) : string * string :=
  match s with
  | EmptyString => (EmptyString, EmptyString)
  | String a r => if isspace a then (EmptyString, s) else let '(w, r') := span_word r in (String a w, r')
  end.
Definition next_word (s : string) : string * string := span_word (skip_space s).

(** [while (std::getline(ss, line, c))]: the fields between the separators; a
    field that is empty at the end of the input is not extracted. *)
Fixpoint getlines (c : ascii) (s cur : string) : list string :=
  match s with
  | EmptyString => if String.eqb cur "" then [] else [cur]
  | String a r => if Ascii.eqb a c then cur :: getlines c r "" else getlines c r (cur +:+ String a "")%string
  end.

(** ** Requests *)

Record HttpRequest := mkHttpRequest {
  method : string;
  path : string;
  version : string;
  headers : gmap string string;
  body : string;
  queryParams : gmap string string;
  pathParams : gmap string string;
}.

Definition HttpRequest_new : HttpRequest := mkHttpRequest "" "" "HTTP/1.1" ∅ "" ∅ ∅.

(** The value of the first node whose name is [lower] in lower case. *)
Fixpoint find_lower (lower : string) (l : list (string * string)) : option string :=
  match l with
  | [] => None
  | (k, v) :: l' => if String.eqb (str_lower k) lower then Some v else find_lower lower l'
  end.

Definition GetHeader `{HashOrder} (req : HttpRequest) (name : string) : string :=
  default "" (find_lower (str_lower name) (hash_order (headers req))).

Definition GetQueryParam (req : HttpRequest) (key : string) : option string := queryParams req !! key.

Definition IsKeepAlive `{HashOrder} (req : HttpRequest) : bool :=
  let conn := str_lower (GetHeader req "connection") in
  if String.eqb (version req) "HTTP/1.1" then negb (String.eqb conn "close")
  else String.eqb conn "keep-alive".

(** ** URL decoding *)

(** The value of a hexadecimal digit, and 0 for any other character. *)
Definition hex_val (c : ascii) : Z :=
  if (48 <=? chr c) && (chr c <=? 57) then chr c - 48
  else if (97 <=? chr c) && (chr c <=? 102) then chr c - 97 + 10
  else if (65 <=? chr c) && (chr c <=? 70) then chr c - 65 + 10
  else 0.

Fixpoint UrlDecode (s : string) : string :=
  match s with
  | EmptyString => EmptyString
  | String a r =>
      match r with
      | String h1 (String h2 r2) =>
          if Ascii.eqb a "%" then
            String (ascii_of_N (Z.to_N (Z.lor (Z.shiftl (hex_val h1) 4) (hex_val h2)))) (UrlDecode r2)
          else if Ascii.eqb a "+" then String " " (UrlDecode r)
          else String a (UrlDecode r)
      | _ =>
          if Ascii.eqb a "+" then String " " (UrlDecode r) else String a (UrlDecode r)
      end
  end.

(** ** The parser *)

Inductive ParseResult : Type := Complete | Incomplete | ParseError.
Inductive ParserState : Type := AtRequestLine | AtHeaders | AtBody | AtComplete | AtError.

#[global] Instance ParserState_eq : EqDecision ParserState.
Proof. solve_decision. Defined.

Record HttpParser := mkHttpParser {
  state_ : ParserState;
  buffer_ : string;
  current_ : HttpRequest;
  contentLength_ : Z;
  bodyBytesRead_ : Z;
  consumed_ : Z;
}.

Definition HttpParser_new : HttpParser := mkHttpParser AtRequestLine "" HttpRequest_new 0 0 0.

(** Assignments to the fields. *)
Definition set_state (s : ParserState) (p : HttpParser) : HttpParser :=
  mkHttpParser s (buffer_ p) (current_ p) (contentLength_ p) (bodyBytesRead_ p) (consumed_ p).
Definition set_current (r : HttpRequest) (p : HttpParser) : HttpParser :=
  mkHttpParser (state_ p) (buffer_ p) r (contentLength_ p) (bodyBytesRead_ p) (consumed_ p).
Definition set_length (n : Z) (p : HttpParser) : HttpParser :=
  mkHttpParser (state_ p) (buffer_ p) (current_ p) n (bodyBytesRead_ p) (consumed_ p).

(** [buffer_.erase(0, n); consumed_ += n] *)
Definition erase_front (n : nat) (p : HttpParser) : HttpParser :=
  mkHttpParser (state_ p) (str_drop n (buffer_ p)) (current_ p) (contentLength_ p) (bodyBytesRead_ p)
    (u64 (consumed_ p + Z.of_nat n)).

Definition query_pair (pair : string) (m : gmap string string) : gmap string string :=
  match find_char "=" pair with
  | None => <[UrlDecode pair := ""]> m
  | Some eq => <[UrlDecode (str_take eq pair) := UrlDecode (str_drop (S eq) pair)]> m
  end.

Definition ParseQueryString (raw : string) (m : gmap string string) : gmap string string :=
  fold_left (fun m pair => query_pair pair m) (getlines "&" raw "") m.

Definition ParseBody : M HttpParser ParseResult :=
  p ← getS;
  if contentLength_ p =? 0 then modify (set_state AtComplete);; mret Complete
  else
    let available := str_size (buffer_ p) in
    let needed := u64 (contentLength_ p - bodyBytesRead_ p) in
    let take := Z.to_nat (Z.min available needed) in
    let c := current_ p in
    modify (set_current (mkHttpRequest (method c) (path c) (version c) (headers c)
      (body c +:+ str_take take (buffer_ p))%string (queryParams c) (pathParams c)));;
    modify (erase_front take);;
    modify (fun p => mkHttpParser (state_ p) (buffer_ p) (current_ p) (contentLength_ p)
      (u64 (bodyBytesRead_ p + Z.of_nat take)) (consumed_ p));;
    p ← getS;
    if contentLength_ p <=? bodyBytesRead_ p then modify (set_state AtComplete);; mret Complete
    else mret Incomplete.

(** [while (!value.empty() && (value[0] == ' ' || value[0] == '\t'))] *)
Fixpoint trim_left (s : string) : string :=
  match s with
  | String a r => if Ascii.eqb a " " || Ascii.eqb a "009" then trim_left r else s
  | EmptyString => EmptyString
  end.

Definition add_header (k v : string) (p : HttpParser) : HttpParser :=
  let c := current_ p in
  set_current (mkHttpRequest (method c) (path c) (version c) (<[k := v]> (headers c)) (body c)
    (queryParams c) (pathParams c)) p.

Section Parser.
Context `{HashOrder}.

(** The text of the Content-Length header, if there is one. *)
Definition content_length (hs : gmap string string) : option string :=
  match hs !! "content-length" with
  | Some v => Some v
  | None => find_lower "content-length" (hash_order hs)
  end.

(** The loop; each turn takes a line of at least two bytes from the buffer. *)
Fixpoint parse_headers (fuel : nat) : M HttpParser ParseResult :=
  match fuel with
  | O => mret Incomplete
  | S fuel' =>
      p ← getS;
      match find_crlf (buffer_ p) with
      | None => mret Incomplete
      | Some pos =>
          let line := str_take pos (buffer_ p) in
          modify (erase_front (pos + 2));;
          if String.eqb line "" then
            (match content_length (headers (current_ p)) with
             | Some v => n ← lift (stoull v); modify (set_length n)
             | None => mret tt
             end);;
            modify (set_state AtBody);;
            ParseBody
          else
            match find_char ":" line with
            | None => modify (set_state AtError);; mret ParseError
            | Some colon =>
                modify (add_header (str_take colon line) (trim_left (str_drop (S colon) line)));;
                parse_headers fuel'
            end
      end
  end.

Definition ParseHeaders : M HttpParser ParseResult :=
  p ← getS; parse_headers (S (String.length (buffer_ p))).

Definition ParseRequestLine : M HttpParser ParseResult :=
  p ← getS;
  if bool_decide (state_ p = AtComplete) || bool_decide (state_ p = AtError) then mret ParseError
  else
    match find_crlf (buffer_ p) with
    | None => mret Incomplete
    | Some pos =>
        let line := str_take pos (buffer_ p) in
        modify (erase_front (pos + 2));;
        let '(m, r1) := next_word line in
        let '(fullPath, r2) := next_word r1 in
        let '(v, _) := next_word r2 in
        if String.eqb m "" || String.eqb fullPath "" then modify (set_state AtError);; mret ParseError
        else
          let c := current_ p in
          let '(pa, q) := match find_char "?" fullPath with
            | Some qpos => (str_take qpos fullPath, ParseQueryString (str_drop (S qpos) fullPath) (queryParams c))
            | None => (fullPath, queryParams c)
            end in
          modify (set_current (mkHttpRequest m pa v (headers c) (body c) q (pathParams c)));;
          modify (set_state AtHeaders);;
          ParseHeaders
    end.

Definition Feed (data : string) : M HttpParser ParseResult :=
  modify (fun p => mkHttpParser (state_ p) (buffer_ p +:+ data)%string (current_ p) (contentLength_ p)
    (bodyBytesRead_ p) (consumed_ p));;
  ParseRequestLine.
End Parser.

Definition Reset (p : HttpParser) : HttpParser := mkHttpParser AtRequestLine (buffer_ p) HttpRequest_new 0 0 0.

Definition TakeRequest : M HttpParser HttpRequest :=
  p ← getS; modify Reset;; mret (current_ p).

Definition HasCompleteRequest (p : HttpParser) : bool := bool_decide (state_ p = AtComplete).

(** ** Responses *)

Record HttpResponse := mkHttpResponse {
  statusCode : Z;
  rs_headers : gmap string string;
  rs_body : string;
}.

Definition json_type : gmap string string := {["Content-Type" := "application/json"]}.

Section Responses.
Context `{JsonLib}.

Definition JsonError (msg : string) : Res string := dump (jobj [("error", JStr msg)]).

Definition HttpOk (b : string) (contentType : string) : HttpResponse :=
  mkHttpResponse 200 {["Content-Type" := contentType]} b.
Definition Created (b : string) : HttpResponse := mkHttpResponse 201 json_type b.
Definition NoContent : HttpResponse := mkHttpResponse 204 ∅ "".
Definition BadRequest (msg : string) : Res HttpResponse := b ← JsonError msg; mret (mkHttpResponse 400 json_type b).
Definition Unauthorized (msg : string) : Res HttpResponse :=
  b ← JsonError msg;
  mret (mkHttpResponse 401
    (<["WWW-Authenticate" := ("Bearer realm=" +:+ String "034" "orcdb" +:+ String "034" "")%string]> json_type) b).
Definition Forbidden (msg : string) : Res HttpResponse := b ← JsonError msg; mret (mkHttpResponse 403 json_type b).
Definition NotFound (msg : string) : Res HttpResponse := b ← JsonError msg; mret (mkHttpResponse 404 json_type b).
Definition Conflict (msg : string) : Res HttpResponse := b ← JsonError msg; mret (mkHttpResponse 409 json_type b).
Definition InternalError (msg : string) : Res HttpResponse := b ← JsonError msg; mret (mkHttpResponse 500 json_type b).
Definition ServiceUnavailable (msg : string) : Res HttpResponse := b ← JsonError msg; mret (mkHttpResponse 503 json_type b).
End Responses.

Definition TemporaryRedirect (location : string) : HttpResponse := mkHttpResponse 307 {["Location" := location]} "".

Definition SetHeader (key value : string) (r : HttpResponse) : HttpResponse :=
  mkHttpResponse (statusCode r) (<[key := value]> (rs_headers r)) (rs_body r).
Definition SetBody (b contentType : string) (r : HttpResponse) : HttpResponse :=
  mkHttpResponse (statusCode r) (<["Content-Type" := contentType]> (rs_headers r)) b.

Definition StatusText (code : Z) : string :=
  match code with
  | 200 => "OK"
  | 201 => "Created"
  | 204 => "No Content"
  | 307 => "Temporary Redirect"
  | 400 => "Bad Request"
  | 401 => "Unauthorized"
  | 403 => "Forbidden"
  | 404 => "Not Found"
  | 409 => "Conflict"
  | 500 => "Internal Server Error"
  | 503 => "Service Unavailable"
  | _ => "Unknown"
  end.

(** [os << k << ": " << v << "\r\n"] *)
Definition header_line (kv : string * string) : string := (kv.1 +:+ ": " +:+ kv.2 +:+ CRLF)%string.
Definition header_lines (hs : list (string * string)) : string :=
  fold_right (fun kv s => header_line kv +:+ s)%string "" hs.

Definition Serialise `{HashOrder} (keepAlive : bool) (r : HttpResponse) : string :=
  ("HTTP/1.1 " +:+ to_string (statusCode r) +:+ " " +:+ StatusText (statusCode r) +:+ CRLF
   +:+ header_lines (hash_order (rs_headers r))
   +:+ "Content-Length: " +:+ to_string (str_size (rs_body r)) +:+ CRLF
   +:+ "Connection: " +:+ (if keepAlive then "keep-alive" else "close") +:+ CRLF
   +:+ CRLF +:+ rs_body r)%string.

(** ** Lemmas on strings *)

Fixpoint str_forall (f : ascii -> bool) (s : string) : bool :=
  match s with EmptyString => true | String a r => f a && str_forall f r end.

Lemma str_forall_app f a b : str_forall f (a +:+ b)%string = str_forall f a && str_forall f b.
Proof. induction a as [|x a IH]; [done|]. rewrite append_cons. simpl. by rewrite IH, andb_assoc. Qed.

Lemma str_forall_impl (f g : ascii -> bool) s : (forall a, f a = true -> g a = true) ->
  str_forall f s = true -> str_forall g s = true.
Proof.
  intros Hfg. induction s as [|a s IH]; [done|]. simpl. intros [Ha Hs]%andb_true_iff.
  by rewrite Hfg, IH.
Qed.

(** [c] does not occur. *)
Definition lacks (c : ascii) : string -> bool := str_forall (fun a => negb (Ascii.eqb a c)).
Definition nonspace : string -> bool := str_forall (fun a => negb (isspace a)).

Lemma nonspace_lacks c s : isspace c = true -> nonspace s = true -> lacks c s = true.
Proof.
  intros Hc. apply str_forall_impl. intros a Ha. destruct (Ascii.eqb a c) eqn:E; [|done].
  apply Ascii.eqb_eq in E as ->. by rewrite Hc in Ha.
Qed.

Lemma str_take_app a b : str_take (String.length a) (a +:+ b)%string = a.
Proof. induction a as [|x a IH]; [by destruct b|]. rewrite append_cons. simpl. by rewrite IH. Qed.

Lemma str_drop_app n a b : str_drop (String.length a + n) (a +:+ b)%string = str_drop n b.
Proof. induction a as [|x a IH]; [done|]. by rewrite append_cons. Qed.

Lemma str_drop_app_S a c b : str_drop (S (String.length a)) (a +:+ String c b)%string = b.
Proof. replace (S (String.length a)) with (String.length a + 1)%nat by lia. by rewrite str_drop_app. Qed.

Lemma str_drop_app_0 a b : str_drop (String.length a) (a +:+ b)%string = b.
Proof. rewrite <- (Nat.add_0_r (String.length a)), str_drop_app. by destruct b. Qed.

Lemma find_char_app c a b : lacks c a = true -> find_char c (a +:+ String c b)%string = Some (String.length a).
Proof.
  induction a as [|x a IH]; [by rewrite append_nil; simpl; rewrite Ascii.eqb_refl|].
  rewrite append_cons. simpl. intros [Hx Ha]%andb_true_iff. apply negb_true_iff in Hx. rewrite Hx. by rewrite IH.
Qed.

Lemma find_char_none c a : lacks c a = true -> find_char c a = None.
Proof.
  induction a as [|x a IH]; [done|]. simpl. intros [Hx Ha]%andb_true_iff. apply negb_true_iff in Hx.
  by rewrite Hx, IH.
Qed.

Lemma find_crlf_cons x s : negb (Ascii.eqb x CR) = true -> find_crlf (String x s) = S <$> find_crlf s.
Proof. intros Hx%negb_true_iff. destruct s as [|y s]; [done|]. cbn [find_crlf]. by rewrite Hx. Qed.

Lemma find_crlf_line a b : lacks CR a = true -> find_crlf (a +:+ CRLF +:+ b)%string = Some (String.length a).
Proof.
  induction a as [|x a IH]; [done|]. intros [Hx Ha]%andb_true_iff.
  rewrite append_cons, find_crlf_cons by done. by rewrite IH.
Qed.

Lemma find_crlf_none s : lacks CR s = true -> find_crlf s = None.
Proof.
  induction s as [|x s IH]; [done|]. intros [Hx Hs]%andb_true_iff. rewrite find_crlf_cons by done. by rewrite IH.
Qed.

Lemma span_word_app w s : nonspace w = true -> span_word (w +:+ s)%string = (let '(u, r) := span_word s in (w +:+ u, r))%string.
Proof.
  induction w as [|x w IH]; [by rewrite append_nil; destruct (span_word s)|].
  rewrite append_cons. simpl. intros [Hx Hw]%andb_true_iff. apply negb_true_iff in Hx. rewrite Hx, IH by done.
  by destruct (span_word s).
Qed.

(** A word in front of a blank, or at the end. *)
Lemma next_word_blank w s : nonspace w = true -> w <> "" -> next_word (w +:+ String " " s)%string = (w, String " " s).
Proof.
  intros Hw Hne. unfold next_word. destruct w as [|x w]; [done|]. pose proof Hw as [Hx _]%andb_true_iff.
  rewrite append_cons. cbn [skip_space]. apply negb_true_iff in Hx. rewrite Hx, <- append_cons, span_word_app by done.
  cbn [span_word isspace]. change (isspace " ") with true. cbv iota. by rewrite str_append_nil_r.
Qed.

Lemma next_word_end w : nonspace w = true -> (next_word (String " " w)).1 = w.
Proof.
  intros Hw. unfold next_word. cbn [skip_space]. change (isspace " ") with true. cbv iota.
  assert (skip_space w = w) as ->.
  { destruct w as [|x w]; [done|]. apply andb_true_iff in Hw as [Hx _]. apply negb_true_iff in Hx. simpl. by rewrite Hx. }
  rewrite <- (str_append_nil_r w) at 1. rewrite span_word_app by done. simpl. apply str_append_nil_r.
Qed.

Lemma next_word_skip s : next_word (String " " s) = next_word s.
Proof. done. Qed.

(** ** Printing a request

    What a client writes: letters and digits of a query as they are and every
    other byte as [%XX], one blank after a colon, the length of the body in a
    Content-Length header at the end. *)

Definition isalnum (a : ascii) : bool :=
  ((48 <=? chr a) && (chr a <=? 57)) || ((65 <=? chr a) && (chr a <=? 90)) || ((97 <=? chr a) && (chr a <=? 122)).

Definition hex_digit (n : Z) : ascii := ascii_of_N (Z.to_N (if n <? 10 then 48 + n else 55 + n)).

Definition url_char (a : ascii) : string :=
  if isalnum a then String a ""
  else String "%" (String (hex_digit (chr a / 16)) (String (hex_digit (chr a mod 16)) "")).

Fixpoint url_encode (s : string) : string :=
  match s with EmptyString => EmptyString | String a r => (url_char a +:+ url_encode r)%string end.

Definition print_pair (kv : string * string) : string := (url_encode kv.1 +:+ "=" +:+ url_encode kv.2)%string.

Fixpoint print_query (q : list (string * string)) : string :=
  match q with
  | [] => ""
  | [kv] => print_pair kv
  | kv :: q' => (print_pair kv +:+ "&" +:+ print_query q')%string
  end.

Record WireRequest := mkWireRequest {
  w_method : string;
  w_path : string;
  w_query : list (string * string);
  w_version : string;
  w_headers : list (string * string);
  w_body : string;
}.

Definition print_target (w : WireRequest) : string :=
  match w_query w with [] => w_path w | q => (w_path w +:+ "?" +:+ print_query q)%string end.

Definition all_headers (w : WireRequest) : list (string * string) :=
  w_headers w ++ [("Content-Length", to_string (str_size (w_body w)))].

(** Everything up to the body. *)
Definition print_head (w : WireRequest) : string :=
  (w_method w +:+ " " +:+ print_target w +:+ " " +:+ w_version w +:+ CRLF
   +:+ header_lines (all_headers w) +:+ CRLF)%string.

Definition print_request (w : WireRequest) : string := (print_head w +:+ w_body w)%string.

(** A later pair with the same name replaces an earlier one. *)
Definition assoc_map (l : list (string * string)) : gmap string string :=
  fold_left (fun m kv => <[kv.1 := kv.2]> m) l ∅.

(** The request a client means. *)
Definition meant (w : WireRequest) : HttpRequest :=
  mkHttpRequest (w_method w) (w_path w) (w_version w) (assoc_map (all_headers w)) (w_body w) (assoc_map (w_query w)) ∅.

(** A header whose line reads back: no colon or line break in the name, no line
    break in the value and no blank at its beginning. *)
Definition header_ok (kv : string * string) : bool :=
  lacks ":" kv.1 && lacks CR kv.1 && lacks CR kv.2 && String.eqb (trim_left kv.2) kv.2.

(** The words of the request line have no white space, the path has no question
    mark, and the only Content-Length is the one that is added. *)
Definition wire_ok (w : WireRequest) : bool :=
  negb (String.eqb (w_method w) "") && nonspace (w_method w) &&
  negb (String.eqb (w_path w) "") && nonspace (w_path w) && lacks "?" (w_path w) &&
  nonspace (w_version w) &&
  forallb (fun kv => header_ok kv && negb (String.eqb (str_lower kv.1) "content-length")) (w_headers w) &&
  (str_size (w_body w) <? 2 ^ 64).

(** *** The query *)

Lemma UrlDecode_char a r : UrlDecode (url_char a +:+ r)%string = String a (UrlDecode r).
Proof. destruct a as [[] [] [] [] [] [] [] []]; destruct r as [|x [|y r]]; reflexivity. Qed.

Lemma UrlDecode_encode s : UrlDecode (url_encode s) = s.
Proof. induction s as [|a s IH]; [done|]. cbn [url_encode]. by rewrite UrlDecode_char, IH. Qed.

Definition url_safe (a : ascii) : bool := isalnum a || Ascii.eqb a "%".

Lemma url_encode_safe s : str_forall url_safe (url_encode s) = true.
Proof.
  induction s as [|a s IH]; [done|]. cbn [url_encode]. rewrite str_forall_app, IH, andb_true_r.
  destruct a as [[] [] [] [] [] [] [] []]; reflexivity.
Qed.

Lemma url_encode_lacks c s : url_safe c = false -> lacks c (url_encode s) = true.
Proof.
  intros Hc. eapply str_forall_impl; [|apply url_encode_safe]. intros a Ha. simpl.
  destruct (Ascii.eqb a c) eqn:E; [|done]. apply Ascii.eqb_eq in E as ->. congruence.
Qed.

Lemma query_pair_print kv m : query_pair (print_pair kv) m = <[kv.1 := kv.2]> m.
Proof.
  unfold query_pair, print_pair. rewrite append_cons, append_nil, find_char_app by (by apply url_encode_lacks).
  by rewrite str_take_app, str_drop_app_S, !UrlDecode_encode.
Qed.

(** A field without the separator goes to the current line. *)
Lemma getlines_app c a s cur : lacks c a = true -> getlines c (a +:+ s)%string cur = getlines c s (cur +:+ a)%string.
Proof.
  revert cur. induction a as [|x a IH]; intros cur; [by rewrite append_nil, str_append_nil_r|].
  intros [Hx Ha]%andb_true_iff. apply negb_true_iff in Hx. rewrite append_cons. cbn [getlines]. rewrite Hx, IH by done.
  by rewrite str_append_assoc.
Qed.

Lemma print_pair_lacks kv : lacks "&" (print_pair kv) = true.
Proof.
  unfold print_pair, lacks. rewrite !str_forall_app. pose proof (url_encode_lacks "&") as H. unfold lacks in H.
  by rewrite !H.
Qed.

Lemma print_pair_ne kv : String.eqb (print_pair kv) "" = false.
Proof. unfold print_pair. by destruct (url_encode kv.1). Qed.

Lemma getlines_query q : getlines "&" (print_query q) "" = print_pair <$> q.
Proof.
  induction q as [|kv q IH]; [done|]. destruct q as [|kv' q].
  - pose proof (getlines_app "&" (print_pair kv) "" "" (print_pair_lacks kv)) as E.
    rewrite str_append_nil_r, append_nil in E. cbn [print_query]. rewrite E. cbn [getlines]. by rewrite print_pair_ne.
  - change (print_query (kv :: kv' :: q)) with (print_pair kv +:+ "&" +:+ print_query (kv' :: q))%string.
    rewrite getlines_app by apply print_pair_lacks. rewrite append_nil, append_cons, append_nil. cbn [getlines].
    change (Ascii.eqb "&" "&") with true. cbv iota. by rewrite IH.
Qed.

Lemma ParseQueryString_print q : ParseQueryString (print_query q) ∅ = assoc_map q.
Proof.
  unfold ParseQueryString, assoc_map. rewrite getlines_query. generalize (∅ : gmap string string).
  induction q as [|kv q IH]; intros m; [done|]. cbn. by rewrite query_pair_print, IH.
Qed.

Lemma print_query_nonspace q : nonspace (print_query q) = true.
Proof.
  assert (forall s, nonspace (url_encode s) = true) as He.
  { intros s. eapply str_forall_impl; [|apply url_encode_safe]. intros a.
    destruct a as [[] [] [] [] [] [] [] []]; intros H; try reflexivity; discriminate H. }
  assert (forall kv, nonspace (print_pair kv) = true) as Hp.
  { intros kv. unfold nonspace, print_pair. rewrite !str_forall_app. fold nonspace. by rewrite !He. }
  induction q as [|kv [|kv' q] IH]; [done|apply Hp|].
  change (print_query (kv :: kv' :: q)) with (print_pair kv +:+ "&" +:+ print_query (kv' :: q))%string.
  unfold nonspace in *. by rewrite !str_forall_app, Hp, IH.
Qed.

(** *** The headers *)

Lemma assoc_map_snoc l k v : assoc_map (l ++ [(k, v)]) = <[k := v]> (assoc_map l).
Proof. unfold assoc_map. by rewrite fold_left_app. Qed.

Lemma assoc_map_elem l k v : assoc_map l !! k = Some v -> (k, v) ∈ l.
Proof.
  induction l as [|[k' v'] l IH] using rev_ind; [by unfold assoc_map; cbn; rewrite lookup_empty|].
  rewrite assoc_map_snoc. intros [[-> ->]|[_ Hl]]%lookup_insert_Some; apply elem_of_app.
  - right. by left.
  - left. by apply IH.
Qed.

Lemma find_lower_unique lower l k v : (k, v) ∈ l -> str_lower k = lower ->
  (forall k' v', (k', v') ∈ l -> str_lower k' = lower -> v' = v) -> find_lower lower l = Some v.
Proof.
  intros Hin Hk. induction l as [|[k0 v0] l IH]; intros Hu; [by apply not_elem_of_nil in Hin|]. cbn [find_lower].
  case_if.
  - f_equal. apply (Hu k0 v0); [left|done].
  - apply IH; [|intros k' v' H'; apply Hu; by right]. apply elem_of_cons in Hin as [[= -> ->]|Hin]; [congruence|done].
Qed.

Definition with_headers (hs : list (string * string)) (r : HttpRequest) : HttpRequest :=
  mkHttpRequest (method r) (path r) (version r) (fold_left (fun m kv => <[kv.1 := kv.2]> m) hs (headers r))
    (body r) (queryParams r) (pathParams r).

Section ParseLemmas.
Context `{HashOrder}.

Lemma content_length_wire w : wire_ok w = true ->
  content_length (assoc_map (all_headers w)) = Some (to_string (str_size (w_body w))).
Proof.
  intros Hw. unfold wire_ok in Hw. bool_prop.
  assert (forall k v, assoc_map (all_headers w) !! k = Some v -> str_lower k = "content-length" ->
    k = "Content-Length" /\ v = to_string (str_size (w_body w))) as Hu.
  { intros k v [Hin|Hin%list_elem_of_singleton]%assoc_map_elem%elem_of_app Hk; [|by inv Hin].
    match goal with Hf : forallb _ _ = true |- _ => rewrite forallb_forall in Hf; specialize (Hf (k, v)) end.
    rewrite <- list_elem_of_In in *. bool_prop. exfalso.
    match goal with Hf : _ -> _ |- _ => specialize (Hf Hin); bool_prop end. done. }
  unfold content_length. destruct (assoc_map (all_headers w) !! "content-length") as [v|] eqn:E.
  { by destruct (Hu _ _ E eq_refl). }
  apply (find_lower_unique _ _ "Content-Length").
  - rewrite hash_order_perm. apply elem_of_map_to_list. unfold all_headers. by rewrite assoc_map_snoc, lookup_insert_eq.
  - done.
  - intros k v Hin Hk. rewrite hash_order_perm in Hin. apply elem_of_map_to_list in Hin. by apply (Hu k).
Qed.

(** One header line. *)
Lemma parse_headers_line fuel kv rest p : header_ok kv = true -> buffer_ p = (header_line kv +:+ rest)%string ->
  exists p', parse_headers (S fuel) p = parse_headers fuel p' /\ buffer_ p' = rest /\
    current_ p' = with_headers [kv] (current_ p) /\ contentLength_ p' = contentLength_ p /\
    bodyBytesRead_ p' = bodyBytesRead_ p.
Proof.
  destruct kv as [k v]. unfold header_ok, header_line. cbn [fst snd]. intros Hok Hb. bool_prop.
  assert (buffer_ p = ((k +:+ ": " +:+ v) +:+ CRLF +:+ rest)%string) as Hb' by (by rewrite Hb, !str_append_assoc).
  assert (lacks CR (k +:+ ": " +:+ v)%string = true) as Hl.
  { unfold lacks in *. rewrite !str_forall_app. apply andb_true_iff. split; [done|]. by apply andb_true_iff. }
  cbn [parse_headers]. rewrite bind_getS, Hb', find_crlf_line by done. rewrite bind_modify, str_take_app.
  destruct (String.eqb (k +:+ ": " +:+ v)%string "") eqn:E; [apply String.eqb_eq in E; by destruct k|].
  change (k +:+ ": " +:+ v)%string with (k +:+ String ":" (String " " v))%string at 1.
  rewrite find_char_app by done. rewrite bind_modify.
  change (k +:+ ": " +:+ v)%string with (k +:+ String ":" (String " " v))%string.
  rewrite str_take_app, str_drop_app_S. cbn [trim_left orb]. change (Ascii.eqb " " " ") with true. cbn [orb].
  match goal with Ht : String.eqb (trim_left v) v = true |- _ => apply String.eqb_eq in Ht; rewrite Ht
    | Ht : trim_left v = v |- _ => rewrite Ht end.
  eexists. split; [reflexivity|]. split; [|done]. cbn. rewrite Hb'.
  change (k +:+ String ":" (String " " v))%string with (k +:+ ": " +:+ v)%string.
  by rewrite str_drop_app.
Qed.

(** All of them. *)
Lemma parse_headers_lines hs : forall fuel rest p, (length hs < fuel)%nat ->
  forallb header_ok hs = true -> buffer_ p = (header_lines hs +:+ rest)%string ->
  exists fuel' p', parse_headers fuel p = parse_headers (S fuel') p' /\ buffer_ p' = rest /\
    current_ p' = with_headers hs (current_ p) /\ contentLength_ p' = contentLength_ p /\
    bodyBytesRead_ p' = bodyBytesRead_ p.
Proof.
  induction hs as [|kv hs IH]; intros fuel rest p Hf Hok Hb.
  - destruct fuel as [|fuel]; [lia|]. exists fuel, p. rewrite append_nil in Hb. by destruct p as [? ? []].
  - destruct fuel as [|fuel]; [lia|]. apply andb_true_iff in Hok as [Hkv Hok]. cbn [header_lines fold_right] in Hb.
    rewrite str_append_assoc in Hb.
    destruct (parse_headers_line fuel kv _ p Hkv Hb) as (p1 & -> & Hb1 & Hc1 & Hl1 & Hr1).
    destruct (IH fuel rest p1 ltac:(simpl in Hf; lia) Hok Hb1) as (fuel' & p' & -> & Hb' & Hc' & Hl' & Hr').
    exists fuel', p'. rewrite Hc', Hc1, Hl', Hr'. done.
Qed.

(** A parser that expects a request. *)
Definition ready (p : HttpParser) : Prop :=
  state_ p = AtRequestLine /\ current_ p = HttpRequest_new /\ contentLength_ p = 0 /\ bodyBytesRead_ p = 0.

Lemma print_target_nonspace w : nonspace (w_path w) = true -> nonspace (print_target w) = true.
Proof.
  intros Hp. unfold print_target. destruct (w_query w) as [|kv q] eqn:E; [done|]. rewrite <- E.
  unfold nonspace in *. rewrite !str_forall_app, Hp. apply print_query_nonspace.
Qed.

(** Path and query of the target. *)
Lemma split_target w : lacks "?" (w_path w) = true ->
  (match find_char "?" (print_target w) with
   | Some qpos => (str_take qpos (print_target w), ParseQueryString (str_drop (S qpos) (print_target w)) ∅)
   | None => (print_target w, ∅)
   end) = (w_path w, assoc_map (w_query w)).
Proof.
  intros Hp. unfold print_target. destruct (w_query w) as [|kv q] eqn:E; [by rewrite find_char_none|].
  rewrite <- E. change ("?" +:+ print_query (w_query w))%string with (String "?" (print_query (w_query w))).
  by rewrite find_char_app, str_take_app, str_drop_app_S, ParseQueryString_print by done.
Qed.

Lemma ParseRequestLine_wire w tail p : wire_ok w = true -> ready p -> buffer_ p = (print_head w +:+ tail)%string ->
  exists p', ParseRequestLine p = ParseHeaders p' /\ buffer_ p' = (header_lines (all_headers w) +:+ CRLF +:+ tail)%string /\
    current_ p' = mkHttpRequest (w_method w) (w_path w) (w_version w) ∅ "" (assoc_map (w_query w)) ∅ /\
    contentLength_ p' = 0 /\ bodyBytesRead_ p' = 0.
Proof.
  intros Hw (Hs & Hc & Hl & Hr) Hb. unfold wire_ok in Hw. bool_prop.
  set (line := (w_method w +:+ " " +:+ print_target w +:+ " " +:+ w_version w)%string).
  assert (buffer_ p = (line +:+ CRLF +:+ header_lines (all_headers w) +:+ CRLF +:+ tail)%string) as Hb'.
  { rewrite Hb. unfold print_head, line. by rewrite !str_append_assoc. }
  assert (nonspace (print_target w) = true) as Ht by (by apply print_target_nonspace).
  assert (lacks CR line = true) as Hcr.
  { unfold line, lacks. rewrite !str_forall_app.
    repeat (apply andb_true_iff; split); try done; by apply nonspace_lacks. }
  assert (print_target w <> "") as Hne by (unfold print_target; destruct (w_query w), (w_path w); done).
  unfold ParseRequestLine. rewrite bind_getS, Hs, !bool_decide_false by done. cbn [orb]. rewrite Hb', find_crlf_line by done.
  rewrite bind_modify, str_take_app.
  assert (next_word line = (w_method w, String " " (print_target w +:+ String " " (w_version w)))%string) as ->
    by (by apply next_word_blank).
  rewrite next_word_skip, next_word_blank by done.
  pose proof (next_word_end (w_version w) ltac:(done)) as Hv.
  destruct (next_word (String " " (w_version w))) as [v' r']. simpl in Hv. subst v'.
  destruct (String.eqb (w_method w) "") eqn:E1; [by apply String.eqb_eq in E1|].
  destruct (String.eqb (print_target w) "") eqn:E2; [by apply String.eqb_eq in E2|]. cbn [orb].
  rewrite Hc. cbn [queryParams HttpRequest_new headers body pathParams]. rewrite split_target by done.
  rewrite !bind_modify. eexists. split; [reflexivity|]. cbn. rewrite Hb'. by rewrite str_drop_app.
Qed.

Lemma header_lines_length hs : (length hs <= String.length (header_lines hs))%nat.
Proof.
  induction hs as [|kv hs IH]; [done|]. cbn [header_lines fold_right length].
  change (fold_right _ _ hs) with (header_lines hs). unfold header_line. rewrite !str_length_append. simpl. lia.
Qed.

Lemma dec_pad_digits k n : str_forall isdigit (dec_pad k n) = true.
Proof.
  revert n. induction k as [|k IH]; intros n; [done|]. cbn [dec_pad]. rewrite str_forall_app, IH. cbn [str_forall andb].
  by rewrite isdigit_digit by (apply Z.mod_pos_bound; lia).
Qed.

(** Digits are neither line breaks nor blanks. *)
Lemma digits_value s : str_forall isdigit s = true -> lacks CR s = true /\ trim_left s = s.
Proof.
  intros Hd. split.
  - eapply str_forall_impl; [|exact Hd]. intros a Ha. destruct a as [[] [] [] [] [] [] [] []]; try reflexivity; discriminate Ha.
  - destruct s as [|a s]; [done|]. apply andb_true_iff in Hd as [Ha _].
    destruct a as [[] [] [] [] [] [] [] []]; try reflexivity; discriminate Ha.
Qed.

Lemma all_headers_ok w : wire_ok w = true -> forallb header_ok (all_headers w) = true.
Proof.
  intros Hw. unfold wire_ok in Hw. bool_prop. unfold all_headers. rewrite forallb_app. apply andb_true_iff. split.
  - rewrite forallb_forall in *. intros kv Hin. match goal with Hf : forall x, _ |- _ => specialize (Hf kv Hin) end.
    by bool_prop.
  - cbn [forallb]. rewrite andb_true_r. unfold header_ok. cbn [fst snd]. 
    destruct (digits_value _ (dec_pad_digits (ndigits 20 (str_size (w_body w))) (str_size (w_body w)))) as [Hcr Htr].
    unfold to_string. by rewrite Hcr, Htr, String.eqb_refl.
Qed.

(** Up to the body. *)
Lemma Feed_head w data tail p : wire_ok w = true -> ready p -> (buffer_ p +:+ data)%string = (print_head w +:+ tail)%string ->
  exists p', Feed data p = ParseBody p' /\ buffer_ p' = tail /\ state_ p' = AtBody /\
    current_ p' = mkHttpRequest (w_method w) (w_path w) (w_version w) (assoc_map (all_headers w)) "" (assoc_map (w_query w)) ∅ /\
    contentLength_ p' = str_size (w_body w) /\ bodyBytesRead_ p' = 0.
Proof.
  intros Hw Hr Hb. unfold Feed. rewrite bind_modify.
  match goal with |- context [ParseRequestLine ?q] => destruct (ParseRequestLine_wire w tail q Hw Hr Hb) as (p1 & -> & Hb1 & Hc1 & Hl1 & Hr1) end.
  unfold ParseHeaders. rewrite bind_getS.
  destruct (parse_headers_lines (all_headers w) (S (String.length (buffer_ p1))) (CRLF +:+ tail)%string p1)
    as (fuel' & p2 & -> & Hb2 & Hc2 & Hl2 & Hr2); [|by apply all_headers_ok|done|].
  { rewrite Hb1, str_length_append. pose proof (header_lines_length (all_headers w)). lia. }
  cbn [parse_headers]. rewrite bind_getS, Hb2. change (find_crlf (CRLF +:+ tail)) with (Some O). cbn [str_take].
  rewrite bind_modify. change (String.eqb "" "") with true. cbv iota.
  rewrite Hc2, Hc1. cbn [headers with_headers]. change (fold_left _ _ ∅) with (assoc_map (all_headers w)).
  rewrite content_length_wire, stoull_to_string by (done || (unfold wire_ok in Hw; bool_prop; split; [unfold str_size|]; lia)).
  erewrite (bind_run (lift _ ≫= _)) by reflexivity. rewrite !bind_modify. eexists. split; [reflexivity|]. cbn. rewrite Hb2, Hc2, Hc1, Hr2, Hr1. done.
Qed.
End ParseLemmas.

(** The parser after a complete request. *)
Lemma Feed_complete `{HashOrder} w data rest p :
  wire_ok w = true -> ready p -> (buffer_ p +:+ data)%string = (print_request w +:+ rest)%string ->
  exists p', Feed data p = (p', Ok Complete) /\ current_ p' = meant w /\ ready (Reset p') /\ buffer_ (Reset p') = rest.
Proof.
  intros Hw Hr Hb. unfold print_request in Hb. rewrite str_append_assoc in Hb.
  destruct (Feed_head w data _ p Hw Hr Hb) as (p1 & -> & Hb1 & Hs1 & Hc1 & Hl1 & Hr1).
  assert (is_u64 (str_size (w_body w))) as Hu by (unfold wire_ok in Hw; bool_prop; split; [unfold str_size|]; lia).
  unfold ParseBody. rewrite bind_getS, Hl1. destruct (str_size (w_body w) =? 0) eqn:E0; bool_prop.
  - rewrite bind_modify. eexists. split; [reflexivity|]. unfold meant.
    assert (w_body w = "") as Ew by (unfold str_size in E0; by destruct (w_body w)). rewrite Ew in *.
    cbn. rewrite Hb1, Hc1. by split.
  - rewrite !bind_modify, bind_getS. cbn [contentLength_ bodyBytesRead_ erase_front set_current].
    assert (Z.min (str_size (buffer_ p1)) (u64 (str_size (w_body w) - bodyBytesRead_ p1)) = str_size (w_body w)) as ->.
    { rewrite Hr1, Z.sub_0_r, u64_small by done. rewrite Hb1. unfold str_size. rewrite str_length_append. lia. }
    rewrite Hl1, Hr1, Z.add_0_l. rewrite Z2Nat.id by apply Hu. rewrite u64_small, Z.leb_refl by done.
    rewrite bind_modify. eexists. split; [reflexivity|]. unfold meant.
    cbn. rewrite Hb1, Hc1. unfold str_size. rewrite Nat2Z.id, str_take_app, str_drop_app_0. by split.
Qed.

(** ** Theorems *)

(** C37: requests are parsed back.  For every request a client prints, with any
    method, path, query, headers and body, a parser that expects a request and
    gets its bytes in one piece, possibly behind bytes it had already buffered
    and in front of more bytes, is done with exactly that request, and keeps the
    bytes behind it for the next one. *)
Theorem Feed_request `{HashOrder} w data rest p :
  wire_ok w = true -> ready p -> (buffer_ p +:+ data)%string = (print_request w +:+ rest)%string ->
  exists p' p'', Feed data p = (p', Ok Complete) /\ TakeRequest p' = (p'', Ok (meant w)) /\
    ready p'' /\ buffer_ p'' = rest.
Proof.
  intros Hw Hr Hb. destruct (Feed_complete w data rest p Hw Hr Hb) as (p' & E & Ec & Hr' & Hb').
  exists p', (Reset p'). split; [done|]. split; [|by split]. unfold TakeRequest. rewrite bind_getS, bind_modify. by rewrite Ec.
Qed.

(** A body that arrives by itself is lost.  When the head of a request with a
    non-empty body arrives in one piece and the body, without line breaks, in a
    later one, the parser reads the body as the beginning of a request line: it
    reports the request as incomplete after both pieces, and the request it is
    building has an empty body. *)
Theorem Feed_split_body `{HashOrder} w p :
  wire_ok w = true -> ready p -> buffer_ p = "" -> w_body w <> "" -> lacks CR (w_body w) = true ->
  exists p1 p2, Feed (print_head w) p = (p1, Ok Incomplete) /\ Feed (w_body w) p1 = (p2, Ok Incomplete) /\
    buffer_ p2 = w_body w /\ body (current_ p2) = "" /\ HasCompleteRequest p2 = false.
Proof.
  intros Hw Hr Hb Hne Hcr.
  destruct (Feed_head w (print_head w) "" p Hw Hr) as (p1 & E1 & Hb1 & Hs1 & Hc1 & Hl1 & Hr1).
  { by rewrite Hb, append_nil, str_append_nil_r. }
  assert (0 < str_size (w_body w)) as Hpos by (unfold str_size; destruct (w_body w); [done|simpl; lia]).
  rewrite E1. unfold ParseBody. rewrite bind_getS, Hl1. case_if; [lia|]. rewrite !bind_modify, bind_getS.
  cbn [contentLength_ bodyBytesRead_ erase_front set_current]. rewrite Hb1, Hr1, Hl1.
  replace (Z.to_nat (Z.min (str_size "") (u64 (str_size (w_body w) - 0)))) with O
    by (pose proof (Z.mod_pos_bound (str_size (w_body w) - 0) (2 ^ 64) ltac:(lia)); unfold u64, str_size; simpl; lia).
  change (u64 (0 + Z.of_nat 0)) with 0. case_if; [lia|]. eexists _, _. split; [reflexivity|].
  unfold Feed. rewrite bind_modify. unfold ParseRequestLine. rewrite bind_getS. cbn [state_ buffer_ erase_front set_current].
  rewrite Hs1, !bool_decide_false by done. cbn [orb]. rewrite Hb1, append_nil.
  rewrite find_crlf_none by done. split; [reflexivity|]. cbn. rewrite Hc1. split; [done|]. split; [done|].
  unfold HasCompleteRequest. by rewrite bool_decide_false.
Qed.

(** ** Witnesses *)

(** One order a hash table may have. *)
Definition RefHash : HashOrder := {| hash_order := map_to_list; hash_order_perm := fun m => reflexivity _ |}.

Section HttpExamples.
#[local] Existing Instance RefHash.
#[local] Open Scope string_scope.

Definition ex_wire : WireRequest :=
  mkWireRequest "PUT" "/v1/kv/a" [("note", "x&y = z"); ("n", "1")] "HTTP/1.1" [("Host", "db"); ("connection", "close")] "hello".

Lemma ready_new : ready HttpParser_new.
Proof. done. Qed.

Lemma Feed_request_witness :
  (Feed (print_request ex_wire +:+ "GET /") HttpParser_new).2 = Ok Complete /\
  queryParams (meant ex_wire) !! "note" = Some "x&y = z".
Proof.
  destruct (Feed_request ex_wire (print_request ex_wire +:+ "GET /") "GET /" HttpParser_new) as (p' & p'' & E & _);
    [reflexivity|exact ready_new|reflexivity|].
  rewrite E. split; reflexivity.
Defined.

Lemma Feed_split_body_witness :
  exists p1 p2, Feed (print_head ex_wire) HttpParser_new = (p1, Ok Incomplete) /\
    Feed "hello" p1 = (p2, Ok Incomplete) /\ body (current_ p2) = "".
Proof.
  destruct (Feed_split_body ex_wire HttpParser_new) as (p1 & p2 & E1 & E2 & _ & E3 & _);
    [reflexivity|exact ready_new|reflexivity|discriminate|reflexivity|].
  exists p1, p2. exact (conj E1 (conj E2 E3)).
Defined.

(** The request of the unit test [IncrementalFeed], byte by byte: the header
    line is read as a second request line and the last byte is an error. *)
Fixpoint feed_bytes (s : string) (p : HttpParser) : HttpParser * Res ParseResult :=
  match s with
  | EmptyString => (p, Ok Incomplete)
  | String a EmptyString => Feed (String a EmptyString) p
  | String a s' => match Feed (String a EmptyString) p with (p', Ok _) => feed_bytes s' p' | r => r end
  end.

Example incremental_feed_fails :
  (feed_bytes ("GET /healthz HTTP/1.1" +:+ CRLF +:+ "Host: localhost" +:+ CRLF +:+ CRLF) HttpParser_new).2 = Ok ParseError.
Proof. by vm_compute. Qed.
End HttpExamples.
