(* ===== verification/Router.v ===== *)
(** * The router (src/api/Router.{hpp,cpp})

    Route patterns, their compilation, matching, and the dispatch of a request
    through the authentication middleware and the role check to a handler.

    [std::regex] is modelled by what the compiled patterns use of it: a
    character, escaped or not, that stands for itself, and the greedy group
    [(.+)], where the dot is any character but a line terminator; the whole
    path has to match, and the alternatives are tried longest group first.

    The theorems: matching succeeds exactly on the instances of a pattern and
    yields the instance with the longest groups, and a request reaches a
    handler only through the middleware and the role check. *)
From S2P Require Import Prelude CxxString CxxMap Json Http.
From Stdlib Require Import ZArith Lia Ascii String.
From stdpp Require Import prelude gmap strings.
#[local] Open Scope Z_scope.

(** ** Authentication context *)

Record AuthContext := mkAuthContext {
  authenticated : bool;
  subject : string;
  rawToken : string;
  roles : list string;
}.

Definition AuthContext_new : AuthContext := mkAuthContext false "" "" [].

(** [std::find(roles.begin(), roles.end(), role) != roles.end()] *)
Definition has (role : string) (rs : list string) : bool := existsb (String.eqb role) rs.

Definition HasRole (auth : AuthContext) (role : string) : bool := has role (roles auth) || has "admin" (roles auth).

(** The names of the roles (src/auth/Permissions.hpp); the routes and [HasRole]
    spell them out. *)
Definition Role_Read : string := "read".
Definition Role_Write : string := "write".
Definition Role_Admin : string := "admin".

(** An administrator has every role. *)
Lemma HasRole_admin auth role : Role_Admin ∈ roles auth -> HasRole auth role = true.
Proof.
  intros Ha. unfold HasRole, has. apply orb_true_iff. right. apply existsb_exists. exists Role_Admin. split; [by apply list_elem_of_In|done].
Qed.

(** ** Patterns *)

Inductive Piece : Type := Lit (c : ascii) | Any.

Fixpoint literal (s : string) : list Piece :=
  match s with EmptyString => [] | String c r => Lit c :: literal r end.

(** A turn of the loop takes at least one character. *)
Fixpoint compile (fuel : nat) (pattern : string) : list Piece * list string :=
  match fuel, pattern with
  | S fuel', String c r =>
      if Ascii.eqb c "{" then
        match find_char "}" r with
        | None => (literal pattern, [])
        | Some k =>
            let '(ps, names) := compile fuel' (str_drop (S k) r) in (Any :: ps, str_take k r :: names)
        end
      else let '(ps, names) := compile fuel' r in (Lit c :: ps, names)
  | _, _ => ([], [])
  end.

Definition CompilePattern (pattern : string) : list Piece * list string := compile (String.length pattern) pattern.

(** ** [std::regex_match] *)

Definition line_end (a : ascii) : bool := Ascii.eqb a LF || Ascii.eqb a CR.

(** The longest run of characters the dot matches. *)
Fixpoint any_run (s : string) : nat :=
  match s with
  | String a r => if line_end a then O else S (any_run r)
  | EmptyString => O
  end.

(** The group takes [n] characters, or fewer. *)
Fixpoint try_group (rest : string -> option (list string)) (s : string) (n : nat) : option (list string) :=
  match n with
  | O => None
  | S n' =>
      match rest (str_drop n s) with
      | Some caps => Some (str_take n s :: caps)
      | None => try_group rest s n'
      end
  end.

Fixpoint regex_match (ps : list Piece) (s : string) : option (list string) :=
  match ps with
  | [] => if String.eqb s "" then Some [] else None
  | Lit c :: ps' =>
      match s with
      | String a r => if Ascii.eqb a c then regex_match ps' r else None
      | EmptyString => None
      end
  | Any :: ps' => try_group (regex_match ps') s (any_run s)
  end.

(** ** Routes *)

(** Handlers run on the state [S] of the application.  They get the request and
    the context by reference but do not write to them. *)
Definition HandlerFn (S : Type) : Type := HttpRequest -> AuthContext -> M S HttpResponse.
Definition MiddlewareFn : Type := HttpRequest -> AuthContext -> Res (option HttpResponse * AuthContext).

Record Route (S : Type) := mkRoute {
  rt_method : string;
  rt_pattern : string;
  rt_regex : list Piece;
  rt_paramNames : list string;
  rt_handler : HandlerFn S;
  rt_requiredRoles : list string;
}.
Arguments mkRoute {S} _ _ _ _ _ _.
Arguments rt_method {S} _.
Arguments rt_pattern {S} _.
Arguments rt_regex {S} _.
Arguments rt_paramNames {S} _.
Arguments rt_handler {S} _.
Arguments rt_requiredRoles {S} _.

Record Router (S : Type) := mkRouter {
  routes_ : list (Route S);
  authMiddleware_ : option MiddlewareFn;
}.
Arguments mkRouter {S} _ _.
Arguments routes_ {S} _.
Arguments authMiddleware_ {S} _.

Definition Router_new {S} : Router S := mkRouter [] None.

Definition AddRoute {S} (m pattern : string) (handler : HandlerFn S) (requiredRoles : list string) (r : Router S) : Router S :=
  let '(re, names) := CompilePattern pattern in
  mkRouter (routes_ r ++ [mkRoute m pattern re names handler requiredRoles]) (authMiddleware_ r).

Definition SetAuthMiddleware {S} (fn : MiddlewareFn) (r : Router S) : Router S := mkRouter (routes_ r) (Some fn).

(** [params[name_i] = m[i + 1].str()] for the names that have a group. *)
Definition MatchRoute {S} (route : Route S) (pa : string) : option (gmap string string) :=
  caps ← regex_match (rt_regex route) pa;
  Some (assoc_map (zip (rt_paramNames route) caps)).

Definition set_pathParams (params : gmap string string) (req : HttpRequest) : HttpRequest :=
  mkHttpRequest (method req) (path req) (version req) (headers req) (body req) (queryParams req) params.

Section Dispatch.
Context `{JsonLib} {S : Type}.

Fixpoint dispatch_routes (rs : list (Route S)) (req : HttpRequest) (auth : AuthContext) : M S HttpResponse :=
  match rs with
  | [] => lift (NotFound ("no route for " +:+ method req +:+ " " +:+ path req)%string)
  | route :: rs' =>
      if negb (String.eqb (rt_method route) (method req)) && negb (String.eqb (rt_method route) "*")
      then dispatch_routes rs' req auth
      else
        match MatchRoute route (path req) with
        | None => dispatch_routes rs' req auth
        | Some params =>
            let req' := set_pathParams params req in
            if negb (bool_decide (rt_requiredRoles route = [])) && negb (existsb (HasRole auth) (rt_requiredRoles route))
            then lift (Forbidden "insufficient role")
            else rt_handler route req' auth
        end
  end.

Definition Dispatch (r : Router S) (req : HttpRequest) (auth : AuthContext) : M S HttpResponse :=
  match authMiddleware_ r with
  | Some mw =>
      x ← lift (mw req auth);
      match x with
      | (Some resp, _) => mret resp
      | (None, auth') => dispatch_routes (routes_ r) req auth'
      end
  | None => dispatch_routes (routes_ r) req auth
  end.
End Dispatch.

(** ** Matching *)

(** The language of a pattern, with the text of the groups. *)
Inductive Matches : list Piece -> string -> list string -> Prop :=
| Matches_nil : Matches [] "" []
| Matches_lit c ps s caps : Matches ps s caps -> Matches (Lit c :: ps) (String c s) caps
| Matches_any w ps s caps : w <> ""%string -> str_forall (fun a => negb (line_end a)) w = true ->
    Matches ps s caps -> Matches (Any :: ps) (w +:+ s)%string (w :: caps).

(** The groups compare by their lengths, from the left. *)
Fixpoint greedier (caps caps' : list string) : Prop :=
  match caps, caps' with
  | w :: caps, w' :: caps' =>
      (String.length w' < String.length w)%nat \/ (String.length w = String.length w' /\ greedier caps caps')
  | _, _ => True
  end.

Lemma str_take_drop n s : (str_take n s +:+ str_drop n s)%string = s.
Proof.
  revert s. induction n as [|n IH]; intros [|a s]; try done. cbn [str_take str_drop]. by rewrite append_cons, IH.
Qed.

Lemma any_run_take n s : (n <= any_run s)%nat ->
  str_forall (fun a => negb (line_end a)) (str_take n s) = true /\ String.length (str_take n s) = n.
Proof.
  revert s. induction n as [|n IH]; intros s Hn; [by destruct s|]. destruct s as [|a s]; [simpl in Hn; lia|].
  simpl in Hn. destruct (line_end a) eqn:E; [lia|]. destruct (IH s ltac:(lia)) as [H1 H2].
  simpl. by rewrite E, H1, H2.
Qed.

Lemma any_run_app w s : str_forall (fun a => negb (line_end a)) w = true -> (String.length w <= any_run (w +:+ s))%nat.
Proof.
  induction w as [|a w IH]; [simpl; lia|]. rewrite append_cons. simpl. intros [Ha Hw]%andb_true_iff.
  apply negb_true_iff in Ha. rewrite Ha. specialize (IH Hw). lia.
Qed.

Lemma regex_match_sound ps : forall s caps, regex_match ps s = Some caps -> Matches ps s caps.
Proof.
  induction ps as [|[c|] ps IH]; intros s caps Hm; cbn [regex_match] in Hm.
  - case_if_in Hm; [|done]. inv Hm. constructor.
  - destruct s as [|a s]; [done|]. destruct (Ascii.eqb a c) eqn:E; [|done]. apply Ascii.eqb_eq in E as ->.
    constructor. by apply IH.
  - assert (forall n, (n <= any_run s)%nat -> try_group (regex_match ps) s n = Some caps -> Matches (Any :: ps) s caps) as Hgo.
    { induction n as [|n IHn]; intros Hn Ht; [done|]. cbn [try_group] in Ht.
      destruct (regex_match ps (str_drop (S n) s)) as [caps'|] eqn:E; [|apply IHn; [lia|done]]. inv Ht.
      destruct (any_run_take (S n) s Hn) as [H1 H2]. rewrite <- (str_take_drop (S n) s) at 1.
      constructor; [|done|by apply IH]. intros Ew. pose proof (f_equal String.length Ew : String.length (str_take (S n) s) = O). lia. }
    by apply (Hgo (any_run s)).
Qed.

Lemma try_group_complete (rest : string -> option (list string)) s n k caps :
  (1 <= k <= n)%nat -> rest (str_drop k s) = Some caps ->
  exists k' caps', try_group rest s n = Some (str_take k' s :: caps') /\ (k <= k' <= n)%nat /\
    rest (str_drop k' s) = Some caps'.
Proof.
  intros Hk Hr. induction n as [|n IH]; [lia|]. cbn [try_group].
  destruct (rest (str_drop (S n) s)) as [caps'|] eqn:E; [by exists (S n), caps'; split_and!; auto; lia|].
  destruct (decide (k = S n)) as [->|Hne]; [congruence|]. destruct (IH ltac:(lia)) as (k' & caps' & -> & Hk' & Hr').
  exists k', caps'. split_and!; try done; lia.
Qed.

Lemma regex_match_complete ps s caps : Matches ps s caps ->
  exists caps', regex_match ps s = Some caps' /\ greedier caps' caps.
Proof.
  induction 1 as [|c ps s caps Hm (caps' & E & Hg)|w ps s caps Hne Hw Hm (caps' & E & Hg)]; cbn [regex_match].
  - by exists [].
  - rewrite Ascii.eqb_refl. eauto.
  - pose proof (any_run_app w s Hw) as Hrun.
    assert (1 <= String.length w)%nat as H1 by (destruct w; [done|simpl; lia]).
    destruct (try_group_complete (regex_match ps) (w +:+ s)%string (any_run (w +:+ s)) (String.length w) caps')
      as (k' & caps'' & -> & Hk' & E'); [lia|by rewrite str_drop_app_0|].
    eexists. split; [done|]. cbn [greedier]. destruct (any_run_take k' (w +:+ s) ltac:(lia)) as [_ ->].
    destruct (decide (k' = String.length w)) as [->|Hk]; [right|left; lia]. split; [done|].
    rewrite str_drop_app_0 in E'. congruence.
Qed.

(** ** Patterns as they are written *)

Inductive Seg : Type := SegLit (c : ascii) | SegParam (name : string).

Fixpoint print_pattern (segs : list Seg) : string :=
  match segs with
  | [] => ""
  | SegLit c :: segs' => String c (print_pattern segs')
  | SegParam name :: segs' => ("{" +:+ name +:+ "}" +:+ print_pattern segs')%string
  end.

(** A literal is not a brace, a name has none. *)
Definition seg_ok (g : Seg) : bool :=
  match g with SegLit c => negb (Ascii.eqb c "{") | SegParam name => lacks "}" name end.

Definition seg_names (segs : list Seg) : list string :=
  omap (fun g => match g with SegParam name => Some name | SegLit _ => None end) segs.

Definition seg_piece (g : Seg) : Piece := match g with SegLit c => Lit c | SegParam _ => Any end.

(** The path with the parameters filled in. *)
Fixpoint instantiate (segs : list Seg) (caps : list string) : option string :=
  match segs, caps with
  | [], [] => Some ""
  | SegLit c :: segs', _ => String c <$> instantiate segs' caps
  | SegParam _ :: segs', w :: caps' => (fun s => w +:+ s)%string <$> instantiate segs' caps'
  | _, _ => None
  end.

(** What a parameter may be: one line, not empty. *)
Definition param_ok (w : string) : bool := negb (String.eqb w "") && str_forall (fun a => negb (line_end a)) w.

Lemma compile_print segs : forallb seg_ok segs = true -> forall fuel, (String.length (print_pattern segs) <= fuel)%nat ->
  compile fuel (print_pattern segs) = (seg_piece <$> segs, seg_names segs).
Proof.
  induction segs as [|[c|name] segs IH]; intros Hok fuel Hf.
  - by destruct fuel.
  - apply andb_true_iff in Hok as [Hc Hok]. apply negb_true_iff in Hc. destruct fuel as [|fuel]; [simpl in Hf; lia|].
    cbn [print_pattern compile]. rewrite Hc. rewrite IH by (done || (simpl in Hf; lia)). done.
  - apply andb_true_iff in Hok as [Hn Hok].
    change (print_pattern (SegParam name :: segs)) with (String "{" (name +:+ String "}" (print_pattern segs))) in *.
    cbn [String.length] in Hf. rewrite str_length_append in Hf. cbn [String.length] in Hf.
    destruct fuel as [|fuel]; [lia|]. cbn [compile]. change (Ascii.eqb "{" "{") with true. cbv iota.
    rewrite find_char_app, str_drop_app_S, str_take_app by done. rewrite IH by (done || lia). done.
Qed.

Lemma Matches_instantiate segs s caps :
  Matches (seg_piece <$> segs) s caps <-> instantiate segs caps = Some s /\ forallb param_ok caps = true.
Proof.
  revert s caps. induction segs as [|[c|name] segs IH]; intros s caps; cbn [fmap list_fmap seg_piece instantiate]; split.
  - intros Hm. by inv Hm.
  - intros [E _]. destruct caps; inv E. constructor.
  - intros Hm. inv Hm. match goal with Hm : Matches _ _ _ |- _ => apply IH in Hm as [-> Hp] end. done.
  - intros [E Hp]. destruct (instantiate segs caps) as [s'|] eqn:Es; inv E. constructor. by apply IH.
  - intros Hm. inv Hm. match goal with Hm : Matches _ _ _ |- _ => apply IH in Hm as [-> Hp] end. split; [done|].
    cbn [forallb]. unfold param_ok at 1. rewrite Hp, andb_true_r. apply andb_true_iff. split; [|done].
    by apply negb_true_iff, String.eqb_neq.
  - intros [E Hp]. destruct caps as [|w caps]; [done|]. destruct (instantiate segs caps) as [s'|] eqn:Es; inv E.
    apply andb_true_iff in Hp as [Hw Hp]. apply andb_true_iff in Hw as [Hw Hl]. constructor; [|done|by apply IH].
    by apply negb_true_iff, String.eqb_neq in Hw.
Qed.

(** C38: a route matches exactly the instances of its pattern.  For every pattern
    written with literal characters and names in braces, matching a path yields
    parameters that are one line and not empty, and that give the path back when
    filled into the pattern; every path that is such an instance is matched, and
    where several instances give the same path the parameters are the longest
    ones, from the left. *)
Theorem MatchRoute_correct {S} m segs (h : HandlerFn S) rs pa r :
  forallb seg_ok segs = true ->
  routes_ (AddRoute m (print_pattern segs) h rs Router_new) = [r] ->
  (forall params, MatchRoute r pa = Some params -> exists caps,
     instantiate segs caps = Some pa /\ forallb param_ok caps = true /\ params = assoc_map (zip (seg_names segs) caps)) /\
  (forall caps, instantiate segs caps = Some pa -> forallb param_ok caps = true -> exists caps',
     MatchRoute r pa = Some (assoc_map (zip (seg_names segs) caps')) /\
     instantiate segs caps' = Some pa /\ greedier caps' caps).
Proof.
  intros Hok Hr. unfold AddRoute, CompilePattern in Hr. rewrite compile_print in Hr by done. cbn in Hr. inv Hr.
  unfold MatchRoute. cbn [rt_regex rt_paramNames]. split.
  - intros params Hm. destruct (regex_match (seg_piece <$> segs) pa) as [caps|] eqn:E; [|done]. inv Hm.
    apply regex_match_sound, Matches_instantiate in E as [??]. by exists caps.
  - intros caps Hi Hp. destruct (regex_match_complete (seg_piece <$> segs) pa caps) as (caps' & E & Hg).
    { by apply Matches_instantiate. }
    exists caps'. rewrite E. split; [done|]. split; [|done]. by apply regex_match_sound, Matches_instantiate in E as [??].
Qed.

(** ** Dispatch *)

Section DispatchLemmas.
Context `{JsonLib} {S : Type}.

(** The role check of a route. *)
Definition authorized (r : Route S) (auth : AuthContext) : Prop :=
  rt_requiredRoles r = [] \/ exists role, role ∈ rt_requiredRoles r /\ HasRole auth role = true.

Lemma authorized_spec (r : Route S) auth :
  negb (bool_decide (rt_requiredRoles r = [])) && negb (existsb (HasRole auth) (rt_requiredRoles r)) = false ->
  authorized r auth.
Proof.
  intros [E|E]%andb_false_iff; apply negb_false_iff in E.
  - left. by apply bool_decide_eq_true in E.
  - right. apply existsb_exists in E as (role & Hin & Hr). exists role. by rewrite list_elem_of_In.
Qed.

(** What every handler that the role check lets run keeps, dispatching keeps. *)
Lemma dispatch_routes_keeps (R : S -> S -> Prop) `{!PreOrder R} (rs : list (Route S)) req auth :
  (forall r params, r ∈ rs -> authorized r auth -> keeps R (rt_handler r (set_pathParams params req) auth)) ->
  keeps R (dispatch_routes rs req auth).
Proof.
  induction rs as [|r rs IH]; intros Hr; cbn [dispatch_routes]; [keeps_tac|].
  assert (keeps R (dispatch_routes rs req auth)) as IH' by (apply IH; intros r' params Hin; apply Hr; by right).
  destruct (_ && _); [done|]. destruct (MatchRoute r (path req)) as [params|]; [|done]. cbv zeta.
  destruct (negb _ && negb _) eqn:E; [keeps_tac|]. apply Hr; [left|by apply authorized_spec].
Qed.

Lemma Dispatch_keeps (R : S -> S -> Prop) `{!PreOrder R} (rt : Router S) mw req auth :
  authMiddleware_ rt = Some mw ->
  (forall r params auth', mw req auth = Ok (None, auth') -> r ∈ routes_ rt -> authorized r auth' ->
     keeps R (rt_handler r (set_pathParams params req) auth')) ->
  keeps R (Dispatch rt req auth).
Proof.
  intros Hmw Hr. unfold Dispatch. rewrite Hmw. intros s.
  destruct (mw req auth) as [[[resp|] auth']|e] eqn:E; [reflexivity| |reflexivity].
  apply (dispatch_routes_keeps R). intros r params. by apply Hr.
Qed.
End DispatchLemmas.

(** ** Witness *)

Definition ex_segs : list Seg :=
  (SegLit <$> list_ascii_of_string "/v1/kv/") ++ [SegParam "key"] ++ (SegLit <$> list_ascii_of_string "/cas").

Lemma MatchRoute_correct_witness :
  exists r caps', routes_ (AddRoute "POST" "/v1/kv/{key}/cas" (fun _ _ => mret (HttpOk "" "")) ["write"] (@Router_new unit)) = [r] /\
    MatchRoute r "/v1/kv/a/cas/cas" = Some (assoc_map (zip ["key"] caps')) /\ greedier caps' ["a/cas"].
Proof.
  destruct (MatchRoute_correct (S := unit) "POST" ex_segs (fun _ _ => mret (HttpOk "" "")) ["write"] "/v1/kv/a/cas/cas" _
    eq_refl eq_refl) as [_ H].
  destruct (H ["a/cas"] eq_refl eq_refl) as (caps' & Hm & _ & Hg).
  eexists _, caps'. split; [reflexivity|]. split; [exact Hm|exact Hg].
Defined.
