(* ===== verification/Base64Url.v ===== *)
(** * Base64url (src/auth/JwtValidator.cpp, [Base64UrlEncode] and [Base64UrlDecode])

    Encoder and decoder with their tables; a byte sequence is a string.
    Decoding what was encoded gives the bytes back, for every byte sequence. *)
From S2P Require Import Prelude CxxString Http.
From Stdlib Require Import ZArith Lia Ascii String.
From stdpp Require Import prelude strings.
#[local] Open Scope Z_scope.

(** [static_cast<char>(z)] *)
Definition char_of (z : Z) : ascii := ascii_of_N (Z.to_N (z mod 256)).

(** ** Encoding *)

Definition B64_CHARS : string := "ABCDEFGHIJKLMNOPQRSTUVWXYZabcdefghijklmnopqrstuvwxyz0123456789+/".

(** [B64_CHARS[i]] *)
Definition b64_char (i : Z) : ascii := default "000"%char (String.get (Z.to_nat i) B64_CHARS).

(** One turn of the loop per three bytes; missing bytes are zero bits and give [=]. *)
Fixpoint b64_groups (data : string) : string :=
  match data with
  | EmptyString => EmptyString
  | String a EmptyString =>
      let val := Z.shiftl (chr a) 16 in
      String (b64_char (Z.land (Z.shiftr val 18) 63)) (String (b64_char (Z.land (Z.shiftr val 12) 63))
        (String "=" (String "=" "")))
  | String a (String b EmptyString) =>
      let val := Z.lor (Z.shiftl (chr a) 16) (Z.shiftl (chr b) 8) in
      String (b64_char (Z.land (Z.shiftr val 18) 63)) (String (b64_char (Z.land (Z.shiftr val 12) 63))
        (String (b64_char (Z.land (Z.shiftr val 6) 63)) (String "=" "")))
  | String a (String b (String c r)) =>
      let val := Z.lor (Z.lor (Z.shiftl (chr a) 16) (Z.shiftl (chr b) 8)) (chr c) in
      String (b64_char (Z.land (Z.shiftr val 18) 63)) (String (b64_char (Z.land (Z.shiftr val 12) 63))
        (String (b64_char (Z.land (Z.shiftr val 6) 63)) (String (b64_char (Z.land val 63)) (b64_groups r))))
  end.

Fixpoint str_map (f : ascii -> ascii) (s : string) : string :=
  match s with EmptyString => EmptyString | String a r => String (f a) (str_map f r) end.

Definition to_url (c : ascii) : ascii := if Ascii.eqb c "+" then "-" else if Ascii.eqb c "/" then "_" else c.

(** [while (!result.empty() && result.back() == '=') result.pop_back()] *)
Fixpoint strip_pad (s : string) : string :=
  match s with
  | EmptyString => EmptyString
  | String a r =>
      match strip_pad r with
      | EmptyString => if Ascii.eqb a "=" then EmptyString else String a EmptyString
      | r' => String a r'
      end
  end.

Definition Base64UrlEncode (data : string) : string := strip_pad (str_map to_url (b64_groups data)).

(** ** Decoding *)

Definition from_url (c : ascii) : ascii := if Ascii.eqb c "-" then "+" else if Ascii.eqb c "_" then "/" else c.

(** [while (s.size() % 4 != 0) s += '=']; three turns are enough. *)
Fixpoint pad4 (fuel : nat) (s : string) : string :=
  match fuel with
  | O => s
  | S f => if (String.length s mod 4 =? 0)%nat then s else pad4 f (s +:+ "=")%string
  end.

(** The table has 128 entries; the rest of the array is zero. *)
Definition decoding_table : list Z :=
  [-1;-1;-1;-1;-1;-1;-1;-1;-1;-1;-1;-1;-1;-1;-1;-1;
   -1;-1;-1;-1;-1;-1;-1;-1;-1;-1;-1;-1;-1;-1;-1;-1;
   -1;-1;-1;-1;-1;-1;-1;-1;-1;-1;-1;62;-1;-1;-1;63;
   52;53;54;55;56;57;58;59;60;61;-1;-1;-1;-1;-1;-1;
   -1; 0; 1; 2; 3; 4; 5; 6; 7; 8; 9;10;11;12;13;14;
   15;16;17;18;19;20;21;22;23;24;25;-1;-1;-1;-1;-1;
   -1;26;27;28;29;30;31;32;33;34;35;36;37;38;39;40;
   41;42;43;44;45;46;47;48;49;50;51;-1;-1;-1;-1;-1].

Definition decoding (c : ascii) : Z := nth (Z.to_nat (chr c)) decoding_table 0.

(** One turn of the loop per four characters. *)
Fixpoint b64_ungroup (s : string) : string :=
  match s with
  | String c0 (String c1 (String c2 (String c3 r))) =>
      let v0 := decoding c0 in
      let v1 := decoding c1 in
      let v2 := decoding c2 in
      let v3 := decoding c3 in
      if (v0 <? 0) || (v1 <? 0) then EmptyString
      else
        let b1 := if 0 <=? v2 then String (char_of (Z.lor (Z.shiftl (Z.land v1 15) 4) (Z.shiftr v2 2))) "" else "" in
        let b2 := if 0 <=? v3 then String (char_of (Z.lor (Z.shiftl (Z.land v2 3) 6) v3)) "" else "" in
        String (char_of (Z.lor (Z.shiftl v0 2) (Z.shiftr v1 4))) (b1 +:+ b2 +:+ b64_ungroup r)
  | _ => EmptyString
  end.

Definition Base64UrlDecode (input : string) : string := b64_ungroup (pad4 3 (str_map from_url input)).

(** ** Lemmas *)

Lemma lor_shiftl_add x y k : 0 <= k -> 0 <= y < 2 ^ k -> Z.lor (Z.shiftl x k) y = x * 2 ^ k + y.
Proof.
  intros Hk Hy. rewrite <- Z.shiftl_mul_pow2 by done.
  assert (Z.land (Z.shiftl x k) y = 0) as Hd.
  { apply Z.bits_inj'. intros n Hn. rewrite Z.land_spec, Z.bits_0.
    destruct (Z.lt_ge_cases n k).
    - by rewrite Z.shiftl_spec_low.
    - apply andb_false_iff. right. rewrite <- (Z.mod_small y (2 ^ k)) by done. by apply Z.mod_pow2_bits_high. }
  pose proof (Z.add_lor_land (Z.shiftl x k) y). lia.
Qed.

Lemma chr_range a : 0 <= chr a < 256.
Proof. unfold chr. pose proof (N_ascii_bounded a). lia. Qed.

Lemma char_of_chr a z : z mod 256 = chr a -> char_of z = a.
Proof. intros E. unfold char_of. rewrite E. unfold chr. rewrite N2Z.id. apply ascii_N_embedding. Qed.

(** A sextet, written and read. *)
Definition url64 (i : Z) : ascii := to_url (b64_char i).

Lemma sextet i : 0 <= i < 64 -> decoding (from_url (url64 i)) = i /\ Ascii.eqb (url64 i) "=" = false /\ Ascii.eqb (url64 i) "." = false.
Proof.
  intros Hi.
  assert (forallb (fun n => (decoding (from_url (url64 (Z.of_nat n))) =? Z.of_nat n) &&
    negb (Ascii.eqb (url64 (Z.of_nat n)) "=") && negb (Ascii.eqb (url64 (Z.of_nat n)) ".")) (seq 0 64) = true) as H by (by vm_compute).
  rewrite forallb_forall in H. specialize (H (Z.to_nat i)). rewrite Z2Nat.id in H by lia.
  assert (In (Z.to_nat i) (seq 0 64)) as Hin by (apply in_seq; lia). specialize (H Hin). bool_prop. done.
Qed.

(** The sextets of up to three bytes. *)
Lemma sextets a b c : let val := Z.lor (Z.lor (Z.shiftl (chr a) 16) (Z.shiftl (chr b) 8)) (chr c) in
  Z.land (Z.shiftr val 18) 63 = chr a / 4 /\ Z.land (Z.shiftr val 12) 63 = chr a mod 4 * 16 + chr b / 16 /\
  Z.land (Z.shiftr val 6) 63 = chr b mod 16 * 4 + chr c / 64 /\ Z.land val 63 = chr c mod 64.
Proof.
  pose proof (chr_range a). pose proof (chr_range b). pose proof (chr_range c). intros val.
  assert (val = chr a * 65536 + chr b * 256 + chr c) as ->.
  { unfold val. rewrite (lor_shiftl_add (chr a) (Z.shiftl (chr b) 8) 16) by (rewrite ?Z.shiftl_mul_pow2 by lia; lia).
    rewrite Z.shiftl_mul_pow2 by lia.
    replace (chr a * 2 ^ 16 + chr b * 2 ^ 8) with (Z.shiftl (chr a * 2 ^ 8 + chr b) 8) by (rewrite Z.shiftl_mul_pow2 by lia; lia).
    rewrite lor_shiftl_add by lia. lia. }
  change 63 with (Z.ones 6). rewrite !Z.land_ones, !Z.shiftr_div_pow2 by lia.
  change (2 ^ 6) with 64. change (2 ^ 12) with 4096. change (2 ^ 18) with 262144.
  repeat split; Z.to_euclidean_division_equations; lia.
Qed.

(** The bytes of four sextets. *)
Lemma byte0 a b : char_of (Z.lor (Z.shiftl (chr a / 4) 2) (Z.shiftr (chr a mod 4 * 16 + chr b / 16) 4)) = a.
Proof.
  pose proof (chr_range a). pose proof (chr_range b). apply char_of_chr. rewrite Z.shiftr_div_pow2 by lia.
  change (2 ^ 4) with 16. rewrite lor_shiftl_add; [|lia|]; Z.to_euclidean_division_equations; lia.
Qed.

Lemma byte1 a b c : char_of (Z.lor (Z.shiftl (Z.land (chr a mod 4 * 16 + chr b / 16) 15) 4) (Z.shiftr (chr b mod 16 * 4 + chr c / 64) 2)) = b.
Proof.
  pose proof (chr_range a). pose proof (chr_range b). pose proof (chr_range c). apply char_of_chr.
  rewrite Z.shiftr_div_pow2 by lia. change 15 with (Z.ones 4). rewrite Z.land_ones by lia.
  change (2 ^ 4) with 16. change (2 ^ 2) with 4. rewrite lor_shiftl_add; [|lia|]; Z.to_euclidean_division_equations; lia.
Qed.

Lemma byte2 b c : char_of (Z.lor (Z.shiftl (Z.land (chr b mod 16 * 4 + chr c / 64) 3) 6) (chr c mod 64)) = c.
Proof.
  pose proof (chr_range b). pose proof (chr_range c). apply char_of_chr. change 3 with (Z.ones 2). rewrite Z.land_ones by lia.
  change (2 ^ 2) with 4. rewrite lor_shiftl_add; [|lia|]; Z.to_euclidean_division_equations; lia.
Qed.

Lemma strip_pad_cons a r : Ascii.eqb a "=" = false -> strip_pad (String a r) = String a (strip_pad r).
Proof. intros E. cbn [strip_pad]. destruct (strip_pad r); [by rewrite E|done]. Qed.

Lemma pad4_group fuel c0 c1 c2 c3 s :
  pad4 fuel (String c0 (String c1 (String c2 (String c3 s)))) = String c0 (String c1 (String c2 (String c3 (pad4 fuel s)))).
Proof.
  revert s. induction fuel as [|fuel IH]; intros s; [done|]. cbn [pad4].
  assert (String.length (String c0 (String c1 (String c2 (String c3 s)))) mod 4 = String.length s mod 4)%nat as ->.
  { cbn [String.length]. replace (S (S (S (S (String.length s))))) with (String.length s + 1 * 4)%nat by lia. by rewrite Nat.Div0.mod_add. }
  case_if; [done|]. rewrite !append_cons. apply IH.
Qed.

(** Three characters at a time. *)
Lemma str_ind3 (P : string -> Prop) : P "" -> (forall a, P (String a "")) -> (forall a b, P (String a (String b ""))) ->
  (forall a b c r, P r -> P (String a (String b (String c r)))) -> forall s, P s.
Proof.
  intros H0 H1 H2 H3 s. assert (P s /\ (forall a, P (String a s)) /\ (forall a b, P (String a (String b s)))) as [H _]; [|done].
  induction s as [|c s (IH0 & IH1 & IH2)]; [auto|]. split_and!; auto.
Qed.

(** The sextets of [a], [b] and [c] as characters. *)
Definition url0 (a : ascii) : ascii := url64 (chr a / 4).
Definition url1 (a b : ascii) : ascii := url64 (chr a mod 4 * 16 + chr b / 16).
Definition url2 (b c : ascii) : ascii := url64 (chr b mod 16 * 4 + chr c / 64).
Definition url3 (c : ascii) : ascii := url64 (chr c mod 64).

Lemma url_sextets a b c :
  (decoding (from_url (url0 a)) = chr a / 4 /\ Ascii.eqb (url0 a) "=" = false /\ Ascii.eqb (url0 a) "." = false) /\
  (decoding (from_url (url1 a b)) = chr a mod 4 * 16 + chr b / 16 /\ Ascii.eqb (url1 a b) "=" = false /\ Ascii.eqb (url1 a b) "." = false) /\
  (decoding (from_url (url2 b c)) = chr b mod 16 * 4 + chr c / 64 /\ Ascii.eqb (url2 b c) "=" = false /\ Ascii.eqb (url2 b c) "." = false) /\
  (decoding (from_url (url3 c)) = chr c mod 64 /\ Ascii.eqb (url3 c) "=" = false /\ Ascii.eqb (url3 c) "." = false).
Proof.
  pose proof (chr_range a). pose proof (chr_range b). pose proof (chr_range c).
  split_and!; apply sextet; Z.to_euclidean_division_equations; lia.
Qed.

(** What the encoder writes, without the padding. *)
Lemma encode_3 a b c r :
  Base64UrlEncode (String a (String b (String c r))) =
  String (url0 a) (String (url1 a b) (String (url2 b c) (String (url3 c) (Base64UrlEncode r)))).
Proof.
  unfold Base64UrlEncode. cbn [b64_groups str_map]. cbv zeta. destruct (sextets a b c) as (-> & -> & -> & ->).
  destruct (url_sextets a b c) as ((_ & E0 & _) & (_ & E1 & _) & (_ & E2 & _) & (_ & E3 & _)).
  by rewrite !strip_pad_cons by assumption.
Qed.

Lemma encode_2 a b : Base64UrlEncode (String a (String b "")) = String (url0 a) (String (url1 a b) (String (url2 b "000") "")).
Proof.
  unfold Base64UrlEncode. cbn [b64_groups str_map]. cbv zeta. pose proof (sextets a b "000") as (S0 & S1 & S2 & _).
  change (chr "000") with 0 in *. rewrite Z.lor_0_r in S0, S1, S2. rewrite S0, S1, S2.
  destruct (url_sextets a b "000") as ((_ & E0 & _) & (_ & E1 & _) & (_ & E2 & _) & _). by rewrite !strip_pad_cons by assumption.
Qed.

Lemma encode_1 a : Base64UrlEncode (String a "") = String (url0 a) (String (url1 a "000") "").
Proof.
  unfold Base64UrlEncode. cbn [b64_groups str_map]. cbv zeta. pose proof (sextets a "000" "000") as (S0 & S1 & _).
  change (chr "000") with 0 in *. rewrite Z.shiftl_0_l, !Z.lor_0_r in S0, S1. rewrite S0, S1.
  destruct (url_sextets a "000" "000") as ((_ & E0 & _) & (_ & E1 & _) & _). by rewrite !strip_pad_cons by assumption.
Qed.

Lemma encode_lacks_dot s : lacks "." (Base64UrlEncode s) = true.
Proof.
  induction s as [|a|a b|a b c r IH] using str_ind3; [done|rewrite encode_1|rewrite encode_2|rewrite encode_3];
    unfold lacks in *; cbn [str_forall]; rewrite ?IH.
  all: try destruct (url_sextets a "000" "000") as ((_ & _ & ->) & (_ & _ & ->) & _); try done.
  all: try destruct (url_sextets a b "000") as ((_ & _ & ->) & (_ & _ & ->) & (_ & _ & ->) & _); try done.
  all: by destruct (url_sextets a b c) as ((_ & _ & ->) & (_ & _ & ->) & (_ & _ & ->) & (_ & _ & ->)).
Qed.

(** ** Round trip *)

Lemma decode_group a b c r :
  b64_ungroup (String (from_url (url0 a)) (String (from_url (url1 a b)) (String (from_url (url2 b c)) (String (from_url (url3 c)) r)))) =
  String a (String b (String c (b64_ungroup r))).
Proof.
  cbn [b64_ungroup]. destruct (url_sextets a b c) as ((-> & _) & (-> & _) & (-> & _) & (-> & _)).
  pose proof (chr_range a). pose proof (chr_range b). pose proof (chr_range c).
  rewrite !(proj2 (Z.ltb_ge _ _)) by (Z.to_euclidean_division_equations; lia). cbn [orb].
  rewrite !(proj2 (Z.leb_le 0 _)) by (Z.to_euclidean_division_equations; lia). by rewrite byte0, byte1, byte2.
Qed.

(** Decoding the encoding of any byte sequence gives the byte sequence back,
    whatever its length modulo three. *)
Lemma Base64UrlDecode_encode s : Base64UrlDecode (Base64UrlEncode s) = s.
Proof.
  unfold Base64UrlDecode. induction s as [|a|a b|a b c r IH] using str_ind3; [done|rewrite encode_1|rewrite encode_2|rewrite encode_3].
  - destruct (url_sextets a "000" "000") as ((D0 & _) & (D1 & _) & _). pose proof (chr_range a).
    cbn [str_map]. change (pad4 3 _) with (String (from_url (url0 a)) (String (from_url (url1 a "000")) "==")).
    cbn [b64_ungroup]. rewrite D0, D1. change (decoding "=") with (-1). cbn [Z.leb].
    rewrite !(proj2 (Z.ltb_ge _ _)) by (change (chr "000") with 0; Z.to_euclidean_division_equations; lia).
    cbn [orb Z.compare]. by rewrite byte0.
  - destruct (url_sextets a b "000") as ((D0 & _) & (D1 & _) & (D2 & _) & _). pose proof (chr_range a). pose proof (chr_range b).
    cbn [str_map]. change (pad4 3 _) with
      (String (from_url (url0 a)) (String (from_url (url1 a b)) (String (from_url (url2 b "000")) "="))).
    cbn [b64_ungroup]. rewrite D0, D1, D2. change (decoding "=") with (-1).
    rewrite !(proj2 (Z.ltb_ge _ _)) by (Z.to_euclidean_division_equations; lia). cbn [orb].
    rewrite (proj2 (Z.leb_le 0 _)) by (change (chr "000") with 0; Z.to_euclidean_division_equations; lia).
    by rewrite byte0, byte1.
  - cbn [str_map]. by rewrite pad4_group, decode_group, IH.
Qed.
