(* ===== verification/Auth.v ===== *)
(** * Authentication (src/auth/JwtValidator.{hpp,cpp}, TokenStore, AuthMiddleware, Permissions.hpp)

    JSON web tokens, their generation and validation, the revocation list and
    the middleware that puts the result of the validation into the request's
    context.  OpenSSL is the class [Crypto]: the HMAC, the loading of a public
    key and the verification of an RSA signature are functions nothing is
    assumed about.  The wall clock in seconds is an argument.

    The theorems: a generated token is accepted until it expires and gives its
    subject and roles; and an accepted token carries the HMAC of its own text
    under the configured secret, with claims that are in force. *)
From S2P Require Import Prelude CxxString CxxMap Json Http Router Base64Url.
From Stdlib Require Import ZArith Lia Ascii String.
From stdpp Require Import prelude gmap strings.
#[local] Open Scope Z_scope.

(** ** OpenSSL *)

Class Crypto := {
  hmac_sha256 : string -> string -> string; (* key, data *)
  EVP_PKEY : Type;
  PEM_read_PUBKEY : string -> option EVP_PKEY;
  DigestVerify : EVP_PKEY -> string -> string -> bool; (* key, data, signature *)
}.

(** ** Data *)

Record JwtClaims := mkJwtClaims {
  sub : string;
  iss : string;
  cl_roles : list string;
  exp : Z;
  iat : Z;
  jti : string;
}.

Record JwtConfig := mkJwtConfig {
  algorithm : string;
  secret : string;
  publicKeyPem : string;
  issuer : string;
  clockSkewSeconds : Z;
}.

(** The members a [Config{}] starts with. *)
Definition JwtConfig_new : JwtConfig := mkJwtConfig "HS256" "" "" "orcdb" 30.

Record JwtValidator `{Crypto} := mkJwtValidator {
  config_ : JwtConfig;
  rsaKey_ : option EVP_PKEY;
}.

Section Jwt.
Context `{JsonLib} `{Crypto}.

Definition JwtValidator_new (config : JwtConfig) : Res JwtValidator :=
  if String.eqb (algorithm config) "RS256" && negb (String.eqb (publicKeyPem config) "") then
    match PEM_read_PUBKEY (publicKeyPem config) with
    | Some k => Ok (mkJwtValidator _ config (Some k))
    | None => Throw (runtime_error "Failed to load RS256 public key")
    end
  else Ok (mkJwtValidator _ config None).

(** A [char] promoted to [int]. *)
Definition schar (a : ascii) : Z := if chr a <? 128 then chr a else chr a - 256.

(** [diff |= (expected[i] ^ sig[i])] over two strings of one length. *)
Fixpoint ct_diff (a b : string) (diff : Z) : Z :=
  match a, b with
  | String x a', String y b' => ct_diff a' b' (Z.lor diff (Z.lxor (schar x) (schar y)))
  | _, _ => diff
  end.

Definition VerifyHS256 (v : JwtValidator) (headerPayload sigBase64Url : string) : bool :=
  let expected := Base64UrlEncode (hmac_sha256 (secret (config_ v)) headerPayload) in
  if negb (str_size expected =? str_size sigBase64Url) then false
  else ct_diff expected sigBase64Url 0 =? 0.

Definition VerifyRS256 (v : JwtValidator) (headerPayload sigBase64Url : string) : bool :=
  match rsaKey_ v with
  | None => false
  | Some k => DigestVerify k headerPayload (Base64UrlDecode sigBase64Url)
  end.

Definition ValidateClaims (now : Z) (v : JwtValidator) (claims : JwtClaims) : bool :=
  if (0 <? exp claims) && (i64 (exp claims + clockSkewSeconds (config_ v)) <? now) then false
  else if negb (String.eqb (issuer (config_ v)) "") && negb (String.eqb (iss claims) (issuer (config_ v))) then false
  else true.

Definition is_array (j : json) : bool := match j with JArr _ => true | _ => false end.

Fixpoint get_strings (l : list json) : Res (list string) :=
  match l with
  | [] => Ok []
  | j :: l' => s ← get_str j; r ← get_strings l'; mret (s :: r)
  end.

Definition ParsePayload (payloadJson : string) : Res JwtClaims :=
  j ← parse payloadJson;
  sub ← json_value get_str j "sub" "";
  iss ← json_value get_str j "iss" "";
  exp ← json_value get_i64 j "exp" 0;
  iat ← json_value get_i64 j "iat" 0;
  jti ← json_value get_str j "jti" "";
  rs ← (if json_contains j "roles" then
          r ← json_at j "roles";
          if is_array r then get_strings (json_items r) else mret []
        else mret []);
  mret (mkJwtClaims sub iss rs exp iat jti).

Definition Validate (now : Z) (v : JwtValidator) (token : string) : AuthContext :=
  let ctx := mkAuthContext false "" token [] in
  match find_char "." token with
  | None => ctx
  | Some dot1 =>
      let rest := str_drop (S dot1) token in
      match find_char "." rest with
      | None => ctx
      | Some k =>
          let dot2 := (S dot1 + k)%nat in
          let headerPayload := str_take dot2 token in
          let sigPart := str_drop (S dot2) token in
          let payloadB64 := str_take k rest in
          match ParsePayload (Base64UrlDecode payloadB64) with
          | Throw _ => ctx
          | Ok claims =>
              let sigOk :=
                if String.eqb (algorithm (config_ v)) "HS256" then VerifyHS256 v headerPayload sigPart
                else if String.eqb (algorithm (config_ v)) "RS256" then VerifyRS256 v headerPayload sigPart
                else false in
              if negb sigOk then ctx
              else if negb (ValidateClaims now v claims) then ctx
              else mkAuthContext true (sub claims) token (cl_roles claims)
          end
      end
  end.

(** The literal [{"alg":"HS256","typ":"JWT"}]. *)
Definition headerJson : string :=
  let q := String "034" "" in
  ("{" +:+ q +:+ "alg" +:+ q +:+ ":" +:+ q +:+ "HS256" +:+ q +:+ "," +:+ q +:+ "typ" +:+ q +:+ ":" +:+ q +:+ "JWT" +:+ q +:+ "}")%string.

Definition claims_json (c : JwtClaims) : json :=
  jobj [("sub", JStr (sub c)); ("iss", JStr (iss c)); ("exp", JInt (exp c)); ("iat", JInt (iat c));
        ("jti", JStr (jti c)); ("roles", JArr (JStr <$> cl_roles c))].

Definition GenerateHS256Token (v : JwtValidator) (claims : JwtClaims) : Res string :=
  let header := Base64UrlEncode headerJson in
  payloadJson ← dump (claims_json claims);
  let payload := Base64UrlEncode payloadJson in
  let headerPayload := (header +:+ "." +:+ payload)%string in
  let sig := Base64UrlEncode (hmac_sha256 (secret (config_ v)) headerPayload) in
  mret (headerPayload +:+ "." +:+ sig)%string.
End Jwt.

Definition ExtractBearerToken (authHeader : string) : option string :=
  if negb (String.eqb (str_take 7 authHeader) "Bearer ") then None
  else Some (str_drop 7 authHeader).

(** ** The revocation list *)

Definition TokenStore : Type := gset string.
Definition TokenStore_new : TokenStore := ∅.
Definition Revoke (j : string) (t : TokenStore) : TokenStore := {[j]} ∪ t.
Definition IsRevoked (j : string) (t : TokenStore) : bool := bool_decide (j ∈ t).
Definition RevokedCount (t : TokenStore) : nat := size t.

(** ** The middleware *)

Record AuthMiddleware `{Crypto} := mkAuthMiddleware {
  validator_ : JwtValidator;
  tokenStore_ : TokenStore;
  publicPaths_ : list string;
}.

Section Middleware.
Context `{JsonLib} `{Crypto} `{HashOrder}.

Definition AuthMiddleware_new (v : JwtValidator) (t : TokenStore) : AuthMiddleware :=
  mkAuthMiddleware _ v t ["/healthz"; "/readyz"; "/metrics"].

Definition AddPublicPath (p : string) (a : AuthMiddleware) : AuthMiddleware :=
  mkAuthMiddleware _ (validator_ a) (tokenStore_ a) (publicPaths_ a ++ [p]).

Definition is_public (a : AuthMiddleware) (pa : string) : bool :=
  existsb (fun p => String.eqb pa p || starts_with p pa) (publicPaths_ a).

Definition MakeMiddleware (now : Z) (a : AuthMiddleware) : MiddlewareFn := fun req auth =>
  if is_public a (path req) then
    mret (None, mkAuthContext true (subject auth) (rawToken auth) (roles auth))
  else
    match ExtractBearerToken (GetHeader req "Authorization") with
    | None => resp ← Unauthorized "missing Authorization header"; mret (Some resp, auth)
    | Some token =>
        let auth' := Validate now (validator_ a) token in
        if negb (authenticated auth') then
          resp ← Unauthorized "invalid or expired token"; mret (Some resp, auth')
        else mret (None, auth')
    end.
End Middleware.

(** ** Lemmas *)

Lemma schar_inj a b : schar a = schar b -> a = b.
Proof.
  unfold schar. pose proof (chr_range a). pose proof (chr_range b). intros E. apply chr_inj.
  repeat case_if_in E; lia.
Qed.

Lemma ct_diff_zero a b d : String.length a = String.length b -> ct_diff a b d = 0 <-> d = 0 /\ a = b.
Proof.
  revert b d. induction a as [|x a IH]; intros [|y b] d; simpl; try lia; [tauto|]. intros [= Hl].
  rewrite IH by done. rewrite Z.lor_eq_0_iff, Z.lxor_eq_0_iff. split.
  - intros [[-> ->%schar_inj] ->]. done.
  - intros [-> [= -> ->]]. done.
Qed.

Section JwtLemmas.
Context {J : JsonLib} {C : Crypto}.
Implicit Types (v : JwtValidator) (c : JwtClaims).

(** The constant-time comparison is equality. *)
Lemma VerifyHS256_spec v hp sig :
  VerifyHS256 v hp sig = true <-> sig = Base64UrlEncode (hmac_sha256 (secret (config_ v)) hp).
Proof.
  unfold VerifyHS256. set (e := Base64UrlEncode _). case_if; unfold str_size in *.
  - split; [done|]. intros ->. lia.
  - rewrite Z.eqb_eq, ct_diff_zero by lia. split; [by intros [_ ->]|done].
Qed.

(** The parts of a token. *)
Lemma split_token h p sig : lacks "." h = true -> lacks "." p = true ->
  let token := (h +:+ "." +:+ p +:+ "." +:+ sig)%string in
  find_char "." token = Some (String.length h) /\
  str_drop (S (String.length h)) token = (p +:+ String "." sig)%string /\
  find_char "." (p +:+ String "." sig)%string = Some (String.length p) /\
  str_take (S (String.length h) + String.length p) token = (h +:+ "." +:+ p)%string /\
  str_drop (S (S (String.length h) + String.length p)) token = sig.
Proof.
  intros Hh Hp token. assert (token = h +:+ String "." (p +:+ String "." sig))%string as Et by done.
  assert (token = (h +:+ "." +:+ p) +:+ String "." sig)%string as Et' by (unfold token; by rewrite !str_append_assoc).
  assert (S (String.length h) + String.length p = String.length (h +:+ "." +:+ p))%nat as El
    by (rewrite !str_length_append; simpl; lia).
  split; [rewrite Et; by apply find_char_app|]. split; [rewrite Et; apply str_drop_app_S|].
  split; [by apply find_char_app|]. rewrite El, Et'. split; [apply str_take_app|apply str_drop_app_S].
Qed.

Lemma get_strings_strs l : get_strings (JStr <$> l) = Ok l.
Proof. induction l as [|s l IH]; [done|]. rewrite fmap_cons. cbn. by rewrite IH. Qed.

(** Claims whose texts are UTF-8 and whose times are [int64_t]. *)
Definition claims_ok c : bool :=
  utf8_valid (sub c) && utf8_valid (iss c) && utf8_valid (jti c) && forallb utf8_valid (cl_roles c) &&
  (- 2 ^ 63 <=? exp c) && (exp c <? 2 ^ 63) && (- 2 ^ 63 <=? iat c) && (iat c <? 2 ^ 63).

Lemma payload_roundtrip {L : JsonLaws J} c : claims_ok c = true ->
  exists s, dump (claims_json c) = Ok s /\ ParsePayload s = Ok c.
Proof.
  intros Hok. unfold claims_ok in Hok. bool_prop.
  assert (json_wf (claims_json c) = true) as Hwf.
  { apply jobj_wf. cbn [forallb fst snd json_wf]. rewrite !andb_true_iff. split_and!; try done; try (apply Z.leb_le; lia); try (apply Z.ltb_lt; lia).
    rewrite forallb_forall in *. intros j (s & <- & Hs)%in_map_iff. cbn. auto. }
  destruct (dump_parse _ Hwf) as (s & Hd & Hp). exists s. unfold dump, ParsePayload, parse. rewrite Hd, Hp. split; [done|].
  change (claims_json c) with (JObj [("exp", JInt (exp c)); ("iat", JInt (iat c)); ("iss", JStr (iss c));
    ("jti", JStr (jti c)); ("roles", JArr (JStr <$> cl_roles c)); ("sub", JStr (sub c))]).
  cbn -[i64]. rewrite get_strings_strs. cbn -[i64]. rewrite !i64_small by (split; lia). by destruct c.
Qed.
End JwtLemmas.

Lemma find_char_split c s k : find_char c s = Some k ->
  s = (str_take k s +:+ String c (str_drop (S k) s))%string /\ lacks c (str_take k s) = true.
Proof.
  revert k. induction s as [|a s IH]; intros k Hf; [done|]. cbn [find_char] in Hf. destruct (Ascii.eqb a c) eqn:E.
  - inv Hf. apply Ascii.eqb_eq in E as ->. by destruct s.
  - destruct (find_char c s) as [k'|] eqn:Ek; inv Hf. destruct (IH k' eq_refl) as [Hs Hl].
    split; [exact (f_equal (String a) Hs)|]. change (negb (Ascii.eqb a c) && lacks c (str_take k' s) = true). by rewrite E.
Qed.

Section JwtTheorems.
Context {J : JsonLib} {C : Crypto}.

(** The claims are in force: not expired, allowing for the clock skew, and from
    the configured issuer if there is one. *)
Definition in_force (now : Z) (v : JwtValidator) (c : JwtClaims) : Prop :=
  (exp c <= 0 \/ now <= i64 (exp c + clockSkewSeconds (config_ v))) /\
  (issuer (config_ v) = ""%string \/ iss c = issuer (config_ v)).

Lemma ValidateClaims_spec now v c : ValidateClaims now v c = true <-> in_force now v c.
Proof.
  unfold ValidateClaims, in_force. destruct (0 <? exp c) eqn:E1, (_ <? now) eqn:E2; cbn [andb]; bool_prop; try (split; [done|lia]).
  all: destruct (String.eqb (issuer (config_ v)) "") eqn:E3, (String.eqb (iss c) (issuer (config_ v))) eqn:E4; cbn [andb negb]; bool_prop.
  all: first [split; [intros _; split; [lia|tauto]|tauto] | split; [done|tauto]].
Qed.

(** Validating a token with its parts. *)
Lemma Validate_parts now v h p sig c : algorithm (config_ v) = "HS256"%string ->
  lacks "." h = true -> lacks "." p = true -> ParsePayload (Base64UrlDecode p) = Ok c ->
  sig = Base64UrlEncode (hmac_sha256 (secret (config_ v)) (h +:+ "." +:+ p)%string) ->
  let token := (h +:+ "." +:+ p +:+ "." +:+ sig)%string in
  Validate now v token =
  if ValidateClaims now v c then mkAuthContext true (sub c) token (cl_roles c) else mkAuthContext false "" token [].
Proof.
  intros Ha Hh Hp Hc Hs token. destruct (split_token h p sig Hh Hp) as (E1 & E2 & E3 & E4 & E5).
  unfold Validate. fold token in E1, E2, E4, E5. rewrite E1, E2, E3, E4, E5, str_take_app, Hc, Ha. cbv zeta.
  change (String.eqb "HS256" "HS256") with true. cbv iota.
  rewrite (proj2 (VerifyHS256_spec v _ sig)) by done. by destruct (ValidateClaims now v c).
Qed.

(** Generated tokens are accepted.  The token generated for any claims is
    accepted by a validator with the same configuration exactly while the claims
    are in force, and then gives the subject and the roles of the claims. *)
Theorem jwt_roundtrip {L : JsonLaws J} now v c :
  algorithm (config_ v) = "HS256"%string -> claims_ok c = true ->
  exists token, GenerateHS256Token v c = Ok token /\
    (authenticated (Validate now v token) = true <-> in_force now v c) /\
    (in_force now v c -> Validate now v token = mkAuthContext true (sub c) token (cl_roles c)).
Proof.
  intros Ha Hc. destruct (payload_roundtrip c Hc) as (s & Hd & Hp). unfold GenerateHS256Token. rewrite Hd.
  eexists. split; [reflexivity|]. rewrite !str_append_assoc.
  rewrite (Validate_parts now v (Base64UrlEncode headerJson) (Base64UrlEncode s) _ c Ha);
    [|apply encode_lacks_dot|apply encode_lacks_dot|by rewrite Base64UrlDecode_encode|done].
  rewrite <- ValidateClaims_spec. split; [by destruct (ValidateClaims now v c)|by intros ->].
Qed.

(** C35: accepted tokens are signed.  A token an HS256 validator accepts consists
    of three parts, of which the third is the encoded HMAC of the first two under
    the configured secret; its payload parses to claims that are in force, and
    the context has their subject and their roles and nothing else. *)
Theorem Validate_sound now v token :
  algorithm (config_ v) = "HS256"%string -> authenticated (Validate now v token) = true ->
  exists h p c,
    token = (h +:+ "." +:+ p +:+ "." +:+ Base64UrlEncode (hmac_sha256 (secret (config_ v)) (h +:+ "." +:+ p)))%string /\
    ParsePayload (Base64UrlDecode p) = Ok c /\ in_force now v c /\
    Validate now v token = mkAuthContext true (sub c) token (cl_roles c).
Proof.
  intros Ha Hv. assert (exists h p sig, token = (h +:+ "." +:+ p +:+ "." +:+ sig)%string /\ lacks "." h = true /\ lacks "." p = true)
    as (h & p & sig & -> & Hh & Hp).
  { unfold Validate in Hv. destruct (find_char "." token) as [d1|] eqn:E1; [|done].
    destruct (find_char "." (str_drop (S d1) token)) as [k|] eqn:E2; [|done].
    apply find_char_split in E1 as [E1 H1]. apply find_char_split in E2 as [E2 H2].
    exists (str_take d1 token), (str_take k (str_drop (S d1) token)), (str_drop (S k) (str_drop (S d1) token)).
    split; [|done]. rewrite E1 at 1. by rewrite E2 at 1. }
  destruct (split_token h p sig Hh Hp) as (E1 & E2 & E3 & E4 & E5).
  unfold Validate in Hv. rewrite E1, E2, E3, E4, E5, str_take_app, Ha in Hv. cbv zeta in Hv.
  change (String.eqb "HS256" "HS256") with true in Hv. cbv iota in Hv.
  destruct (ParsePayload (Base64UrlDecode p)) as [c|e] eqn:Ec; [|done].
  destruct (VerifyHS256 v (h +:+ "." +:+ p) sig) eqn:Es; [|done]. apply VerifyHS256_spec in Es as ->.
  cbn [negb] in Hv. destruct (ValidateClaims now v c) eqn:Ef; [|done]. exists h, p, c. split; [done|]. split; [done|].
  split; [by apply ValidateClaims_spec|]. rewrite (Validate_parts now v h p _ c) by done. by rewrite Ef.
Qed.

(** Without a key an RS256 validator accepts nothing. *)
Lemma RS256_without_key now v token : algorithm (config_ v) = "RS256"%string -> rsaKey_ v = None ->
  authenticated (Validate now v token) = false.
Proof.
  intros Ha Hk. unfold Validate. destruct (find_char "." token); [|done]. destruct (find_char "." _); [|done].
  destruct (ParsePayload _); [|done]. rewrite Ha. cbn [String.eqb]. unfold VerifyRS256. by rewrite Hk.
Qed.

(** The context the middleware hands on: on a public path it has the roles it
    came with, on any other the roles of a valid token. *)
Lemma MakeMiddleware_passes `{HashOrder} now a req auth auth' :
  MakeMiddleware now a req auth = Ok (None, auth') ->
  (is_public a (path req) = true /\ roles auth' = roles auth) \/
  (is_public a (path req) = false /\ exists token, ExtractBearerToken (GetHeader req "Authorization") = Some token /\
     auth' = Validate now (validator_ a) token /\ authenticated auth' = true).
Proof.
  unfold MakeMiddleware. destruct (is_public a (path req)); [intros [= <-]; by left|].
  destruct (ExtractBearerToken _) as [token|]; [|by destruct (Unauthorized _)].
  destruct (authenticated (Validate now (validator_ a) token)) eqn:E; cbn [negb]; [|by destruct (Unauthorized _)].
  intros [= <-]. right. split; [done|]. by exists token.
Qed.
End JwtTheorems.

(** ** Witnesses *)

(** A stand-in for the library: the "HMAC" is the key and the data. *)
Definition RefCrypto : Crypto :=
  {| hmac_sha256 := fun k d => (k +:+ d)%string; EVP_PKEY := unit; PEM_read_PUBKEY := fun _ => None;
     DigestVerify := fun _ _ _ => false |}.

Section AuthExamples.
#[local] Existing Instance RefJson.
#[local] Existing Instance RefCrypto.

Definition ex_validator : JwtValidator := mkJwtValidator _ (mkJwtConfig "HS256" "secret" "" "orcdb" 30) None.
Definition ex_claims : JwtClaims := mkJwtClaims "alice" "orcdb" ["write"] 1000 900 "id".
Definition ex_token : string := match GenerateHS256Token ex_validator ex_claims with Ok t => t | Throw _ => "" end.

Lemma jwt_roundtrip_witness :
  exists token, GenerateHS256Token ex_validator ex_claims = Ok token /\
    roles (Validate 1030 ex_validator token) = ["write"] /\ authenticated (Validate 1031 ex_validator token) <> true.
Proof.
  destruct (jwt_roundtrip (L := RefJson_laws) 1030 ex_validator ex_claims eq_refl eq_refl) as (token & E & _ & H).
  destruct (jwt_roundtrip (L := RefJson_laws) 1031 ex_validator ex_claims eq_refl eq_refl) as (token' & E' & H' & _).
  exists token. split; [exact E|]. rewrite E in E'. injection E' as <-. split.
  - rewrite H; [reflexivity|]. split; [right; by vm_compute|by right].
  - intros [[Hx|Hx] _]%H'; by vm_compute in Hx.
Defined.

Lemma Validate_sound_witness :
  exists h p c, ParsePayload (Base64UrlDecode p) = Ok c /\ in_force 1000 ex_validator c /\
    ex_token = (h +:+ "." +:+ p +:+ "." +:+ Base64UrlEncode ("secret" +:+ (h +:+ "." +:+ p)))%string.
Proof.
  destruct (Validate_sound 1000 ex_validator ex_token eq_refl) as (h & p & c & E & Hp & Hf & _); [by vm_compute|].
  exists h, p, c. split; [exact Hp|]. split; [exact Hf|exact E].
Defined.
End AuthExamples.
