(* ===== verification/Api.v ===== *)
(** * The HTTP API (src/api/KVHandler, WatchHandler, ClusterHandler, HealthHandler, src/metrics/MetricsHandler.cpp, src/main.cpp)

    The handlers, their routes, and the request handler [main] installs.  The
    state is the consensus node; the key-value store the handlers use is the
    node's own.  Where a handler waits, the other threads run: what they do is
    the record [Env], an argument of the handlers.  The clocks are arguments,
    and so is the text of the metrics.

    The theorems: only a request with a valid token for the role "write" or
    "admin" changes anything but the table of watches; a PUT on the leader
    appends exactly the entry it asks for and reports success exactly when it
    was applied; a compare-and-swap changes the leader's store without the log;
    and the JSON body of a response reads back. *)
From S2P Require Import Prelude CxxString CxxMap Json KVStore RaftRPC WriteAheadLog RaftLog RaftNode RaftReplication Http Router Base64Url Auth.
From Stdlib Require Import ZArith Lia Ascii String.
From stdpp Require Import prelude gmap strings.
#[local] Open Scope Z_scope.

(** What the other threads do while a handler waits: for a proposal, the state
    at the end of the wait; for a watch with a timeout, that state and the
    notifications of the watch's callback until the end of the wait, and from
    then until the watch is removed. *)
Record Env := mkEnv {
  propose_wait : RaftNode -> RaftNode;
  watch_wait : Z -> RaftNode -> RaftNode * list Notification * list Notification;
}.

Definition json_mime : string := "application/json".

(** An operation of the store; the calls to other watches' callbacks have no
    effect on the node. *)
Definition withStore {A} (f : KVStore -> A * KVStore) : M RaftNode A := fun n =>
  let '(a, s) := f (store_ n) in (set_store s n, Ok a).

(** [req.pathParams.at(k)] *)
Definition path_param (req : HttpRequest) (k : string) : Res string :=
  of_opt (out_of_range "_Map_base::at") (pathParams req !! k).

Section Handlers.
Context `{JsonLib} `{Crypto} `{HashOrder} (env : Env).

(** ** KVHandler *)

Definition RedirectToLeader (n : RaftNode) : Res HttpResponse :=
  let leaderId := GetLeaderId n in
  if String.eqb leaderId "" then ServiceUnavailable "no leader elected"
  else ServiceUnavailable ("not the leader; redirect to: " +:+ leaderId)%string.

(** [raft_->Propose(...)]: the locked section, the wait, the result. *)
Definition Propose (key value : string) (op : OpType) (ttl_ms : Z) : M RaftNode ProposeResult :=
  r ← Propose_begin key value op ttl_ms;
  match r with
  | inl res => mret res
  | inr index => modify (propose_wait env);; n ← getS; mret (Propose_finish index n)
  end.

Definition entry_json (key : string) (e : KVEntry) : json :=
  jobj [("key", JStr key); ("value", JStr (kv_value e)); ("version", JInt (kv_version e));
        ("raft_index", JInt (kv_raftIndex e))].

Definition KVHandler_Get (now : Z) : HandlerFn RaftNode := fun req _ =>
  key ← lift (path_param req "key");
  n ← getS;
  match Get now key (store_ n) with
  | None => lift (NotFound ("key not found: " +:+ key)%string)
  | Some entry => b ← lift (dump (entry_json key entry)); mret (HttpOk b json_mime)
  end.

(** [body.contains("ttl_ms") && !body["ttl_ms"].is_null()] *)
Definition put_ttl (j : json) : Res Z :=
  if json_contains j "ttl_ms" then
    t ← json_at j "ttl_ms";
    match t with JNull => mret (-1) | _ => get_i64 t end
  else mret (-1).

Definition KVHandler_Put : HandlerFn RaftNode := fun req _ =>
  key ← lift (path_param req "key");
  if String.eqb key "" then lift (BadRequest "key cannot be empty")
  else
    match parse (body req) with
    | Throw _ => lift (BadRequest "invalid JSON body")
    | Ok j =>
        if negb (json_contains j "value") then lift (BadRequest "missing field: value")
        else
          value ← lift (json_at j "value" ≫= get_str);
          ttl_ms ← lift (put_ttl j);
          n ← getS;
          if negb (IsLeader n) then lift (RedirectToLeader n)
          else
            result ← Propose key value OpPut ttl_ms;
            n ← getS;
            if negb (pr_ok result) then
              if str_contains "not leader" (pr_error result) then lift (RedirectToLeader n)
              else lift (InternalError (pr_error result))
            else
              b ← lift (dump (jobj [("key", JStr key); ("version", JInt 1); ("raft_index", JInt (pr_index result))]));
              mret (Created b)
    end.

Definition KVHandler_Delete (now : Z) : HandlerFn RaftNode := fun req _ =>
  key ← lift (path_param req "key");
  n ← getS;
  if negb (IsLeader n) then lift (RedirectToLeader n)
  else
    match Get now key (store_ n) with
    | None => lift (NotFound ("key not found: " +:+ key)%string)
    | Some _ =>
        result ← Propose key "" OpDelete (-1);
        if negb (pr_ok result) then lift (InternalError (pr_error result))
        else mret NoContent
    end.

Definition item_json (kv : string * KVEntry) : json :=
  jobj [("key", JStr kv.1); ("value", JStr (kv_value kv.2)); ("version", JInt (kv_version kv.2))].

Definition KVHandler_List (now : Z) : HandlerFn RaftNode := fun req _ =>
  let prefix := default "" (GetQueryParam req "prefix") in
  limit ← (match GetQueryParam req "limit" with
           | Some s => l ← lift (stoull s); mret (Some l)
           | None => mret None
           end);
  n ← getS;
  let arr := item_json <$> Scan now prefix limit (store_ n) in
  b ← lift (dump (jobj [("items", JArr arr); ("count", JInt (len arr))]));
  mret (HttpOk b json_mime).

Definition KVHandler_CompareAndSwap (now : Z) : HandlerFn RaftNode := fun req _ =>
  key ← lift (path_param req "key");
  match parse (body req) with
  | Throw _ => lift (BadRequest "invalid JSON body")
  | Ok j =>
      if negb (json_contains j "expected") || negb (json_contains j "value")
      then lift (BadRequest "missing expected or value field")
      else
        expected ← lift (json_at j "expected" ≫= get_str);
        newValue ← lift (json_at j "value" ≫= get_str);
        n ← getS;
        if negb (IsLeader n) then lift (RedirectToLeader n)
        else
          ok ← withStore (fun s => (CAS now key expected newValue 0 s).1);
          if negb (ok : bool) then lift (Conflict "compare-and-swap failed: value mismatch")
          else
            b ← lift (dump (jobj [("key", JStr key); ("updated", JBool true)]));
            mret (HttpOk b json_mime)
  end.

(** ** WatchHandler *)

(** The handle of the callback is arbitrary: the notifications it gets come from
    the environment. *)
Definition WatchHandler_Watch (cb : WatchCallback) : HandlerFn RaftNode := fun req _ =>
  key ← lift (path_param req "key");
  let isPrefix := String.eqb (default "false" (GetQueryParam req "prefix")) "true" in
  timeoutMs ← (match GetQueryParam req "timeout_ms" with Some s => lift (stoll s) | None => mret 30000 end);
  watchId ← withStore (AddWatch key isPrefix cb);
  evs ← (fun n => let '(n', before, after) := watch_wait env timeoutMs n in (n', Ok (before, after)));
  withStore (fun s => (tt, Unwatch watchId s));;
  match evs with
  | ([], _) => mret NoContent
  | (e0 :: before, after) =>
      let ev := List.last (before ++ after) e0 in
      b ← lift (dump (match n_entry ev with
            | Some e => jobj [("key", JStr (n_key ev)); ("value", JStr (kv_value e)); ("version", JInt (kv_version e));
                              ("raft_index", JInt (kv_raftIndex e)); ("deleted", JBool false)]
            | None => jobj [("key", JStr (n_key ev)); ("deleted", JBool true)]
            end));
      mret (HttpOk b json_mime)
  end.

(** ** ClusterHandler and HealthHandler *)

Definition ClusterHandler_Status : HandlerFn RaftNode := fun _ _ =>
  n ← getS;
  b ← lift (dump (jobj [("role", JStr (RaftRoleToString (GetRole n))); ("current_term", JInt (GetCurrentTerm n));
                        ("commit_index", JInt (GetCommitIndex n)); ("leader_id", JStr (GetLeaderId n));
                        ("is_leader", JBool (IsLeader n))]));
  mret (HttpOk b json_mime).

Definition ClusterHandler_Leader : HandlerFn RaftNode := fun _ _ =>
  n ← getS;
  if String.eqb (GetLeaderId n) "" then lift (ServiceUnavailable "no leader elected")
  else
    b ← lift (dump (jobj [("leader_id", JStr (GetLeaderId n)); ("is_leader", JBool (IsLeader n))]));
    mret (HttpOk b json_mime).

Definition HealthHandler_Liveness : HandlerFn RaftNode := fun _ _ =>
  b ← lift (dump (jobj [("status", JStr "ok")])); mret (HttpOk b json_mime).

Definition HealthHandler_Readiness : HandlerFn RaftNode := fun _ _ =>
  n ← getS;
  if String.eqb (GetLeaderId n) "" then lift (ServiceUnavailable "no leader elected")
  else
    b ← lift (dump (jobj [("status", JStr "ready"); ("is_leader", JBool (IsLeader n));
                          ("leader_id", JStr (GetLeaderId n)); ("term", JInt (GetCurrentTerm n))]));
    mret (HttpOk b json_mime).

(** [text] is what [OrcMetrics::Collect] returns. *)
Definition MetricsHandler_Metrics (text : string) : HandlerFn RaftNode := fun _ _ =>
  mret (HttpOk text "text/plain; version=0.0.4; charset=utf-8").

(** ** Routes *)

Definition KVHandler_RegisterRoutes (now : Z) (r : Router RaftNode) : Router RaftNode :=
  AddRoute "DELETE" "/v1/kv/{key}" (KVHandler_Delete now) ["write"]
  (AddRoute "PUT" "/v1/kv/{key}" KVHandler_Put ["write"]
  (AddRoute "GET" "/v1/kv/{key}" (KVHandler_Get now) ["read"]
  (AddRoute "GET" "/v1/kv" (KVHandler_List now) ["read"]
  (AddRoute "POST" "/v1/kv/{key}/cas" (KVHandler_CompareAndSwap now) ["write"] r)))).

Definition WatchHandler_RegisterRoutes (cb : WatchCallback) (r : Router RaftNode) : Router RaftNode :=
  AddRoute "GET" "/v1/watch/{key}" (WatchHandler_Watch cb) ["read"] r.

Definition ClusterHandler_RegisterRoutes (r : Router RaftNode) : Router RaftNode :=
  AddRoute "GET" "/v1/cluster/leader" ClusterHandler_Leader []
  (AddRoute "GET" "/v1/cluster/status" ClusterHandler_Status ["read"] r).

Definition HealthHandler_RegisterRoutes (r : Router RaftNode) : Router RaftNode :=
  AddRoute "GET" "/readyz" HealthHandler_Readiness [] (AddRoute "GET" "/healthz" HealthHandler_Liveness [] r).

Definition MetricsHandler_RegisterRoutes (text : string) (r : Router RaftNode) : Router RaftNode :=
  AddRoute "GET" "/metrics" (MetricsHandler_Metrics text) [] r.

(** ** [main] *)

(** The validator's configuration, from the auth section of the node's. *)
Definition main_jwtCfg (jwtAlgorithm jwtSecret jwtIssuer : string) : JwtConfig :=
  mkJwtConfig jwtAlgorithm jwtSecret (publicKeyPem JwtConfig_new) jwtIssuer (clockSkewSeconds JwtConfig_new).

(** The router; [now] is the clock in nanoseconds. *)
Definition main_router (now : Z) (v : JwtValidator) (cb : WatchCallback) (text : string) : Router RaftNode :=
  MetricsHandler_RegisterRoutes text
  (ClusterHandler_RegisterRoutes
  (WatchHandler_RegisterRoutes cb
  (KVHandler_RegisterRoutes now
  (HealthHandler_RegisterRoutes
  (SetAuthMiddleware (MakeMiddleware (Z.quot now 1000000000) (AuthMiddleware_new v TokenStore_new)) Router_new))))).

(** The handler of the HTTP server. *)
Definition main_handler (now : Z) (v : JwtValidator) (cb : WatchCallback) (text : string) (req : HttpRequest) : M RaftNode HttpResponse :=
  Dispatch (main_router now v cb text) req AuthContext_new.
End Handlers.

(** ** Authorisation *)

(** Nothing but the table of watches differs. *)
Definition same_but_watches (n n' : RaftNode) : Prop :=
  n' = set_store (store_ n') n /\ data_ (store_ n') = data_ (store_ n).

#[export] Instance same_but_watches_preorder : PreOrder same_but_watches.
Proof.
  split.
  - intros n. split; [by destruct n|done].
  - intros n1 n2 n3 [E1 D1] [E2 D2]. split; [|congruence]. rewrite E2 at 1. by rewrite E1.
Qed.

Lemma withStore_keeps {A} (f : KVStore -> A * KVStore) :
  (forall s, data_ (f s).2 = data_ s) -> keeps same_but_watches (withStore f).
Proof.
  intros Hf n. unfold withStore. specialize (Hf (store_ n)). destruct (f (store_ n)) as [a s]. by split.
Qed.

Lemma AddRoute_elem {S} m pat (h : HandlerFn S) rs rt r : r ∈ routes_ (AddRoute m pat h rs rt) ->
  r ∈ routes_ rt \/ (rt_handler r = h /\ rt_requiredRoles r = rs).
Proof.
  unfold AddRoute. destruct (CompilePattern pat) as [re names]. cbn [routes_].
  intros [Hin|Hin%list_elem_of_singleton]%elem_of_app; [by left|]. right. by subst r.
Qed.

Lemma AddRoute_middleware {S} m pat (h : HandlerFn S) rs rt :
  authMiddleware_ (AddRoute m pat h rs rt) = authMiddleware_ rt.
Proof. unfold AddRoute. by destruct (CompilePattern pat). Qed.

Lemma has_elem role rs : has role rs = true <-> role ∈ rs.
Proof.
  unfold has. rewrite existsb_exists. setoid_rewrite String.eqb_eq. rewrite list_elem_of_In. split; [by intros (x & ? & ->)|eauto].
Qed.

Section Authority.
Context `{JsonLib} `{Crypto} `{HashOrder} (env : Env).

(** While a watch waits the other threads are idle. *)
Definition idle_watch : Prop := forall t n, same_but_watches n (watch_wait env t n).1.1.

(** The handlers of the roles below "write". *)
Lemma readers_keep now cb text req auth : idle_watch ->
  keeps same_but_watches (KVHandler_Get now req auth) /\ keeps same_but_watches (KVHandler_List now req auth) /\
  keeps same_but_watches (WatchHandler_Watch env cb req auth) /\
  keeps same_but_watches (ClusterHandler_Status req auth) /\ keeps same_but_watches (ClusterHandler_Leader req auth) /\
  keeps same_but_watches (HealthHandler_Liveness req auth) /\ keeps same_but_watches (HealthHandler_Readiness req auth) /\
  keeps same_but_watches (MetricsHandler_Metrics text req auth).
Proof.
  intros Hidle.
  unfold KVHandler_Get, KVHandler_List, WatchHandler_Watch, ClusterHandler_Status, ClusterHandler_Leader,
    HealthHandler_Liveness, HealthHandler_Readiness, MetricsHandler_Metrics.
  split_and!; keeps_tac.
  - destruct (Get now _ _); keeps_tac.
  - destruct (GetQueryParam req "limit"); keeps_tac.
  - destruct (GetQueryParam req "timeout_ms"); keeps_tac.
  - by apply withStore_keeps.
  - intros n. match goal with |- context [watch_wait env ?t n] => specialize (Hidle t n); destruct (watch_wait env t n) as [[n' before] after] end. exact Hidle.
  - by apply withStore_keeps.
  - match goal with evs : _ * _ |- _ => destruct evs as [[|e0 before] after] end; keeps_tac.
Qed.

(** A route whose handler may write. *)
Definition write_route (r : Route RaftNode) : Prop := rt_requiredRoles r = ["write"].

Lemma main_routes now v cb text r req auth : idle_watch -> r ∈ routes_ (main_router env now v cb text) ->
  write_route r \/ keeps same_but_watches (rt_handler r req auth).
Proof.
  intros Hidle Hin. destruct (readers_keep now cb text req auth Hidle) as (? & ? & ? & ? & ? & ? & ? & ?).
  unfold main_router, MetricsHandler_RegisterRoutes, ClusterHandler_RegisterRoutes, WatchHandler_RegisterRoutes,
    KVHandler_RegisterRoutes, HealthHandler_RegisterRoutes in Hin.
  repeat (apply AddRoute_elem in Hin as [Hin|[-> Hrs]]; [|by auto]). by apply not_elem_of_nil in Hin.
Qed.

Lemma main_router_middleware now v cb text : authMiddleware_ (main_router env now v cb text) =
  Some (MakeMiddleware (Z.quot now 1000000000) (AuthMiddleware_new v TokenStore_new)).
Proof.
  unfold main_router, MetricsHandler_RegisterRoutes, ClusterHandler_RegisterRoutes, WatchHandler_RegisterRoutes,
    KVHandler_RegisterRoutes, HealthHandler_RegisterRoutes. by rewrite !AddRoute_middleware.
Qed.

(** C14: only authorised requests write.  Whatever the request, and while the other
    threads are idle, the server's state after handling it differs from the one
    before at most in the table of watches, unless the request carries a bearer
    token that the validator accepts and that has the role "write" or "admin".
    In particular no public path, no expired or unsigned token and no token for
    reading leads to a write. *)
Theorem write_requires_authority now v cb text req n : idle_watch ->
  same_but_watches n (main_handler env now v cb text req n).1 \/
  exists token, ExtractBearerToken (GetHeader req "Authorization") = Some token /\
    let auth := Validate (Z.quot now 1000000000) v token in
    authenticated auth = true /\ ("write" ∈ roles auth \/ "admin" ∈ roles auth).
Proof.
  intros Hidle. set (mw := MakeMiddleware (Z.quot now 1000000000) (AuthMiddleware_new v TokenStore_new)).
  assert ((exists auth', mw req AuthContext_new = Ok (None, auth') /\ HasRole auth' "write" = true) \/
          (forall auth', mw req AuthContext_new = Ok (None, auth') -> HasRole auth' "write" = false)) as [(auth' & Hmw & Hr)|Hno].
  { destruct (mw req AuthContext_new) as [[[resp|] auth']|e]; [by right| |by right].
    destruct (HasRole auth' "write") eqn:E; [left; eauto|right]. by intros ? [= <-]. }
  - right. apply MakeMiddleware_passes in Hmw as [[_ Hroles]|[_ (token & Ht & -> & Ha)]].
    + unfold HasRole in Hr. by rewrite Hroles in Hr.
    + exists token. split; [done|]. split; [done|]. apply orb_true_iff in Hr as [Hr|Hr]; apply has_elem in Hr; auto.
  - left. apply (Dispatch_keeps same_but_watches _ mw); [apply main_router_middleware|].
    intros r params auth' Hmw Hin Hauth. destruct (main_routes now v cb text r (set_pathParams params req) auth' Hidle Hin) as [Hw|Hk]; [|done].
    exfalso. specialize (Hno auth' Hmw). unfold write_route in Hw. destruct Hauth as [E|(role & Hrole & Hh)]; rewrite Hw in *; [done|].
    apply list_elem_of_singleton in Hrole as ->. congruence.
Qed.
End Authority.

(** ** A write, end to end *)

Section Responses.
Context {J : JsonLib} {L : JsonLaws J}.

Lemma InternalError_ok msg : utf8_valid msg = true -> exists r, InternalError msg = Ok r /\ statusCode r = 500.
Proof.
  intros Hm. unfold InternalError, JsonError. destruct (dump_ok (jobj [("error", JStr msg)])) as (s & -> & _ & _).
  - apply jobj_wf. cbn [forallb fst snd json_wf]. by rewrite Hm.
  - by eexists.
Qed.

(** A proposal that was not successful is answered by an internal error. *)
Lemma Propose_finish_error index n : pr_ok (Propose_finish index n) = false ->
  utf8_valid (pr_error (Propose_finish index n)) = true /\ str_contains "not leader" (pr_error (Propose_finish index n)) = false.
Proof. unfold Propose_finish. repeat case_if; done. Qed.

Lemma Propose_finish_index index n : pr_index (Propose_finish index n) = index.
Proof. unfold Propose_finish. by repeat case_if. Qed.
End Responses.

Lemma AddRoute_routes {S} m pat (h : HandlerFn S) rs rt : routes_ (AddRoute m pat h rs rt) =
  routes_ rt ++ [mkRoute m pat (CompilePattern pat).1 (CompilePattern pat).2 h rs].
Proof. unfold AddRoute. by destruct (CompilePattern pat). Qed.

(** A group at the end takes the rest of the path. *)
Lemma match_rest w : param_ok w = true -> regex_match [Any] w = Some [w].
Proof.
  unfold param_ok. intros [Hne Hl]%andb_true_iff. cbn [regex_match].
  assert (any_run w = String.length w) as ->.
  { clear Hne. induction w as [|a w IH]; [done|]. simpl in *. apply andb_true_iff in Hl as [Ha Hl].
    apply negb_true_iff in Ha. rewrite Ha. by rewrite IH. }
  destruct (String.length w) as [|k] eqn:E; [by destruct w|]. cbn [try_group]. rewrite <- E.
  pose proof (str_drop_app_0 w "") as Hd. pose proof (str_take_app w "") as Ht. rewrite str_append_nil_r in Hd, Ht.
  by rewrite Hd, Ht.
Qed.

Lemma MatchRoute_kv {S} m (h : HandlerFn S) rs key : param_ok key = true ->
  MatchRoute (mkRoute m "/v1/kv/{key}" (CompilePattern "/v1/kv/{key}").1 (CompilePattern "/v1/kv/{key}").2 h rs)
    ("/v1/kv/" +:+ key)%string = Some {["key" := key]}.
Proof.
  intros Hk. unfold MatchRoute. cbn [rt_regex rt_paramNames].
  change (regex_match (CompilePattern "/v1/kv/{key}").1 ("/v1/kv/" +:+ key)) with (regex_match [Any] key).
  by rewrite match_rest.
Qed.

Section PutPath.
Context {J : JsonLib} {C : Crypto} {HO : HashOrder} (env : Env).

Lemma dispatch_skip (r : Route RaftNode) rs req auth :
  String.eqb (rt_method r) (method req) = false -> String.eqb (rt_method r) "*" = false ->
  dispatch_routes (r :: rs) req auth = dispatch_routes rs req auth.
Proof. intros E1 E2. cbn [dispatch_routes]. by rewrite E1, E2. Qed.

Lemma dispatch_here (r : Route RaftNode) rs req auth params role :
  rt_method r = method req -> MatchRoute r (path req) = Some params -> rt_requiredRoles r = [role] ->
  HasRole auth role = true -> dispatch_routes (r :: rs) req auth = rt_handler r (set_pathParams params req) auth.
Proof.
  intros E1 E2 E3 E4. cbn [dispatch_routes]. rewrite E1, String.eqb_refl, E2, E3. cbn [negb andb existsb].
  by rewrite E4, andb_false_r.
Qed.

(** Requests below "/v1/kv/" are not public. *)
Lemma kv_not_public v t key : is_public (AuthMiddleware_new v t) ("/v1/kv/" +:+ key)%string = false.
Proof. reflexivity. Qed.

Lemma main_handler_put now v cb text req token key :
  method req = "PUT" -> path req = ("/v1/kv/" +:+ key)%string -> param_ok key = true ->
  ExtractBearerToken (GetHeader req "Authorization") = Some token ->
  let auth := Validate (Z.quot now 1000000000) v token in
  authenticated auth = true -> HasRole auth "write" = true ->
  main_handler env now v cb text req = KVHandler_Put env (set_pathParams {["key" := key]} req) auth.
Proof.
  intros Hm Hp Hk Ht auth Ha Hr. unfold main_handler, Dispatch. rewrite main_router_middleware.
  assert (MakeMiddleware (Z.quot now 1000000000) (AuthMiddleware_new v TokenStore_new) req AuthContext_new = Ok (None, auth)) as ->.
  { unfold MakeMiddleware. rewrite Hp, kv_not_public, Ht. cbn [validator_ AuthMiddleware_new]. fold auth. by rewrite Ha. }
  change (dispatch_routes (routes_ (main_router env now v cb text)) req auth =
    KVHandler_Put env (set_pathParams {["key" := key]} req) auth).
  unfold main_router, MetricsHandler_RegisterRoutes, ClusterHandler_RegisterRoutes, WatchHandler_RegisterRoutes,
    KVHandler_RegisterRoutes, HealthHandler_RegisterRoutes. rewrite !AddRoute_routes.
  cbn [app SetAuthMiddleware routes_ Router_new]. do 5 rewrite dispatch_skip by (rewrite ?Hm; reflexivity).
  by rewrite (dispatch_here _ _ req auth {["key" := key]} "write"); [|by rewrite Hm|by rewrite Hp; apply MatchRoute_kv| |].
Qed.
End PutPath.

(** The body of a PUT request: an object with a text under "value". *)
Definition put_body `{JsonLib} (text value : string) (ttl : Z) : Prop :=
  exists j, parse text = Ok j /\ json_contains j "value" = true /\ json_at j "value" = Ok (JStr value) /\ put_ttl j = Ok ttl.

Lemma put_ttl_range j ttl : put_ttl j = Ok ttl -> is_i64 ttl.
Proof.
  unfold put_ttl. destruct (json_contains j "ttl_ms"); [|by intros [= <-]]. destruct (json_at j "ttl_ms") as [t|]; [|done].
  destruct t; cbn -[i64]; try done; intros [= <-]; try apply i64_range. by split.
Qed.

Section PutTheorem.
Context {J : JsonLib} {L : JsonLaws J} {C : Crypto} {HO : HashOrder} (env : Env).

(** The leader can take one more entry. *)
Definition leader_ok (n : RaftNode) : Prop :=
  role_ n = Leader /\ is_u64 (currentTerm_ n) /\ log_wf (log_ n) /\ LastIndex (log_ n) + 2 < 2 ^ 64.

Lemma KVHandler_Put_run req auth n key value ttl :
  pathParams req !! "key" = Some key -> key <> ""%string -> utf8_valid key = true -> utf8_valid value = true ->
  put_body (body req) value ttl -> leader_ok n ->
  exists l' s, let index := LastIndex (log_ n) + 1 in
    entries_ l' = entries_ (log_ n) ++ [mkLogEntry (currentTerm_ n) index OpPut key value ttl s] /\
    log_wf l' /\ (log_durable (log_ n) -> log_durable l') /\
    exists resp, let n2 := propose_wait env (set_log l' n) in
      KVHandler_Put env req auth n = (n2, Ok resp) /\
      statusCode resp = if decide (role_ n2 = Leader /\ index <= lastApplied_ n2) then 201 else 500.
Proof.
  intros Hkey Hne Hk Hv (j & Hj & Hc & Hat & Httl) (Hr & Ht & W & Hb).
  destruct (Propose_begin_leader key value OpPut ttl n) as (l' & s & E & _ & He & W' & D); try done; [by eapply put_ttl_range|].
  exists l', s. split; [done|]. split; [done|]. split; [done|]. set (n2 := propose_wait env (set_log l' n)).
  unfold KVHandler_Put, path_param. rewrite Hkey. cbn [of_opt]. rewrite bind_lift_Ok.
  rewrite (proj2 (String.eqb_neq _ _) Hne), Hj, Hc. cbn [negb]. rewrite Hat. change (Ok (JStr value) ≫= get_str) with (Ok value).
  rewrite bind_lift_Ok, Httl, bind_lift_Ok, bind_getS. unfold IsLeader. rewrite Hr, bool_decide_true by done. cbn [negb].
  assert (Propose env key value OpPut ttl n = (n2, Ok (Propose_finish (LastIndex (log_ n) + 1) n2))) as EP.
  { unfold Propose. rewrite (bind_run _ _ _ _ _ E). by rewrite bind_modify, bind_getS. }
  rewrite (bind_run _ _ _ _ _ EP), bind_getS.
  pose proof (Propose_finish_ok (LastIndex (log_ n) + 1) n2) as Hok.
  pose proof (Propose_finish_error (LastIndex (log_ n) + 1) n2) as Herr.
  destruct (pr_ok (Propose_finish (LastIndex (log_ n) + 1) n2)); cbn [negb].
  - rewrite decide_True by (by apply Hok). rewrite Propose_finish_index.
    pose proof (LastIndex_wf _ W). pose proof (wf_snap _ W). pose proof (log_size_pos _ W).
    destruct (dump_ok (jobj [("key", JStr key); ("version", JInt 1); ("raft_index", JInt (LastIndex (log_ n) + 1))])) as (b & -> & _ & _).
    { apply jobj_wf. cbn [forallb fst snd]. change (json_wf (JStr key)) with (utf8_valid key).
      rewrite !JInt_u64_wf by (split; lia). by rewrite Hk. }
    rewrite bind_lift_Ok. by eexists.
  - destruct (Herr eq_refl) as [Hu Hnl]. rewrite Hnl. rewrite decide_False by (intros Hx; by apply Hok in Hx).
    destruct (InternalError_ok _ Hu) as (r & -> & Hs). by exists r.
Qed.

(** C13: a PUT through the whole server.  A PUT request to "/v1/kv/<key>" with a
    valid token for writing and a JSON body with a text under "value", handled by
    the leader, appends exactly one entry to its log: the next index, the current
    term, that key, value and time to live; the log stays well formed and its
    journal up to date.  After the wait, whatever the other threads did
    meanwhile, the answer is 201 exactly when the node is then the leader, of
    this or of a later term, and has applied that index, and 500 otherwise. *)
Theorem put_end_to_end now v cb text req token key value ttl n :
  method req = "PUT" -> path req = ("/v1/kv/" +:+ key)%string ->
  param_ok key = true -> utf8_valid key = true -> utf8_valid value = true -> put_body (body req) value ttl ->
  ExtractBearerToken (GetHeader req "Authorization") = Some token ->
  authenticated (Validate (Z.quot now 1000000000) v token) = true ->
  HasRole (Validate (Z.quot now 1000000000) v token) "write" = true ->
  leader_ok n ->
  exists l' s, let index := LastIndex (log_ n) + 1 in
    entries_ l' = entries_ (log_ n) ++ [mkLogEntry (currentTerm_ n) index OpPut key value ttl s] /\
    log_wf l' /\ (log_durable (log_ n) -> log_durable l') /\
    exists resp, let n2 := propose_wait env (set_log l' n) in
      main_handler env now v cb text req n = (n2, Ok resp) /\
      statusCode resp = if decide (role_ n2 = Leader /\ index <= lastApplied_ n2) then 201 else 500.
Proof.
  intros Hm Hp Hk Hu Hv Hb Ht Ha Hr Hn. rewrite (main_handler_put env now v cb text req token key) by done.
  apply KVHandler_Put_run; try done. intros ->. done.
Qed.

(** Compare-and-swap is not replicated.  On a leader whose store has the
    expected value under the key, the handler answers 200 after changing the
    node's own store, with the Raft index 0, and nothing else: no entry is
    appended to the log, so no other replica and no restart sees the change. *)
Theorem cas_bypasses_log now req auth n key e newValue :
  pathParams req !! "key" = Some key -> utf8_valid key = true -> role_ n = Leader ->
  map_find key (data_ (store_ n)) = Some e ->
  (exists j, parse (body req) = Ok j /\ json_contains j "expected" = true /\ json_contains j "value" = true /\
     json_at j "expected" = Ok (JStr (kv_value e)) /\ json_at j "value" = Ok (JStr newValue)) ->
  exists resp s', KVHandler_CompareAndSwap now req auth n = (set_store s' n, Ok resp) /\ statusCode resp = 200 /\
    data_ s' = map_put key (mkKVEntry newValue (u64 (kv_version e + 1)) 0 (kv_createdAt e) now (kv_expiresAt e)) (data_ (store_ n)) /\
    log_ (set_store s' n) = log_ n.
Proof.
  intros Hkey Hu Hr He (j & Hj & Hc1 & Hc2 & Ha1 & Ha2).
  unfold KVHandler_CompareAndSwap, path_param. rewrite Hkey. cbn [of_opt]. rewrite bind_lift_Ok, Hj, Hc1, Hc2. cbn [negb orb].
  rewrite Ha1, Ha2. change (Ok (JStr (kv_value e)) ≫= get_str) with (Ok (kv_value e)).
  change (Ok (JStr newValue) ≫= get_str) with (Ok newValue). rewrite !bind_lift_Ok, bind_getS.
  unfold IsLeader. rewrite Hr, bool_decide_true by done. cbn [negb].
  destruct (dump_ok (jobj [("key", JStr key); ("updated", JBool true)])) as (b & Hb & _ & _).
  { apply jobj_wf. cbn [forallb fst snd json_wf]. by rewrite Hu. }
  unfold withStore, CAS. unfold mbind at 1, M_bind at 1. rewrite He, String.eqb_refl. cbn [negb fst].
  rewrite Hb, bind_lift_Ok. by eexists _, _.
Qed.
End PutTheorem.

(** ** Witnesses *)

Section ApiExamples.
#[local] Existing Instance RefJson.
#[local] Existing Instance RefCrypto.
#[local] Existing Instance RefHash.

(** Nobody else is there: proposals stay in the log, watches time out. *)
Definition quiet_env : Env := mkEnv (fun n => n) (fun _ n => (n, [], [])).

Lemma quiet_env_idle : idle_watch quiet_env.
Proof. intros t n. split; [by destruct n|done]. Qed.

Definition ex_get : HttpRequest := mkHttpRequest "GET" "/v1/kv/k" "HTTP/1.1" ∅ "" ∅ ∅.

Lemma write_requires_authority_witness :
  same_but_watches (ex_node Leader) (main_handler quiet_env 0 ex_validator 0%nat "" ex_get (ex_node Leader)).1.
Proof.
  destruct (write_requires_authority quiet_env 0 ex_validator 0%nat "" ex_get (ex_node Leader) quiet_env_idle) as [Hs|(token & Ht & _)].
  - exact Hs.
  - exfalso. by vm_compute in Ht.
Defined.

Definition dumped (j : json) : string := match dump j with Ok s => s | Throw _ => "" end.

(** A PUT of "x" under "k" with the token of [Auth.ex_token]. *)
Definition ex_put_body : json := jobj [("value", JStr "x"); ("ttl_ms", JInt 500)].
Definition ex_put_req : HttpRequest :=
  mkHttpRequest "PUT" "/v1/kv/k" "HTTP/1.1" {["authorization" := ("Bearer " +:+ ex_token)%string]} (dumped ex_put_body) ∅ ∅.

Lemma ex_leader_ok : leader_ok (ex_node Leader).
Proof. split; [done|]. split; [by vm_compute|]. split; [apply ex_node_wf|by vm_compute]. Qed.

Lemma put_end_to_end_witness :
  exists l' s, entries_ l' = entries_ (log_ (ex_node Leader)) ++ [mkLogEntry 1 3 OpPut "k" "x" 500 s] /\ log_wf l'.
Proof.
  destruct (put_end_to_end (L := RefJson_laws) quiet_env 1000000000000 ex_validator 0%nat "" ex_put_req ex_token "k" "x" 500 (ex_node Leader))
    as (l' & s & He & W & _).
  - done.
  - done.
  - done.
  - done.
  - done.
  - exists ex_put_body. split; [by vm_compute|]. by split_and!.
  - by vm_compute.
  - by vm_compute.
  - by vm_compute.
  - exact ex_leader_ok.
  - exists l', s. split; [|exact W]. rewrite He. do 2 f_equal.
Defined.

Definition ex_cas_body : json := jobj [("expected", JStr "v"); ("value", JStr "w")].
Definition ex_cas_req : HttpRequest :=
  mkHttpRequest "POST" "/v1/kv/k/cas" "HTTP/1.1" ∅ (dumped ex_cas_body) ∅ {["key" := "k"]}.
Definition ex_cas_entry : KVEntry := mkKVEntry "v" 1 1 5 5 None.
Definition ex_cas_node : RaftNode := set_store (mkKVStore [("k", ex_cas_entry)] 1 ∅) (ex_node Leader).

Lemma cas_bypasses_log_witness :
  exists resp s', KVHandler_CompareAndSwap 9 ex_cas_req AuthContext_new ex_cas_node = (set_store s' ex_cas_node, Ok resp) /\
    statusCode resp = 200 /\ data_ s' = [("k", mkKVEntry "w" 2 0 5 9 None)].
Proof.
  destruct (cas_bypasses_log (L := RefJson_laws) 9 ex_cas_req AuthContext_new ex_cas_node "k" ex_cas_entry "w") as (resp & s' & E & Hs & Hd & _).
  - done.
  - done.
  - done.
  - done.
  - exists ex_cas_body. split; [by vm_compute|]. by split_and!.
  - exists resp, s'. split; [exact E|]. split; [exact Hs|]. rewrite Hd. by vm_compute.
Defined.
End ApiExamples.
