(* ===== verification/ApiCluster.v ===== *)
(** * A client of the cluster

    The HTTP API of [Api] on the nodes of a cluster: what a client that writes on
    one node can read on another.  A PUT waits while the cluster runs, so the
    environment of its handler is a run of [RaftStore], without restarts,
    snapshots, late responses and compare-and-swap.  The theorem
    composes the router, the token check, the proposal, replication, the apply
    loops and the stores of two nodes.

    Reads are served from the node's own store, and a compare-and-swap writes to
    it past the log; the last section shows what a client sees of both. *)
From S2P Require Import Prelude CxxString CxxMap Json KVStore RaftRPC WriteAheadLog RaftLog RaftNode RaftCluster RaftReplication.
From S2P Require Import RaftLogMatching RaftRun RaftSpec RaftRefinement RaftStore Http Router Base64Url Auth Api.
From Stdlib Require Import ZArith Lia Ascii String.
From stdpp Require Import prelude gmap strings relations.
#[local] Open Scope Z_scope.
#[local] Open Scope string_scope.

(** ** Requests *)

(** A request for a key with a token that is valid for [role]. *)
Record kv_request {J : JsonLib} {C : Crypto} {HO : HashOrder} (v : JwtValidator) (now : Z) (verb role key : string) (req : HttpRequest) : Prop := {
  kr_method : method req = verb;
  kr_path : path req = "/v1/kv/" +:+ key;
  kr_param : param_ok key = true;
  kr_utf8 : utf8_valid key = true;
  kr_token : exists token, ExtractBearerToken (GetHeader req "Authorization") = Some token /\
    authenticated (Validate (Z.quot now 1000000000) v token) = true /\ HasRole (Validate (Z.quot now 1000000000) v token) role = true;
}.

Section GetPath.
Context {J : JsonLib} {C : Crypto} {HO : HashOrder} (env : Env).

Lemma dispatch_unmatched (r : Route RaftNode) rs req auth : MatchRoute r (path req) = None ->
  dispatch_routes (r :: rs) req auth = dispatch_routes rs req auth.
Proof. intros E. cbn [dispatch_routes]. rewrite E. by case_if. Qed.

Lemma main_handler_get now v cb text req key : kv_request v now "GET" "read" key req ->
  exists auth, main_handler env now v cb text req = KVHandler_Get now (set_pathParams {["key" := key]} req) auth.
Proof.
  intros [Hm Hp Hk _ (token & Ht & Ha & Hr)]. set (auth := Validate (Z.quot now 1000000000) v token) in *. exists auth.
  unfold main_handler, Dispatch. rewrite main_router_middleware.
  assert (MakeMiddleware (Z.quot now 1000000000) (AuthMiddleware_new v TokenStore_new) req AuthContext_new = Ok (None, auth)) as ->.
  { unfold MakeMiddleware. rewrite Hp, kv_not_public, Ht. cbn [validator_ AuthMiddleware_new]. fold auth. by rewrite Ha. }
  change (dispatch_routes (routes_ (main_router env now v cb text)) req auth = KVHandler_Get now (set_pathParams {["key" := key]} req) auth).
  unfold main_router, MetricsHandler_RegisterRoutes, ClusterHandler_RegisterRoutes, WatchHandler_RegisterRoutes,
    KVHandler_RegisterRoutes, HealthHandler_RegisterRoutes. rewrite !AddRoute_routes.
  cbn [app SetAuthMiddleware routes_ Router_new]. do 2 rewrite dispatch_unmatched by (rewrite Hp; reflexivity).
  rewrite dispatch_skip by (rewrite ?Hm; reflexivity). rewrite dispatch_unmatched by (rewrite Hp; reflexivity).
  by rewrite (dispatch_here _ _ req auth {["key" := key]} "read"); [|by rewrite Hm|by rewrite Hp; apply MatchRoute_kv| |].
Qed.
End GetPath.

(** ** Handlers *)

Section Handlers.
Context {J : JsonLib} {L : JsonLaws J} {C : Crypto} {HO : HashOrder} (env : Env).

(** The body of the answer to a GET. *)
Lemma KVHandler_Get_run now req auth n key e : pathParams req !! "key" = Some key -> Get now key (store_ n) = Some e ->
  utf8_valid key = true -> utf8_valid (kv_value e) = true -> is_u64 (kv_version e) -> is_u64 (kv_raftIndex e) ->
  exists resp, KVHandler_Get now req auth n = (n, Ok resp) /\ statusCode resp = 200 /\ parse (rs_body resp) = Ok (entry_json key e).
Proof.
  intros Hkey Hg Hk Hv Hver Hri. unfold KVHandler_Get, path_param. rewrite Hkey. cbn [of_opt]. rewrite bind_lift_Ok, bind_getS, Hg.
  destruct (dump_ok (entry_json key e)) as (b & -> & Hb & _).
  { apply jobj_wf. cbn [forallb fst snd]. change (json_wf (JStr key)) with (utf8_valid key). change (json_wf (JStr (kv_value e))) with (utf8_valid (kv_value e)).
    rewrite !JInt_u64_wf by done. by rewrite Hk, Hv. }
  rewrite bind_lift_Ok. by eexists.
Qed.

Lemma Propose_begin_refused key value op ttl n n' res : Propose_begin key value op ttl n = (n', Ok (inl res)) -> pr_ok res = false.
Proof.
  unfold Propose_begin. rewrite bind_getS. case_if; [by intros [= _ <-]|]. cbv zeta. destruct (LogEntry_Serialize _); [|done]. rewrite bind_lift_Ok.
  unfold mbind, M_bind, withLog. by destruct (Append _ (log_ n)) as [l [[]|]].
Qed.

(** Errors are not 201. *)
Lemma error_status {A} (code : Z) msg (s s' : A) resp : lift (b ← JsonError msg; mret (mkHttpResponse code json_type b)) s = (s', Ok resp) -> statusCode resp = code.
Proof. unfold lift. destruct (JsonError msg); [|done]. by intros [= _ <-]. Qed.

(** A PUT that is answered with 201 was proposed by a leader, and [Propose]
    succeeded. *)
Lemma put_created now v cb text req n n2 key value ttl resp :
  kv_request v now "PUT" "write" key req -> put_body (body req) value ttl -> main_handler env now v cb text req n = (n2, Ok resp) -> statusCode resp = 201 ->
  exists n' index, Propose_begin key value OpPut ttl n = (n', Ok (inr index)) /\ n2 = propose_wait env n' /\ pr_ok (Propose_finish index n2) = true.
Proof.
  intros [Hm Hp Hpar Hu (token & Ht & Ha & Hr)] (j & Hj & Hc & Hat & Httl). rewrite (main_handler_put env now v cb text req token key) by done.
  unfold KVHandler_Put, path_param. change (pathParams (set_pathParams {["key" := key]} req)) with ({["key" := key]} : gmap string string).
  rewrite lookup_singleton_eq. cbn [of_opt]. rewrite bind_lift_Ok. destruct (String.eqb_spec key "") as [->|_]; [by vm_compute in Hpar|].
  change (body (set_pathParams _ req)) with (body req). rewrite Hj, Hc. cbn [negb]. rewrite Hat. change (Ok (JStr value) ≫= get_str) with (Ok value).
  rewrite bind_lift_Ok, Httl, bind_lift_Ok, bind_getS. unfold RedirectToLeader, ServiceUnavailable, InternalError. intros E H201.
  assert (forall code msg s s', lift (b ← JsonError msg; mret (mkHttpResponse code json_type b)) s = (s' : RaftNode, Ok resp) -> code = 201) as Herr.
  { intros code msg s s' Hl%error_status. congruence. }
  destruct (negb (IsLeader n)); [repeat case_if_in E; by apply Herr in E|]. unfold Propose in E.
  destruct (Propose_begin key value OpPut ttl n) as [n' [[res|index]|ex]] eqn:EP.
  - rewrite (bind_run _ _ n n' res) in E by (by rewrite (bind_run _ _ _ _ _ EP)). rewrite bind_getS, (Propose_begin_refused _ _ _ _ _ _ _ EP) in E.
    cbn [negb] in E. repeat case_if_in E; by apply Herr in E.
  - rewrite (bind_run _ _ n (propose_wait env n') (Propose_finish index (propose_wait env n'))) in E
      by (by rewrite (bind_run _ _ _ _ _ EP), bind_modify, bind_getS).
    rewrite bind_getS in E. destruct (pr_ok (Propose_finish index (propose_wait env n'))) eqn:Eok; cbn [negb] in E; [|repeat case_if_in E; by apply Herr in E].
    exists n', index. split; [done|]. destruct (dump _); [|done]. rewrite bind_lift_Ok in E. injection E as <- _. done.
  - unfold mbind, M_bind in E. by rewrite EP in E.
Qed.
End Handlers.

(** ** Theorem *)

(** C12: what was written is read, in runs without restarts, snapshots and
    compare-and-swap in which a leader handles responses in the term of their
    requests.  A PUT without time to live is answered with 201 by a node that is
    in the same term as when it took it.  Then at any later time a GET of the
    key to any node that has applied the entry, and none for the same key after
    it, is answered with 200 and a JSON body with that value and that index; and
    the GET changes nothing. *)
Theorem put_read_back {J : JsonLib} {L : JsonLaws J} {C : Crypto} {HO : HashOrder} members cfg c1 i n1 env now v cb text req key value resp c2 n2
    c3 j n3 env' now' text' req' :
  cluster_config members cfg -> logged_reachable members cfg c1 -> small c1 -> nodes c1 !! i = Some n1 ->
  kv_request v now "PUT" "write" key req -> put_body (body req) value (-1) -> utf8_valid value = true ->
  main_handler env now v cb text req n1 = (n2, Ok resp) -> statusCode resp = 201 -> currentTerm_ n2 = currentTerm_ n1 ->
  nodes c2 !! i = Some n2 -> rtc (logged_step cfg) (set_node i (Propose_begin key value OpPut (-1) n1).1 c1) c2 ->
  rtc (logged_step cfg) c2 c3 -> nodes c3 !! j = Some n3 ->
  let index := LastIndex (log_ n1) + 1 in
  index <= taken c3 j n3 -> (forall m e, index < m <= taken c3 j n3 -> log_lookup (log_ n3) m = Some e -> writes key e = false) ->
  kv_request v now' "GET" "read" key req' ->
  exists resp' version, main_handler env' now' v cb text' req' n3 = (n3, Ok resp') /\ statusCode resp' = 200 /\
    parse (rs_body resp') = Ok (jobj [("key", JStr key); ("value", JStr value); ("version", JInt version); ("raft_index", JInt index)]).
Proof.
  intros Hcfg Hr Hsm Hn1 Hreq Hbody Hv Hrun H201 Et Hn2 Hs2 Hs3 Hn3 index Ht Hlast Hget.
  destruct (put_created env now v cb text req n1 n2 key value (-1) resp Hreq Hbody Hrun H201) as (n1' & ix & Hp & _ & Hok). rewrite Hp in Hs2. cbn [fst] in Hs2.
  assert (ix = index /\ is_u64 index) as [-> Hu].
  { destruct (Propose_begin_taken key value OpPut (-1) n1 n1' ix Hp) as (_ & _ & _ & -> & _).
    destruct (prompt_reach members cfg Hcfg c1 (logged_reach _ _ _ Hr)) as (_ & _ & _ & F & Il). destruct (lm_nodes _ _ _ Il i n1 Hn1) as [[W S0 _] _].
    destruct (LastIndex_len _ W S0) as (HL & Hpos & _). pose proof (small_roomy members F c1 i n1 Il Hsm Hn1) as Hroom. unfold roomy in Hroom.
    unfold index. split; [apply u64_small|]; unfold is_u64, len in *; lia. }
  assert (logged_reachable members cfg c3) as Hr3.
  { apply (logged_steps members cfg c1); [done|]. etrans; [eapply (logged_propose cfg c1 i n1 key value OpPut (-1)); by eauto|]. by etrans. }
  destruct (replicas_at members cfg Hcfg c3 j n3 Hr3 Hn3) as [_ B3].
  destruct (acknowledged_rep members cfg c1 i n1 n1' key value (-1) index c2 n2 c3 j n3) as [_ Hrep]; try done; [lia|].
  destruct (Hrep Ht Hlast) as (version & Hver & Ek). pose proof (Get_permanent now' key (store_ n3) _ Ek eq_refl) as Hg.
  destruct (Get now' key (store_ n3)) as [e|] eqn:Eg; [|done]. injection Hg as Ev Eve Ei _.
  destruct (main_handler_get env' now' v cb text' req' key Hget) as [auth ->].
  destruct (KVHandler_Get_run now' (set_pathParams {["key" := key]} req') auth n3 key e) as (resp' & E1 & E2 & E3); try done; try congruence.
  - apply (kr_utf8 _ _ _ _ _ _ Hreq).
  - exists resp', version. split; [done|]. split; [done|]. rewrite E3. unfold entry_json. by rewrite Ev, Eve, Ei.
Qed.

(** ** Witnesses *)

Section ClientExamples.
#[local] Existing Instance RefJson.
#[local] Existing Instance RefCrypto.
#[local] Existing Instance RefHash.
#[local] Open Scope Z_scope.

#[local] Abbreviation ex_now := 1000000000000.
Definition ex_client_token : string :=
  match GenerateHS256Token ex_validator (mkJwtClaims "alice" "orcdb" ["read"; "write"] 1000 900 "id") with Ok t => t | Throw _ => "" end.
Definition ex_headers : gmap string string := {["authorization" := "Bearer " +:+ ex_client_token]}.
Definition ex_client_put : HttpRequest := mkHttpRequest "PUT" "/v1/kv/k" "HTTP/1.1" ex_headers (dumped (jobj [("value", JStr "v")])) ∅ ∅.
Definition ex_client_get : HttpRequest := mkHttpRequest "GET" "/v1/kv/k" "HTTP/1.1" ex_headers "" ∅ ∅.
Definition ex_client_cas : HttpRequest :=
  mkHttpRequest "POST" "/v1/kv/k/cas" "HTTP/1.1" ex_headers (dumped (jobj [("expected", JStr "v"); ("value", JStr "w")])) ∅ ∅.

(** While the PUT waits, the cluster goes from [ex_taken] to [ex_acked]. *)
Definition ex_wait : Env := mkEnv (fun _ => node_of "n1" ex_acked) (fun _ n => (n, [], [])).

(** What the server of a node does and answers. *)
Definition ask (req : HttpRequest) (n : RaftNode) : RaftNode * Res HttpResponse := main_handler ex_wait ex_now ex_validator 0%nat "" req n.
Definition status (req : HttpRequest) (n : RaftNode) : Z := match (ask req n).2 with Ok r => statusCode r | Throw _ => 0 end.
Definition value_read (n : RaftNode) : option string := kv_value <$> Get ex_now "k" (store_ n).

Lemma ex_client_request verb role : HasRole (Validate 1000 ex_validator ex_client_token) role = true ->
  forall b, kv_request ex_validator ex_now verb role "k" (mkHttpRequest verb "/v1/kv/k" "HTTP/1.1" ex_headers b ∅ ∅).
Proof.
  intros Hr b. split; [done|done|done|done|]. exists ex_client_token. split; [by vm_compute|]. split; [by vm_compute|exact Hr].
Qed.
Lemma ex_client_reads : HasRole (Validate 1000 ex_validator ex_client_token) "read" = true.
Proof. by vm_compute. Qed.
Lemma ex_client_writes : HasRole (Validate 1000 ex_validator ex_client_token) "write" = true.
Proof. by vm_compute. Qed.
Lemma ex_put_status : exists resp, ask ex_client_put (node_of "n1" ex_led) = (node_of "n1" ex_acked, Ok resp) /\ statusCode resp = 201.
Proof. eexists. by vm_compute. Qed.
Lemma ex_put_value : put_body (body ex_client_put) "v" (-1).
Proof. exists (jobj [("value", JStr "v")]). by vm_compute. Qed.
Lemma ex_led_index : LastIndex (log_ (node_of "n1" ex_led)) + 1 = 2.
Proof. by vm_compute. Qed.

Lemma put_read_back_witness : exists resp version, ask ex_client_get (node_of "n2" ex_spread) = (node_of "n2" ex_spread, Ok resp) /\
  statusCode resp = 200 /\ parse (rs_body resp) = Ok (jobj [("key", JStr "k"); ("value", JStr "v"); ("version", JInt version); ("raft_index", JInt 2)]).
Proof.
  destruct ex_put_status as (resp & Hput & H201). destruct (put_read_back (L := RefJson_laws) ex_members ex_cfg ex_led "n1" (node_of "n1" ex_led) ex_wait ex_now ex_validator 0%nat "" ex_client_put "k" "v" resp
    ex_acked (node_of "n1" ex_acked) ex_spread "n2" (node_of "n2" ex_spread) ex_wait ex_now "" ex_client_get ex_config_ok ex_led_reachable ex_led_small ex_led_n1
    (ex_client_request "PUT" "write" ex_client_writes _) ex_put_value eq_refl Hput H201 ex_ack_term ex_acked_n1 (go_sound _ _ _ ex_acked_run)
    (go_sound _ _ _ ex_spread_run) ex_spread_n2) as (resp' & version & E1 & E2 & E3).
  - rewrite ex_spread_taken, ex_led_index. lia.
  - intros m e Hm. rewrite ex_spread_taken, ex_led_index in Hm. lia.
  - exact (ex_client_request "GET" "read" ex_client_reads _).
  - exists resp', version. split; [exact E1|]. split; [exact E2|]. rewrite ex_led_index in E3. exact E3.
Defined.

(** ** What a client can also see *)

(** A read after a write may miss it: the PUT was answered with 201, the leader
    answers a GET with the value, and another node, which has not applied the
    entry yet, with 404. *)
Example stale_read : status ex_client_get (node_of "n1" ex_acked) = 200 /\ status ex_client_get (node_of "n2" ex_acked) = 404.
Proof. by vm_compute. Qed.

(** A compare-and-swap on the leader is a step of the cluster ([st_swap]) that
    makes the replicas differ for good: both nodes have applied all entries, and
    answer with different values. *)
Example cas_diverges :
  run (mkFaults false false true) [DoSwap "n1" ex_now "k" "v" "w"] ex_spread =
    Some (set_node "n1" (ask ex_client_cas (node_of "n1" ex_spread)).1 ex_spread) /\
  status ex_client_cas (node_of "n1" ex_spread) = 200 /\ value_read (ask ex_client_cas (node_of "n1" ex_spread)).1 = Some "w" /\
  value_read (node_of "n2" ex_spread) = Some "v" /\
  lastApplied_ (ask ex_client_cas (node_of "n1" ex_spread)).1 = lastApplied_ (node_of "n2" ex_spread).
Proof. by vm_compute. Qed.
End ClientExamples.
