(* ===== verification/Metrics.v ===== *)
(** * The metrics (src/metrics/OrcMetrics.{hpp,cpp}) and their use in [main]

    Counters, gauges and histograms, the registry, and the text of [Collect];
    the apply callback, the request counter and the periodic update of
    [main].  A [double] is a binary64 number of the Standard Library's
    [SpecFloat]; printing one is the default format of an output stream, six
    significant digits.

    The theorems: a histogram's buckets are the cumulative distribution of what
    was observed; the metrics endpoint needs no token and reports the request
    that asks; the counters of the apply loop count what it applied. *)
From S2P Require Import Prelude CxxString CxxMap Json KVStore RaftRPC RaftLog RaftNode RaftReplication Http Router Auth Api.
From Stdlib Require Import ZArith Lia Ascii String SpecFloat.
From stdpp Require Import prelude strings.
#[local] Open Scope Z_scope.

(** ** Doubles *)

Definition double : Type := spec_float.

Definition dbl_of_Z (z : Z) : double := binary_normalize 53 1024 z 0 false.
Definition dbl_add : double -> double -> double := SFadd 53 1024.
Definition dbl_mul : double -> double -> double := SFmul 53 1024.
Definition dbl_div : double -> double -> double := SFdiv 53 1024.
Definition dbl_le : double -> double -> bool := SFleb.

(** The conversion to an integer truncates; a value outside the target's range,
    an infinity or a NaN is undefined behaviour, [None]. *)
Definition dbl_to_int (lo hi : Z) (d : double) : option Z :=
  match d with
  | S754_zero _ => Some 0
  | S754_finite s m e =>
      let z := float_trunc (cond_Zopp s (Zpos m)) e in
      if (lo <=? z) && (z <=? hi) then Some z else None
  | _ => None
  end.

Definition dbl_to_u64 : double -> option Z := dbl_to_int 0 (2 ^ 64 - 1).
Definition dbl_to_i64 : double -> option Z := dbl_to_int (- 2 ^ 63) (2 ^ 63 - 1).

(** [n / d] to the nearest integer, ties to even. *)
Definition round_half_even (n d : Z) : Z :=
  let q := n / d in
  match 2 * (n mod d) ?= d with
  | Lt => q
  | Gt => q + 1
  | Eq => if Z.even q then q else q + 1
  end.

(** The [k] with [10^k <= n / d < 10^(k+1)]. *)
Fixpoint neg_log10 (fuel : nat) (n d : Z) : Z :=
  match fuel with
  | O => 0
  | S fuel' => if d <=? n then 0 else neg_log10 fuel' (10 * n) d - 1
  end.

Definition log10 (n d : Z) : Z :=
  if d <=? n then Z.of_nat (ndigits 400 (n / d)) - 1
  else neg_log10 (Z.to_nat (Z.log2 d + 1)) n d.

(** Digits without the zeros at their end. *)
Fixpoint strip0 (s : string) : string :=
  match s with
  | EmptyString => EmptyString
  | String a r =>
      match strip0 r with
      | EmptyString => if chr a =? 48 then EmptyString else String a EmptyString
      | r' => String a r'
      end
  end.

(** A fraction behind its point, neither if it is zero. *)
Definition frac (s : string) : string :=
  match strip0 s with EmptyString => EmptyString | s' => String "." s' end.

(** [%g] for a positive [n / d]: [r] holds the six digits, [x] the exponent. *)
Definition fmt_pos (n d : Z) : string :=
  let x0 := log10 n d in
  let r0 := if x0 <=? 5 then round_half_even (n * 10 ^ (5 - x0)) d else round_half_even n (d * 10 ^ (x0 - 5)) in
  let '(r, x) := if r0 =? 10 ^ 6 then (10 ^ 5, x0 + 1) else (r0, x0) in
  if (x <? -4) || (6 <=? x) then
    let s := dec_pad 6 r in
    let ax := Z.abs x in
    let e := if x <? 0 then "e-"%string else "e+"%string in
    (str_take 1 s +:+ frac (str_drop 1 s) +:+ e +:+ dec_pad (Nat.max 2 (ndigits 3 ax)) ax)%string
  else
    let s := dec_pad (Z.to_nat (6 + Z.max 0 (- x))) r in
    let k := Z.to_nat (1 + Z.max 0 x) in
    (str_take k s +:+ frac (str_drop k s))%string.

(** [os << d] *)
Definition fmt_double (v : double) : string :=
  match v with
  | S754_nan => "nan"
  | S754_infinity s => if s then "-inf" else "inf"
  | S754_zero s => if s then "-0" else "0"
  | S754_finite s m e =>
      let t := if 0 <=? e then fmt_pos (Zpos m * 2 ^ e) 1 else fmt_pos (Zpos m) (2 ^ (- e)) in
      if s then String "-" t else t
  end.

Example fmt_double_examples :
  fmt_double (dbl_of_Z 250) = "250" /\ fmt_double (dbl_of_Z 1234567) = "1.23457e+06" /\
  fmt_double (dbl_of_Z 999999) = "999999" /\ fmt_double (dbl_of_Z (- 9999995)) = "-1e+07" /\
  fmt_double (dbl_div (dbl_of_Z 1) (dbl_of_Z 1000)) = "0.001" /\
  fmt_double (dbl_div (dbl_of_Z 1) (dbl_of_Z 3)) = "0.333333" /\
  fmt_double (dbl_div (dbl_of_Z 1) (dbl_of_Z 30000)) = "3.33333e-05" /\
  fmt_double (dbl_div (dbl_of_Z 1234565) (dbl_of_Z 1000)) = "1234.57" /\
  fmt_double (dbl_div (dbl_of_Z 1500) (dbl_of_Z 1000)) = "1.5".
Proof. vm_compute. split_and!; reflexivity. Qed.

(** ** Primitives *)

Definition NL : string := String "010" "".

Definition meta (name help kind : string) : string :=
  ("# HELP " +:+ name +:+ " " +:+ help +:+ NL +:+ "# TYPE " +:+ name +:+ " " +:+ kind +:+ NL)%string.

Record Counter := mkCounter { c_name : string; c_help : string; c_value : Z }.

Definition Counter_new (name help : string) : Counter := mkCounter name help 0.

Definition Counter_Inc (v : double) (c : Counter) : option Counter :=
  k ← dbl_to_u64 v; Some (mkCounter (c_name c) (c_help c) (u64 (c_value c + k))).

Definition Counter_Value (c : Counter) : Z := c_value c.

Definition Counter_Emit (c : Counter) : string :=
  (meta (c_name c) (c_help c) "counter" +:+ c_name c +:+ " " +:+ to_string (c_value c) +:+ NL)%string.

(** A gauge holds thousandths. *)
Record Gauge := mkGauge { g_name : string; g_help : string; g_value : Z }.

Definition Gauge_new (name help : string) : Gauge := mkGauge name help 0.

Definition milli (v : double) : option Z := dbl_to_i64 (dbl_mul v (dbl_of_Z 1000)).

Definition Gauge_Set (v : double) (g : Gauge) : option Gauge :=
  k ← milli v; Some (mkGauge (g_name g) (g_help g) k).
Definition Gauge_Inc (v : double) (g : Gauge) : option Gauge :=
  k ← milli v; Some (mkGauge (g_name g) (g_help g) (i64 (g_value g + k))).
Definition Gauge_Dec (v : double) (g : Gauge) : option Gauge :=
  k ← milli v; Some (mkGauge (g_name g) (g_help g) (i64 (g_value g - k))).

Definition Gauge_Value (g : Gauge) : double := dbl_div (dbl_of_Z (g_value g)) (dbl_of_Z 1000).

Definition Gauge_Emit (g : Gauge) : string :=
  (meta (g_name g) (g_help g) "gauge" +:+ g_name g +:+ " " +:+ fmt_double (Gauge_Value g) +:+ NL)%string.

(** [counts_] is the counts of the buckets and, last, the one of infinity. *)
Record Histogram := mkHistogram {
  h_name : string;
  h_help : string;
  buckets_ : list double;
  counts_ : list Z;
  sum_ : double;
  count_ : Z;
}.

Definition Histogram_new (name help : string) (buckets : list double) : Histogram :=
  mkHistogram name help buckets (replicate (length buckets + 1) 0) (dbl_of_Z 0) 0.

(** The loop over the buckets and [++counts_.back()]. *)
Fixpoint observe_counts (v : double) (buckets : list double) (counts : list Z) : list Z :=
  match buckets, counts with
  | b :: bs, c :: cs => (if dbl_le v b then u64 (c + 1) else c) :: observe_counts v bs cs
  | [], [c] => [u64 (c + 1)]
  | _, _ => counts
  end.

Definition Histogram_Observe (v : double) (h : Histogram) : Histogram :=
  mkHistogram (h_name h) (h_help h) (buckets_ h) (observe_counts v (buckets_ h) (counts_ h))
    (dbl_add (sum_ h) v) (u64 (count_ h + 1)).

Definition QUOTE : string := String "034" "".

Definition bucket_line (name le : string) (c : Z) : string :=
  (name +:+ "_bucket{le=" +:+ QUOTE +:+ le +:+ QUOTE +:+ "} " +:+ to_string c +:+ NL)%string.

Definition Histogram_Emit (h : Histogram) : string :=
  let n := h_name h in
  (meta n (h_help h) "histogram"
   +:+ String.concat "" (zip_with (fun b c => bucket_line n (fmt_double b) c) (buckets_ h) (counts_ h))
   +:+ bucket_line n "+Inf" (List.last (counts_ h) 0)
   +:+ n +:+ "_sum " +:+ fmt_double (sum_ h) +:+ NL
   +:+ n +:+ "_count " +:+ to_string (count_ h) +:+ NL)%string.

(** ** The registry *)

Record OrcMetrics := mkOrcMetrics {
  raftElectionsTotal_ : Counter;
  raftCurrentTerm_ : Gauge;
  raftIsLeader_ : Gauge;
  raftCommittedEntries_ : Counter;
  raftReplicationLatency_ : Histogram;
  httpRequestsTotal_ : Counter;
  httpRequestDuration_ : Histogram;
  activeConnections_ : Gauge;
  kvPuts_ : Counter;
  kvGets_ : Counter;
  kvDeletes_ : Counter;
  kvStoreSize_ : Gauge;
  walBytesWritten_ : Counter;
}.

Definition OrcMetrics_new : OrcMetrics := {|
  raftElectionsTotal_ := Counter_new "orcdb_raft_elections_total" "Total Raft elections started";
  raftCurrentTerm_ := Gauge_new "orcdb_raft_current_term" "Current Raft term";
  raftIsLeader_ := Gauge_new "orcdb_raft_is_leader" "1 if this node is the Raft leader";
  raftCommittedEntries_ := Counter_new "orcdb_raft_committed_entries_total" "Total committed log entries";
  raftReplicationLatency_ := Histogram_new "orcdb_raft_replication_latency_ms" "AppendEntries round-trip latency in ms"
    (dbl_of_Z <$> [1; 5; 10; 25; 50; 100; 250; 500]);
  httpRequestsTotal_ := Counter_new "orcdb_http_requests_total" "Total HTTP requests";
  httpRequestDuration_ := Histogram_new "orcdb_http_request_duration_ms" "HTTP request duration in ms"
    (dbl_of_Z <$> [1; 5; 10; 25; 50; 100; 250; 500; 1000]);
  activeConnections_ := Gauge_new "orcdb_active_connections" "Active TCP connections";
  kvPuts_ := Counter_new "orcdb_kv_puts_total" "Total KV put operations";
  kvGets_ := Counter_new "orcdb_kv_gets_total" "Total KV get operations";
  kvDeletes_ := Counter_new "orcdb_kv_deletes_total" "Total KV delete operations";
  kvStoreSize_ := Gauge_new "orcdb_kv_store_size" "Number of keys in the KV store";
  walBytesWritten_ := Counter_new "orcdb_wal_bytes_written_total" "Bytes written to WAL";
|}.

Definition Collect (m : OrcMetrics) : string :=
  (Counter_Emit (raftElectionsTotal_ m)
   +:+ Gauge_Emit (raftCurrentTerm_ m)
   +:+ Gauge_Emit (raftIsLeader_ m)
   +:+ Counter_Emit (raftCommittedEntries_ m)
   +:+ Histogram_Emit (raftReplicationLatency_ m)
   +:+ Counter_Emit (httpRequestsTotal_ m)
   +:+ Histogram_Emit (httpRequestDuration_ m)
   +:+ Gauge_Emit (activeConnections_ m)
   +:+ Counter_Emit (kvPuts_ m)
   +:+ Counter_Emit (kvGets_ m)
   +:+ Counter_Emit (kvDeletes_ m)
   +:+ Gauge_Emit (kvStoreSize_ m)
   +:+ Counter_Emit (walBytesWritten_ m))%string.

(** ** Updates in [main] *)

(** [Inc()] with its default argument: 1.0 converts to 1. *)
Definition inc (c : Counter) : Counter := default c (Counter_Inc (dbl_of_Z 1) c).

Lemma Counter_Inc_default c : Counter_Inc (dbl_of_Z 1) c = Some (inc c).
Proof. reflexivity. Qed.

(** The callback of [SetApplyCallback]. *)
Definition main_applyCallback (e : LogEntry) (m : OrcMetrics) : OrcMetrics :=
  mkOrcMetrics (raftElectionsTotal_ m) (raftCurrentTerm_ m) (raftIsLeader_ m)
    (inc (raftCommittedEntries_ m)) (raftReplicationLatency_ m)
    (httpRequestsTotal_ m) (httpRequestDuration_ m) (activeConnections_ m)
    (if bool_decide (le_opType e = OpPut) then inc (kvPuts_ m) else kvPuts_ m)
    (kvGets_ m)
    (if bool_decide (le_opType e = OpDelete) then inc (kvDeletes_ m) else kvDeletes_ m)
    (kvStoreSize_ m) (walBytesWritten_ m).

Definition main_count_request (m : OrcMetrics) : OrcMetrics :=
  mkOrcMetrics (raftElectionsTotal_ m) (raftCurrentTerm_ m) (raftIsLeader_ m) (raftCommittedEntries_ m) (raftReplicationLatency_ m)
    (inc (httpRequestsTotal_ m)) (httpRequestDuration_ m) (activeConnections_ m)
    (kvPuts_ m) (kvGets_ m) (kvDeletes_ m) (kvStoreSize_ m) (walBytesWritten_ m).

(** One turn of [main]'s loop; [connections] is the server's count. *)
Definition main_update (n : RaftNode) (connections : Z) (m : OrcMetrics) : option OrcMetrics :=
  term ← Gauge_Set (dbl_of_Z (GetCurrentTerm n)) (raftCurrentTerm_ m);
  leader ← Gauge_Set (dbl_of_Z (if IsLeader n then 1 else 0)) (raftIsLeader_ m);
  size ← Gauge_Set (dbl_of_Z (KVStore.Size (store_ n))) (kvStoreSize_ m);
  conns ← Gauge_Set (dbl_of_Z connections) (activeConnections_ m);
  Some (mkOrcMetrics (raftElectionsTotal_ m) term leader (raftCommittedEntries_ m) (raftReplicationLatency_ m)
    (httpRequestsTotal_ m) (httpRequestDuration_ m) conns (kvPuts_ m) (kvGets_ m) (kvDeletes_ m) size (walBytesWritten_ m)).

(** The server's request handler with the metrics it counts and reports. *)
Definition main_serve `{JsonLib} `{Crypto} `{HashOrder} (env : Env) (now : Z) (v : JwtValidator) (cb : WatchCallback)
    (req : HttpRequest) (s : OrcMetrics * RaftNode) : (OrcMetrics * RaftNode) * Res HttpResponse :=
  let m := main_count_request s.1 in
  let '(n, r) := main_handler env now v cb (Collect m) req s.2 in ((m, n), r).

(** A turn of the apply loop, with the callback. *)
Definition ApplyLoop_turn_counted (now : Z) (s : OrcMetrics * RaftNode) : option (OrcMetrics * RaftNode) :=
  match ApplyLoop_fetch s.2 with
  | None => None
  | Some (next, e) =>
      let '(st, _, called) := ApplyEntry now e (store_ s.2) in
      Some (if called then main_applyCallback e s.1 else s.1, ApplyLoop_finish next (set_store st s.2))
  end.

Fixpoint ApplyLoop_counted (fuel : nat) (now : Z) (s : OrcMetrics * RaftNode) : OrcMetrics * RaftNode :=
  match fuel with
  | O => s
  | S fuel' => match ApplyLoop_turn_counted now s with Some s' => ApplyLoop_counted fuel' now s' | None => s end
  end.

(** ** Histograms *)

(** The number of observations up to a bound. *)
Definition below (b : double) (vs : list double) : Z := len (List.filter (fun v => dbl_le v b) vs).

Lemma below_snoc b vs v : below b (vs ++ [v]) = below b vs + (if dbl_le v b then 1 else 0).
Proof. unfold below, len. rewrite List.filter_app, length_app. simpl. destruct (dbl_le v b); simpl; lia. Qed.

Lemma below_le b vs : 0 <= below b vs <= len vs.
Proof. unfold below, len. pose proof (List.filter_length_le (fun v => dbl_le v b) vs). lia. Qed.

Lemma observe_counts_snoc v vs : len vs + 1 < 2 ^ 64 -> forall buckets,
  observe_counts v buckets (((fun b => below b vs) <$> buckets) ++ [len vs]) =
  ((fun b => below b (vs ++ [v])) <$> buckets) ++ [len (vs ++ [v])].
Proof.
  intros Hl. assert (0 <= len vs) by (unfold len; lia).
  induction buckets as [|b bs IH]; cbn [fmap list_fmap app observe_counts].
  - unfold len in *. rewrite length_app. cbn [length]. f_equal. rewrite u64_small by (split; lia). lia.
  - rewrite IH, below_snoc. f_equal. pose proof (below_le b vs). destruct (dbl_le v b); [apply u64_small; split|]; lia.
Qed.

(** The counts of a histogram are the cumulative distribution of what was
    observed: under every bound the number of observations up to it, and last,
    for infinity, the number of all of them, which is also the total.  (Fewer
    than 2^64 observations.) *)
Theorem Histogram_cumulative name help buckets vs : len vs < 2 ^ 64 ->
  let h := fold_left (fun h v => Histogram_Observe v h) vs (Histogram_new name help buckets) in
  buckets_ h = buckets /\ counts_ h = ((fun b => below b vs) <$> buckets) ++ [len vs] /\ count_ h = len vs.
Proof.
  induction vs as [|v vs IH] using rev_ind; intros Hl.
  - cbn. split; [done|]. split; [|done]. induction buckets as [|b bs IHb]; [done|]. cbn. by rewrite IHb.
  - assert (len (vs ++ [v]) = len vs + 1) as El by (unfold len; rewrite length_app; cbn [length]; lia).
    rewrite fold_left_app. destruct (IH ltac:(lia)) as (Hb & Hc & Hn). cbn [fold_left Histogram_Observe buckets_ counts_ count_].
    rewrite Hb, Hc, Hn, observe_counts_snoc by lia. split_and!; try done.
    rewrite El. apply u64_small. split; unfold len in *; lia.
Qed.

(** ** Counting what is applied *)

(** Whether the apply loop reports an entry. *)
Definition reported (e : LogEntry) : bool := negb (bool_decide (le_opType e = OpNoOp)).
Definition is_put (e : LogEntry) : bool := bool_decide (le_opType e = OpPut).
Definition is_delete (e : LogEntry) : bool := bool_decide (le_opType e = OpDelete).

Definition count (p : LogEntry -> bool) (es : list LogEntry) : Z := len (List.filter p es).

Definition report (m : OrcMetrics) (e : LogEntry) : OrcMetrics := if reported e then main_applyCallback e m else m.

Lemma ApplyEntry_called now e s : (ApplyEntry now e s).2 = reported e.
Proof. unfold ApplyEntry, reported. destruct (le_opType e); try done; by repeat case_match. Qed.

Lemma ApplyLoop_counted_node fuel now m n : (ApplyLoop_counted fuel now (m, n)).2 = ApplyLoop_inner fuel now n.
Proof.
  revert m n. induction fuel as [|fuel IH]; intros m n; [done|]. cbn [ApplyLoop_counted ApplyLoop_inner].
  unfold ApplyLoop_turn_counted, ApplyLoop_turn. cbn [fst snd]. destruct (ApplyLoop_fetch n) as [[next e]|]; [|done].
  destruct (ApplyEntry now e (store_ n)) as [[st ns] called]. apply IH.
Qed.

Lemma ApplyLoop_counted_metrics now n : log_wf (log_ n) -> commitIndex_ n <= LastIndex (log_ n) ->
  forall fuel a s m, snapshotIndex_ (log_ n) <= a -> a + Z.of_nat fuel = commitIndex_ n ->
  (ApplyLoop_counted fuel now (m, set_applied a (set_store s n))).1 =
  fold_left report (take fuel (drop (Z.to_nat (a + 1 - snapshotIndex_ (log_ n))) (entries_ (log_ n)))) m.
Proof.
  intros W Hc. pose proof (wf_snap _ W). pose proof (wf_bound _ W). pose proof (LastIndex_wf _ W).
  induction fuel as [|fuel IH]; intros a s m Ha Hf; [done|]. cbn [ApplyLoop_counted].
  unfold ApplyLoop_turn_counted, ApplyLoop_fetch. cbn [fst snd lastApplied_ commitIndex_ log_ set_applied set_store store_].
  destruct (a <? commitIndex_ n) eqn:E; bool_prop; [|lia]. rewrite u64_small by (unfold is_u64; lia).
  rewrite GetEntry_lookup by (try done; unfold is_u64; lia).
  destruct (proj2 (log_lookup_Some _ (a + 1) W) ltac:(lia)) as [e He]. rewrite He.
  cbn [of_opt]. unfold log_lookup in He. case_if_in He; [|lia]. rewrite (drop_S _ e) by exact He. cbn [firstn fold_left].
  pose proof (ApplyEntry_called now e s) as Hcd. destruct (ApplyEntry now e s) as [[s' ns] called]. cbn in Hcd. subst called.
  change (ApplyLoop_finish (a + 1) (set_store s' (set_applied a (set_store s n)))) with (set_applied (a + 1) (set_store s' n)).
  rewrite IH by lia. fold (report m e). do 3 f_equal. lia.
Qed.

Lemma inc_value c k : u64 (c_value (inc c) + k) = u64 (c_value c + (k + 1)).
Proof. change (c_value (inc c)) with (u64 (c_value c + 1)). unfold u64. rewrite Z.add_mod_idemp_l by lia. f_equal. lia. Qed.

Lemma count_cons p e es : count p (e :: es) = count p es + (if p e then 1 else 0).
Proof. unfold count, len. simpl. destruct (p e); simpl; lia. Qed.

(** A counter that one kind of entry raises. *)
Lemma fold_report_value (get : OrcMetrics -> Counter) (p : LogEntry -> bool) es :
  (forall e m, get (report m e) = if p e then inc (get m) else get m) ->
  forall m, is_u64 (c_value (get m)) -> c_value (get (fold_left report es m)) = u64 (c_value (get m) + count p es).
Proof.
  intros Hp. induction es as [|e es IH]; intros m Hm; cbn [fold_left].
  - change (count p []) with 0. by rewrite Z.add_0_r, u64_small.
  - rewrite IH.
    + rewrite Hp, count_cons. destruct (p e); [by rewrite inc_value|by rewrite Z.add_0_r].
    + rewrite Hp. destruct (p e); [apply u64_range|done].
Qed.

Lemma report_kinds e m :
  raftCommittedEntries_ (report m e) = (if reported e then inc (raftCommittedEntries_ m) else raftCommittedEntries_ m) /\
  kvPuts_ (report m e) = (if is_put e then inc (kvPuts_ m) else kvPuts_ m) /\
  kvDeletes_ (report m e) = (if is_delete e then inc (kvDeletes_ m) else kvDeletes_ m).
Proof. unfold report, reported, is_put, is_delete. unfold main_applyCallback.
  destruct (le_opType e) eqn:E; cbn; rewrite ?E; done.
Qed.

(** The counters of the apply loop.  With its callback the loop does to the
    node what it does without, and raises the counters by the entries it
    applied: the committed entries by those that are not no-ops, the puts and
    the deletes by their kinds, all modulo 2^64.  The other metrics, the
    elections, the reads, the bytes written and the two latency histograms among
    them, stay as they were. *)
Theorem applied_are_counted now m n : log_wf (log_ n) ->
  SnapshotIndex (log_ n) <= lastApplied_ n <= commitIndex_ n -> commitIndex_ n <= LastIndex (log_ n) ->
  is_u64 (c_value (raftCommittedEntries_ m)) -> is_u64 (c_value (kvPuts_ m)) -> is_u64 (c_value (kvDeletes_ m)) ->
  let es := GetEntries (log_ n) (lastApplied_ n + 1) (commitIndex_ n + 1) in
  let fuel := Z.to_nat (commitIndex_ n - lastApplied_ n) in
  let '(m', n') := ApplyLoop_counted fuel now (m, n) in
  n' = ApplyLoop_inner fuel now n /\
  c_value (raftCommittedEntries_ m') = u64 (c_value (raftCommittedEntries_ m) + count reported es) /\
  c_value (kvPuts_ m') = u64 (c_value (kvPuts_ m) + count is_put es) /\
  c_value (kvDeletes_ m') = u64 (c_value (kvDeletes_ m) + count is_delete es) /\
  m' = mkOrcMetrics (raftElectionsTotal_ m) (raftCurrentTerm_ m) (raftIsLeader_ m) (raftCommittedEntries_ m')
    (raftReplicationLatency_ m) (httpRequestsTotal_ m) (httpRequestDuration_ m) (activeConnections_ m)
    (kvPuts_ m') (kvGets_ m) (kvDeletes_ m') (kvStoreSize_ m) (walBytesWritten_ m).
Proof.
  intros W Ha Hc H1 H2 H3 es fuel. unfold SnapshotIndex in Ha.
  pose proof (ApplyLoop_counted_node fuel now m n) as Hn.
  assert ((ApplyLoop_counted fuel now (m, n)).1 = fold_left report es m) as Hm.
  { unfold es. rewrite (GetEntries_committed n W Ha Hc). fold fuel.
    rewrite <- (ApplyLoop_counted_metrics now n W Hc fuel (lastApplied_ n) (store_ n)) by (unfold fuel; lia). by destruct n. }
  destruct (ApplyLoop_counted fuel now (m, n)) as [m' n']. cbn [fst snd] in *. subst n' m'.
  split; [done|]. split_and!; try (by apply fold_report_value; [intros e m0; apply report_kinds|]).
  clearbody es. clear. revert m. induction es as [|e es IH]; intros m; cbn [fold_left]; [by destruct m|].
  specialize (IH (report m e)). set (x := fold_left report es (report m e)) in *. clearbody x. rewrite IH at 1.
  unfold report. by destruct (reported e).
Qed.

(** ** The endpoint *)

Section Endpoint.
Context {J : JsonLib} {C : Crypto} {HO : HashOrder} (env : Env).

Lemma dispatch_nomatch (r : Route RaftNode) rs req auth :
  MatchRoute r (path req) = None -> dispatch_routes (r :: rs) req auth = dispatch_routes rs req auth.
Proof. intros E. cbn [dispatch_routes]. rewrite E. by destruct (_ && _). Qed.

(** A GET of "/metrics" needs no token: it is answered with the text of the
    metrics, which already count it, and does nothing to the node. *)
Theorem metrics_endpoint now v cb req m n : method req = "GET" -> path req = "/metrics" ->
  main_serve env now v cb req (m, n) =
  ((main_count_request m, n),
   Ok (HttpOk (Collect (main_count_request m)) "text/plain; version=0.0.4; charset=utf-8")).
Proof.
  intros Hm Hp. unfold main_serve, main_handler, Dispatch. cbn [fst snd]. rewrite main_router_middleware.
  set (text := Collect (main_count_request m)). clearbody text.
  assert (MakeMiddleware (Z.quot now 1000000000) (AuthMiddleware_new v TokenStore_new) req AuthContext_new =
    Ok (None, mkAuthContext true "" "" [])) as -> by (unfold MakeMiddleware; by rewrite Hp).
  rewrite bind_lift_Ok.
  unfold main_router, MetricsHandler_RegisterRoutes, ClusterHandler_RegisterRoutes, WatchHandler_RegisterRoutes,
    KVHandler_RegisterRoutes, HealthHandler_RegisterRoutes. rewrite !AddRoute_routes.
  cbn [app SetAuthMiddleware routes_ Router_new].
  do 10 rewrite dispatch_nomatch by (rewrite Hp; vm_compute; reflexivity).
  cbn [dispatch_routes rt_method]. rewrite Hm, Hp. reflexivity.
Qed.
End Endpoint.

(** A gauge is printed with six digits: the term 1234567 is reported as 1234570. *)
Example gauge_six_digits :
  Gauge_Emit <$> Gauge_Set (dbl_of_Z 1234567) (raftCurrentTerm_ OrcMetrics_new) =
  Some (meta "orcdb_raft_current_term" "Current Raft term" "gauge" +:+ "orcdb_raft_current_term 1.23457e+06" +:+ NL)%string.
Proof. by vm_compute. Qed.
