(* ===== verification/TcpServer.v ===== *)
(** * The HTTP server (src/network/TcpServer.{hpp,cpp}, src/network/TcpConnection.hpp)

    The connections of the server and what it does when a connection arrives
    and when [epoll_wait] reports one.  The kernel's side is an argument: what
    the successive [recv] and [send] calls of an event return.  The listening
    socket, the descriptors and the threads are in [TcpLifecycle]; here the events
    of one I/O thread are handled one after the other, and a connection belongs
    to one thread.  [sent] records the bytes the kernel accepted.

    The theorems: the response to a request on a connection that is kept alive
    is written out completely; one on a connection that is not is never
    written; and a client can end the process. *)
From S2P Require Import Prelude CxxString CxxMap Json Http.
From Stdlib Require Import ZArith Lia Ascii String.
From stdpp Require Import prelude gmap strings.
#[local] Open Scope Z_scope.

Record TcpConnection := mkTcpConnection {
  parser : HttpParser;
  writeBuf : string;
  markedClose : bool;
  epollOut : bool; (* registered for EPOLLOUT *)
  sent : string;
}.

Definition TcpConnection_new : TcpConnection := mkTcpConnection HttpParser_new "" false false "".

Definition set_parser (p : HttpParser) (c : TcpConnection) : TcpConnection :=
  mkTcpConnection p (writeBuf c) (markedClose c) (epollOut c) (sent c).
Definition mark_close (c : TcpConnection) : TcpConnection :=
  mkTcpConnection (parser c) (writeBuf c) true (epollOut c) (sent c).
Definition set_epollOut (c : TcpConnection) : TcpConnection :=
  mkTcpConnection (parser c) (writeBuf c) (markedClose c) true (sent c).

Definition QueueWrite (data : string) (c : TcpConnection) : TcpConnection :=
  mkTcpConnection (parser c) (writeBuf c +:+ data)%string (markedClose c) (epollOut c) (sent c).

Definition HasPendingWrite (c : TcpConnection) : bool := negb (String.eqb (writeBuf c) "").

(** What a [recv] returns; the list of an event ends with [EAGAIN]. *)
Inductive RecvResult : Type := Recv (data : string) | RecvEof | RecvError.

(** What a [send] returns: a number of bytes, at most as many as were offered,
    [EAGAIN], or another error. *)
Inductive SendResult : Type := Sent (n : nat) | SendAgain | SendError.

(** An entry of the array [epoll_wait] fills. *)
Record IoEvent := mkIoEvent {
  ev_fd : Z;
  ev_error : bool; (* EPOLLERR | EPOLLHUP *)
  ev_in : option (list RecvResult);
  ev_out : option (list SendResult);
}.

(** The server with the state [S] of its request handler. *)
Record TcpServer (S : Type) := mkTcpServer {
  connections_ : gmap Z TcpConnection;
  nextThread_ : Z;
  totalConnections_ : Z;
  app : S;
}.
Arguments mkTcpServer {S} _ _ _ _.
Arguments connections_ {S} _.
Arguments nextThread_ {S} _.
Arguments totalConnections_ {S} _.
Arguments app {S} _.

Section Server.
Context `{HashOrder} {S : Type} (handler_ : HttpRequest -> M S HttpResponse).

(** One [Feed]; a complete request is handled and its response queued. *)
Definition handle_bytes (data : string) : M (TcpConnection * S) unit := fun '(c, s) =>
  match Feed data (parser c) with
  | (p, Throw e) => ((set_parser p c, s), Throw e)
  | (p, Ok Complete) =>
      let c1 := set_parser (TakeRequest p).1 c in
      let req := current_ p in
      match handler_ req s with
      | (s', Throw e) => ((c1, s'), Throw e)
      | (s', Ok response) =>
          let keepAlive := IsKeepAlive req && negb (markedClose c1) in
          let c2 := QueueWrite (Serialise keepAlive response) c1 in
          let c3 := if keepAlive then c2 else mark_close c2 in
          ((set_epollOut c3, s'), Ok tt)
      end
  | (p, Ok _) => ((set_parser p c, s), Ok tt)
  end.

Fixpoint HandleRead (rs : list RecvResult) : M (TcpConnection * S) unit :=
  match rs with
  | [] => mret tt
  | Recv data :: rs' => handle_bytes data;; HandleRead rs'
  | (RecvEof | RecvError) :: _ => modify (fun '(c, s) => (mark_close c, s))
  end.

Fixpoint HandleWrite (ss : list SendResult) (c : TcpConnection) : TcpConnection :=
  if String.eqb (writeBuf c) "" then c
  else
    match ss with
    | Sent (Datatypes.S n' as n) :: ss' =>
        HandleWrite ss' (mkTcpConnection (parser c) (str_drop n (writeBuf c)) (markedClose c) (epollOut c)
          (sent c +:+ str_take n (writeBuf c))%string)
    | [] | SendAgain :: _ => c
    | (Sent O | SendError) :: _ => mark_close c
    end.

(** The reaction to one event: the connection and whether it is closed. *)
Definition handle_event (ev : IoEvent) : M (TcpConnection * S) bool :=
  if ev_error ev then mret true
  else
    (match ev_in ev with Some rs => HandleRead rs | None => mret tt end);;
    cs ← getS;
    let shouldClose := match ev_in ev with Some _ => markedClose cs.1 | None => false end in
    match ev_out ev with
    | Some ss =>
        if negb shouldClose then
          modify (fun '(c, s) => (HandleWrite ss c, s));;
          cs ← getS;
          mret (markedClose cs.1 && negb (HasPendingWrite cs.1))
        else mret shouldClose
    | None => mret shouldClose
    end.

(** One turn of the loop over the events.  An exception leaves the thread's
    function, which ends the process. *)
Definition IoLoop_event (ev : IoEvent) : M (TcpServer S) unit := fun srv =>
  match connections_ srv !! ev_fd ev with
  | None => (srv, Ok tt)
  | Some c =>
      match handle_event ev (c, app srv) with
      | ((c', s'), Ok close) =>
          (mkTcpServer (if close : bool then delete (ev_fd ev) (connections_ srv) else <[ev_fd ev := c']> (connections_ srv))
             (nextThread_ srv) (totalConnections_ srv) s', Ok tt)
      | ((c', s'), Throw _) =>
          (mkTcpServer (<[ev_fd ev := c']> (connections_ srv)) (nextThread_ srv) (totalConnections_ srv) s', Throw terminate)
      end
  end.

Fixpoint IoLoop (evs : list IoEvent) : M (TcpServer S) unit :=
  match evs with
  | [] => mret tt
  | ev :: evs' => IoLoop_event ev;; IoLoop evs'
  end.

(** [nextThread_.fetch_add(1) % config_.numIoThreads] on [int]s. *)
Definition next_thread (numIoThreads : Z) (srv : TcpServer S) : Z := Z.rem (nextThread_ srv) numIoThreads.

Definition i32 (z : Z) : Z := (z + 2 ^ 31) mod 2 ^ 32 - 2 ^ 31.

(** One accepted connection: its place in the map and the turn of its thread, and,
    after [epoll_ctl], the count. *)
Definition AcceptLoop_insert (fd : Z) (srv : TcpServer S) : TcpServer S :=
  mkTcpServer (<[fd := TcpConnection_new]> (connections_ srv)) (i32 (nextThread_ srv + 1)) (totalConnections_ srv) (app srv).
Definition AcceptLoop_count (srv : TcpServer S) : TcpServer S :=
  mkTcpServer (connections_ srv) (nextThread_ srv) (u64 (totalConnections_ srv + 1)) (app srv).

Definition ActiveConnections (srv : TcpServer S) : nat := size (connections_ srv).
End Server.

(** ** Lemmas *)

Definition positive (r : SendResult) : Prop := match r with Sent (S _) => True | _ => False end.
Definition taken (ss : list SendResult) : nat := sum_list ((fun r => match r with Sent n => n | _ => O end) <$> ss).

Lemma str_length_drop n s : String.length (str_drop n s) = (String.length s - n)%nat.
Proof. revert s. induction n as [|n IH]; intros [|a s]; simpl; done. Qed.

Lemma str_append_take_drop a n s : ((a +:+ str_take n s) +:+ str_drop n s = a +:+ s)%string.
Proof.
  rewrite str_append_assoc. f_equal. revert s. induction n as [|n IH]; intros [|b s]; try done.
  exact (f_equal (String b) (IH s)).
Qed.

(** Writing moves bytes from the buffer to the socket, in order. *)
Definition wrote (k : nat) (c c' : TcpConnection) : Prop :=
  parser c' = parser c /\ markedClose c' = markedClose c /\ epollOut c' = epollOut c /\
  (sent c' +:+ writeBuf c' = sent c +:+ writeBuf c)%string /\
  (String.length (writeBuf c') = String.length (writeBuf c) - k)%nat.

Lemma HandleWrite_run ss : forall c, Forall positive ss -> wrote (taken ss) c (HandleWrite ss c).
Proof.
  induction ss as [|r ss IH]; intros c Hp.
  - cbn [HandleWrite]. destruct (String.eqb (writeBuf c) ""); (split_and!; try done); unfold taken; simpl; lia.
  - apply Forall_cons in Hp as [Hr Hp]. destruct r as [[|n]| |]; try done. cbn [HandleWrite].
    destruct (String.eqb (writeBuf c) "") eqn:E.
    + apply String.eqb_eq in E. split_and!; try done. by rewrite E.
    + match goal with |- wrote _ _ (HandleWrite ss ?c1) => destruct (IH c1 Hp) as (E1 & E2 & E3 & E4 & E5) end.
      cbn [writeBuf sent parser markedClose epollOut] in *. split_and!; try done.
      * rewrite E4. apply str_append_take_drop.
      * rewrite E5, str_length_drop. change (taken (Sent (S n) :: ss)) with (S n + taken ss)%nat. lia.
Qed.

Section ServerLemmas.
Context {HO : HashOrder} {A : Type} (handler_ : HttpRequest -> M A HttpResponse).

(** A complete request in one read. *)
Lemma handle_bytes_request w data rest c s s' resp :
  wire_ok w = true -> ready (parser c) -> (buffer_ (parser c) +:+ data)%string = (print_request w +:+ rest)%string ->
  markedClose c = false -> handler_ (meant w) s = (s', Ok resp) ->
  exists p', ready p' /\ buffer_ p' = rest /\ let keep := IsKeepAlive (meant w) in
    handle_bytes handler_ data (c, s) =
    ((mkTcpConnection p' (writeBuf c +:+ Serialise keep resp)%string (negb keep) true (sent c), s'), Ok tt).
Proof.
  intros Hw Hr Hb Hm Hh. destruct (Feed_complete w data rest (parser c) Hw Hr Hb) as (p1 & E1 & Ec & Er & Eb).
  exists (Reset p1). split; [done|]. split; [done|]. unfold handle_bytes. rewrite E1. cbv zeta. rewrite Ec, Hh.
  cbn [markedClose set_parser]. rewrite Hm. cbn [negb]. rewrite andb_true_r.
  destruct (IsKeepAlive (meant w)); [|done]. unfold set_epollOut. cbn. by rewrite Hm.
Qed.

(** The server with one connection changed. *)
Definition with_conn (fd : Z) (c : TcpConnection) (s : A) (srv : TcpServer A) : TcpServer A :=
  mkTcpServer (<[fd := c]> (connections_ srv)) (nextThread_ srv) (totalConnections_ srv) s.

(** An EPOLLOUT event on a connection that stays. *)
Lemma IoLoop_out fd ss c s srv : Forall positive ss -> markedClose c = false ->
  exists c', IoLoop_event handler_ (mkIoEvent fd false None (Some ss)) (with_conn fd c s srv) = (with_conn fd c' s srv, Ok tt) /\
    wrote (taken ss) c c'.
Proof.
  intros Hp Hm. exists (HandleWrite ss c). pose proof (HandleWrite_run ss c Hp) as W. split; [|done].
  unfold IoLoop_event, with_conn at 1. cbn [connections_ ev_fd app]. rewrite lookup_insert_eq.
  unfold handle_event. cbn [ev_error ev_in ev_out]. rewrite bind_ret, bind_getS. cbn [negb].
  rewrite bind_modify, bind_getS. cbn [fst]. destruct W as (_ & -> & _). rewrite Hm. cbn [andb].
  unfold mret, M_ret, with_conn. cbn. by rewrite insert_insert_eq.
Qed.

Lemma IoLoop_outs fd outs : forall c s srv, Forall (Forall positive) outs -> markedClose c = false ->
  exists c', IoLoop handler_ ((fun ss => mkIoEvent fd false None (Some ss)) <$> outs) (with_conn fd c s srv) = (with_conn fd c' s srv, Ok tt) /\
    wrote (taken (mjoin outs)) c c'.
Proof.
  induction outs as [|ss outs IH]; intros c s srv Hp Hm.
  - exists c. split; [done|]. split_and!; try done. unfold taken. simpl. lia.
  - apply Forall_cons in Hp as [Hs Hp]. destruct (IoLoop_out fd ss c s srv Hs Hm) as (c1 & E1 & W1).
    destruct W1 as (A1 & A2 & A3 & A4 & A5). destruct (IH c1 s srv Hp) as (c' & E & B1 & B2 & B3 & B4 & B5); [congruence|].
    exists c'. rewrite fmap_cons. cbn [IoLoop]. rewrite (bind_run _ _ _ _ _ E1). split; [exact E|].
    split_and!; try congruence. rewrite B5, A5, mjoin_cons. unfold taken. rewrite fmap_app, sum_list_with_app. lia.
Qed.
End ServerLemmas.

(** ** Theorems *)

Section ServerTheorems.
Context {HO : HashOrder} {A : Type} (handler_ : HttpRequest -> M A HttpResponse).

(** C36: the response on a kept connection is delivered.  When a request that
    asks for the connection to be kept is completed by one [recv] on an idle
    connection, the handler runs once, on exactly that request; and then, over however many events and
    [send] calls the kernel takes the bytes, once it has offered to take as many
    as the response has, precisely the bytes of the response have been sent,
    nothing is pending, and the connection is open and ready for the next
    request. *)
Theorem response_delivered fd w data rest c srv s' resp outs :
  connections_ srv !! fd = Some c -> ready (parser c) -> markedClose c = false -> writeBuf c = ""%string ->
  wire_ok w = true -> (buffer_ (parser c) +:+ data)%string = (print_request w +:+ rest)%string ->
  IsKeepAlive (meant w) = true -> handler_ (meant w) (app srv) = (s', Ok resp) ->
  Forall (Forall positive) outs -> (String.length (Serialise true resp) <= taken (mjoin outs))%nat ->
  exists srv' c', IoLoop handler_ (mkIoEvent fd false (Some [Recv data]) None ::
      ((fun ss => mkIoEvent fd false None (Some ss)) <$> outs)) srv = (srv', Ok tt) /\
    app srv' = s' /\ connections_ srv' !! fd = Some c' /\
    sent c' = (sent c +:+ Serialise true resp)%string /\ writeBuf c' = ""%string /\
    markedClose c' = false /\ ready (parser c') /\ buffer_ (parser c') = rest.
Proof.
  intros Hc Hr Hm Hw0 Hw Hb Hk Hh Hp Hl.
  destruct (handle_bytes_request handler_ w data rest c (app srv) s' resp Hw Hr Hb Hm Hh) as (p' & Hr' & Hb' & E).
  rewrite Hk in E. cbn [negb] in E. set (c1 := mkTcpConnection p' _ _ _ _) in E.
  assert (IoLoop_event handler_ (mkIoEvent fd false (Some [Recv data]) None) srv = (with_conn fd c1 s' srv, Ok tt)) as E1.
  { unfold IoLoop_event. cbn [ev_fd]. rewrite Hc. unfold handle_event. cbn [ev_error ev_in ev_out HandleRead].
    erewrite bind_run by (by rewrite (bind_run _ _ _ _ _ E)). by rewrite bind_getS. }
  cbn [IoLoop]. rewrite (bind_run _ _ _ _ _ E1).
  destruct (IoLoop_outs handler_ fd outs c1 s' srv Hp eq_refl) as (c' & E2 & A1 & A2 & _ & A4 & A5).
  exists (with_conn fd c' s' srv), c'. split; [exact E2|]. split; [done|]. split; [apply lookup_insert_eq|].
  unfold c1 in A4, A5. cbn [writeBuf sent] in A4, A5. rewrite Hw0, append_nil in A4, A5.
  assert (writeBuf c' = ""%string) as Hw'.
  { destruct (writeBuf c') as [|a r] eqn:Ew; [done|]. cbn [String.length] in A5. lia. }
  rewrite Hw', str_append_nil_r in A4. rewrite A1. by split_and!.
Qed.

(** No response on a connection that is not kept.  When a request arrives that
    does not ask for the connection to be kept ("Connection: close", or HTTP/1.0),
    the handler runs and its response is queued, but in reaction to the same event
    the connection is closed and dropped before a single byte is sent, also when
    the socket is reported as writable. *)
Theorem close_loses_response fd w data rest c srv s' resp out :
  connections_ srv !! fd = Some c -> ready (parser c) -> markedClose c = false ->
  wire_ok w = true -> (buffer_ (parser c) +:+ data)%string = (print_request w +:+ rest)%string ->
  IsKeepAlive (meant w) = false -> handler_ (meant w) (app srv) = (s', Ok resp) ->
  let ev := mkIoEvent fd false (Some [Recv data]) out in
  (exists c', handle_event handler_ ev (c, app srv) = ((c', s'), Ok true) /\
     sent c' = sent c /\ writeBuf c' = (writeBuf c +:+ Serialise false resp)%string) /\
  exists srv', IoLoop_event handler_ ev srv = (srv', Ok tt) /\ app srv' = s' /\ connections_ srv' !! fd = None.
Proof.
  intros Hc Hr Hm Hw Hb Hk Hh ev.
  destruct (handle_bytes_request handler_ w data rest c (app srv) s' resp Hw Hr Hb Hm Hh) as (p' & _ & _ & E).
  rewrite Hk in E. cbn [negb] in E. set (c1 := mkTcpConnection p' _ _ _ _) in E.
  assert (handle_event handler_ ev (c, app srv) = ((c1, s'), Ok true)) as E1.
  { unfold handle_event, ev. cbn [ev_error ev_in ev_out HandleRead].
    erewrite bind_run by (by rewrite (bind_run _ _ _ _ _ E)). rewrite bind_getS. by destruct out. }
  split; [by exists c1|]. unfold IoLoop_event. change (ev_fd ev) with fd. rewrite Hc, E1.
  eexists. split; [done|]. split; [done|]. apply lookup_delete_eq.
Qed.
End ServerTheorems.

(** After [2^31] accepted connections the counter is negative, and with it the
    index into the array of epoll descriptors. *)
Example next_thread_negative :
  let srv := mkTcpServer ∅ (2 ^ 31 - 1) 0 tt in
  next_thread 4 (AcceptLoop_insert 8 (AcceptLoop_insert 7 srv)) = -3.
Proof. by vm_compute. Qed.

(** ** Witnesses *)

Section TcpExamples.
#[local] Existing Instance RefHash.
#[local] Open Scope string_scope.

Definition ex_handler (req : HttpRequest) : M nat HttpResponse := modify S;; mret (HttpOk "hi" "text/plain").
Definition ex_server : TcpServer nat := mkTcpServer {[5%Z := TcpConnection_new]} 1 1 O.
Definition ex_kept : WireRequest := mkWireRequest "GET" "/v1/kv" [("prefix", "a")] "HTTP/1.1" [("Host", "db")] "".

(** Three [send] calls in two events. *)
Definition ex_outs : list (list SendResult) := [[Sent 30; Sent 1]; [Sent 100]].

Lemma response_delivered_witness :
  exists srv' c', connections_ srv' !! 5%Z = Some c' /\ app srv' = 1%nat /\
    sent c' = Serialise true (HttpOk "hi" "text/plain") /\ writeBuf c' = "".
Proof.
  destruct (response_delivered ex_handler 5 ex_kept (print_request ex_kept) "" TcpConnection_new ex_server 1%nat
    (HttpOk "hi" "text/plain") ex_outs) as (srv' & c' & _ & Ha & Hc & Hs & Hw & _).
  - reflexivity.
  - exact ready_new.
  - reflexivity.
  - reflexivity.
  - reflexivity.
  - by rewrite str_append_nil_r.
  - by vm_compute.
  - reflexivity.
  - repeat constructor.
  - vm_compute. lia.
  - exists srv', c'. split; [exact Hc|]. split; [exact Ha|]. split; [exact Hs|exact Hw].
Defined.

Lemma close_loses_response_witness :
  exists srv', IoLoop_event ex_handler (mkIoEvent 5 false (Some [Recv (print_request ex_wire)]) (Some [Sent 1000])) ex_server = (srv', Ok tt) /\
    app srv' = 1%nat /\ connections_ srv' !! 5%Z = None.
Proof.
  destruct (close_loses_response ex_handler 5 ex_wire (print_request ex_wire) "" TcpConnection_new ex_server 1%nat
    (HttpOk "hi" "text/plain") (Some [Sent 1000])) as [_ H].
  - reflexivity.
  - exact ready_new.
  - reflexivity.
  - reflexivity.
  - by rewrite str_append_nil_r.
  - by vm_compute.
  - reflexivity.
  - exact H.
Defined.

(** A Content-Length that is not a number ends the process. *)
Example content_length_terminates :
  (IoLoop ex_handler [mkIoEvent 5 false (Some [Recv ("GET / HTTP/1.1" +:+ CRLF +:+ "Content-Length: x" +:+ CRLF +:+ CRLF)]) None] ex_server).2 =
  Throw terminate.
Proof. by vm_compute. Qed.
End TcpExamples.
