(* ===== verification/TcpLifecycle.v ===== *)
(** * The life of the HTTP server (src/network/TcpServer.cpp: Start, Stop, the threads)

    The listening socket, the epoll descriptors and the threads of the server
    around the connections of [TcpServer].  What the system calls return is an
    argument: [Start] gets the outcomes of its calls, a step of a loop what its
    system call returned.  A new descriptor is one that is not open.  An action
    is a stretch of code between two points where another thread can interfere;
    in particular a connection is accepted, put into the map and added to an
    epoll set in three actions, as [AcceptLoop] does it, and closed and taken
    out of the map in two, as [IoLoop] does it.  [descriptors] are the open
    descriptors of the server, [registered] the connections in the epoll sets
    with their thread, [unwatched] those for which [epoll_ctl] failed, a result
    the code ignores; these belong to the kernel.  Options of sockets have no
    outcome the code looks at.

    The theorems: for every open descriptor it is known what it is and who has
    it, and [Stop] closes them all but the connections; [Stop] returns; a
    connection whose descriptor is used again too early is lost. *)
From S2P Require Import Prelude CxxString CxxMap Json Http TcpServer.
From Stdlib Require Import ZArith Lia Ascii String.
From stdpp Require Import prelude gmap strings.
#[local] Open Scope Z_scope.

Record TcpConfig := mkTcpConfig {
  tc_bindAddress : string;
  tc_port : Z;
  tc_backlog : Z;
  tc_numIoThreads : Z;
}.

(** The accept thread: not there, at its beginning, at [while (running_)], in
    [epoll_wait], at [accept4], with a new connection before and after it is put
    into the map, returned. *)
Inductive AcceptPc : Type :=
| AcNone | AcInit | AcLoop | AcPoll | AcAccept | AcInsert (fd : Z) | AcRegister (fd : Z) (tid : nat) | AcDone.

(** What the system call of a step of the accept thread returned. *)
Inductive AcceptReturn : Type :=
| RetEpoll (efd : Z) (* epoll_create1 *)
| RetWait (readable : bool) (* epoll_wait, with or without EPOLLIN *)
| RetAccept (fd : option Z) (* accept4 *)
| RetAdd (ok : bool) (* epoll_ctl *)
| RetNothing. (* no call *)

(** An I/O thread: at [while (running_)], in [epoll_wait], in the loop over the
    events, between [CloseConnection] and the [erase], returned. *)
Inductive IoPc : Type := IoTest | IoWait | IoEvents (evs : list IoEvent) | IoErase (fd : Z) (evs : list IoEvent) | IoDone.

(** [Stop], after its exchange. *)
Inductive StopPc : Type := TsOutside | TsClose | TsJoinAccept | TsJoinIo | TsEpolls.

#[global] Instance AcceptPc_eq_dec : EqDecision AcceptPc.
Proof. solve_decision. Defined.
#[global] Instance TcpStopPc_eq_dec : EqDecision StopPc.
Proof. solve_decision. Defined.

Record Control (S : Type) := mkControl {
  config_ : TcpConfig;
  listenFd_ : Z;
  running_ : bool;
  acceptThread_ : AcceptPc;
  monitorEpfd : option Z; (* the local of AcceptLoop *)
  ioThreads_ : list IoPc;
  epollFds_ : list Z;
  server : TcpServer S;
  stopping : StopPc;
  aborted : bool; (* the process has ended *)
  registered : gmap Z nat;
  unwatched : gset Z;
  descriptors : gset Z;
}.
Arguments mkControl {S} _ _ _ _ _ _ _ _ _ _ _ _ _.
Arguments config_ {S} _.
Arguments listenFd_ {S} _.
Arguments running_ {S} _.
Arguments acceptThread_ {S} _.
Arguments monitorEpfd {S} _.
Arguments ioThreads_ {S} _.
Arguments epollFds_ {S} _.
Arguments server {S} _.
Arguments stopping {S} _.
Arguments aborted {S} _.
Arguments registered {S} _.
Arguments unwatched {S} _.
Arguments descriptors {S} _.

(** The outcomes of the system calls of [Start]. *)
Record Syscalls := mkSyscalls { sy_socket : Z; sy_bind : bool; sy_listen : bool; sy_epolls : list Z }.

Definition MAX_EVENTS : nat := 256.

Section Fields.
Context {S : Type}.
#[local] Abbreviation C := (Control S).

Definition set_listenFd (fd : Z) (t : C) : C :=
  mkControl (config_ t) fd (running_ t) (acceptThread_ t) (monitorEpfd t) (ioThreads_ t) (epollFds_ t) (server t) (stopping t) (aborted t) (registered t) (unwatched t) (descriptors t).
Definition set_running (b : bool) (t : C) : C :=
  mkControl (config_ t) (listenFd_ t) b (acceptThread_ t) (monitorEpfd t) (ioThreads_ t) (epollFds_ t) (server t) (stopping t) (aborted t) (registered t) (unwatched t) (descriptors t).
Definition set_accept (p : AcceptPc) (t : C) : C :=
  mkControl (config_ t) (listenFd_ t) (running_ t) p (monitorEpfd t) (ioThreads_ t) (epollFds_ t) (server t) (stopping t) (aborted t) (registered t) (unwatched t) (descriptors t).
Definition set_monitor (m : option Z) (t : C) : C :=
  mkControl (config_ t) (listenFd_ t) (running_ t) (acceptThread_ t) m (ioThreads_ t) (epollFds_ t) (server t) (stopping t) (aborted t) (registered t) (unwatched t) (descriptors t).
Definition set_io (ios : list IoPc) (t : C) : C :=
  mkControl (config_ t) (listenFd_ t) (running_ t) (acceptThread_ t) (monitorEpfd t) ios (epollFds_ t) (server t) (stopping t) (aborted t) (registered t) (unwatched t) (descriptors t).
Definition set_epolls (es : list Z) (t : C) : C :=
  mkControl (config_ t) (listenFd_ t) (running_ t) (acceptThread_ t) (monitorEpfd t) (ioThreads_ t) es (server t) (stopping t) (aborted t) (registered t) (unwatched t) (descriptors t).
Definition set_server (s : TcpServer S) (t : C) : C :=
  mkControl (config_ t) (listenFd_ t) (running_ t) (acceptThread_ t) (monitorEpfd t) (ioThreads_ t) (epollFds_ t) s (stopping t) (aborted t) (registered t) (unwatched t) (descriptors t).
Definition set_stopping (p : StopPc) (t : C) : C :=
  mkControl (config_ t) (listenFd_ t) (running_ t) (acceptThread_ t) (monitorEpfd t) (ioThreads_ t) (epollFds_ t) (server t) p (aborted t) (registered t) (unwatched t) (descriptors t).
Definition abort (t : C) : C :=
  mkControl (config_ t) (listenFd_ t) (running_ t) (acceptThread_ t) (monitorEpfd t) (ioThreads_ t) (epollFds_ t) (server t) (stopping t) true (registered t) (unwatched t) (descriptors t).

(** The kernel's side of opening, closing and [epoll_ctl]. *)
Definition sys_open (fd : Z) (t : C) : C :=
  mkControl (config_ t) (listenFd_ t) (running_ t) (acceptThread_ t) (monitorEpfd t) (ioThreads_ t) (epollFds_ t) (server t) (stopping t) (aborted t)
    (registered t) (unwatched t) (if 0 <=? fd then {[fd]} ∪ descriptors t else descriptors t).
Definition sys_close (fds : list Z) (t : C) : C :=
  mkControl (config_ t) (listenFd_ t) (running_ t) (acceptThread_ t) (monitorEpfd t) (ioThreads_ t) (epollFds_ t) (server t) (stopping t) (aborted t)
    (registered t) (unwatched t) (descriptors t ∖ list_to_set fds).
Definition sys_register (fd : Z) (i : option nat) (t : C) : C :=
  mkControl (config_ t) (listenFd_ t) (running_ t) (acceptThread_ t) (monitorEpfd t) (ioThreads_ t) (epollFds_ t) (server t) (stopping t) (aborted t)
    (match i with Some i => <[fd := i]> (registered t) | None => delete fd (registered t) end) (unwatched t) (descriptors t).
Definition sys_unwatched (fd : Z) (t : C) : C :=
  mkControl (config_ t) (listenFd_ t) (running_ t) (acceptThread_ t) (monitorEpfd t) (ioThreads_ t) (epollFds_ t) (server t) (stopping t) (aborted t)
    (registered t) ({[fd]} ∪ unwatched t) (descriptors t).

Definition Control_new (config : TcpConfig) (app : S) : C :=
  mkControl config (-1) false AcNone None [] [] (mkTcpServer ∅ 0 0 app) TsOutside false ∅ ∅ ∅.
End Fields.

Section Control.
Context `{HashOrder} {S : Type} (handler_ : HttpRequest -> M S HttpResponse).
#[local] Abbreviation C := (Control S).

(** ** Start *)

Fixpoint start_io (k : nat) (efds : list Z) : M C unit :=
  match k with
  | O => mret tt
  | Datatypes.S k' =>
      let efd := default (-1) (head efds) in
      if efd <? 0 then throw (runtime_error "epoll_create1() failed")
      else
        modify (fun t => set_io (ioThreads_ t ++ [IoTest]) (set_epolls (epollFds_ t ++ [efd]) (sys_open efd t)));;
        start_io k' (tail efds)
  end.

Definition Start (sy : Syscalls) : M C unit :=
  modify (fun t => sys_open (sy_socket sy) (set_listenFd (sy_socket sy) t));;
  if sy_socket sy <? 0 then throw (runtime_error "socket() failed")
  else if negb (sy_bind sy) then
    t ← getS;
    throw (runtime_error ("bind() failed on port " +:+ to_string (tc_port (config_ t)))%string)
  else if negb (sy_listen sy) then throw (runtime_error "listen() failed")
  else
    modify (set_running true);;
    t ← getS;
    start_io (Z.to_nat (tc_numIoThreads (config_ t))) (sy_epolls sy);;
    t ← getS;
    if bool_decide (acceptThread_ t = AcNone) then modify (set_accept AcInit) else throw terminate.

(** ** The accept thread *)

(** A new connection, put into the map; an index outside the vector of epoll
    descriptors is undefined behaviour. *)
Definition accept_insert (fd : Z) (t : C) : C :=
  let tid := next_thread (tc_numIoThreads (config_ t)) (server t) in
  if (0 <=? tid) && (tid <? len (epollFds_ t))
  then set_accept (AcRegister fd (Z.to_nat tid)) (set_server (AcceptLoop_insert fd (server t)) t)
  else abort t.

(** [epoll_ctl] for it, whatever it returns, and the count. *)
Definition accept_register (fd : Z) (tid : nat) (ok : bool) (t : C) : C :=
  set_accept AcAccept (set_server (AcceptLoop_count (server t)) (if ok then sys_register fd (Some tid) t else sys_unwatched fd t)).

Definition AcceptLoop_step (ret : AcceptReturn) (t : C) : option C :=
  match acceptThread_ t, ret with
  | AcInit, RetEpoll efd =>
      if bool_decide (efd ∉ descriptors t)
      then Some (set_accept AcLoop (sys_open efd (set_monitor (if 0 <=? efd then Some efd else None) t))) else None
  | AcLoop, RetNothing =>
      if running_ t then Some (set_accept AcPoll t)
      else Some (set_accept AcDone (set_monitor None (sys_close (option_list (monitorEpfd t)) t)))
  | AcPoll, RetWait readable =>
      if readable then if bool_decide (is_Some (monitorEpfd t)) then Some (set_accept AcAccept t) else None
      else Some (set_accept AcLoop t)
  | AcAccept, RetAccept None => Some (set_accept AcLoop t)
  | AcAccept, RetAccept (Some fd) =>
      if (0 <=? listenFd_ t) && (0 <=? fd) && bool_decide (fd ∉ descriptors t)
      then Some (set_accept (AcInsert fd) (sys_open fd t)) else None
  | AcInsert fd, RetNothing => Some (accept_insert fd t)
  | AcRegister fd tid, RetAdd ok => Some (accept_register fd tid ok t)
  | _, _ => None
  end.

(** ** The I/O threads *)

Definition CloseConnection (fd : Z) (t : C) : C := sys_close [fd] (sys_register fd None t).

(** The connection and the application after an event. *)
Definition put_conn (fd : Z) (c : TcpConnection) (s : S) (t : C) : C :=
  let srv := server t in
  set_server (mkTcpServer (<[fd := c]> (connections_ srv)) (nextThread_ srv) (totalConnections_ srv) s) t.
Definition erase_conn (fd : Z) (t : C) : C :=
  let srv := server t in
  set_server (mkTcpServer (delete fd (connections_ srv)) (nextThread_ srv) (totalConnections_ srv) (TcpServer.app srv)) t.

Definition set_pc (i : nat) (p : IoPc) (t : C) : C := set_io (<[i := p]> (ioThreads_ t)) t.

(** [epoll_wait] on the set of thread [i] can have reported these events. *)
Definition reportable (i : nat) (evs : list IoEvent) (t : C) : bool :=
  (length evs <=? MAX_EVENTS)%nat && bool_decide (NoDup (ev_fd <$> evs)) &&
  forallb (fun ev => bool_decide (registered t !! ev_fd ev = Some i)) evs.

Definition IoLoop_step (i : nat) (reported : list IoEvent) (t : C) : option C :=
  match ioThreads_ t !! i with
  | Some IoTest => Some (set_pc i (if running_ t then IoWait else IoDone) t)
  | Some IoWait => if reportable i reported t then Some (set_pc i (IoEvents reported) t) else None
  | Some (IoEvents []) => Some (set_pc i IoTest t)
  | Some (IoEvents (ev :: evs)) =>
      match connections_ (server t) !! ev_fd ev with
      | None => Some (set_pc i (IoEvents evs) t)
      | Some c =>
          match handle_event handler_ ev (c, TcpServer.app (server t)) with
          | ((c', s'), Ok false) => Some (set_pc i (IoEvents evs) (put_conn (ev_fd ev) c' s' t))
          | ((c', s'), Ok true) => Some (set_pc i (IoErase (ev_fd ev) evs) (CloseConnection (ev_fd ev) (put_conn (ev_fd ev) c' s' t)))
          | ((c', s'), Throw _) => Some (abort (put_conn (ev_fd ev) c' s' t))
          end
      end
  | Some (IoErase fd evs) => Some (set_pc i (IoEvents evs) (erase_conn fd t))
  | Some IoDone | None => None
  end.

(** ** Stop *)

(** The call, also from the destructor. *)
Definition Stop (t : C) : option C :=
  match stopping t with
  | TsOutside => Some (if running_ t then set_stopping TsClose (set_running false t) else t)
  | _ => None
  end.

Definition io_done (p : IoPc) : bool := match p with IoDone => true | _ => false end.

Definition Stop_step (t : C) : option C :=
  match stopping t with
  | TsOutside => None
  | TsClose =>
      Some (set_stopping TsJoinAccept
        (if 0 <=? listenFd_ t then set_listenFd (-1) (sys_close [listenFd_ t] t) else t))
  | TsJoinAccept =>
      match acceptThread_ t with
      | AcNone | AcDone => Some (set_stopping TsJoinIo (set_accept AcNone t))
      | _ => None
      end
  | TsJoinIo => if forallb io_done (ioThreads_ t) then Some (set_stopping TsEpolls t) else None
  | TsEpolls => Some (set_stopping TsOutside (set_io [] (set_epolls [] (sys_close (epollFds_ t) t))))
  end.

(** ** Interleaving *)

Inductive TcpAction : Type :=
| TaStop | TaStopStep | TaAccept (ret : AcceptReturn) | TaIo (i : nat) (reported : list IoEvent).

Definition tcp_step (a : TcpAction) (t : C) : option C :=
  if aborted t then None
  else match a with
  | TaStop => Stop t
  | TaStopStep => Stop_step t
  | TaAccept ret => AcceptLoop_step ret t
  | TaIo i reported => IoLoop_step i reported t
  end.

Fixpoint tcp_exec (acts : list TcpAction) (t : C) : option C :=
  match acts with
  | [] => Some t
  | a :: rest => t' ← tcp_step a t; tcp_exec rest t'
  end.
End Control.

(** ** Descriptors *)

(** The descriptors of the server itself. *)
Definition own_fds {S} (t : Control S) : list Z :=
  (if 0 <=? listenFd_ t then [listenFd_ t] else []) ++ epollFds_ t ++ option_list (monitorEpfd t).

Definition pc_events (p : IoPc) : list IoEvent := match p with IoEvents evs | IoErase _ evs => evs | _ => [] end.

(** The connection the accept thread has in its hands. *)
Definition accepting {S} (t : Control S) : list Z :=
  match acceptThread_ t with AcInsert fd | AcRegister fd _ => [fd] | _ => [] end.

(** The descriptors of client connections. *)
Definition client_fds {S} (t : Control S) : gset Z := list_to_set (accepting t) ∪ (dom (registered t) ∪ unwatched t).

Definition polling (p : AcceptPc) : bool := match p with AcNone | AcInit | AcDone => false | _ => true end.

Record accounted {S} (t : Control S) : Prop := {
  ac_fds : descriptors t = list_to_set (own_fds t) ∪ client_fds t;
  ac_nodup : NoDup (own_fds t);
  ac_apart fd : fd ∈ own_fds t -> fd ∉ client_fds t;
  ac_accepting fd : fd ∈ accepting t -> registered t !! fd = None /\ (fd ∉ unwatched t);
  ac_unwatched fd : fd ∈ unwatched t -> registered t !! fd = None;
  ac_monitor : polling (acceptThread_ t) = false -> monitorEpfd t = None;
  ac_io i p : ioThreads_ t !! i = Some p ->
    Forall (fun ev => registered t !! ev_fd ev = Some i) (pc_events p) /\ NoDup (ev_fd <$> pc_events p);
}.

(** Closing some of them. *)
Lemma close_some (all closed rest : list Z) (R : gset Z) : NoDup all -> all ≡ₚ closed ++ rest -> (forall fd, fd ∈ all -> fd ∉ R) ->
  (list_to_set all ∪ R) ∖ list_to_set closed =@{gset Z} list_to_set rest ∪ R.
Proof.
  intros Hn Hp Ha. assert (forall fd, fd ∈ closed -> (fd ∉ rest) /\ (fd ∉ R)) as Hc.
  { intros fd Hfd. rewrite Hp in Hn. apply NoDup_app in Hn as (_ & Hd & _). split; [by apply Hd|]. apply Ha. rewrite Hp. set_solver. }
  apply set_eq. intros fd. rewrite elem_of_difference, !elem_of_union, !elem_of_list_to_set, Hp, elem_of_app. naive_solver.
Qed.

Section Accounted.
Context {HO : HashOrder} {A : Type} (handler_ : HttpRequest -> M A HttpResponse).
#[local] Abbreviation C := (Control A).

(** What does not touch a descriptor. *)
Lemma accounted_frame (t t' : C) : accounted t -> own_fds t' = own_fds t -> registered t' = registered t -> unwatched t' = unwatched t ->
  accepting t' = accepting t -> descriptors t' = descriptors t -> (polling (acceptThread_ t') = false -> monitorEpfd t' = None) ->
  (forall i p, ioThreads_ t' !! i = Some p -> Forall (fun ev => registered t !! ev_fd ev = Some i) (pc_events p) /\ NoDup (ev_fd <$> pc_events p)) ->
  accounted t'.
Proof.
  intros [F N P X U M I] Eo Er Eu Ea Ed Hm Hi. assert (client_fds t' = client_fds t) as Ec by (unfold client_fds; by rewrite Ea, Er, Eu).
  split; rewrite ?Eo, ?Er, ?Ed, ?Ec, ?Eu, ?Ea; auto.
Qed.

(** A new descriptor of the server's own. *)
Lemma accounted_own fd (t t' : C) : accounted t -> fd ∉ descriptors t -> own_fds t' ≡ₚ fd :: own_fds t -> registered t' = registered t ->
  unwatched t' = unwatched t -> accepting t' = accepting t -> descriptors t' = {[fd]} ∪ descriptors t ->
  (polling (acceptThread_ t') = false -> monitorEpfd t' = None) ->
  (forall i p, ioThreads_ t' !! i = Some p -> Forall (fun ev => registered t !! ev_fd ev = Some i) (pc_events p) /\ NoDup (ev_fd <$> pc_events p)) ->
  accounted t'.
Proof.
  intros [F N P X U M I] Hf Eo Er Eu Ea Ed Hm Hi. rewrite F in Hf. apply not_elem_of_union in Hf as [Hf1 Hf2]. rewrite elem_of_list_to_set in Hf1.
  assert (client_fds t' = client_fds t) as Ec by (unfold client_fds; by rewrite Ea, Er, Eu).
  split; rewrite ?Er, ?Ec, ?Eu, ?Ea; auto.
  - rewrite Ed, F, (list_to_set_perm_L _ _ Eo). cbn. by rewrite (assoc_L (∪)).
  - rewrite Eo. by constructor.
  - intros x. rewrite Eo, elem_of_cons. intros [->|Hx]; [done|by apply P].
Qed.

Lemma put_conn_accounted fd c s (t : C) : accounted t -> accounted (put_conn fd c s t).
Proof. intros Hac. apply (accounted_frame t); try done; apply Hac. Qed.

(** [accept4] gives a new connection. *)
Lemma accept_accounted fd (t : C) : accounted t -> acceptThread_ t = AcAccept -> 0 <= fd -> fd ∉ descriptors t -> accounted (set_accept (AcInsert fd) (sys_open fd t)).
Proof.
  intros [F N P X U M I] Ea H0 Hf. assert (accepting t = []) as Ec by (unfold accepting; by rewrite Ea).
  rewrite F in Hf. apply not_elem_of_union in Hf as [Hf1 Hf2]. unfold client_fds in *. rewrite Ec in *.
  split; try done; unfold client_fds, own_fds in *; cbn; replace (0 <=? fd) with true by lia; auto.
  - rewrite F. set_solver.
  - intros x Hx. specialize (P x Hx). set_solver.
  - intros x ->%list_elem_of_singleton. split; [apply not_elem_of_dom; set_solver|set_solver].
Qed.

Lemma accept_insert_accounted fd (t : C) : accounted t -> acceptThread_ t = AcInsert fd -> accounted (accept_insert fd t).
Proof.
  intros Hac Ea. assert (accepting t = [fd]) as Ec by (unfold accepting; by rewrite Ea). unfold accept_insert. cbv zeta.
  case_if; apply (accounted_frame t); try done; apply Hac.
Qed.

Lemma accept_register_accounted fd tid ok (t : C) : accounted t -> acceptThread_ t = AcRegister fd tid -> accounted (accept_register fd tid ok t).
Proof.
  intros [F N P X U M I] Ea. assert (accepting t = [fd]) as Ec by (unfold accepting; by rewrite Ea). unfold client_fds in *. rewrite Ec in *.
  destruct (X fd) as [Hr Hu]; [by left|].
  assert (forall i p, ioThreads_ t !! i = Some p -> forall ev, ev ∈ pc_events p -> ev_fd ev <> fd) as Hne.
  { intros i p Hp ev He E. destruct (I i p Hp) as [Hev _]. rewrite Forall_forall in Hev. specialize (Hev ev He). congruence. }
  destruct ok; (split; try done; unfold client_fds, accept_register; cbn); auto.
  - rewrite F, dom_insert_L. unfold own_fds. cbn. set_solver.
  - intros x Hx. specialize (P x Hx). rewrite dom_insert_L. set_solver.
  - by intros x ?%not_elem_of_nil.
  - intros x Hx. rewrite lookup_insert_ne; [by apply U|]. by intros ->.
  - intros i p Hp. destruct (I i p Hp) as [Hev Hn]. split; [|done]. rewrite Forall_forall in *. intros ev He.
    rewrite lookup_insert_ne; [by apply Hev|]. intros E. by apply (Hne i p Hp ev He).
  - rewrite F. unfold own_fds. cbn. set_solver.
  - intros x Hx. specialize (P x Hx). set_solver.
  - by intros x ?%not_elem_of_nil.
  - intros x [->%elem_of_singleton|Hx]%elem_of_union; [done|by apply U].
Qed.

Lemma AcceptLoop_accounted ret (t t' : C) : accounted t -> AcceptLoop_step ret t = Some t' -> accounted t'.
Proof.
  intros Hac. assert (forall p, accepting t = [] -> polling p = polling (acceptThread_ t) -> p <> AcNone ->
    match p with AcInsert _ | AcRegister _ _ => False | _ => True end -> accounted (set_accept p t)) as Hgo.
  { intros p Ea Ep _ Hp. apply (accounted_frame t); try done; [unfold accepting at 1; cbn; by destruct p|cbn; rewrite Ep; apply Hac|apply Hac]. }
  unfold AcceptLoop_step. destruct (acceptThread_ t) as [| | | | |fd|fd tid|] eqn:Ea, ret as [efd|[|]|[fd'|]|ok|]; try done.
  - case_bool_decide as Hf; [|done]. intros [= <-]. assert (monitorEpfd t = None) as Em by (by apply (ac_monitor t Hac); rewrite Ea).
    assert (accepting t = []) as Ec by (unfold accepting; by rewrite Ea). destruct (0 <=? efd) eqn:E0.
    + apply (accounted_own efd t); try done; [|cbn; by rewrite E0|apply Hac]. unfold own_fds. cbn. rewrite Em. cbn. rewrite !app_nil_r, app_assoc.
      by rewrite Permutation_app_comm.
    + apply (accounted_frame t); try done; [unfold own_fds; cbn; by rewrite Em|cbn; by rewrite E0|apply Hac].
  - assert (accepting t = []) as Ec by (unfold accepting; by rewrite Ea). destruct (running_ t); intros [= <-]; [by apply Hgo|]. destruct Hac as [F N P X U M I].
    assert (own_fds t ≡ₚ option_list (monitorEpfd t) ++ ((if 0 <=? listenFd_ t then [listenFd_ t] else []) ++ epollFds_ t)) as Hp.
    { unfold own_fds. by rewrite app_assoc, Permutation_app_comm. }
    unfold client_fds in *. rewrite Ec in *. split; try done; unfold client_fds, own_fds; cbn; rewrite ?app_nil_r.
    + rewrite F. apply close_some; [done|done|]. intros fd Hfd. by apply P.
    + rewrite Hp in N. by apply NoDup_app in N as (_ & _ & N).
    + intros fd Hfd. apply P. rewrite Hp. apply elem_of_app. by right.
  - case_bool_decide; [|done]. intros [= <-]. apply Hgo; try done. unfold accepting; by rewrite Ea.
  - intros [= <-]. apply Hgo; try done. unfold accepting; by rewrite Ea.
  - destruct ((0 <=? listenFd_ t) && (0 <=? fd')) eqn:E; [|done]. case_bool_decide; [|done]. intros [= <-]. apply andb_true_iff in E as [_ E].
    apply accept_accounted; try done. lia.
  - intros [= <-]. apply Hgo; try done. unfold accepting; by rewrite Ea.
  - intros [= <-]. by apply accept_insert_accounted.
  - intros [= <-]. by apply accept_register_accounted.
Qed.

Lemma set_pc_accounted i p (t : C) : accounted t ->
  Forall (fun ev => registered t !! ev_fd ev = Some i) (pc_events p) /\ NoDup (ev_fd <$> pc_events p) -> accounted (set_pc i p t).
Proof.
  intros Hac Hp. apply (accounted_frame t); try done; [apply Hac|]. intros k q. cbn. rewrite list_lookup_insert_Some.
  intros [(<- & <- & _)|[_ Hq]]; [done|]. by apply Hac.
Qed.

(** Closing a connection in the hands of its thread. *)
Lemma CloseConnection_accounted i fd evs (t : C) : accounted t -> registered t !! fd = Some i ->
  Forall (fun ev => registered t !! ev_fd ev = Some i) evs -> NoDup (fd :: (ev_fd <$> evs)) ->
  (forall p, ioThreads_ t !! i = Some p -> pc_events p = evs) ->
  accounted (CloseConnection fd t).
Proof.
  intros [F N P X U M I] Hfd Hevs Hn Hpc. apply NoDup_cons in Hn as [Hni Hn].
  assert (Forall (fun ev => delete fd (registered t) !! ev_fd ev = Some i) evs) as Hevs'.
  { rewrite Forall_forall in *. intros ev He. rewrite lookup_delete_ne; [by apply Hevs|]. intros ->. apply Hni, list_elem_of_fmap. by exists ev. }
  split; try done; cbn.
  - rewrite F. change (own_fds (CloseConnection fd t)) with (own_fds t). unfold client_fds in *. change (accepting (CloseConnection fd t)) with (accepting t). cbn.
    rewrite dom_delete_L. assert (fd ∈ dom (registered t)) as Hd by (by apply elem_of_dom; eexists).
    assert (fd ∉ own_fds t) as Hno by (intros Hx; apply P in Hx; set_solver).
    assert (fd ∉ accepting t) as Hna by (intros Hx; apply X in Hx as [? _]; congruence).
    assert (fd ∉ unwatched t) as Hnu by (intros Hx; apply U in Hx; congruence).
    rewrite !difference_union_distr_l_L. set_solver.
  - intros x Hx. specialize (P x Hx). unfold client_fds in *. change (accepting (CloseConnection fd t)) with (accepting t). cbn. rewrite dom_delete_L. set_solver.
  - intros x Hx. destruct (X x Hx). split; [|done]. rewrite lookup_delete_None. by right.
  - intros x Hx. rewrite lookup_delete_None. right. by apply U.
  - intros k p Hk. destruct (I k p Hk) as [Hr Hnk]. split; [|done]. destruct (decide (k = i)) as [->|Hki]; [by rewrite (Hpc p Hk)|].
    rewrite Forall_forall in *. intros ev He. rewrite lookup_delete_ne; [by apply Hr|]. intros E. specialize (Hr ev He). rewrite E in Hfd. congruence.
Qed.

Lemma IoLoop_accounted i reported (t t' : C) : accounted t -> IoLoop_step handler_ i reported t = Some t' -> accounted t'.
Proof.
  intros Hac. unfold IoLoop_step. destruct (ioThreads_ t !! i) as [[| |[|ev evs]|fd evs|]|] eqn:Ei; try done.
  - intros [= <-]. apply set_pc_accounted; [done|]. by destruct (running_ t); cbn; split; [constructor|constructor|constructor|constructor].
  - destruct (reportable i reported t) eqn:E; [|done]. intros [= <-]. apply set_pc_accounted; [done|]. apply andb_true_iff in E as [[_ Hn]%andb_true_iff Hr].
    split; [|by apply bool_decide_eq_true in Hn]. apply Is_true_eq_left, forallb_True in Hr. eapply Forall_impl; [exact Hr|].
    intros ev Hev. by apply bool_decide_unpack in Hev.
  - intros [= <-]. apply set_pc_accounted; [done|]. split; constructor.
  - destruct (ac_io t Hac i _ Ei) as [[Hev Hevs]%Forall_cons Hn]. cbn [pc_events] in Hn. rewrite fmap_cons in Hn.
    pose proof (NoDup_cons_1_2 _ _ Hn) as Hn'.
    destruct (connections_ (server t) !! ev_fd ev) as [c|]; [|intros [= <-]; by apply set_pc_accounted].
    destruct (handle_event _ _ _) as [[c' s'] [[|]|e]]; intros [= <-].
    + set (t1 := set_pc i (IoErase (ev_fd ev) evs) (put_conn (ev_fd ev) c' s' t)).
      apply (CloseConnection_accounted i (ev_fd ev) evs t1); try done; [apply set_pc_accounted; [by apply put_conn_accounted|done]|].
      intros p. cbn. rewrite list_lookup_insert_eq by (by eapply lookup_lt_Some). by intros [= <-].
    + apply set_pc_accounted; [by apply put_conn_accounted|done].
    + apply (accounted_frame (put_conn (ev_fd ev) c' s' t)); try done; [by apply put_conn_accounted|apply Hac..].
  - intros [= <-]. destruct (ac_io t Hac i _ Ei) as [Hr Hn]. apply set_pc_accounted; [|done]. apply (accounted_frame t); try done; apply Hac.
Qed.

Lemma Stop_step_accounted (t t' : C) : accounted t -> Stop_step t = Some t' -> accounted t'.
Proof.
  intros Hac. pose proof Hac as [F N P X U M I]. unfold Stop_step. destruct (stopping t); try done.
  - intros [= <-]. destruct (0 <=? listenFd_ t) eqn:El; [|by apply (accounted_frame t); try done; apply Hac].
    unfold own_fds in *. rewrite El in *. cbn [app] in *. split; try done; unfold own_fds; cbn.
    + rewrite F. by apply (close_some (listenFd_ t :: epollFds_ t ++ option_list (monitorEpfd t)) [listenFd_ t]).
    + by apply NoDup_cons_1_2 in N.
    + intros fd Hfd. apply P. by apply elem_of_cons; right.
  - destruct (acceptThread_ t) eqn:Ea; try done; intros [= <-]; (apply (accounted_frame t); try done; unfold accepting; by rewrite Ea).
  - case_if; [|done]. intros [= <-]. apply (accounted_frame t); try done; apply Hac.
  - intros [= <-]. assert (own_fds t ≡ₚ epollFds_ t ++ ((if 0 <=? listenFd_ t then [listenFd_ t] else []) ++ option_list (monitorEpfd t))) as Hp.
    { unfold own_fds. rewrite !app_assoc. by rewrite (Permutation_app_comm _ (epollFds_ t)). }
    split; try done; unfold own_fds; cbn.
    + rewrite F. by apply close_some.
    + rewrite Hp in N. by apply NoDup_app in N as (_ & _ & N).
    + intros fd Hfd. apply P. rewrite Hp. apply elem_of_app. by right.
Qed.

Lemma tcp_step_accounted a (t t' : C) : accounted t -> tcp_step handler_ a t = Some t' -> accounted t'.
Proof.
  intros Hac. unfold tcp_step. destruct (aborted t); [done|]. destruct a as [| |ret|i reported].
  - unfold Stop. destruct (stopping t); try done. destruct (running_ t); intros [= <-]; [|done]. apply (accounted_frame t); try done; apply Hac.
  - by apply Stop_step_accounted.
  - by apply AcceptLoop_accounted.
  - by apply IoLoop_accounted.
Qed.

Lemma tcp_exec_accounted acts : forall t t' : C, accounted t -> tcp_exec handler_ acts t = Some t' -> accounted t'.
Proof.
  induction acts as [|a acts IH]; intros t t' Hac; cbn [tcp_exec]; [by intros [= <-]|]. intros (t1 & E1 & E2)%bind_Some.
  eapply IH; [|done]. by eapply tcp_step_accounted.
Qed.
End Accounted.

Section Starting.
Context {S : Type}.
#[local] Abbreviation C := (Control S).

Lemma start_io_accounted k : forall efds (t : C), accounted t -> NoDup efds -> Forall (fun fd => fd ∉ descriptors t) efds ->
  (forall p, p ∈ ioThreads_ t -> p = IoTest) -> acceptThread_ t = AcNone ->
  let t' := (start_io k efds t).1 in
  accounted t' /\ acceptThread_ t' = AcNone /\ stopping t' = stopping t /\ running_ t' = running_ t.
Proof.
  induction k as [|k IH]; intros efds t Hac Hn Hf Hio Hacc; cbn [start_io]; [by cbn|]. destruct efds as [|efd efds]; [by cbn|]. cbn [head from_option id].
  destruct (efd <? 0) eqn:E0; bool_prop; [by cbn|]. rewrite bind_modify. cbn [tail]. apply NoDup_cons in Hn as [Hx Hn]. apply Forall_cons in Hf as [Hd Hf].
  set (t1 := set_io _ _). assert (descriptors t1 = {[efd]} ∪ descriptors t) as Ed by (cbn; by replace (0 <=? efd) with true by lia).
  destruct (IH efds t1) as (A1 & A2 & A3 & A4); [|done| | |done|by split_and!].
  - apply (accounted_own efd t); try done; [|apply Hac|].
    + unfold own_fds. cbn. rewrite <- !app_assoc. cbn. rewrite Permutation_middle. by rewrite <- Permutation_middle, <- Permutation_middle.
    + intros i p. cbn. rewrite lookup_app_Some. intros [Hi|[_ Hi]]; [by apply Hac|]. apply list_lookup_singleton_Some in Hi as [_ <-]. split; constructor.
  - rewrite Forall_forall in *. intros fd Hfd. rewrite Ed. specialize (Hf fd Hfd). set_solver.
  - intros p. cbn. rewrite elem_of_app, list_elem_of_singleton. intros [Hp| ->]; [by apply Hio|done].
Qed.

Lemma Start_accounted sy config (a : S) : NoDup (sy_socket sy :: sy_epolls sy) ->
  let t := (Start sy (Control_new config a)).1 in accounted t /\ stopping t = TsOutside.
Proof.
  intros [Hx Hn]%NoDup_cons. unfold Start. rewrite bind_modify. set (t0 := sys_open _ _).
  assert (accounted t0) as Hac0.
  { unfold t0. split; try done; unfold own_fds, client_fds; cbn; destruct (0 <=? sy_socket sy); cbn; try (by constructor); try apply NoDup_singleton; set_solver. }
  destruct (sy_socket sy <? 0); [done|]. destruct (sy_bind sy); cbn [negb]; [|by rewrite bind_getS]. destruct (sy_listen sy); cbn [negb]; [|done].
  rewrite bind_modify, bind_getS. set (t1 := set_running true t0).
  assert (accounted t1) as Hac1 by (apply (accounted_frame t0); try done; apply Hac0).
  destruct (start_io_accounted (Z.to_nat (tc_numIoThreads (config_ t1))) (sy_epolls sy) t1 Hac1 Hn) as (A1 & A2 & A3 & _); [|set_solver|done|].
  { apply Forall_forall. intros fd Hfd. cbn. destruct (0 <=? sy_socket sy); set_solver. }
  unfold mbind, M_bind. destruct (start_io _ _ t1) as [t2 [u|e]]; [|done]. cbn [getS fst] in *. unfold getS. rewrite bool_decide_true by done.
  split; [|done]. apply (accounted_frame t2); try done; [by unfold accepting; rewrite A2| |apply A1]. intros _. apply A1. by rewrite A2.
Qed.
End Starting.

(** ** Stopping *)

Definition accept_rank (p : AcceptPc) : nat :=
  match p with AcNone => 0 | AcDone => 1 | AcLoop => 2 | AcInit | AcAccept => 3 | AcPoll | AcRegister _ _ => 4 | AcInsert _ => 5 end.
Definition io_rank (p : IoPc) : nat :=
  match p with
  | IoDone => 0 | IoTest => 1 | IoEvents evs => 2 + 2 * length evs | IoErase _ evs => 3 + 2 * length evs | IoWait => 3 + 2 * MAX_EVENTS
  end.
Definition tcp_stop_rank (p : StopPc) : nat := match p with TsOutside => 0 | TsEpolls => 1 | TsJoinIo => 2 | TsJoinAccept => 3 | TsClose => 4 end.

Fixpoint io_ranks (l : list IoPc) : nat := match l with [] => 0 | p :: rest => io_rank p + io_ranks rest end.

(** What is left to do once [running_] is false, if no further client comes. *)
Definition tcp_rank {S} (t : Control S) : nat :=
  accept_rank (acceptThread_ t) + io_ranks (ioThreads_ t) + tcp_stop_rank (stopping t) + (if aborted t then 0 else 1).

Record closing {S} (t : Control S) : Prop := {
  cl_running : running_ t = false;
  cl_listen : stopping t <> TsClose -> listenFd_ t < 0;
  cl_accept : (tcp_stop_rank (stopping t) <= 2)%nat -> acceptThread_ t = AcNone;
  cl_io : (tcp_stop_rank (stopping t) <= 1)%nat -> forallb io_done (ioThreads_ t) = true;
  cl_out : stopping t = TsOutside -> ioThreads_ t = [] /\ epollFds_ t = [];
}.

Definition tcp_own (a : TcpAction) : bool := match a with TaStop => false | _ => true end.

(** A new client. *)
Definition is_accept (a : TcpAction) : bool := match a with TaAccept (RetAccept (Some _)) => true | _ => false end.

Lemma io_ranks_insert l i p q : l !! i = Some p -> (io_ranks (<[i := q]> l) + io_rank p = io_ranks l + io_rank q)%nat.
Proof.
  revert i. induction l as [|x l IH]; intros [|i] Hi; try done; [injection Hi as ->; cbn [insert list_insert io_ranks]; lia|].
  specialize (IH i Hi). change (<[Datatypes.S i := q]> (x :: l)) with (x :: <[i := q]> l). cbn [io_ranks]. lia.
Qed.

Section Closing.
Context {HO : HashOrder} {A : Type} (handler_ : HttpRequest -> M A HttpResponse).
#[local] Abbreviation C := (Control A).

(** A step of the accept thread while the server stops. *)
Lemma closing_accept ret (t t' : C) : closing t -> aborted t = false -> AcceptLoop_step ret t = Some t' ->
  closing t' /\ (tcp_rank t' < tcp_rank t + (if is_accept (TaAccept ret) then 3 else 0))%nat.
Proof.
  intros [Cr Cl Ca Ci Co] Hb. unfold AcceptLoop_step. rewrite Cr. unfold tcp_rank.
  destruct (acceptThread_ t) as [| | | | |fd|fd tid|] eqn:Ea, ret as [efd|[|]|[fd'|]|ok|]; try done;
    try (case_bool_decide; [|rewrite ?andb_false_r; done]); try (destruct ((0 <=? listenFd_ t) && (0 <=? fd')); [|done]); cbn [andb].
  all: intros [= <-]; try (split; [split; cbn; try done; intros Hk; by specialize (Ca Hk)|cbn; rewrite ?Hb; lia]).
  - unfold accept_insert. cbv zeta. case_if; (split; [split; cbn; try done; intros Hk; by specialize (Ca Hk)|cbn; rewrite ?Hb, ?Ea; cbn; lia]).
  - unfold accept_register. destruct ok; (split; [split; cbn; try done; intros Hk; by specialize (Ca Hk)|cbn; rewrite ?Hb; lia]).
Qed.

(** A step of an I/O thread while the server stops. *)
Lemma closing_io i reported (t t' : C) : closing t -> aborted t = false -> IoLoop_step handler_ i reported t = Some t' ->
  closing t' /\ (tcp_rank t' < tcp_rank t)%nat.
Proof.
  intros [Cr Cl Ca Ci Co] Hb. unfold IoLoop_step. rewrite Cr. destruct (ioThreads_ t !! i) as [p|] eqn:Ei; [|done].
  assert (forall q (t1 : C), io_done p = false -> (io_rank q < io_rank p)%nat -> running_ t1 = false -> listenFd_ t1 = listenFd_ t -> stopping t1 = stopping t ->
    acceptThread_ t1 = acceptThread_ t -> ioThreads_ t1 = ioThreads_ t -> epollFds_ t1 = epollFds_ t -> aborted t1 = aborted t ->
    closing (set_pc i q t1) /\ (tcp_rank (set_pc i q t1) < tcp_rank t)%nat) as Hgo.
  { intros q t1 Hp Hq E1 E2 E3 E4 E5 E6 E7. pose proof (io_ranks_insert _ i p q Ei) as Hs.
    assert (tcp_stop_rank (stopping t) > 1)%nat as Hk.
    { destruct (decide (tcp_stop_rank (stopping t) <= 1)%nat) as [Hle|]; [|lia]. specialize (Ci Hle). apply Is_true_eq_left, forallb_True in Ci.
      rewrite Forall_lookup in Ci. specialize (Ci i p Ei). by rewrite Hp in Ci. }
    split; [|unfold tcp_rank; cbn; rewrite E3, E4, E5, E7; lia]. split; cbn; rewrite ?E2, ?E3, ?E4, ?E5; try done; [intros; lia|intros Es].
    rewrite Es in Hk. cbn in Hk. lia. }
  assert (closing t /\ (tcp_rank (abort t) < tcp_rank t)%nat) as [_ Hab] by (split; [done|unfold tcp_rank; cbn; rewrite Hb; lia]).
  destruct p as [| |[|ev evs]|fd evs|]; try done.
  - intros [= <-]. apply Hgo; try done; cbn; lia.
  - destruct (reportable i reported t) eqn:Er; [|done]. intros [= <-]. apply Hgo; try done. cbn [io_rank].
    apply andb_true_iff in Er as [[Hl _]%andb_true_iff _]. apply Nat.leb_le in Hl. lia.
  - intros [= <-]. apply Hgo; try done. cbn. lia.
  - destruct (connections_ (server t) !! ev_fd ev); [|intros [= <-]; apply Hgo; try done; cbn; lia].
    destruct (handle_event _ _ _) as [[c' s'] [[|]|e]]; intros [= <-]; [apply Hgo; try done; cbn; lia..|]. split; [by split|exact Hab].
  - intros [= <-]. apply Hgo; try done. cbn. lia.
Qed.

Lemma closing_stop (t t' : C) : closing t -> Stop_step t = Some t' -> closing t' /\ (tcp_rank t' < tcp_rank t)%nat.
Proof.
  intros [Cr Cl Ca Ci Co]. unfold Stop_step, tcp_rank. destruct (stopping t) eqn:Es; try done.
  - intros [= <-]. destruct (0 <=? listenFd_ t) eqn:E; cbn; (split; [split; cbn; try done; intros; lia|cbn; lia]).
  - destruct (acceptThread_ t) eqn:Ea; try done; intros [= <-]; (split; [split; cbn; try done; intros; (lia || by apply Cl)|cbn; lia]).
  - destruct (forallb io_done (ioThreads_ t)) eqn:Ei; [|done]. intros [= <-]. split; [split; cbn; try done; intros; ((by apply Cl) || (apply Ca; cbn; lia))|cbn; lia].
  - intros [= <-]. split; [split; cbn; try done; intros; ((by apply Cl) || (apply Ca; cbn; lia))|cbn; lia].
Qed.

Lemma closing_exec acts : forall t t' : C, closing t -> Forall (fun a => tcp_own a = true) acts -> tcp_exec handler_ acts t = Some t' ->
  closing t' /\ (length acts + tcp_rank t' <= tcp_rank t + 3 * length (filter (fun a => is_accept a = true) acts))%nat.
Proof.
  induction acts as [|a acts IH]; intros t t' Hc Ho; cbn [tcp_exec]; [intros [= <-]; split; [done|cbn; lia]|]. apply Forall_cons in Ho as [Ha Ho].
  intros (t1 & E1 & E2)%bind_Some.
  assert (closing t1 /\ (tcp_rank t1 < tcp_rank t + (if is_accept a then 3 else 0))%nat) as [Hc1 Hlt].
  { unfold tcp_step in E1. destruct (aborted t) eqn:Eb; [done|]. cbn [is_accept]. destruct a; [done| |by eapply closing_accept|].
    - destruct (closing_stop t t1 Hc E1). split; [done|]. cbn. lia.
    - destruct (closing_io _ _ t t1 Hc Eb E1). split; [done|]. cbn. lia. }
  destruct (IH t1 t' Hc1 Ho E2) as [Hc' Hn]. split; [done|]. rewrite filter_cons. cbn [length]. destruct (is_accept a) eqn:E; case_decide; try done; cbn [length]; lia.
Qed.

(** Until [Stop] has returned, it or one of the threads can go on. *)
Lemma closing_progress (t : C) : closing t -> aborted t = false -> stopping t <> TsOutside -> exists a t', tcp_own a = true /\ tcp_step handler_ a t = Some t'.
Proof.
  intros [Cr Cl Ca Ci Co] Hb Hs.
  destruct (stopping t) eqn:Es; try done; try (exists TaStopStep; unfold tcp_step, Stop_step; rewrite Hb, Es; by eexists).
  - destruct (acceptThread_ t) eqn:Ea; try (exists TaStopStep; unfold tcp_step, Stop_step; rewrite Hb, Es, Ea; by eexists).
    + destruct (exist_fresh (descriptors t)) as [efd Hf]. exists (TaAccept (RetEpoll efd)). unfold tcp_step, AcceptLoop_step.
      rewrite Hb, Ea, bool_decide_true by done. by eexists.
    + exists (TaAccept RetNothing). unfold tcp_step, AcceptLoop_step. rewrite Hb, Ea, Cr. by eexists.
    + exists (TaAccept (RetWait false)). unfold tcp_step, AcceptLoop_step. rewrite Hb, Ea. by eexists.
    + exists (TaAccept (RetAccept None)). unfold tcp_step, AcceptLoop_step. rewrite Hb, Ea. by eexists.
    + exists (TaAccept RetNothing). unfold tcp_step, AcceptLoop_step. rewrite Hb, Ea. by eexists.
    + exists (TaAccept (RetAdd true)). unfold tcp_step, AcceptLoop_step. rewrite Hb, Ea. by eexists.
  - destruct (forallb io_done (ioThreads_ t)) eqn:Ei; [exists TaStopStep; unfold tcp_step, Stop_step; rewrite Hb, Es, Ei; by eexists|].
    assert (exists i p, ioThreads_ t !! i = Some p /\ io_done p = false) as (i & p & Hp & Hd).
    { clear -Ei. induction (ioThreads_ t) as [|p l IH]; [done|]. cbn in Ei. destruct (io_done p) eqn:Ep; [|by exists 0%nat, p].
      destruct (IH Ei) as (i & q & Hi & Hq). by exists (Datatypes.S i), q. }
    exists (TaIo i []). unfold tcp_step, IoLoop_step. rewrite Hb, Hp. destruct p as [| |[|ev evs]|fd evs|]; try done; try (by eexists).
    destruct (connections_ (server t) !! ev_fd ev); [|by eexists]. destruct (handle_event _ _ _) as [[c' s'] [[|]|e]]; by eexists.
Qed.

Lemma Stop_closing (t : C) : running_ t = true -> stopping t = TsOutside -> exists t1, Stop t = Some t1 /\ closing t1.
Proof.
  intros Hr Hs. unfold Stop. rewrite Hs, Hr. eexists. split; [done|]. by split; cbn; try done; intros; lia.
Qed.
End Closing.

(** ** A descriptor that is used again *)

(** A connection the server has forgotten: open, in an epoll set, not in the map,
    and no thread is about to put it there or to close it. *)
Record orphan {A} (fd : Z) (i : nat) (t : Control A) : Prop := {
  or_account : accounted t;
  or_registered : registered t !! fd = Some i;
  or_forgotten : connections_ (server t) !! fd = None;
}.

Section Orphan.
Context {HO : HashOrder} {A : Type} (handler_ : HttpRequest -> M A HttpResponse).
#[local] Abbreviation C := (Control A).

Lemma orphan_step fd i a (t t' : C) : orphan fd i t -> tcp_step handler_ a t = Some t' -> orphan fd i t'.
Proof.
  intros [Hac Hr Hc] Hs. pose proof (tcp_step_accounted handler_ a t t' Hac Hs) as Hac'.
  enough (registered t' !! fd = Some i /\ connections_ (server t') !! fd = None) as [? ?] by (by split).
  unfold tcp_step in Hs. destruct (aborted t); [done|]. destruct a as [| |ret|k reported].
  - unfold Stop in Hs. destruct (stopping t); try done. destruct (running_ t); by injection Hs as <-.
  - unfold Stop_step in Hs. destruct (stopping t); try done; [injection Hs as <-; by case_if|destruct (acceptThread_ t)|case_if_in Hs|]; try done; by injection Hs as <-.
  - assert (forall x, x ∈ accepting t -> x <> fd) as Hne by (intros x [Hx _]%(ac_accepting t Hac) ->; congruence).
    unfold AcceptLoop_step, accepting in *. destruct (acceptThread_ t) as [| | | | |x|x tid|], ret as [efd|[|]|[x'|]|ok|]; try done; try by injection Hs as <-.
    + case_bool_decide; [|done]. by injection Hs as <-.
    + destruct (running_ t); by injection Hs as <-.
    + case_bool_decide; [|done]. by injection Hs as <-.
    + case_if_in Hs; [|done]. by injection Hs as <-.
    + injection Hs as <-. unfold accept_insert. cbv zeta. case_if; cbn; [|done]. by rewrite lookup_insert_ne by (apply Hne; by left).
    + injection Hs as <-. unfold accept_register. destruct ok; cbn; [|done]. by rewrite lookup_insert_ne by (apply Hne; by left).
  - unfold IoLoop_step in Hs. destruct (ioThreads_ t !! k) as [[| |[|ev evs]|x evs|]|] eqn:Ek; try done; try (by injection Hs as <-).
    + case_if_in Hs; [|done]. by injection Hs as <-.
    + destruct (connections_ (server t) !! ev_fd ev) as [c|] eqn:Ec; [|by injection Hs as <-].
      assert (ev_fd ev <> fd) as Hne by (intros E; congruence).
      destruct (handle_event _ _ _) as [[c' s'] [[|]|e]]; injection Hs as <-; cbn; rewrite ?lookup_delete_ne, ?lookup_insert_ne by done; done.
    + injection Hs as <-. cbn. split; [done|]. rewrite lookup_delete_None. by right.
Qed.

Lemma orphan_exec fd i acts : forall t t' : C, orphan fd i t -> tcp_exec handler_ acts t = Some t' -> orphan fd i t'.
Proof.
  induction acts as [|a acts IH]; intros t t' Ho; cbn [tcp_exec]; [by intros [= <-]|]. intros (t1 & E1 & E2)%bind_Some.
  eapply IH; [|done]. by eapply orphan_step.
Qed.
End Orphan.

(** ** Theorems *)

Section LifecycleTheorems.
Context {HO : HashOrder} {A : Type} (handler_ : HttpRequest -> M A HttpResponse).

(** C31: the descriptors of the server.  After [Start], however far it came, and
    any interleaving of the accept thread, the I/O threads and a [Stop], with
    [accept4], the insertion into the map and [epoll_ctl] as separate actions,
    the open descriptors are the listening socket, the epoll descriptors, the
    one connection the accept thread may have in its hands, the client
    connections in the epoll sets, and those for which [epoll_ctl] failed: none
    is open besides, none of these is closed, and no descriptor is two of them. *)
Theorem descriptors_accounted sy config (a : A) acts t :
  NoDup (sy_socket sy :: sy_epolls sy) -> tcp_exec handler_ acts (Start sy (Control_new config a)).1 = Some t ->
  descriptors t = list_to_set (own_fds t) ∪ (list_to_set (accepting t) ∪ (dom (registered t) ∪ unwatched t)) /\ NoDup (own_fds t) /\
  (forall fd, fd ∈ own_fds t -> (fd ∉ accepting t) /\ registered t !! fd = None /\ (fd ∉ unwatched t)) /\
  (forall fd, fd ∈ accepting t -> registered t !! fd = None /\ (fd ∉ unwatched t)) /\
  (forall fd, fd ∈ unwatched t -> registered t !! fd = None).
Proof.
  intros Hn Hx. destruct (Start_accounted sy config a Hn) as [Hac _]. destruct (tcp_exec_accounted handler_ acts _ _ Hac Hx) as [F N P X U _ _].
  split_and!; try done. intros fd Hfd. specialize (P fd Hfd). unfold client_fds in P. rewrite !not_elem_of_union, elem_of_list_to_set, not_elem_of_dom in P. done.
Qed.

(** [Stop] of the HTTP server.  From any state of a running server, in every
    interleaving, the threads and the call take a bounded number of actions (a
    thread finishes the events it has, at most 256), plus three for every client
    that is accepted before the listening socket is closed; until the call has
    returned one of them can be taken; and when it has returned, the threads are
    joined and the descriptors that are still open are exactly those of client
    connections, which nothing closes.  (Or the process has ended, by an
    exception of a handler.) *)
Theorem Stop_leaves_clients sy config (a : A) before t acts t' :
  NoDup (sy_socket sy :: sy_epolls sy) -> tcp_exec handler_ before (Start sy (Control_new config a)).1 = Some t ->
  running_ t = true -> stopping t = TsOutside -> Forall (fun a => tcp_own a = true) acts -> tcp_exec handler_ (TaStop :: acts) t = Some t' ->
  (length acts <= tcp_rank t + 4 + 3 * length (filter (fun a => is_accept a = true) acts))%nat /\
  (aborted t' = true \/
   (stopping t' = TsOutside /\ ioThreads_ t' = [] /\ acceptThread_ t' = AcNone /\ descriptors t' = dom (registered t') ∪ unwatched t') \/
   exists b t'', tcp_own b = true /\ tcp_step handler_ b t' = Some t'').
Proof.
  intros Hn Hb Hr Hs Ho Hx. destruct (Start_accounted sy config a Hn) as [Hac0 _].
  pose proof (tcp_exec_accounted handler_ before _ _ Hac0 Hb) as Hac. pose proof (tcp_exec_accounted handler_ _ _ _ Hac Hx) as Hac'.
  cbn [tcp_exec] in Hx. apply bind_Some in Hx as (t1 & E1 & E2). unfold tcp_step in E1. destruct (aborted t) eqn:Eb; [done|].
  destruct (Stop_closing t Hr Hs) as (t1' & E & Hc). rewrite E1 in E. injection E as <-.
  destruct (closing_exec handler_ acts t1 t' Hc Ho E2) as [Hc' Hl]. split.
  { unfold Stop in E1. rewrite Hs, Hr in E1. injection E1 as <-. unfold tcp_rank in *. rewrite Hs in *. cbn in *. lia. }
  destruct (aborted t') eqn:Ea; [by left|right]. destruct (decide (stopping t' = TsOutside)) as [Es|Es]; [left|right; by apply closing_progress].
  pose proof (cl_listen t' Hc' ltac:(by rewrite Es)) as Cl. destruct (cl_out t' Hc' Es) as [Ci Ce].
  assert (acceptThread_ t' = AcNone) as Cacc by (apply (cl_accept t' Hc'); rewrite Es; cbn; lia).
  split_and!; try done. rewrite (ac_fds t' Hac'). unfold own_fds, client_fds, accepting. rewrite Ce, Cacc, (ac_monitor t' Hac') by (by rewrite Cacc).
  replace (0 <=? listenFd_ t') with false by lia. cbn. by rewrite !union_empty_l_L.
Qed.
End LifecycleTheorems.

(** ** Examples *)

Section LifecycleExamples.
#[local] Existing Instance RefHash.
#[local] Open Scope string_scope.
#[local] Open Scope Z_scope.

Definition ex_sc : TcpConfig := mkTcpConfig "0.0.0.0" 2379 1024 2.
Definition ex_sy : Syscalls := mkSyscalls 3 true true [4; 5].
#[local] Abbreviation ex_started := (Start ex_sy (Control_new ex_sc O)).1.

(** A client, and the first client. *)
Definition ex_client (fd : Z) (ok : bool) : list TcpAction := [TaAccept (RetAccept (Some fd)); TaAccept RetNothing; TaAccept (RetAdd ok)].
Definition ex_open : list TcpAction := [TaAccept (RetEpoll 6); TaAccept RetNothing; TaAccept (RetWait true)] ++ ex_client 7 true.

(** A client connects; its connection breaks, and the next client gets the same
    descriptor before the first connection has been taken out of the map. *)
Definition ex_reuse : list TcpAction :=
  ex_open ++ [TaIo 0 []; TaIo 0 [mkIoEvent 7 true None None]; TaIo 0 []] ++ ex_client 7 true ++ [TaIo 0 []].

Definition ex_reused : Control nat := default ex_started (tcp_exec ex_handler ex_reuse ex_started).

Lemma ex_sy_nodup : NoDup (sy_socket ex_sy :: sy_epolls ex_sy).
Proof. by apply (bool_decide_unpack _); vm_compute. Qed.

Lemma ex_started_accounted : accounted ex_started.
Proof. exact (proj1 (Start_accounted ex_sy ex_sc O ex_sy_nodup)). Qed.

Lemma ex_reuse_run : tcp_exec ex_handler ex_reuse ex_started = Some ex_reused.
Proof. by vm_compute. Qed.

Lemma ex_reused_registered : registered ex_reused !! 7 = Some 1%nat.
Proof. by vm_compute. Qed.
Lemma ex_reused_forgotten : connections_ (server ex_reused) !! 7 = None.
Proof. by vm_compute. Qed.

(** C32: a client can be lost.  [IoLoop] closes a descriptor before it takes the
    connection out of the map; in between the accept thread can be given the same
    descriptor for a new client, whose connection is then taken out instead.  The
    new client's connection is open and in an epoll set, and from then on nothing
    the server does, [Stop] included, ever reads it, answers on it or closes it. *)
Theorem reused_descriptor_lost :
  exists acts t, tcp_exec ex_handler acts ex_started = Some t /\ running_ t = true /\ totalConnections_ (server t) = 2 /\
    forall acts' t', tcp_exec ex_handler acts' t = Some t' ->
      registered t' !! 7 = Some 1%nat /\ 7 ∈ descriptors t' /\ connections_ (server t') !! 7 = None.
Proof.
  exists ex_reuse, ex_reused. split; [exact ex_reuse_run|]. split; [by vm_compute|]. split; [by vm_compute|]. intros acts' t' Hx.
  assert (orphan 7 1 ex_reused) as Ho.
  { split; [|exact ex_reused_registered|exact ex_reused_forgotten]. exact (tcp_exec_accounted ex_handler ex_reuse ex_started ex_reused ex_started_accounted ex_reuse_run). }
  destruct (orphan_exec ex_handler 7 1 acts' ex_reused t' Ho Hx) as [Hac Hr Hc]. split_and!; [done| |done].
  rewrite (ac_fds t' Hac). unfold client_fds. do 2 (apply elem_of_union; right). apply elem_of_union. left. apply elem_of_dom. by exists 1%nat.
Qed.

(** The second client's [epoll_ctl] fails, and a third one is being accepted. *)
Definition ex_three : list TcpAction := ex_open ++ ex_client 8 false ++ [TaAccept (RetAccept (Some 9))].
Definition ex_thirds : Control nat := default ex_started (tcp_exec ex_handler ex_three ex_started).

Lemma ex_three_run : tcp_exec ex_handler ex_three ex_started = Some ex_thirds.
Proof. by vm_compute. Qed.

Lemma descriptors_accounted_witness :
  own_fds ex_thirds = [3; 4; 5; 6] /\ accepting ex_thirds = [9] /\ dom (registered ex_thirds) = {[7]} /\ unwatched ex_thirds = {[8]} /\
  descriptors ex_thirds = list_to_set (own_fds ex_thirds) ∪ (list_to_set (accepting ex_thirds) ∪ (dom (registered ex_thirds) ∪ unwatched ex_thirds)).
Proof.
  split; [by vm_compute|]. split; [by vm_compute|]. split; [by vm_compute|]. split; [by vm_compute|].
  exact (proj1 (descriptors_accounted ex_handler ex_sy ex_sc O ex_three ex_thirds ex_sy_nodup ex_three_run)).
Defined.

(** [Stop] while a client is connected. *)
Definition ex_stop : list TcpAction :=
  [TaStopStep; TaAccept (RetAccept None); TaAccept RetNothing; TaStopStep; TaIo 0 []; TaIo 1 []; TaStopStep; TaStopStep].
Definition ex_opened : Control nat := default ex_started (tcp_exec ex_handler ex_open ex_started).
Definition ex_stopped : Control nat := default ex_started (tcp_exec ex_handler (TaStop :: ex_stop) ex_opened).

Lemma ex_open_run : tcp_exec ex_handler ex_open ex_started = Some ex_opened.
Proof. by vm_compute. Qed.
Lemma ex_stop_run : tcp_exec ex_handler (TaStop :: ex_stop) ex_opened = Some ex_stopped.
Proof. by vm_compute. Qed.

Lemma Stop_leaves_clients_witness :
  stopping ex_stopped = TsOutside /\ descriptors ex_stopped = {[7]} /\
  (length ex_stop <= tcp_rank ex_opened + 4 + 3 * length (filter (fun a => is_accept a = true) ex_stop))%nat.
Proof.
  split; [by vm_compute|]. split; [by vm_compute|].
  refine (proj1 (Stop_leaves_clients ex_handler ex_sy ex_sc O ex_open ex_opened ex_stop ex_stopped ex_sy_nodup ex_open_run _ _ _ ex_stop_run));
    [by vm_compute|by vm_compute|]. repeat constructor.
Defined.

(** A [Start] that fails after [socket] leaves the listening socket open: [Stop]
    does nothing, because [running_] is still false. *)
Example failed_bind_leaks :
  Start (mkSyscalls 3 false true []) (Control_new ex_sc O) =
    (sys_open 3 (set_listenFd 3 (Control_new ex_sc O)), Throw (runtime_error "bind() failed on port 2379")) /\
  (descriptors <$> Stop (Start (mkSyscalls 3 false true []) (Control_new ex_sc O)).1) = Some {[3]}.
Proof. split; by vm_compute. Qed.
End LifecycleExamples.
