(* ===== verification/Config.v ===== *)
(** * Configuration (src/util/Config.{hpp,cpp}, src/main.cpp)

    The node configuration from a YAML file or from the environment, the
    overrides from the environment, and the configurations [main] derives from
    it.  The environment is a map; yaml-cpp is the class [YamlLib], of which
    nothing is assumed.

    The theorem: the environment wins over the file field by field, and a list
    of peers written [host:port,host:port] is read back. *)
From S2P Require Import Prelude CxxString Http RaftNode.
From Stdlib Require Import ZArith Lia Ascii String.
From stdpp Require Import prelude gmap strings.
#[local] Open Scope Z_scope.

(** ** yaml-cpp *)

Class YamlLib := {
  YNode : Type;
  LoadFile : string -> Res YNode;
  y_at : YNode -> string -> Res YNode; (* operator[] *)
  y_defined : YNode -> bool;
  y_items : YNode -> list YNode;
  as_string : YNode -> option string; (* the conversions of [as<T>] *)
  as_u16 : YNode -> option Z;
  as_int : YNode -> option Z;
  as_bool : YNode -> option bool;
}.

(** ** Data *)

Record PeerConfig := mkPeerConfig { pc_id : string; pc_host : string; pc_raftPort : Z }.

Record RaftTimings := mkRaftTimings {
  electionTimeoutMin : Z;
  electionTimeoutMax : Z;
  heartbeatInterval : Z;
  rpcTimeout : Z;
}.

Record ServerConfig := mkServerConfig {
  bindAddress : string;
  clientPort : Z;
  raftPort : Z;
  numIoThreads : Z;
}.

Record StorageConfig := mkStorageConfig {
  dataDir : string;
  walMaxSegmentBytes : Z;
  syncWrites : bool;
}.

Record AuthConfig := mkAuthConfig {
  jwtAlgorithm : string;
  jwtSecret : string;
  jwtPublicKeyPath : string;
  jwtIssuer : string;
}.

Record NodeConfig := mkNodeConfig {
  nc_nodeId : string;
  nc_server : ServerConfig;
  nc_storage : StorageConfig;
  nc_raft : RaftTimings;
  nc_auth : AuthConfig;
  nc_peers : list PeerConfig;
  nc_logLevel : string;
}.

(** The default members. *)
Definition RaftTimings_new : RaftTimings := mkRaftTimings 150 300 50 50.
Definition ServerConfig_new : ServerConfig := mkServerConfig "0.0.0.0" 2379 2380 4.
Definition StorageConfig_new : StorageConfig := mkStorageConfig "/var/lib/orcdb" (64 * 1024 * 1024) true.
Definition AuthConfig_new : AuthConfig := mkAuthConfig "HS256" "" "" "orcdb".

(** ** The file *)

Section File.
Context `{YamlLib}.

(** [n[k].as<T>(d)] *)
Definition y_get {A} (conv : YNode -> option A) (n : YNode) (k : string) (d : A) : Res A :=
  x ← y_at n k; mret (default d (conv x)).

(** [n[k].as<T>()] *)
Definition y_req {A} (conv : YNode -> option A) (n : YNode) (k : string) : Res A :=
  x ← y_at n k; of_opt (runtime_error "bad conversion") (conv x).

Definition load_raft (doc : YNode) : Res RaftTimings :=
  r ← y_at doc "raft";
  if y_defined r then
    mn ← y_get as_int r "election_timeout_min_ms" 150;
    mx ← y_get as_int r "election_timeout_max_ms" 300;
    hb ← y_get as_int r "heartbeat_interval_ms" 50;
    rp ← y_get as_int r "rpc_timeout_ms" 50;
    mret (mkRaftTimings mn mx hb rp)
  else mret RaftTimings_new.

Fixpoint load_peers (l : list YNode) : Res (list PeerConfig) :=
  match l with
  | [] => Ok []
  | peer :: l' =>
      i ← y_req as_string peer "id";
      h ← y_req as_string peer "host";
      p ← y_get as_u16 peer "raft_port" 2380;
      ps ← load_peers l';
      mret (mkPeerConfig i h p :: ps)
  end.

Definition LoadFromFile (path : string) : Res NodeConfig :=
  doc ← LoadFile path;
  nodeId ← y_get as_string doc "node_id" "node1";
  logLevel ← y_get as_string doc "log_level" "info";
  server ← y_at doc "server";
  bind ← y_get as_string server "bind" "0.0.0.0";
  cport ← y_get as_u16 server "client_port" 2379;
  rport ← y_get as_u16 server "raft_port" 2380;
  threads ← y_get as_int server "io_threads" 4;
  storage ← y_at doc "storage";
  dir ← y_get as_string storage "data_dir" "/var/lib/orcdb";
  sync ← y_get as_bool storage "sync_writes" true;
  auth ← y_at doc "auth";
  alg ← y_get as_string auth "algorithm" "HS256";
  sec ← y_get as_string auth "secret" "";
  key ← y_get as_string auth "public_key_path" "";
  issuer ← y_get as_string auth "issuer" "orcdb";
  raft ← load_raft doc;
  pn ← y_at doc "peers";
  peers ← (if y_defined pn then load_peers (y_items pn) else mret []);
  mret (mkNodeConfig nodeId (mkServerConfig bind cport rport threads)
    (mkStorageConfig dir (walMaxSegmentBytes StorageConfig_new) sync) raft (mkAuthConfig alg sec key issuer) peers logLevel).
End File.

(** ** The environment *)

Definition Environment : Type := gmap string string.

Definition EnvVar (env : Environment) (name def : string) : string := default def (env !! name).

(** [s.rfind(c)] *)
Fixpoint rfind_char (c : ascii) (s : string) : option nat :=
  match s with
  | EmptyString => None
  | String a r =>
      match rfind_char c r with
      | Some k => Some (S k)
      | None => if Ascii.eqb a c then Some O else None
      end
  end.

(** Host and port of [host:port]; without a colon both are the whole entry. *)
Definition split_peer (entry : string) : Res (string * Z) :=
  let '(host, port) := match rfind_char ":" entry with
    | Some colon => (str_take colon entry, str_drop (S colon) entry)
    | None => (entry, entry)
    end in
  p ← stoi port;
  mret (host, u16 p).

(** The loop over the entries between the commas; each turn drops at least one
    character of the list.  [mkId] gets the number of the entry. *)
Fixpoint peers_loop (mkId : Z -> string -> string) (idx : Z) (fuel : nat) (s : string) : Res (list PeerConfig) :=
  match fuel with
  | O => Ok []
  | S fuel' =>
      if String.eqb s "" then Ok []
      else
        let '(entry, rest) := match find_char "," s with
          | Some comma => (str_take comma s, str_drop (S comma) s)
          | None => (s, ""%string)
          end in
        hp ← split_peer entry;
        ps ← peers_loop mkId (idx + 1) fuel' rest;
        mret (mkPeerConfig (mkId idx hp.1) hp.1 hp.2 :: ps)
  end.

Definition parse_peers (mkId : Z -> string -> string) (idx : Z) (s : string) : Res (list PeerConfig) :=
  peers_loop mkId idx (String.length s) s.

Definition LoadFromEnv (env : Environment) : Res NodeConfig :=
  cport ← stoi (EnvVar env "CLIENT_PORT" "2379");
  rport ← stoi (EnvVar env "RAFT_PORT" "2380");
  peers ← parse_peers (fun idx _ => ("node" +:+ to_string idx)%string) 2 (EnvVar env "PEERS" "");
  mret (mkNodeConfig (EnvVar env "NODE_ID" "node1")
    (mkServerConfig (bindAddress ServerConfig_new) (u16 cport) (u16 rport) (numIoThreads ServerConfig_new))
    (mkStorageConfig (EnvVar env "DATA_DIR" "/var/lib/orcdb") (walMaxSegmentBytes StorageConfig_new) (syncWrites StorageConfig_new))
    RaftTimings_new
    (mkAuthConfig (EnvVar env "JWT_ALGORITHM" "HS256") (EnvVar env "JWT_SECRET" "") (jwtPublicKeyPath AuthConfig_new) (jwtIssuer AuthConfig_new))
    peers (EnvVar env "LOG_LEVEL" "info")).

(** [overrideStr] and [overrideU16] *)
Definition override_str (env : Environment) (name field : string) : string := default field (env !! name).
Definition override_u16 (env : Environment) (name : string) (field : Z) : Res Z :=
  match env !! name with Some v => p ← stoi v; mret (u16 p) | None => mret field end.

Definition Load `{YamlLib} (env : Environment) (filePath : option string) : Res NodeConfig :=
  cfg ← (match filePath with Some p => LoadFromFile p | None => LoadFromEnv env end);
  cport ← override_u16 env "CLIENT_PORT" (clientPort (nc_server cfg));
  rport ← override_u16 env "RAFT_PORT" (raftPort (nc_server cfg));
  peers ← (match env !! "PEERS" with Some s => parse_peers (fun _ host => host) 1 s | None => mret (nc_peers cfg) end);
  mret (mkNodeConfig (override_str env "NODE_ID" (nc_nodeId cfg))
    (mkServerConfig (bindAddress (nc_server cfg)) cport rport (numIoThreads (nc_server cfg)))
    (mkStorageConfig (override_str env "DATA_DIR" (dataDir (nc_storage cfg))) (walMaxSegmentBytes (nc_storage cfg)) (syncWrites (nc_storage cfg)))
    (nc_raft cfg)
    (mkAuthConfig (jwtAlgorithm (nc_auth cfg)) (override_str env "JWT_SECRET" (jwtSecret (nc_auth cfg)))
       (jwtPublicKeyPath (nc_auth cfg)) (jwtIssuer (nc_auth cfg)))
    peers (override_str env "LOG_LEVEL" (nc_logLevel cfg))).

(** ** [main] *)

Definition main_raftCfg (cfg : NodeConfig) : RaftConfig :=
  mkRaftConfig (nc_nodeId cfg) ((fun p => mkRaftPeerInfo (pc_id p) (pc_host p) (pc_raftPort p)) <$> nc_peers cfg)
    (raftPort (nc_server cfg)) (electionTimeoutMin (nc_raft cfg)) (electionTimeoutMax (nc_raft cfg))
    (heartbeatInterval (nc_raft cfg)) (rpcTimeout (nc_raft cfg)) 10000.

(** ** Lemmas *)

Definition print_peer (p : string * Z) : string := (p.1 +:+ ":" +:+ to_string p.2)%string.

Fixpoint print_peers (ps : list (string * Z)) : string :=
  match ps with
  | [] => ""
  | [p] => print_peer p
  | p :: ps' => (print_peer p +:+ "," +:+ print_peers ps')%string
  end.

(** A host may contain colons but no comma; a port is a [uint16_t]. *)
Definition peer_ok (p : string * Z) : Prop := lacks "," p.1 = true /\ 0 <= p.2 < 2 ^ 16.

Lemma to_string_lacks c n : isdigit c = false -> lacks c (to_string n) = true.
Proof.
  intros Hc. eapply str_forall_impl; [|apply dec_pad_digits]. intros a Ha. destruct (Ascii.eqb a c) eqn:E; [|done].
  apply Ascii.eqb_eq in E as ->. congruence.
Qed.

Lemma stoi_to_string p : 0 <= p < 2 ^ 31 -> stoi (to_string p) = Ok p.
Proof.
  intros Hp. unfold stoi, to_string. apply sto_signed_dec_pad; [apply ndigits_pos|done|].
  apply ndigits_bound. change (10 ^ Z.of_nat 21) with 1000000000000000000000. lia.
Qed.

Lemma rfind_char_app c a b : lacks c b = true -> rfind_char c (a +:+ String c b)%string = Some (String.length a).
Proof.
  intros Hb. assert (rfind_char c b = None) as Hn.
  { clear a. induction b as [|x b IH]; [done|]. apply andb_true_iff in Hb as [Hx Hb]. apply negb_true_iff in Hx.
    cbn [rfind_char]. by rewrite IH, Hx. }
  induction a as [|x a IH].
  - rewrite append_nil. cbn [rfind_char]. by rewrite Hn, Ascii.eqb_refl.
  - rewrite append_cons. cbn [rfind_char String.length]. by rewrite IH.
Qed.

Lemma split_peer_print p : peer_ok p -> split_peer (print_peer p) = Ok p.
Proof.
  destruct p as [h port]. intros [_ Hp]. cbn in Hp. unfold split_peer, print_peer. cbn [fst snd].
  change (h +:+ ":" +:+ to_string port)%string with (h +:+ String ":" (to_string port))%string.
  rewrite rfind_char_app by (by apply to_string_lacks). rewrite str_take_app, str_drop_app_S, stoi_to_string by lia.
  unfold mbind, Res_bind, mret, Res_ret, u16. by rewrite Z.mod_small.
Qed.

Lemma print_peer_lacks p : peer_ok p -> lacks "," (print_peer p) = true /\ String.eqb (print_peer p) "" = false.
Proof.
  intros [Hh _]. unfold print_peer, lacks in *. rewrite !str_forall_app, Hh. cbn [andb str_forall].
  split; [by apply (to_string_lacks ",")|by destruct p.1].
Qed.

Lemma peers_loop_print mkId ps : forall idx fuel, Forall peer_ok ps -> (String.length (print_peers ps) <= fuel)%nat ->
  peers_loop mkId idx fuel (print_peers ps) =
  Ok (imap (fun i p => mkPeerConfig (mkId (idx + Z.of_nat i) p.1) p.1 p.2) ps).
Proof.
  induction ps as [|p ps IH]; intros idx fuel Hok Hf; [by destruct fuel|].
  apply Forall_cons in Hok as [Hp Hok]. destruct (print_peer_lacks p Hp) as [Hl Hne].
  assert (1 <= String.length (print_peer p))%nat as H1 by (destruct (print_peer p); [done|simpl; lia]).
  destruct ps as [|q ps].
  - cbn [print_peers] in *. destruct fuel as [|fuel]; [lia|]. cbn [peers_loop]. rewrite Hne, find_char_none by done.
    rewrite split_peer_print by done. destruct fuel; cbn; by rewrite Z.add_0_r.
  - change (print_peers (p :: q :: ps)) with (print_peer p +:+ String "," (print_peers (q :: ps)))%string in *.
    rewrite str_length_append in Hf. cbn [String.length] in Hf. destruct fuel as [|fuel]; [lia|]. cbn [peers_loop].
    destruct (String.eqb (print_peer p +:+ _)%string "") eqn:E; [apply String.eqb_eq in E; by destruct (print_peer p)|].
    rewrite find_char_app, str_take_app, str_drop_app_S by done. rewrite split_peer_print, IH by (done || lia).
    rewrite (imap_cons _ p). unfold mbind, Res_bind, mret, Res_ret. rewrite Z.add_0_r. do 2 f_equal.
    apply imap_ext. intros i x Hx. cbn. do 2 f_equal. lia.
Qed.

(** ** Theorem *)

(** The environment wins.  Whatever the file or the environment gave first, a
    variable that is set replaces the field it names, a variable that is not set
    leaves it alone, and no other field changes; a list of peers in the
    environment replaces the peers of the file by exactly the listed ones, with
    the host as identifier, also when hosts contain colons. *)
Theorem Load_env_overrides `{YamlLib} env filePath cfg ps cport rport :
  (match filePath with Some p => LoadFromFile p | None => LoadFromEnv env end) = Ok cfg ->
  env !! "PEERS" = Some (print_peers ps) -> Forall peer_ok ps ->
  env !! "CLIENT_PORT" = to_string <$> cport -> (forall p, cport = Some p -> 0 <= p < 2 ^ 16) ->
  env !! "RAFT_PORT" = to_string <$> rport -> (forall p, rport = Some p -> 0 <= p < 2 ^ 16) ->
  exists cfg', Load env filePath = Ok cfg' /\
    nc_peers cfg' = ((fun p => mkPeerConfig p.1 p.1 p.2) <$> ps) /\
    clientPort (nc_server cfg') = default (clientPort (nc_server cfg)) cport /\
    raftPort (nc_server cfg') = default (raftPort (nc_server cfg)) rport /\
    nc_nodeId cfg' = default (nc_nodeId cfg) (env !! "NODE_ID") /\
    dataDir (nc_storage cfg') = default (dataDir (nc_storage cfg)) (env !! "DATA_DIR") /\
    jwtSecret (nc_auth cfg') = default (jwtSecret (nc_auth cfg)) (env !! "JWT_SECRET") /\
    nc_logLevel cfg' = default (nc_logLevel cfg) (env !! "LOG_LEVEL") /\
    nc_raft cfg' = nc_raft cfg /\ bindAddress (nc_server cfg') = bindAddress (nc_server cfg) /\
    numIoThreads (nc_server cfg') = numIoThreads (nc_server cfg) /\ syncWrites (nc_storage cfg') = syncWrites (nc_storage cfg) /\
    jwtAlgorithm (nc_auth cfg') = jwtAlgorithm (nc_auth cfg) /\ jwtPublicKeyPath (nc_auth cfg') = jwtPublicKeyPath (nc_auth cfg) /\
    jwtIssuer (nc_auth cfg') = jwtIssuer (nc_auth cfg).
Proof.
  intros Hcfg Hpeers Hps Hc Hcr Hr Hrr. unfold Load. rewrite Hcfg.
  assert (forall name (o : option Z) field, env !! name = to_string <$> o -> (forall p, o = Some p -> 0 <= p < 2 ^ 16) ->
    override_u16 env name field = Ok (default field o)) as Hov.
  { intros name [p|] field E Hp; unfold override_u16; rewrite E; [|done]. specialize (Hp p eq_refl). cbn [fmap option_fmap option_map].
    rewrite stoi_to_string by lia. unfold mbind, Res_bind, mret, Res_ret, u16. by rewrite Z.mod_small. }
  assert (parse_peers (fun _ host => host) 1 (print_peers ps) = Ok ((fun p => mkPeerConfig p.1 p.1 p.2) <$> ps)) as Hpp.
  { unfold parse_peers. rewrite peers_loop_print by done. f_equal. clear. generalize 1.
    induction ps as [|p ps IH]; intros z; [done|]. rewrite imap_cons, fmap_cons. f_equal.
    etransitivity; [|apply (IH (z + 1))]. apply imap_ext. done. }
  cbn [mbind Res_bind]. rewrite (Hov _ _ _ Hc Hcr), (Hov _ _ _ Hr Hrr), Hpeers, Hpp.
  eexists. split; [reflexivity|]. by split_and!.
Qed.

(** ** Witness *)

(** A file with nothing in it. *)
Definition EmptyYaml : YamlLib :=
  {| YNode := unit; LoadFile := fun _ => Ok tt; y_at := fun _ _ => Ok tt; y_defined := fun _ => false;
     y_items := fun _ => []; as_string := fun _ => None; as_u16 := fun _ => None; as_int := fun _ => None; as_bool := fun _ => None |}.

Section ConfigExamples.
#[local] Existing Instance EmptyYaml.
#[local] Open Scope string_scope.

Definition ex_environment : Environment :=
  {["PEERS" := "node2:2380,::1:2381"; "CLIENT_PORT" := "8080"; "JWT_SECRET" := "s"]}.

Lemma Load_env_overrides_witness :
  exists cfg', Load ex_environment (Some "orcdb.yaml") = Ok cfg' /\
    nc_peers cfg' = [mkPeerConfig "node2" "node2" 2380; mkPeerConfig "::1" "::1" 2381] /\
    clientPort (nc_server cfg') = 8080%Z /\ nc_nodeId cfg' = "node1".
Proof.
  destruct (Load_env_overrides ex_environment (Some "orcdb.yaml")
    (mkNodeConfig "node1" ServerConfig_new StorageConfig_new RaftTimings_new AuthConfig_new [] "info")
    [("node2", 2380%Z); ("::1", 2381%Z)] (Some 8080%Z) None) as (cfg' & E & Hp & Hc & _ & Hn & _).
  - reflexivity.
  - by vm_compute.
  - repeat constructor; by vm_compute.
  - by vm_compute.
  - intros p [= <-]. lia.
  - by vm_compute.
  - done.
  - exists cfg'. split; [exact E|]. split; [exact Hp|]. split; [exact Hc|]. rewrite Hn. by vm_compute.
Defined.
End ConfigExamples.
