(* ===== verification/ThreadPool.v ===== *)
(** * The thread pool (src/util/ThreadPool.{hpp,cpp})

    The queue, the stop flag, the counter and the workers, as a state machine
    whose actions are the stretches of code between two points where another
    thread can interfere: the locked sections of [Submit], [WorkerLoop] and
    [Shutdown], and the two updates of the counter.  A task is a number; that
    tasks return is the action [Finish].  The condition variable is the guard
    of the actions that wait for it.

    The theorem: tasks start in the order they were accepted, none is lost or
    run twice, and a shutdown waits for all of them. *)
From S2P Require Import Prelude.
From Stdlib Require Import ZArith Lia.
From stdpp Require Import prelude list sorting relations.

Definition Task : Type := nat.

(** Where a worker is in [WorkerLoop]: in the wait, behind the locked section
    with a task, in the task, or returned. *)
Inductive Worker : Type := Waiting | Took (t : Task) | Running (t : Task) | Exited.

(** [accepted], [started] and [finished] record the history. *)
Record ThreadPool := mkThreadPool {
  workers_ : list Worker;
  queue_ : list Task;
  stop_ : bool;
  active_ : nat;
  joined : bool; (* Shutdown has returned *)
  accepted : list Task;
  started : list Task;
  finished : list Task;
}.

Definition ThreadPool_new (numThreads : nat) : ThreadPool :=
  mkThreadPool (replicate numThreads Waiting) [] false 0 false [] [] [].

Inductive Action : Type :=
| Submit (t : Task)
| Take (i : nat)
| Begin (i : nat)
| Finish (i : nat)
| Exit (i : nat)
| Stop
| Join.

Definition set_worker (i : nat) (w : Worker) (s : ThreadPool) : ThreadPool :=
  mkThreadPool (<[i := w]> (workers_ s)) (queue_ s) (stop_ s) (active_ s) (joined s) (accepted s) (started s) (finished s).

(** [Submit]; after the stop it throws and changes nothing, which is the action
    not being enabled. *)
Definition pool_submit (t : Task) (s : ThreadPool) : option ThreadPool :=
  if stop_ s then None
  else Some (mkThreadPool (workers_ s) (queue_ s ++ [t]) (stop_ s) (active_ s) (joined s) (accepted s ++ [t]) (started s) (finished s)).

(** The locked section of [WorkerLoop] behind the wait: a task, or the return. *)
Definition pool_take (i : nat) (s : ThreadPool) : option ThreadPool :=
  match workers_ s !! i, queue_ s with
  | Some Waiting, t :: q =>
      Some (mkThreadPool (<[i := Took t]> (workers_ s)) q (stop_ s) (active_ s) (joined s) (accepted s) (started s ++ [t]) (finished s))
  | _, _ => None
  end.

Definition pool_exit (i : nat) (s : ThreadPool) : option ThreadPool :=
  match workers_ s !! i, queue_ s with
  | Some Waiting, [] => if stop_ s then Some (set_worker i Exited s) else None
  | _, _ => None
  end.

(** [++active_], and the end of the task with [--active_]. *)
Definition pool_begin (i : nat) (s : ThreadPool) : option ThreadPool :=
  match workers_ s !! i with
  | Some (Took t) =>
      Some (mkThreadPool (<[i := Running t]> (workers_ s)) (queue_ s) (stop_ s) (S (active_ s)) (joined s) (accepted s) (started s) (finished s))
  | _ => None
  end.

Definition pool_finish (i : nat) (s : ThreadPool) : option ThreadPool :=
  match workers_ s !! i with
  | Some (Running t) =>
      Some (mkThreadPool (<[i := Waiting]> (workers_ s)) (queue_ s) (stop_ s) (pred (active_ s)) (joined s) (accepted s) (started s) (finished s ++ [t]))
  | _ => None
  end.

(** The two halves of [Shutdown]: the flag, and the joins. *)
Definition pool_stop (s : ThreadPool) : ThreadPool :=
  mkThreadPool (workers_ s) (queue_ s) true (active_ s) (joined s) (accepted s) (started s) (finished s).

Definition pool_join (s : ThreadPool) : option ThreadPool :=
  if stop_ s && forallb (fun w => match w with Exited => true | _ => false end) (workers_ s)
  then Some (mkThreadPool [] (queue_ s) (stop_ s) (active_ s) true (accepted s) (started s) (finished s))
  else None.

(** The next state, if the action is enabled. *)
Definition pool_step (a : Action) (s : ThreadPool) : option ThreadPool :=
  match a with
  | Submit t => pool_submit t s
  | Take i => pool_take i s
  | Begin i => pool_begin i s
  | Finish i => pool_finish i s
  | Exit i => pool_exit i s
  | Stop => Some (pool_stop s)
  | Join => pool_join s
  end.

Ltac unfold_step := unfold pool_submit, pool_take, pool_begin, pool_finish, pool_exit, pool_join in *.

Definition pool_steps (s s' : ThreadPool) : Prop := exists a, pool_step a s = Some s'.

Definition QueueDepth (s : ThreadPool) : nat := length (queue_ s).
Definition ActiveWorkers (s : ThreadPool) : nat := active_ s.
Definition NumThreads (s : ThreadPool) : nat := length (workers_ s).

(** ** Invariant *)

(** The tasks in the workers' hands. *)
Definition held (w : Worker) : list Task := match w with Took t | Running t => [t] | _ => [] end.
Definition running (w : Worker) : nat := match w with Running _ => 1 | _ => 0 end.

Record pool_inv (s : ThreadPool) : Prop := {
  inv_fifo : accepted s = started s ++ queue_ s;
  inv_held : started s ≡ₚ finished s ++ mjoin (held <$> workers_ s);
  inv_active : active_ s = sum_list (running <$> workers_ s);
  inv_exited : Exited ∈ workers_ s -> stop_ s = true /\ queue_ s = [];
  inv_joined : joined s = true -> stop_ s = true /\ workers_ s = [] /\ active_ s = 0%nat;
}.

(** Replacing one worker in a sum and in the held tasks. *)
Lemma held_insert ws i w w' : ws !! i = Some w ->
  held w ++ mjoin (held <$> <[i := w']> ws) ≡ₚ held w' ++ mjoin (held <$> ws).
Proof.
  revert i. induction ws as [|x ws IH]; intros [|i] Hi; try done.
  - inv Hi. rewrite !fmap_cons, !mjoin_cons. by rewrite Permutation_app_swap_app.
  - change (<[S i := w']> (x :: ws)) with (x :: <[i := w']> ws). rewrite !fmap_cons, !mjoin_cons.
    rewrite (Permutation_app_swap_app (held w)), (Permutation_app_swap_app (held w')). by rewrite IH.
Qed.

Lemma running_insert ws i w w' : ws !! i = Some w ->
  (running w + sum_list (running <$> <[i := w']> ws) = running w' + sum_list (running <$> ws))%nat.
Proof.
  revert i. induction ws as [|x ws IH]; intros [|i] Hi; try done.
  - inv Hi. simpl. lia.
  - specialize (IH i Hi). change (<[S i := w']> (x :: ws)) with (x :: <[i := w']> ws). rewrite !fmap_cons.
    cbn [sum_list_with]. lia.
Qed.

Lemma exited_insert (ws : list Worker) (i : nat) w : w <> Exited -> Exited ∈ <[i := w]> ws -> Exited ∈ ws.
Proof.
  intros Hw (j & Hj)%list_elem_of_lookup. apply list_lookup_insert_Some in Hj as [(-> & E & _)|(_ & Hj)]; [done|].
  by apply list_elem_of_lookup_2 in Hj.
Qed.

Lemma pool_inv_new n : pool_inv (ThreadPool_new n).
Proof.
  split; cbn; try done.
  - induction n as [|n IH]; [done|]. exact IH.
  - induction n as [|n IH]; [done|]. exact IH.
  - by intros [? ?]%elem_of_replicate.
Qed.

(** A pool that still has a worker has not been joined. *)
Lemma worker_not_joined s i w : pool_inv s -> workers_ s !! i = Some w -> joined s = false.
Proof.
  intros I Hi. destruct (joined s) eqn:Ej; [|done]. destruct (inv_joined s I Ej) as (_ & Hw & _). by rewrite Hw in Hi.
Qed.

(** What is left of the invariant when worker [i] goes from [w] to [w']. *)
Ltac worker_moves w' :=
  match goal with I : pool_inv ?s, Hi : workers_ ?s !! ?i = Some ?w |- _ =>
    let Hh := fresh "Hh" in let Hr := fresh "Hr" in let Hj := fresh "Hj" in
    pose proof (held_insert _ _ _ w' Hi) as Hh; pose proof (running_insert _ _ _ w' Hi) as Hr;
    pose proof (worker_not_joined s i w I Hi) as Hj; cbn in Hh, Hr;
    pose proof (inv_fifo s I); pose proof (inv_held s I); pose proof (inv_active s I); pose proof (inv_exited s I);
    split; cbn; try done; try lia; try (intros; congruence);
    try (intros Hx%exited_insert; [|done]; by destruct (inv_exited s I Hx))
  end.

Lemma pool_inv_worker a i s s' : a ∈ [Take i; Begin i; Finish i; Exit i] -> pool_inv s -> pool_step a s = Some s' -> pool_inv s'.
Proof.
  intros Ha I Hs. rewrite !elem_of_cons, elem_of_nil in Ha. destruct Ha as [->|[->|[->|[->|[]]]]]; cbn [pool_step] in Hs; unfold_step;
    destruct (workers_ s !! i) as [[|t|t|]|] eqn:Ei; try done.
  - destruct (queue_ s) as [|t q] eqn:Eq; inv Hs. worker_moves (Took t).
    + match goal with F : accepted s = _ |- _ => rewrite F, Eq end. by rewrite <- app_assoc.
    + rewrite (inv_held s I), Hh, <- !app_assoc. by rewrite (Permutation_app_comm (mjoin _) [t]).
    + intros Hx%exited_insert; [|done]. destruct (inv_exited s I Hx). congruence.
  - inv Hs. worker_moves (Running t). rewrite (inv_held s I). by apply Permutation_cons_inv in Hh as ->.
  - inv Hs. worker_moves Waiting. rewrite (inv_held s I), <- app_assoc. by rewrite <- Hh.
  - destruct (queue_ s) as [|t q] eqn:Eq; [|done]. destruct (stop_ s) eqn:Es; inv Hs. unfold set_worker. worker_moves Exited.
    by rewrite (inv_held s I), Hh.
Qed.

(** All workers have returned. *)
Lemma all_exited ws : forallb (fun w => match w with Exited => true | _ => false end) ws = true ->
  mjoin (held <$> ws) = [] /\ sum_list (running <$> ws) = 0%nat.
Proof. by induction ws as [|[] ws IH]. Qed.

Lemma pool_inv_step a s s' : pool_inv s -> pool_step a s = Some s' -> pool_inv s'.
Proof.
  intros I Hs. destruct a as [t|i|i|i|i| |]; try (eapply (pool_inv_worker _ i); [|done|done]; rewrite !elem_of_cons; tauto).
  - cbn in Hs. unfold_step. destruct I as [F H A E J]. destruct (stop_ s) eqn:Es; inv Hs. split; cbn; try done; [by rewrite F, app_assoc|].
    intros Hx. by destruct (E Hx).
  - cbn in Hs. unfold_step. destruct I as [F H A E J]. inv Hs. split; cbn; try done; intros Hx; [by destruct (E Hx)|by destruct (J Hx)].
  - cbn in Hs. unfold_step. destruct I as [F H A E J]. destruct (stop_ s && _) eqn:Eg; inv Hs. apply andb_true_iff in Eg as [Es Eg].
    destruct (all_exited _ Eg) as [Hh Hr]. split; cbn; try done.
    + by rewrite H, Hh.
    + by rewrite A, Hr.
    + by intros Hx%not_elem_of_nil.
    + intros _. split_and!; [done|done|]. by rewrite A, Hr.
Qed.

Lemma pool_inv_reachable n s : rtc pool_steps (ThreadPool_new n) s -> pool_inv s.
Proof.
  intros Hr. apply (rtc_ind_r (R := pool_steps) (fun s => pool_inv s) (ThreadPool_new n)); [apply pool_inv_new| |done].
  intros s1 s2 _ [a Ha] I. by eapply pool_inv_step.
Qed.

(** ** Shutting down *)

(** The worker actions left until every worker has returned. *)
Definition worker_work (w : Worker) : nat := match w with Waiting => 1 | Took _ => 3 | Running _ => 2 | Exited => 0 end.
Definition work_left (s : ThreadPool) : nat := 3 * length (queue_ s) + sum_list (worker_work <$> workers_ s).

Lemma work_insert ws i w w' : ws !! i = Some w ->
  (worker_work w + sum_list (worker_work <$> <[i := w']> ws) = worker_work w' + sum_list (worker_work <$> ws))%nat.
Proof.
  revert i. induction ws as [|x ws IH]; intros [|i] Hi; try done.
  - inv Hi. simpl. lia.
  - specialize (IH i Hi). change (<[S i := w']> (x :: ws)) with (x :: <[i := w']> ws). rewrite !fmap_cons.
    cbn [sum_list_with]. lia.
Qed.

Definition worker_action (a : Action) : bool := match a with Take _ | Begin _ | Finish _ | Exit _ => true | _ => false end.

(** Every worker action brings the end nearer. *)
Lemma worker_action_decreases a s s' : worker_action a = true -> pool_step a s = Some s' -> work_left s = S (work_left s').
Proof.
  intros Ha Hs. destruct a as [t|i|i|i|i| |]; try done; cbn [pool_step] in Hs; unfold_step;
    destruct (workers_ s !! i) as [[|t|t|]|] eqn:Ei; try done.
  - destruct (queue_ s) as [|t q] eqn:Eq; inv Hs. unfold work_left. cbn. rewrite Eq. pose proof (work_insert _ _ _ (Took t) Ei) as Hw.
    cbn in *. lia.
  - inv Hs. unfold work_left. cbn. pose proof (work_insert _ _ _ (Running t) Ei) as Hw. cbn in *. lia.
  - inv Hs. unfold work_left. cbn. pose proof (work_insert _ _ _ Waiting Ei) as Hw. cbn in *. lia.
  - destruct (queue_ s) as [|t q] eqn:Eq; [|done]. destruct (stop_ s); inv Hs. unfold work_left. cbn. rewrite Eq.
    pose proof (work_insert _ _ _ Exited Ei) as Hw. cbn in *. lia.
Qed.

(** After the stop, while a worker has not returned, some worker can act. *)
Lemma worker_can_act s : stop_ s = true -> Exists (fun w => w <> Exited) (workers_ s) ->
  exists a s', worker_action a = true /\ pool_step a s = Some s'.
Proof.
  intros Hs (w & (i & Hi)%list_elem_of_lookup & Hw)%Exists_exists. destruct w as [|t|t|]; try done.
  - destruct (queue_ s) as [|t q] eqn:Eq.
    + exists (Exit i). eexists. split; [done|]. cbn. unfold_step. by rewrite Hi, Eq, Hs.
    + exists (Take i). eexists. split; [done|]. cbn. unfold_step. by rewrite Hi, Eq.
  - exists (Begin i). eexists. split; [done|]. cbn. unfold_step. by rewrite Hi.
  - exists (Finish i). eexists. split; [done|]. cbn. unfold_step. by rewrite Hi.
Qed.

(** When the shutdown has returned the queue is empty, if there was a worker. *)
Lemma joined_queue n s : (0 < n)%nat -> rtc pool_steps (ThreadPool_new n) s -> joined s = true -> queue_ s = [].
Proof.
  intros Hn Hr. assert ((joined s = true -> stop_ s = true /\ queue_ s = []) /\ (joined s = false -> length (workers_ s) = n)) as [H _];
    [|by intros [_ ?]%H].
  apply (rtc_ind_r (R := pool_steps) (fun s => (joined s = true -> stop_ s = true /\ queue_ s = []) /\ (joined s = false -> length (workers_ s) = n))
    (ThreadPool_new n)); [|clear s Hr|done].
  - split; [done|]. intros _. apply length_replicate.
  - intros s s' Hr [a Ha] [IH1 IH2]. pose proof (pool_inv_reachable n s Hr) as I.
    destruct a as [t|i|i|i|i| |]; cbn [pool_step] in Ha; unfold_step; repeat case_match; inv Ha; cbn; rewrite ?length_insert;
      try (split; [intros Hj; destruct (IH1 Hj); congruence|done]); try (split; [intros Hj; by destruct (IH1 Hj)|done]).
    split; [|done]. intros _. bool_prop. split; [done|]. destruct (joined s) eqn:Ej; [by apply IH1|].
    specialize (IH2 eq_refl). destruct (workers_ s) as [|w ws] eqn:Ew; [simpl in IH2; lia|].
    apply (inv_exited s I). rewrite Ew. destruct w; try done. left.
Qed.

(** ** Theorem *)

(** The pool runs every task once, in order, and a shutdown waits for all of
    them.  In every state a pool of at least one thread can reach: the accepted
    tasks are those that were started, in the order of their acceptance, followed
    by the queue; a started task is finished or in the hands of one worker; and
    the counter is the number of running tasks.  After the stop no task is
    accepted, and while a worker has not returned some worker can act, each action
    reducing the number of those that remain; and when the shutdown has returned,
    every accepted task is finished. *)
Theorem pool_drains n s : (0 < n)%nat -> rtc pool_steps (ThreadPool_new n) s ->
  accepted s = started s ++ queue_ s /\ started s ≡ₚ finished s ++ mjoin (held <$> workers_ s) /\
  active_ s = sum_list (running <$> workers_ s) /\
  (stop_ s = true -> forall t, pool_step (Submit t) s = None) /\
  (stop_ s = true -> Exists (fun w => w <> Exited) (workers_ s) -> exists a s', worker_action a = true /\ pool_step a s = Some s') /\
  (forall a s', worker_action a = true -> pool_step a s = Some s' -> work_left s = S (work_left s')) /\
  (joined s = true -> finished s ≡ₚ accepted s).
Proof.
  intros Hn Hr. pose proof (pool_inv_reachable n s Hr) as I. split; [apply I|]. split; [apply I|]. split; [apply I|].
  split; [intros Hs t; cbn; unfold_step; by rewrite Hs|]. split; [by apply worker_can_act|]. split; [intros a s'; by apply worker_action_decreases|].
  intros Hj. pose proof (inv_held s I) as Hh. destruct (inv_joined s I Hj) as (_ & Hw & _). rewrite Hw in Hh. cbn in Hh.
  rewrite app_nil_r in Hh. rewrite <- Hh, (inv_fifo s I). rewrite (joined_queue n s Hn Hr Hj). by rewrite app_nil_r.
Qed.

(** ** Witness *)

(** Two tasks on one thread, then a shutdown. *)
Definition ex_run : list Action :=
  [Submit 7; Submit 8; Take 0; Stop; Begin 0; Finish 0; Take 0; Begin 0; Finish 0; Exit 0; Join]%nat.

Fixpoint run (acts : list Action) (s : ThreadPool) : option ThreadPool :=
  match acts with [] => Some s | a :: acts' => s' ← pool_step a s; run acts' s' end.

Lemma run_rtc acts : forall s s', run acts s = Some s' -> rtc pool_steps s s'.
Proof.
  induction acts as [|a acts IH]; intros s s' Hr; [by inv Hr|]. cbn in Hr. destruct (pool_step a s) as [s1|] eqn:E; [|done].
  eapply rtc_l; [by exists a|by apply IH].
Qed.

Lemma pool_drains_witness :
  exists s, run ex_run (ThreadPool_new 1) = Some s /\ joined s = true /\ finished s ≡ₚ [7; 8]%nat.
Proof.
  destruct (run ex_run (ThreadPool_new 1)) as [s|] eqn:E; [|by vm_compute in E]. exists s. split; [reflexivity|].
  destruct (pool_drains 1 s ltac:(lia) (run_rtc _ _ _ E)) as (_ & _ & _ & _ & _ & _ & H).
  vm_compute in E. injection E as <-. split; [reflexivity|]. exact (H eq_refl).
Defined.
