(* ===== verification/Timer.v ===== *)
(** * Timers (src/util/Timer.hpp)

    The one-shot timer as a state machine of its owner, who calls [Schedule] and
    [Cancel], and of the thread a [Schedule] starts.  The actions are the
    stretches of code between two points where the other thread can interfere;
    the mutex is held by the thread exactly while it runs the callback, and
    otherwise only inside an action.  The callbacks are numbered in the order
    they are scheduled.  The stopwatch is a function of the clock.

    The theorems: a callback runs at most once and never after a [Cancel] has
    returned; a [Cancel] can return once the callback does, unless the callback
    itself calls [Cancel], which blocks for good. *)
From S2P Require Import Prelude.
From Stdlib Require Import ZArith Lia.
From stdpp Require Import prelude list relations.

(** ** Clock *)

(** Times are nanoseconds; [duration_cast] truncates. *)
Definition ElapsedMs (now from : Z) : Z := Z.quot (now - from) 1000000.

Record Stopwatch := mkStopwatch { start_ : Z }.
Definition Stopwatch_new (now : Z) : Stopwatch := mkStopwatch now.
Definition Stopwatch_Reset (now : Z) (w : Stopwatch) : Stopwatch := mkStopwatch now.
Definition Stopwatch_ElapsedMs (now : Z) (w : Stopwatch) : Z := ElapsedMs now (start_ w).
Definition Stopwatch_ElapsedUs (now : Z) (w : Stopwatch) : Z := Z.quot (now - start_ w) 1000.

(** ** OneShotTimer *)

(** The thread: none, before its lock, in the wait, in the callback, in a call
    of [Cancel] from the callback, or returned but not joined. *)
Inductive TimerThread : Type := NoThread | Begun (cb : nat) | InWait (cb : nat) | InCallback (cb : nat) | SelfCancel (cb : nat) | Returned.

(** The owner: outside, or in [Cancel] (called by [Schedule] or not) at the join. *)
Inductive Owner : Type := Outside | Joining (next : option nat).

(** [scheduled] and [fired] record the history. *)
Record OneShotTimer := mkOneShotTimer {
  thread_ : TimerThread;
  cancelled_ : bool;
  owner : Owner;
  scheduled : nat;
  fired : list nat;
}.

Definition OneShotTimer_new : OneShotTimer := mkOneShotTimer NoThread true Outside 0 [].

Definition IsCancelled (t : OneShotTimer) : bool := cancelled_ t.

Inductive TimerAction : Type :=
| CallCancel (* Cancel up to the join *)
| CallSchedule (* the Cancel in Schedule, up to its join *)
| JoinThread (* the join, and the rest of Cancel or Schedule *)
| ThreadLock (* the thread takes the lock and tests the predicate *)
| ThreadWake (* a notification or a spurious wake-up *)
| ThreadTimeout (* the delay has passed *)
| CallbackCancel (* the callback calls Cancel *)
| CallbackReturn.

(** [mu_] is free. *)
Definition mu_free (t : OneShotTimer) : bool :=
  match thread_ t with InCallback _ | SelfCancel _ => false | _ => true end.

Definition set_thread (th : TimerThread) (t : OneShotTimer) : OneShotTimer :=
  mkOneShotTimer th (cancelled_ t) (owner t) (scheduled t) (fired t).

Definition cancel_begin (next : option nat) (t : OneShotTimer) : option OneShotTimer :=
  match owner t with
  | Outside => if mu_free t then Some (mkOneShotTimer (thread_ t) true (Joining next) (scheduled t) (fired t)) else None
  | Joining _ => None
  end.

(** The next state, if the action is enabled. *)
Definition timer_step (a : TimerAction) (t : OneShotTimer) : option OneShotTimer :=
  match a with
  | CallCancel => cancel_begin None t
  | CallSchedule => cancel_begin (Some (scheduled t)) t
  | JoinThread =>
      match owner t, thread_ t with
      | Joining None, (NoThread | Returned) => Some (mkOneShotTimer NoThread (cancelled_ t) Outside (scheduled t) (fired t))
      | Joining (Some cb), (NoThread | Returned) => Some (mkOneShotTimer (Begun cb) false Outside (S (scheduled t)) (fired t))
      | _, _ => None
      end
  | ThreadLock =>
      match thread_ t with
      | Begun cb => Some (set_thread (if cancelled_ t then Returned else InWait cb) t)
      | _ => None
      end
  | ThreadWake =>
      match thread_ t with
      | InWait cb => Some (set_thread (if cancelled_ t then Returned else InWait cb) t)
      | _ => None
      end
  | ThreadTimeout =>
      match thread_ t with
      | InWait cb =>
          if cancelled_ t then Some (set_thread Returned t)
          else Some (mkOneShotTimer (InCallback cb) (cancelled_ t) (owner t) (scheduled t) (fired t ++ [cb]))
      | _ => None
      end
  | CallbackCancel =>
      match thread_ t with InCallback cb => Some (set_thread (SelfCancel cb) t) | _ => None end
  | CallbackReturn =>
      match thread_ t with InCallback cb => Some (set_thread Returned t) | _ => None end
  end.

Definition timer_steps (t t' : OneShotTimer) : Prop := exists a, timer_step a t = Some t'.

(** ** Invariant *)

Record timer_inv (t : OneShotTimer) : Prop := {
  ti_once : NoDup (fired t);
  ti_fired : Forall (fun cb => cb < scheduled t)%nat (fired t);
  ti_pending : forall cb, thread_ t = Begun cb \/ thread_ t = InWait cb -> (cb < scheduled t)%nat /\ cb ∉ fired t;
  ti_next : forall cb, owner t = Joining (Some cb) -> cb = scheduled t;
  ti_joining : owner t <> Outside -> cancelled_ t = true;
  ti_quiet : owner t = Outside -> cancelled_ t = true -> thread_ t = NoThread;
}.

Lemma timer_inv_new : timer_inv OneShotTimer_new.
Proof. split; simpl; try done; [constructor|by intros cb [|]]. Qed.

Lemma timer_inv_step a t t' : timer_inv t -> timer_step a t = Some t' -> timer_inv t'.
Proof.
  destruct t as [th c o k f]. intros [I1 I2 I3 I4 I5 I6] E. simpl in *.
  assert (forall cb, cb ∈ f -> cb < k)%nat as Hf by (by apply Forall_forall).
  destruct a, th, c, o as [|[nx|]]; simpl in E; try discriminate; injection E as <-; split; simpl; try done;
    try (by intros ? [|]); try (by intros ? [[= <-]|[= <-]]; apply I3; auto); try (by auto); try (by intros ? [= <-]; auto).
  all: try discriminate (I6 eq_refl eq_refl); try discriminate (I5 ltac:(done)).
  all: try (specialize (I4 _ eq_refl); subst nx).
  all: try (intros ? [[= <-]|[= <-]]; split; [lia|by intros ?%Hf; lia]).
  all: try (apply Forall_forall; intros x Hx; specialize (Hf x Hx); lia).
  all: try (destruct (I3 cb (or_intror eq_refl)) as [Hlt Hni]).
  - apply NoDup_app. split_and!; [done| |apply NoDup_singleton]. by intros x Hx ->%list_elem_of_singleton.
  - apply Forall_app. split; [done|]. by constructor.
Qed.

Lemma timer_inv_reachable t : rtc timer_steps OneShotTimer_new t -> timer_inv t.
Proof.
  intros Hr. apply (rtc_ind_r (R := timer_steps) timer_inv OneShotTimer_new); [apply timer_inv_new| |done].
  intros y z _ [a E] Iy. by eapply timer_inv_step.
Qed.

(** ** Theorems *)

(** Callbacks run at most once each, only if scheduled; and when a [Cancel] has
    returned there is no thread, so no callback starts or is running before the
    next [Schedule]. *)
Theorem timer_cancelled_quiet t : rtc timer_steps OneShotTimer_new t ->
  NoDup (fired t) /\ Forall (fun cb => cb < scheduled t)%nat (fired t) /\
  (owner t = Outside -> IsCancelled t = true ->
   thread_ t = NoThread /\ forall a t', timer_step a t = Some t' -> fired t' = fired t /\ owner t' <> Outside).
Proof.
  intros I%timer_inv_reachable. split; [apply I|]. split; [apply I|]. intros Ho Hc. pose proof (ti_quiet _ I Ho Hc) as Ht.
  split; [done|]. intros a t' E. destruct t as [th c o k f]. simpl in *. subst.
  destruct a; simpl in E; try discriminate; by injection E as <-.
Qed.

(** The steps of the thread and the join, without the owner's calls or a
    [Cancel] from the callback. *)
Definition draining (t t' : OneShotTimer) : Prop :=
  exists a, a ∈ [JoinThread; ThreadLock; ThreadWake; CallbackReturn] /\ timer_step a t = Some t'.

(** A [Cancel] that waits for the thread returns within two steps of the
    thread's and its own. *)
Theorem cancel_returns t : rtc timer_steps OneShotTimer_new t -> owner t <> Outside ->
  (forall cb, thread_ t <> SelfCancel cb) -> exists t', rtc draining t t' /\ owner t' = Outside.
Proof.
  intros I%timer_inv_reachable Ho Hs. pose proof (ti_joining _ I Ho) as Hc. destruct t as [th c o k f]. simpl in *. subst c.
  assert (forall th', th' = NoThread \/ th' = Returned ->
    exists t', rtc draining (mkOneShotTimer th' true o k f) t' /\ owner t' = Outside) as Hj.
  { intros th' Hth. destruct o as [|[nx|]]; [done| |];
      (eexists; split; [apply rtc_once; exists JoinThread; split; [set_solver|by destruct Hth as [-> | ->]]|done]). }
  assert (forall a, a ∈ [JoinThread; ThreadLock; ThreadWake; CallbackReturn] ->
    timer_step a (mkOneShotTimer th true o k f) = Some (mkOneShotTimer Returned true o k f) ->
    exists t', rtc draining (mkOneShotTimer th true o k f) t' /\ owner t' = Outside) as Hstep.
  { intros a Ha E. destruct (Hj Returned) as (t' & Hr & Ht'); [by right|]. exists t'. split; [|done].
    eapply rtc_l; [exists a; split; [exact Ha|exact E]|done]. }
  destruct th; [by apply Hj; left|by apply (Hstep ThreadLock); [set_solver|]|by apply (Hstep ThreadWake); [set_solver|]
    |by apply (Hstep CallbackReturn); [set_solver|]|by destruct (Hs cb)|by apply Hj; right].
Qed.

(** A callback that calls [Cancel] waits for the mutex its own thread holds: no
    later step of anyone ends the wait or gives the owner's [Cancel] the lock. *)
Theorem callback_cancel_blocks t t' cb : thread_ t = SelfCancel cb -> rtc timer_steps t t' ->
  thread_ t' = SelfCancel cb /\ (owner t = Outside -> owner t' = Outside).
Proof.
  intros Ht Hr. revert Ht. induction Hr as [t|t u t' [a E] _ IH]; [done|]. intros Ht.
  destruct t as [th c o k f]. simpl in Ht. subst th. destruct a, o as [|[nx|]]; simpl in E; discriminate.
Qed.
