(* ===== verification/Logger.v ===== *)
(** * Logging (src/util/Logger.{hpp,cpp}, and its set-up in src/main.cpp)

    [Logger] wraps a logger of the library spdlog; formatting is the library
    fmt.  Both are parameters: the classes state what their documentation says
    of a logger's level and of what it writes.  [spd_written] is what has reached
    the sink. *)
From S2P Require Import Prelude CxxString.
From Stdlib Require Import ZArith Lia Ascii String.
From stdpp Require Import prelude list strings.

(** ** The libraries *)

Inductive SpdLevel : Type := spd_trace | spd_debug | spd_info | spd_warn | spd_err | spd_critical.

(** The levels are ordered. *)
Definition spd_rank (l : SpdLevel) : nat :=
  match l with spd_trace => 0 | spd_debug => 1 | spd_info => 2 | spd_warn => 3 | spd_err => 4 | spd_critical => 5 end.

Class SpdLog := {
  spd_logger : Type;
  spd_new : string -> spd_logger;
  spd_level : spd_logger -> SpdLevel;
  spd_set_level : SpdLevel -> spd_logger -> spd_logger;
  spd_set_pattern : string -> spd_logger -> spd_logger;
  spd_log : SpdLevel -> string -> spd_logger -> spd_logger;
  spd_written : spd_logger -> list (SpdLevel * string);
  fmt_format : string -> list string -> string;
}.

Class SpdLaws (L : SpdLog) := {
  level_set_level l g : spd_level (spd_set_level l g) = l;
  level_set_pattern p g : spd_level (spd_set_pattern p g) = spd_level g;
  level_log l m g : spd_level (spd_log l m g) = spd_level g;
  written_set_level l g : spd_written (spd_set_level l g) = spd_written g;
  written_set_pattern p g : spd_written (spd_set_pattern p g) = spd_written g;
  written_log l m g : spd_written (spd_log l m g) =
    if (spd_rank (spd_level g) <=? spd_rank l)%nat then spd_written g ++ [(l, m)] else spd_written g;
}.

(** ** The logger *)

Inductive LogLevel : Type := LvTrace | LvDebug | LvInfo | LvWarn | LvError | LvFatal.

Section Logger.
Context `{SpdLog}.
#[local] Open Scope string_scope.

Record Logger := mkLogger { logger_ : spd_logger; nodeId_ : string }.

(** The constructor; the instance is a static local. *)
Definition Logger_new : Logger :=
  mkLogger (spd_set_level spd_info (spd_set_pattern "[%Y-%m-%dT%H:%M:%S.%e] [%^%l%$] [%n] %v" (spd_new "orcdb"))) "".

Definition SetNodeId (nodeId : string) (l : Logger) : Logger :=
  mkLogger (spd_set_pattern (fmt_format "[%Y-%m-%dT%H:%M:%S.%e] [%^%l%$] [{}] %v" [nodeId]) (logger_ l)) nodeId.

Definition spd_of (level : LogLevel) : SpdLevel :=
  match level with
  | LvTrace => spd_trace | LvDebug => spd_debug | LvInfo => spd_info | LvWarn => spd_warn | LvError => spd_err | LvFatal => spd_critical
  end.

Definition SetLevel (level : LogLevel) (l : Logger) : Logger := mkLogger (spd_set_level (spd_of level) (logger_ l)) (nodeId_ l).

(** [Trace], [Debug], [Info], [Warn], [Error] and [Fatal]. *)
Definition Log (level : LogLevel) (msg : string) (l : Logger) : Logger := mkLogger (spd_log (spd_of level) msg (logger_ l)) (nodeId_ l).

(** [InfoF], [WarnF], [ErrorF] and [DebugF]. *)
Definition LogF (level : LogLevel) (f : string) (args : list string) : Logger -> Logger := Log level (fmt_format f args).

(** The set-up in [main]. *)
Definition main_level (logLevel : string) : LogLevel :=
  if String.eqb logLevel "debug" then LvDebug
  else if String.eqb logLevel "warn" then LvWarn
  else if String.eqb logLevel "error" then LvError
  else LvInfo.

Definition main_logging (nodeId logLevel : string) (l : Logger) : Logger :=
  LogF LvInfo "OrcDB v0.1.0 starting — node_id={}" [nodeId] (SetLevel (main_level logLevel) (SetNodeId nodeId l)).
End Logger.

(** ** Theorems *)

(** What a series of calls writes, after [main] has set the logger up: the
    messages at or above the configured level, in order, and no others. *)
Theorem logged_at_level {L : SpdLog} {W : SpdLaws L} nodeId logLevel msgs :
  let l0 := SetLevel (main_level logLevel) (SetNodeId nodeId Logger_new) in
  spd_written (logger_ (fold_left (fun l '(level, m) => Log level m l) msgs l0)) =
  spd_written (logger_ l0) ++
    ((fun '(level, m) => (spd_of level, m)) <$>
     filter (fun '(level, m) => (spd_rank (spd_of (main_level logLevel)) <= spd_rank (spd_of level))%nat) msgs).
Proof.
  intros l0. assert (spd_level (logger_ l0) = spd_of (main_level logLevel)) as Hl by apply level_set_level. clearbody l0. revert l0 Hl.
  induction msgs as [|[level m] msgs IH]; intros l0 Hl; cbn [fold_left]; [by rewrite app_nil_r|].
  rewrite IH by (cbn; by rewrite level_log). cbn [logger_ Log]. rewrite written_log, Hl, filter_cons.
  destruct (Nat.leb_spec (spd_rank (spd_of (main_level logLevel))) (spd_rank (spd_of level))) as [Hle|Hlt].
  - rewrite decide_True by done. rewrite fmap_cons. by rewrite <- app_assoc.
  - rewrite decide_False by lia. done.
Qed.

(** ** An instance *)

Definition RefSpd : SpdLog := {|
  spd_logger := SpdLevel * list (SpdLevel * string);
  spd_new _ := (spd_info, []);
  spd_level := fst;
  spd_set_level l g := (l, g.2);
  spd_set_pattern _ g := g;
  spd_log l m g := if (spd_rank g.1 <=? spd_rank l)%nat then (g.1, g.2 ++ [(l, m)]) else g;
  spd_written := snd;
  fmt_format f args := String.concat " " (f :: args);
|}.

#[global] Instance RefSpd_laws : SpdLaws RefSpd.
Proof. split; intros; cbn; try done; by destruct (_ <=? _)%nat. Qed.

(** With "warn" the start-up message is not written. *)
Example main_logging_warn :
  spd_written (logger_ (Log LvError "disk" (@main_logging RefSpd "node1" "warn" Logger_new))) = [(spd_err, "disk"%string)].
Proof. by vm_compute. Qed.
