(* ===== verification/Main.v ===== *)
(** * The process (src/main.cpp)

    [main] reads its arguments and the configuration, starts the node, the RPC
    server and the HTTP server, serves until a signal, and stops them in the
    opposite order.  The process is the three components of [RaftThreads],
    [RpcListener] and [TcpLifecycle] on one shared node; their threads interleave
    with the main thread, which runs the calls of [Stop] one after the other.
    [main] catches nothing, so an exception on the way up ends the process.

    The theorems: when [main] returns, every thread it started directly is
    joined; but a connection of the RPC server can still be served, by a detached
    thread with a pointer to an object that is gone. *)
From S2P Require Import Prelude CxxString CxxMap Json KVStore RaftRPC WriteAheadLog RaftLog RaftNode Http Auth Api Metrics TcpServer Config.
From S2P Require Import RaftThreads RpcListener TcpLifecycle.
From Stdlib Require Import ZArith Lia Ascii String.
From stdpp Require Import prelude gmap strings.
#[local] Open Scope Z_scope.

(** ** The way up *)

(** The loop over the arguments: the last [--config] that has a successor wins. *)
Fixpoint main_configPath (args : list string) (configPath : option string) : option string :=
  match args with
  | a :: ((b :: _) as rest) => main_configPath rest (if String.eqb a "--config" then Some b else configPath)
  | _ => configPath
  end.

(** [argv] without the program. *)
Definition main_config `{YamlLib} (env : Environment) (args : list string) : Res NodeConfig := Load env (main_configPath args None).

Definition main_serverCfg (cfg : NodeConfig) : TcpConfig :=
  mkTcpConfig (bindAddress (nc_server cfg)) (clientPort (nc_server cfg)) 1024 (numIoThreads (nc_server cfg)).

(** Where the main thread is. *)
Inductive MainPc : Type := MServing | MStopHttp | MStopRpc | MStopRaft | MExited.

#[global] Instance MainPc_eq_dec : EqDecision MainPc.
Proof. solve_decision. Defined.

Record Process := mkProcess {
  raft : Threads;
  rpc : RaftRpcServer;
  http : Control (OrcMetrics * RaftNode);
  phase : MainPc;
  gShutdown : bool;
}.

(** The outcomes of the system calls of [RaftRpcServer::Start]. *)
Record RpcSyscalls := mkRpcSyscalls { rs_socket : Z; rs_bind : bool; rs_listen : bool }.

Section Main.
Context `{JsonLib} `{HashOrder}.
(** The handler of the HTTP server, [main_serve] with the libraries and the
    validator it uses. *)
Variable serve : HttpRequest -> M (OrcMetrics * RaftNode) HttpResponse.

(** The node and the RPC server; [j] is the journal in the data directory. *)
Definition main_start_raft (cfg : NodeConfig) (j : journal) (clock : nat -> Z) (now : Z) (rs : RpcSyscalls) : Res (Threads * RaftRpcServer) :=
  match RaftNode_new (main_raftCfg cfg) KVStore_new (Some j) clock now with
  | (_, Throw _) => Throw terminate
  | (n, Ok _) =>
      match RaftThreads.Start (Threads_new n),
            RpcListener.Start (rs_socket rs) (rs_bind rs) (rs_listen rs) (RaftRpcServer_new (raftPort (nc_server cfg))) with
      | Some th, (r, Ok _) => Ok (th, r)
      | _, _ => Throw terminate
      end
  end.

(** All of it, up to the loop. *)
Definition main_start (cfg : NodeConfig) (j : journal) (clock : nat -> Z) (now : Z) (rs : RpcSyscalls) (sy : Syscalls) (m : OrcMetrics) : Res Process :=
  '(th, r) ← main_start_raft cfg j clock now rs;
  match TcpLifecycle.Start sy (Control_new (main_serverCfg cfg) (m, node th)) with
  | (_, Throw _) => Throw terminate
  | (h, Ok _) => Ok (mkProcess th r h MServing false)
  end.

(** The handler of SIGINT and SIGTERM. *)
Definition SignalHandler (p : Process) : Process := mkProcess (raft p) (rpc p) (http p) (phase p) true.

(** ** The threads on the shared node *)

Definition with_app (s : OrcMetrics * RaftNode) (h : Control (OrcMetrics * RaftNode)) : Control (OrcMetrics * RaftNode) :=
  let srv := server h in TcpLifecycle.set_server (mkTcpServer (connections_ srv) (nextThread_ srv) (totalConnections_ srv) s) h.

(** A step of the HTTP server: its handler works on the node of the process. *)
Definition http_step (a : TcpAction) (p : Process) : option Process :=
  let s := (TcpServer.app (server (http p))).1 in
  h ← tcp_step serve a (with_app (s, node (raft p)) (http p));
  Some (mkProcess (put_node (TcpServer.app (server h)).2 (raft p)) (rpc p) h (phase p) (gShutdown p)).

Definition raft_step (a : ThreadAction) (p : Process) : option Process :=
  th ← thread_step a (raft p);
  Some (mkProcess th (rpc p) (http p) (phase p) (gShutdown p)).

Definition rpc_server_step (a : RpcAction) (p : Process) : option Process :=
  r ← rpc_step a (rpc p);
  Some (mkProcess (raft p) r (http p) (phase p) (gShutdown p)).

Definition set_phase (ph : MainPc) (p : Process) : Process := mkProcess (raft p) (rpc p) (http p) ph (gShutdown p).

(** The main thread: a turn of the loop, or the next piece of a [Stop]. *)
Definition main_step (p : Process) : option Process :=
  match phase p with
  | MServing =>
      if gShutdown p then set_phase MStopHttp <$> http_step TaStop p
      else
        let srv := server (http p) in
        m ← main_update (node (raft p)) (Z.of_nat (ActiveConnections srv)) (TcpServer.app srv).1;
        Some (mkProcess (raft p) (rpc p) (with_app (m, node (raft p)) (http p)) MServing false)
  | MStopHttp =>
      if bool_decide (TcpLifecycle.stopping (http p) = TsOutside) then set_phase MStopRpc <$> rpc_server_step RpcStop p
      else http_step TaStopStep p
  | MStopRpc =>
      if bool_decide (RpcListener.stopping (rpc p) = RsOutside) then set_phase MStopRaft <$> raft_step ActStop p
      else rpc_server_step RpcStopStep p
  | MStopRaft =>
      if bool_decide (RaftThreads.stopping (raft p) = StOutside) then Some (set_phase MExited p)
      else raft_step ActStopStep p
  | MExited => None
  end.

Inductive ProcessAction : Type :=
| PMain
| PSignal (* SIGINT or SIGTERM *)
| PRaft (a : ThreadAction) (* the node's threads *)
| PRpcAccept (accepted : option Z)
| PRpcCall (fd : Z) (a : ThreadAction) (* HandleConn on a connection *)
| PRpcEnd (fd : Z)
| PHttpAccept (ret : AcceptReturn)
| PHttpIo (i : nat) (reported : list IoEvent).

Definition is_rpc_call (a : ThreadAction) : bool := match a with ActAppend _ _ | ActVote _ _ => true | _ => false end.
Definition is_loop (a : ThreadAction) : bool :=
  match a with ActElection _ _ _ | ActReplication _ _ | ActApply _ | ActSpurious => true | _ => false end.

Definition process_step (a : ProcessAction) (p : Process) : option Process :=
  if bool_decide (phase p = MExited) || RaftThreads.aborted (raft p) || TcpLifecycle.aborted (http p) then None
  else match a with
  | PMain => main_step p
  | PSignal => Some (SignalHandler p)
  | PRaft a => if is_loop a then raft_step a p else None
  | PRpcAccept accepted => rpc_server_step (RpcAccept accepted) p
  | PRpcCall fd a => if is_rpc_call a && bool_decide (fd ∈ handlers (rpc p)) then raft_step a p else None
  | PRpcEnd fd => rpc_server_step (RpcHandlerEnd fd) p
  | PHttpAccept ret => http_step (TaAccept ret) p
  | PHttpIo i reported => http_step (TaIo i reported) p
  end.

Fixpoint process_exec (acts : list ProcessAction) (p : Process) : option Process :=
  match acts with
  | [] => Some p
  | a :: rest => p' ← process_step a p; process_exec rest p'
  end.
End Main.

(** ** Lemmas *)

Section Workers.
Context {J : JsonLib} {HO : HashOrder} {A : Type} (handler_ : HttpRequest -> M A HttpResponse).

(** The threads do not touch the flags of a [Stop]. *)
Lemma http_worker a (t t' : Control A) : tcp_step handler_ a t = Some t' -> a <> TaStop -> a <> TaStopStep ->
  TcpLifecycle.running_ t' = TcpLifecycle.running_ t /\ TcpLifecycle.stopping t' = TcpLifecycle.stopping t.
Proof.
  unfold tcp_step. destruct (TcpLifecycle.aborted t); [done|]. destruct a as [| |ret|i reported]; try done; intros Hs _ _.
  - unfold TcpLifecycle.AcceptLoop_step in Hs. destruct (TcpLifecycle.acceptThread_ t) as [| | | | |fd|fd tid|], ret as [efd|[|]|[fd'|]|ok|]; try done;
      try by injection Hs as <-.
    + case_bool_decide; [|done]. by injection Hs as <-.
    + destruct (TcpLifecycle.running_ t) eqn:E; injection Hs as <-; by rewrite <- E.
    + case_bool_decide; [|done]. by injection Hs as <-.
    + case_if_in Hs; [|done]. by injection Hs as <-.
    + injection Hs as <-. unfold accept_insert. cbv zeta. by case_if.
    + injection Hs as <-. unfold accept_register. by destruct ok.
  - unfold IoLoop_step in Hs. destruct (ioThreads_ t !! i) as [[| |[|ev evs]|x evs|]|]; try done; try by injection Hs as <-.
    + destruct (reportable i reported t); [|done]. by injection Hs as <-.
    + destruct (connections_ (server t) !! ev_fd ev); [|by injection Hs as <-].
      destruct (handle_event _ _ _) as [[c' s'] [[|]|e]]; by injection Hs as <-.
Qed.

Lemma rpc_worker a t t' : rpc_step a t = Some t' -> a <> RpcStop -> a <> RpcStopStep ->
  RpcListener.running_ t' = RpcListener.running_ t /\ RpcListener.stopping t' = RpcListener.stopping t.
Proof.
  destruct a as [| |accepted|fd]; try done; cbn [rpc_step]; intros Hs _ _.
  - unfold RpcListener.AcceptLoop_step in Hs. destruct (RpcListener.acceptThread_ t); try done; [by injection Hs as <-|].
    destruct accepted; [destruct (_ && _); [|done]|]; by injection Hs as <-.
  - unfold HandleConn_end in Hs. case_bool_decide; [|done]. by injection Hs as <-.
Qed.

Lemma raft_worker a t t' : thread_step a t = Some t' -> is_loop a || is_rpc_call a = true ->
  RaftThreads.running_ t' = RaftThreads.running_ t /\ RaftThreads.stopping t' = RaftThreads.stopping t.
Proof.
  assert (forall x y n', RaftThreads.running_ (after_section x y n' t) = RaftThreads.running_ t /\
    RaftThreads.stopping (after_section x y n' t) = RaftThreads.stopping t) as Hsec.
  { intros x y n'. destruct (after_section_keeps x y n' t) as (? & ? & _). done. }
  unfold thread_step. destruct (RaftThreads.aborted t); [done|]. intros Hs Ha.
  destruct a as [| | |now d fs|now o|now|now req|now req|k v op ttl|]; try done; revert Hs.
  - unfold ElectionLoop_step. destruct (electionThread_ t); try done; unlock; repeat case_if; try done; unlock;
      try (destruct (StartElection now fs (node t)) as [n' [u|e]]; cbn); by intros [= <-].
  - unfold ReplicationLoop_step. destruct (replicationThread_ t); try done; cbv zeta; unlock; intros [= <-]; try done. cbn. apply Hsec.
  - unfold ApplyLoop_step. destruct (RaftThreads.applyThread_ t); try done; unlock; try (destruct (ApplyLoop_pass now (node t)) as [n' [u|e]]); by intros [= <-].
  - destruct (HandleAppendEntries now req (node t)) as [n' r]. cbv zeta. unlock. intros E%(inj Some). subst t'. apply Hsec.
  - destruct (HandleRequestVote now req (node t)) as [n' r]. cbv zeta. unlock. intros E%(inj Some). subst t'. apply Hsec.
  - intros [= <-]. assert (notify_apply (notify_election t) = after_section true true (node t) t) as -> by (by destruct t). apply Hsec.
Qed.
End Workers.

(** ** The invariant *)

(** What each component has come to, by the place of the main thread. *)
Definition http_at {S} (ph : MainPc) (h : Control S) : Prop :=
  match ph with
  | MServing => TcpLifecycle.running_ h = true /\ TcpLifecycle.stopping h = TsOutside
  | MStopHttp => closing h
  | _ => closing h /\ TcpLifecycle.stopping h = TsOutside
  end.
Definition rpc_at (ph : MainPc) (r : RaftRpcServer) : Prop :=
  match ph with
  | MServing | MStopHttp => RpcListener.running_ r = true /\ RpcListener.stopping r = RsOutside
  | MStopRpc => RpcListener.running_ r = false
  | _ => RpcListener.running_ r = false /\ RpcListener.stopping r = RsOutside
  end.
Definition raft_at (ph : MainPc) (t : Threads) : Prop :=
  match ph with
  | MStopRaft => RaftThreads.running_ t = false
  | MExited => RaftThreads.running_ t = false /\ RaftThreads.stopping t = StOutside /\ RaftThreads.aborted t = false
  | _ => RaftThreads.running_ t = true /\ RaftThreads.stopping t = StOutside
  end.

Record process_inv (p : Process) : Prop := {
  pi_http : http_at (phase p) (http p);
  pi_rpc : rpc_at (phase p) (rpc p);
  pi_tidy : tidy (rpc p);
  pi_raft : raft_at (phase p) (raft p);
  pi_life : RaftThreads.aborted (raft p) = true \/ life (raft p);
}.

Lemma life_put_node n t : RaftThreads.aborted t = true \/ life t -> RaftThreads.aborted (put_node n t) = true \/ life (put_node n t).
Proof. intros [?|Hl]; [by left|right]. by apply (life_frame t). Qed.

Lemma raft_at_put_node ph n t : raft_at ph t -> raft_at ph (put_node n t).
Proof. by destruct ph. Qed.

Lemma http_at_app ph s h : http_at ph h -> http_at ph (with_app s h).
Proof.
  assert (closing h -> closing (with_app s h)) as Hc by (intros []; by split). destruct ph; cbn; auto; intros [? ?]; split; auto.
Qed.

Section Preservation.
Context {J : JsonLib} {HO : HashOrder}.
Variable serve : HttpRequest -> M (OrcMetrics * RaftNode) HttpResponse.

(** A step of the HTTP server's threads. *)
Lemma http_worker_inv a p p' : process_inv p -> a <> TaStop -> a <> TaStopStep -> http_step serve a p = Some p' -> process_inv p'.
Proof.
  intros [Ih Ir It Ia Il] Hn1 Hn2. unfold http_step. intros (h & Eh & [= <-])%bind_Some.
  apply (http_at_app (phase p) ((TcpServer.app (server (http p))).1, node (raft p))) in Ih.
  split; cbn [http rpc raft phase]; auto using life_put_node, raft_at_put_node. set (h0 := with_app _ _) in *.
  destruct (http_worker serve a h0 h Eh Hn1 Hn2) as [Er Es].
  assert (closing h0 -> closing h) as Hc.
  { intros Hcl. unfold tcp_step in Eh. destruct (TcpLifecycle.aborted h0) eqn:Eb; [done|]. destruct a; [done|done|by eapply closing_accept|by eapply closing_io]. }
  destruct (phase p); cbn in *; rewrite ?Er, ?Es; try done; [by apply Hc|..]; (destruct Ih; split; auto).
Qed.

(** A step of the RPC server's threads. *)
Lemma rpc_worker_inv a p p' : process_inv p -> a <> RpcStop -> a <> RpcStopStep -> rpc_server_step a p = Some p' -> process_inv p'.
Proof.
  intros [Ih Ir It Ia Il] Hn1 Hn2. unfold rpc_server_step. intros (r & Er & [= <-])%bind_Some. split; cbn; auto; [|by eapply tidy_step].
  destruct (rpc_worker a (rpc p) r Er Hn1 Hn2) as [E1 E2]. destruct (phase p); cbn in *; by rewrite ?E1, ?E2.
Qed.

(** A step of the node's threads, or an RPC. *)
Lemma raft_worker_inv a p p' : process_inv p -> phase p <> MExited -> is_loop a || is_rpc_call a = true -> raft_step a p = Some p' -> process_inv p'.
Proof.
  intros [Ih Ir It Ia Il] Hx Ha. unfold raft_step. intros (t & Et & [= <-])%bind_Some. split; cbn; auto.
  - destruct (raft_worker a (raft p) t Et Ha) as [E1 E2]. destruct (phase p); cbn in *; rewrite ?E1, ?E2; done.
  - destruct Il as [Hb|Hl]; [|by apply (life_step a (raft p))]. unfold thread_step in Et. by rewrite Hb in Et.
Qed.

Lemma main_step_inv p p' : process_inv p -> RaftThreads.aborted (raft p) = false -> main_step serve p = Some p' -> process_inv p'.
Proof.
  intros Hi Hb. pose proof Hi as [Ih Ir It Ia Il]. unfold main_step. destruct (phase p) eqn:Ep; cbn [http_at rpc_at raft_at] in *; try done.
  - destruct (gShutdown p).
    + unfold http_step. intros (q & (h & Eh & [= <-])%bind_Some & ->)%fmap_Some. split; cbn [set_phase http rpc raft phase http_at rpc_at raft_at]; auto using life_put_node.
      destruct Ih as [Hr Hs]. unfold tcp_step in Eh. destruct (TcpLifecycle.aborted _); [done|].
      destruct (Stop_closing (with_app ((TcpServer.app (server (http p))).1, node (raft p)) (http p)) Hr Hs) as (h1 & E1 & Hc). rewrite E1 in Eh. by injection Eh as <-.
    + cbv zeta. intros (m & _ & [= <-])%bind_Some. split; cbn [set_phase http rpc raft phase http_at rpc_at raft_at]; auto.
  - case_bool_decide as Es.
    + unfold rpc_server_step. intros (q & (r & Er & [= <-])%bind_Some & ->)%fmap_Some. split; cbn [set_phase http rpc raft phase http_at rpc_at raft_at]; auto; [|by eapply tidy_step].
      destruct Ir as [Hr Hs]. cbn in Er. unfold RpcListener.Stop in Er. rewrite Hs, Hr in Er. by injection Er as <-.
    + unfold http_step. intros (h & Eh & [= <-])%bind_Some. split; cbn [http rpc raft phase]; rewrite ?Ep; cbn [http_at rpc_at raft_at]; auto using life_put_node.
      apply (http_at_app MStopHttp ((TcpServer.app (server (http p))).1, node (raft p))) in Ih. cbn in Ih. unfold tcp_step in Eh.
      destruct (TcpLifecycle.aborted _); [done|]. by eapply closing_stop.
  - case_bool_decide as Es.
    + unfold raft_step. intros (q & (t & Et & [= <-])%bind_Some & ->)%fmap_Some. destruct Il as [?|Hl]; [congruence|]. split; cbn [set_phase http rpc raft phase http_at rpc_at raft_at]; auto.
      * destruct Ia as [Hr Hs]. unfold thread_step, RaftThreads.Stop in Et. rewrite Hb, Hs, Hr in Et. by injection Et as <-.
      * by apply (life_step ActStop (raft p)).
    + unfold rpc_server_step. intros (r & Er & [= <-])%bind_Some. split; cbn [http rpc raft phase]; rewrite ?Ep; cbn [http_at rpc_at raft_at]; auto; [|by eapply tidy_step].
      cbn in Er. by destruct (rpc_rank_step RpcStopStep (rpc p) r Ir eq_refl Er) as [? _].
  - case_bool_decide as Es.
    + intros [= <-]. split; cbn [set_phase http rpc raft phase http_at rpc_at raft_at]; auto.
    + unfold raft_step. intros (t & Et & [= <-])%bind_Some. destruct Il as [?|Hl]; [congruence|]. split; cbn [http rpc raft phase]; rewrite ?Ep; cbn [http_at rpc_at raft_at]; auto.
      * unfold thread_step in Et. rewrite Hb in Et. unfold RaftThreads.Stop_step in Et. destruct (RaftThreads.stopping (raft p)); try done;
          [| | |destruct (electionThread_ (raft p)); try done|destruct (replicationThread_ (raft p)); try done|destruct (RaftThreads.applyThread_ (raft p)); try done];
          injection Et as <-; cbn; try done; [unfold notify_election|unfold notify_apply]; by case_match.
      * by apply (life_step ActStopStep (raft p)).
Qed.

Lemma process_step_inv a p p' : process_inv p -> process_step serve a p = Some p' -> process_inv p'.
Proof.
  intros Hi. unfold process_step. case_bool_decide as Hx; [done|]. cbn [orb]. destruct (RaftThreads.aborted (raft p)) eqn:Eb; [done|].
  cbn [orb]. destruct (TcpLifecycle.aborted (http p)); [done|]. destruct a as [| |a|accepted|fd a|fd|ret|i reported].
  - by apply main_step_inv.
  - intros [= <-]. destruct Hi. by split.
  - destruct (is_loop a) eqn:E; [|done]. apply raft_worker_inv; [done|done|by rewrite E].
  - by apply rpc_worker_inv.
  - destruct (is_rpc_call a) eqn:E; [|done]. case_bool_decide; [|done]. apply raft_worker_inv; [done|done|by rewrite E, orb_true_r].
  - by apply rpc_worker_inv.
  - by apply http_worker_inv.
  - by apply http_worker_inv.
Qed.

Lemma process_exec_inv acts : forall p p', process_inv p -> process_exec serve acts p = Some p' -> process_inv p'.
Proof.
  induction acts as [|a acts IH]; intros p p' Hi; cbn [process_exec]; [by intros [= <-]|]. intros (p1 & E1 & E2)%bind_Some.
  eapply IH; [|done]. by eapply process_step_inv.
Qed.

Lemma start_io_flags {S} k : forall efds (t : Control S), let t' := (start_io k efds t).1 in
  TcpLifecycle.running_ t' = TcpLifecycle.running_ t /\ TcpLifecycle.stopping t' = TcpLifecycle.stopping t.
Proof.
  induction k as [|k IH]; intros efds t; cbn [start_io]; [done|]. destruct (default (-1) (head efds) <? 0); [done|]. rewrite bind_modify.
  destruct (IH (tail efds) (set_io (ioThreads_ t ++ [IoTest]) (set_epolls (epollFds_ t ++ [default (-1) (head efds)]) (TcpLifecycle.sys_open (default (-1) (head efds)) t))))
    as [E1 E2]. by rewrite E1, E2.
Qed.

Lemma http_started {S} sy config (a : S) h : TcpLifecycle.Start sy (Control_new config a) = (h, Ok tt) ->
  TcpLifecycle.running_ h = true /\ TcpLifecycle.stopping h = TsOutside.
Proof.
  unfold TcpLifecycle.Start. rewrite bind_modify. destruct (sy_socket sy <? 0); [done|]. destruct (sy_bind sy); cbn [negb]; [|by rewrite bind_getS].
  destruct (sy_listen sy); cbn [negb]; [|done]. rewrite bind_modify, bind_getS. set (t1 := TcpLifecycle.set_running _ _).
  destruct (start_io_flags (Z.to_nat (tc_numIoThreads (TcpLifecycle.config_ t1))) (sy_epolls sy) t1) as [E1 E2].
  unfold mbind, M_bind. destruct (start_io _ _ t1) as [t2 [u|e]]; [|done]. cbn [fst] in *. unfold getS. case_bool_decide; [|done]. intros [= <-].
  cbn. by rewrite E1, E2.
Qed.

Lemma main_start_inv cfg j clock now rs sy m p : main_start cfg j clock now rs sy m = Ok p -> process_inv p /\ phase p = MServing.
Proof.
  unfold main_start, main_start_raft. destruct (RaftNode_new _ _ _ _ _) as [n [u|e]]; [|done].
  destruct (RaftThreads.Start (Threads_new n)) as [th|] eqn:Et; [|done].
  destruct (RpcListener.Start _ _ _ _) as [r [[]|e]] eqn:Er; [|done]. cbn [mbind Res_bind]. destruct (TcpLifecycle.Start _ _) as [h [[]|e]] eqn:Eh; [|done]. intros [= <-].
  split; [|done]. destruct (Start_tidy _ _ _ _ _ Er) as (Ht & Hr & Hs). destruct (http_started _ _ _ _ Eh) as [? ?]. cbn in Et. injection Et as <-.
  split; cbn; try done. right. by split.
Qed.
End Preservation.

(** ** Theorems *)

(** C30: a clean exit.  In every run of the process, from the moment [main] has
    started the servers, over any interleaving of elections, RPCs, clients and
    signals, when [main] has returned: the node's three threads are joined, the
    accept thread of the RPC server and all threads of the HTTP server are joined,
    and both listening sockets are closed. *)
Theorem main_exits_clean {J : JsonLib} {HO : HashOrder} serve cfg j clock now rs sy m p0 acts p :
  main_start cfg j clock now rs sy m = Ok p0 -> process_exec serve acts p0 = Some p -> phase p = MExited ->
  joined (raft p) /\ RpcListener.acceptThread_ (rpc p) = RaNone /\ RpcListener.listenFd_ (rpc p) < 0 /\
  ioThreads_ (http p) = [] /\ TcpLifecycle.acceptThread_ (http p) = AcNone /\ TcpLifecycle.listenFd_ (http p) < 0.
Proof.
  intros H0 Hx Hp. destruct (process_exec_inv serve acts p0 p (proj1 (main_start_inv _ _ _ _ _ _ _ _ H0)) Hx) as [Ih Ir [_ _ Tc Tj _] Ia Il].
  rewrite Hp in *. cbn in *. destruct Ia as (Rr & Rs & Rb). destruct Il as [?|[_ Lo]]; [congruence|]. destruct (Lo Rr) as (L1 & L2 & L3).
  rewrite Rs in L1, L2, L3. cbn in *. destruct Ih as [[Cr Cl Ca Ci Co] Hs], Ir as [Pr Ps]. rewrite Hs in *. split_and!.
  - split_and!; [apply L1|apply L2|apply L3]; lia.
  - by apply Tj.
  - apply Tc; [done|by rewrite Ps].
  - by apply Co.
  - apply Ca. cbn. lia.
  - by apply Cl.
Qed.

(** ** Examples *)

Section MainExamples.
#[local] Existing Instances RefJson RefCrypto RefHash.
#[local] Open Scope string_scope.
#[local] Open Scope Z_scope.

Definition ex_args : list string := ["--config"; "a.yaml"; "--verbose"; "--config"; "b.yaml"].

(** The last file wins; a [--config] without a file is ignored. *)
Example configPath_last : main_configPath ex_args None = Some "b.yaml" /\ main_configPath ["--config"] None = None.
Proof. split; by vm_compute. Qed.

Definition ex_node_config : NodeConfig :=
  mkNodeConfig "n1" (mkServerConfig "0.0.0.0" 2379 2380 1) StorageConfig_new RaftTimings_new AuthConfig_new [] "info".

Definition ex_boot : Res Process :=
  main_start ex_node_config [] (fun _ => 0) 0 (mkRpcSyscalls 3 true true) (mkSyscalls 4 true true [5]) OrcMetrics_new.

(** A peer connects; the process is told to stop, and does. *)
Definition ex_shutdown : list ProcessAction :=
  [PRpcAccept None; PRpcAccept (Some 10); PMain; PSignal; PMain; PMain; PHttpAccept (RetEpoll 20); PHttpAccept RetNothing; PMain; PHttpIo 0 []; PMain; PMain;
   PMain; PMain; PRpcAccept None; PMain;
   PMain; PMain; PMain; PMain; PRaft (ActElection 0 0 []); PMain; PRaft (ActReplication 0 (fun _ => None)); PMain; PRaft (ActApply 0); PMain; PMain].

Definition ex_serve : HttpRequest -> M (OrcMetrics * RaftNode) HttpResponse := main_serve quiet_env 0 ex_validator 0%nat.

Definition ex_process : Process := match ex_boot with Ok p => p | Throw _ => mkProcess (Threads_new (RaftNode_init (main_raftCfg ex_node_config) KVStore_new None))
  (RaftRpcServer_new 0) (Control_new (main_serverCfg ex_node_config) (OrcMetrics_new, RaftNode_init (main_raftCfg ex_node_config) KVStore_new None)) MServing false end.
Definition ex_exited : Process := default ex_process (process_exec ex_serve ex_shutdown ex_process).

Lemma ex_boot_ok : main_start ex_node_config [] (fun _ => 0) 0 (mkRpcSyscalls 3 true true) (mkSyscalls 4 true true [5]) OrcMetrics_new = Ok ex_process.
Proof. by vm_compute. Qed.
Lemma ex_shutdown_run : process_exec ex_serve ex_shutdown ex_process = Some ex_exited.
Proof. by vm_compute. Qed.
Lemma ex_exited_phase : phase ex_exited = MExited.
Proof. by vm_compute. Qed.

(** The thread of the peer's connection is still in [HandleConn]. *)
Example handlers_outlive_main : phase ex_exited = MExited /\ handlers (rpc ex_exited) = [10].
Proof. split; by vm_compute. Qed.

Lemma main_exits_clean_witness :
  phase ex_exited = MExited /\ joined (raft ex_exited) /\ ioThreads_ (http ex_exited) = [].
Proof.
  destruct (main_exits_clean ex_serve ex_node_config [] (fun _ => 0) 0 (mkRpcSyscalls 3 true true) (mkSyscalls 4 true true [5]) OrcMetrics_new
    ex_process ex_shutdown ex_exited ex_boot_ok ex_shutdown_run ex_exited_phase) as (Hj & _ & _ & Hi & _).
  split; [exact ex_exited_phase|]. split; [exact Hj|exact Hi].
Defined.
End MainExamples.
